(* ===== verification/_CoqProject ===== *)
-Q . S2P
Prelude.v
Errors.v
Go.v
Bytes.v
GoStrings.v
Float.v
Duration.v
Config.v
ConfigTheorems.v
Os.v
OsFaults.v
Proto.v
Wal.v
WalFormat.v
WalProofs.v
WalCrash.v
WalSpec.v
WalTheorems.v
DiskQueue.v
DiskQueueProofs.v
DiskQueueRestart.v
DiskQueueTheorems.v
Buffer.v
Hybrid.v
HybridTheorems.v
Redis.v
RedisTheorems.v
AnyBuffer.v
Tenant.v
TenantTheorems.v
Metrics.v
Prometheus.v
Service.v
I18n.v
Response.v
Sinks.v
Worker.v
WorkerTheorems.v
WorkerGuard.v
WorkerDrain.v
Drain.v
SinksTheorems.v
Delivery.v
Interleaving.v
Dlq.v
SinkDelivery.v
Server.v
ServerTheorems.v
ServerTypes.v
DlqTheorems.v
DlqLimits.v
App.v
Application.v
ApplicationTheorems.v
DeliveryTheorems.v
Gateway.v
DeliveryLimits.v
Contracts.v
Leftovers.v
EndToEnd.v
