(* ===== verification/Prelude.v ===== *)
(** * Verification of ingestor, an event ingestion gateway

    Events come in over HTTP or gRPC (internal/server), are checked against their tenant's
    quota (internal/tenant), appended to a write-ahead log (internal/wal) and put into a
    buffer (internal/buffer: a channel, a channel that overflows to a file, or a Redis list).
    Workers (internal/worker) take them out in batches, write each batch to every sink
    (internal/sinks) with retries, send what a sink refuses to a dead letter queue
    (internal/dlq), and acknowledge in the log what every sink took. cmd/ingestor builds, starts,
    replays and shuts all of this down under a validated configuration (configs).

    ** The execution model

    Go.v: a call is a function from a state to an outcome and a state ([M S A]); an outcome is a
    value, an error, a panic, the death of the process, or [NoFuel]. State survives every
    outcome. Errors.v has Go's error values with errors.Is, As and Join, and internal/apperr.
    Os.v is the part of package os that the program calls: files with a synced prefix, a fault
    schedule that may cut short, fail or kill any call, and power loss; OsFaults.v has what each
    call can leave behind. Bytes.v, GoStrings.v, Float.v and Duration.v are the parts of
    encoding/binary, strings, strconv, float64 and time.ParseDuration that are used. Integers are
    [Z] with the wrap-around written out where the program can reach it (uint64 sequence numbers,
    uint32 lengths, int64 counters and offsets, durations).

    Code outside the repository is a parameter with one member for each call the program
    makes: the protobuf runtime ([Codec]), JSON ([Json], [EventJson], [EntryJson], [IngestJson]),
    the HTTP client, the Kafka writer, gobreaker, the Redis client, the Prometheus client,
    viper, and the network servers ([NetServers]). What a theorem needs of them is a class of
    laws next to the parameter, and each law class has a concrete instance that the witnesses
    evaluate.

    ** The parts

    - internal/wal: Wal.v ([SeqTracker], [NoOpWAL], [FileWAL]: file_wal.go function by function).
      WalFormat.v and WalProofs.v: the record format and the state of a log on disk; WalCrash.v:
      faults and restarts; WalSpec.v: the contract [DurableLog] of a log and its restarts, and
      the abstract log; WalTheorems.v: the file log keeps the contract and refines the abstract
      log, appends are atomic and durable, Checkpoint loses nothing, the read loops end; and
      the states in which events are lost, a torn acknowledgement among them.
    - internal/buffer: Buffer.v ([ChannelBuffer], [HybridBuffer]), DiskQueue.v (disk_queue.go),
      Redis.v, AnyBuffer.v (buffer.New and calls through the interface). DiskQueueProofs.v,
      DiskQueueRestart.v and DiskQueueTheorems.v: the overflow file is a FIFO queue, across
      faults and restarts, and where it is not. Hybrid.v and HybridTheorems.v: the goroutines of
      the hybrid buffer as interleaved steps, conservation and order of events, the shutdown
      drain. RedisTheorems.v: the same for the Redis buffer and its poller.
    - internal/tenant: Tenant.v, over any arithmetic for float64; TenantTheorems.v: the rate
      bound and the admission of paced calls over exact rationals, isolation over any.
    - internal/metrics: Metrics.v (the interface and mock.go), Prometheus.v (prometheus.go and the
      agreement of the two recorders).
    - internal/ingestor: Service.v, against the interfaces of the log, buffer and recorder.
    - internal/sinks: Sinks.v; SinksTheorems.v: what an HTTP sink is sent, behind its breaker and
      the worker's retries; SinkDelivery.v: a Kafka sink writes whole batches, and what the
      configured sinks write where Kafka and the receivers keep what they acknowledge ([Keeps]).
    - internal/worker: Worker.v; WorkerTheorems.v: batching and retries; WorkerGuard.v: routing of
      a batch, restarts after panics; WorkerDrain.v: a worker that stops has disposed of all it
      received; Drain.v: all workers on the closed channel empty it and return.
    - internal/dlq: Dlq.v, with the queue behind its interface ([AnyDLQ]); DlqTheorems.v: what is
      drained is what was pushed; what a replay loses; DlqLimits.v: an entry too long to drain.
    - internal/i18n and internal/response: I18n.v, Response.v. internal/server: Server.v (every
      handler and the gRPC method). ServerTheorems.v: which requests are accepted, HTTP and gRPC
      agree, the admin token, the account of a replay; ServerTypes.v: the type of every answer.
    - configs: Config.v (data, defaults, every check, Load); ConfigTheorems.v: Validate returns nil
      exactly for the well-formed configurations.
    - The pipeline: Delivery.v has the contracts of a buffer and of the sinks, and what Push does
      under them; Interleaving.v has requests, workers and crashes as one transition system, one
      call on a shared part at a time, over the contracts of the parts, and its invariant.
      DeliveryTheorems.v: at-least-once delivery of every accepted event, the outcomes of Push,
      replay; Gateway.v: the handlers too in parts, requests in flight, and that what a client was
      told stays true; DeliveryLimits.v: where the guarantee ends.
    - cmd/ingestor: App.v (replayWAL, initWAL) and Application.v (setup, run, shutdown, main);
      ApplicationTheorems.v: set-up of a valid configuration fails only in opening something,
      and shutdown closes everything whatever fails on the way. Contracts.v: every log and
      buffer behind its interface value keeps the contract of Delivery.v (a round of the Redis
      poller is one step there, RedisTheorems.v has its steps); Leftovers.v: what earlier lives leave
      to the constructors. EndToEnd.v: the parts that set-up builds keep the contracts of the
      pipeline, so the application delivers at least once, across its replay and every later
      life.

    Each class that states what one part promises another ([DurableLog], [FifoLaws],
    [BufferLaws], [SinkLaws], [Keeps], [RedisLaws], [PromLaws]) is used by the client's theorems and
    discharged by the implementation's.

    ** Concurrency

    A method that holds its mutex throughout is one step. Where goroutines interleave inside the
    program's functions, the steps are written out: Hybrid.v (Push, pump, consumers, Close),
    Redis.v (clients, poller, consumers, Close), Interleaving.v (the calls of Push and flush,
    receive, a run of the pump, crash; [Push_complete] and [flush_complete] relate them to the
    whole functions), Drain.v (the workers' rounds at shutdown). The selects of a worker between its timer and its
    context are decided by lists in the worker's world, and theorems hold for all lists. A handler
    is its checks, the calls of Push, and its answer, each a step in Gateway.v and in one go elsewhere
    ([handlers_are_three_parts] relates the two); [run] and [shutdown] take what other goroutines do meanwhile as an argument.

    ** Fuel

    Loops that are not structural carry fuel, and it is enough: the read loops of the log have
    one unit for each byte of the file and one more, and every round reads a byte
    ([FileWAL_reads_terminate]); the scan of the overflow file has one for each byte between its
    offsets and advances by at least four ([scan_loop_ends]); the pump and the drain have one for
    each free place of the channel and one more, and every round but the last fills a
    place; text loops have the length of the text. A worker's loop is over the list of the
    signals it receives, its retries and restarts over their constants.

    ** Not modelled

    Log lines; /metrics and the encoding of JSON; the generated protobuf code (its message type
    is in Proto.v); TCP, TLS and HTTP framing; signal handling, automaxprocs and GOMAXPROCS; the
    wall clock, of which every reading is an argument; sizes of memory (a channel of any
    non-negative capacity can be made). gobreaker's state machine is its own; the program's
    settings for it are modelled. *)
From stdpp Require Import base list strings gmap.
From Stdlib Require Import ZArith Lia.

(** The newline byte as a one-character string. *)
Definition nl : string := String (Ascii.ascii_of_nat 10) EmptyString.

Section list_facts.
Context {A : Type}.

Lemma Forall_filter (P Q : A -> Prop) `{!forall x, Decision (Q x)} (l : list A) :
  Forall P l -> Forall P (filter Q l).
Proof. rewrite !Forall_forall. intros HP x [_ Hx]%list_elem_of_filter. auto. Qed.

Lemma NoDup_fmap_filter {B} (f : A -> B) (Q : A -> Prop) `{!forall x, Decision (Q x)}
    (l : list A) :
  NoDup (f <$> l) -> NoDup (f <$> filter Q l).
Proof.
  intros Hnd. eapply sublist_NoDup; [exact Hnd|].
  induction l as [|x l IH]; [done|]. rewrite filter_cons. rewrite fmap_cons in *.
  apply NoDup_cons in Hnd as [_ Hnd]. case_decide; [by apply sublist_skip, IH|by apply sublist_cons, IH].
Qed.
End list_facts.
