(* ===== verification/Errors.v ===== *)
(** Go error values and the error classification of internal/apperr.

    [error] is the closed universe of the error values the program builds:
    sentinels compared by identity, [errors.New]/[fmt.Errorf] values,
    [fmt.Errorf("...%w")] wrappers, [errors.Join] and [*apperr.SinkError].
    [errors_Is] and [errors_As_SinkError] are the chain walks of the standard
    package errors (pre-order, depth first). *)
From stdpp Require Import base list strings.
From S2P Require Import Prelude.

(** internal/apperr/error.go: [ErrorClass] and its two constants. *)
Inductive ErrorClass := Transient | Permanent.

#[export] Instance ErrorClass_eq_dec : EqDecision ErrorClass.
Proof. solve_decision. Defined.

(** The values of Go's interface type [error] that occur in the program.
    [ErrSink] is [*apperr.SinkError] with its three fields. *)
Inductive error :=
  | ErrSentinel (id msg : string)
  | ErrNew (msg : string)
  | ErrWrap (pre : string) (cause : error)
  | ErrJoin (errs : list error)
  | ErrSink (Class : ErrorClass) (SinkName : string) (Cause : error).

(** The [Error()] method of each value. *)
Fixpoint error_string (e : error) : string :=
  match e with
  | ErrSentinel _ m | ErrNew m => m
  | ErrWrap p e' => p +:+ error_string e'
  | ErrJoin es =>
      (fix go (l : list error) : string :=
         match l with
         | [] => ""
         | [x] => error_string x
         | x :: l' => error_string x +:+ nl +:+ go l'
         end) es
  | ErrSink _ _ e' => error_string e'
  end.

(** [errors.Is(err, target)] for a sentinel target, by identity. *)
Fixpoint errors_Is (e : error) (target : string) : bool :=
  match e with
  | ErrSentinel i _ => bool_decide (i = target)
  | ErrNew _ => false
  | ErrWrap _ e' => errors_Is e' target
  | ErrJoin es => existsb (fun x => errors_Is x target) es
  | ErrSink _ _ e' => errors_Is e' target
  end.

(** [errors.As(err, &se)] for [se *SinkError]: the first one of the chain. *)
Fixpoint errors_As_SinkError (e : error) : option (ErrorClass * string * error) :=
  match e with
  | ErrSentinel _ _ | ErrNew _ => None
  | ErrWrap _ e' => errors_As_SinkError e'
  | ErrJoin es =>
      (fix go (l : list error) :=
         match l with
         | [] => None
         | x :: l' =>
             match errors_As_SinkError x with
             | Some se => Some se
             | None => go l'
             end
         end) es
  | ErrSink c n e' => Some (c, n, e')
  end.

(** [errors.Join]: nil results are dropped, all nil gives nil. *)
Definition errors_Join (es : list (option error)) : option error :=
  match omap id es with
  | [] => None
  | l => Some (ErrJoin l)
  end.

(** Sentinels of the standard library that the program compares against. *)
Definition io_EOF := ErrSentinel "io.EOF" "EOF".
Definition io_ErrUnexpectedEOF := ErrSentinel "io.ErrUnexpectedEOF" "unexpected EOF".
Definition os_ErrNotExist := ErrSentinel "os.ErrNotExist" "file does not exist".
Definition os_ErrClosed := ErrSentinel "os.ErrClosed" "file already closed".
Definition os_ErrInvalid := ErrSentinel "os.ErrInvalid" "invalid argument".
Definition os_EIO := ErrNew "input/output error".
Definition os_NegativeOffset := ErrNew "negative offset".
Definition context_Canceled := ErrSentinel "context.Canceled" "context canceled".
Definition context_DeadlineExceeded :=
  ErrSentinel "context.DeadlineExceeded" "context deadline exceeded".

Module AppErr.

Definition NewTransient (sinkName : string) (cause : error) : error :=
  ErrSink Transient sinkName cause.

Definition NewPermanent (sinkName : string) (cause : error) : error :=
  ErrSink Permanent sinkName cause.

(** The argument is the Go interface value: [None] is nil. *)
Definition IsTransient (err : option error) : bool :=
  match err with
  | None => true
  | Some e =>
      match errors_As_SinkError e with
      | Some (c, _, _) => bool_decide (c = Transient)
      | None => true
      end
  end.

Definition IsPermanent (err : option error) : bool := negb (IsTransient err).

(** internal/apperr/codes.go *)
Definition ClassifyHTTPStatus (status : Z) : ErrorClass :=
  if bool_decide (status = 429)%Z then Transient
  else if bool_decide (400 <= status /\ status < 500)%Z then Permanent
  else Transient.

(** An error with no [SinkError] in its chain is retried. *)
Lemma IsPermanent_spec e :
  IsPermanent (Some e) = true <->
  exists n c, errors_As_SinkError e = Some (Permanent, n, c).
Proof.
  unfold IsPermanent, IsTransient.
  destruct (errors_As_SinkError e) as [[[[] n] c]|]; simpl; naive_solver.
Qed.

Lemma IsTransient_wrap p e : IsTransient (Some (ErrWrap p e)) = IsTransient (Some e).
Proof. reflexivity. Qed.

(** [errors.As] finds the outermost [SinkError]: [pre] counts the
    [fmt.Errorf("%w")] layers around it. *)
Lemma As_through_wraps (pre : list string) c n e :
  errors_As_SinkError (foldr ErrWrap (ErrSink c n e) pre) = Some (c, n, e).
Proof. by induction pre. Qed.

Lemma Is_through_wraps (pre : list string) i m :
  errors_Is (foldr ErrWrap (ErrSentinel i m) pre) i = true.
Proof. induction pre; simpl; [by case_bool_decide | done]. Qed.

End AppErr.
