(* ===== verification/Go.v ===== *)
(** The Go execution model: outcomes, a state monad over them, and the error
    plumbing ([if err != nil { return fmt.Errorf("...: %w", err) }]) that the
    program's functions share. *)
From stdpp Require Import base list strings.
From S2P Require Import Prelude Errors.

(** How a call ends. [Ret] and [Fail] are the two ways a Go function with an
    [error] result returns; [Panic] unwinds the goroutine; [Crash] is the death
    of the process (or of the machine) in the middle of the call; [NoFuel]
    is the model's own bound on a loop, shown unreachable where it is used. *)
Inductive out (A : Type) :=
  | Ret (a : A)
  | Fail (e : error)
  | Panic (msg : string)
  | Crash
  | NoFuel.
Arguments Ret {A} _.
Arguments Fail {A} _.
Arguments Panic {A} _.
Arguments Crash {A}.
Arguments NoFuel {A}.

(** Computations on a state [S]. The state survives every outcome: what a
    failing function did before it failed stays done. *)
Definition M (S A : Type) : Type := S -> out A * S.

Section monad.
Context {S : Type}.

Definition ret {A} (a : A) : M S A := fun s => (Ret a, s).
Definition fail {A} (e : error) : M S A := fun s => (Fail e, s).
Definition panic {A} (m : string) : M S A := fun s => (Panic m, s).

Definition bind {A B} (m : M S A) (k : A -> M S B) : M S B := fun s =>
  match m s with
  | (Ret a, s') => k a s'
  | (Fail e, s') => (Fail e, s')
  | (Panic p, s') => (Panic p, s')
  | (Crash, s') => (Crash, s')
  | (NoFuel, s') => (NoFuel, s')
  end.

(** The two results of a call as a value: [v, err := f()]. *)
Definition try {A} (m : M S A) : M S (error + A) := fun s =>
  match m s with
  | (Ret a, s') => (Ret (inr a), s')
  | (Fail e, s') => (Ret (inl e), s')
  | (Panic p, s') => (Panic p, s')
  | (Crash, s') => (Crash, s')
  | (NoFuel, s') => (NoFuel, s')
  end.

(** [_ = f()]: the error is dropped. *)
Definition ignore {A} (m : M S A) : M S unit := bind (try m) (fun _ => ret tt).

(** [if err := f(); err != nil { return fmt.Errorf("<pre>%w", err) }]. *)
Definition wrapping {A} (pre : string) (m : M S A) : M S A := fun s =>
  match m s with
  | (Fail e, s') => (Fail (ErrWrap pre e), s')
  | r => r
  end.

Definition gets {A} (f : S -> A) : M S A := fun s => (Ret (f s), s).
Definition modify (f : S -> S) : M S unit := fun s => (Ret tt, f s).

(** A pure result computed by a loop. *)
Definition of_out {A} (o : out A) : M S A := fun s => (o, s).
End monad.

Declare Scope go_scope.
Delimit Scope go_scope with go.
Notation "x <- c ;; k" := (bind c (fun x => k))
  (at level 100, c at next level, right associativity) : go_scope.
Notation "c ;; k" := (bind c (fun _ => k))
  (at level 100, right associativity) : go_scope.
Open Scope go_scope.

(** An operation on one half of a paired state. *)
Definition on_fst {S T A} (m : M S A) : M (S * T) A := fun st =>
  let '(s, t) := st in let '(r, s') := m s in (r, (s', t)).
Definition on_snd {S T A} (m : M T A) : M (S * T) A := fun st =>
  let '(s, t) := st in let '(r, t') := m t in (r, (s, t')).

(** A call on a local value [s] that is returned with its final contents. *)
Definition run_local {S T A} (s : S) (m : M (S * T) A) : M T (A * S) := fun t =>
  match m (s, t) with
  | (Ret a, (s', t')) => (Ret (a, s'), t')
  | (Fail e, (_, t')) => (Fail e, t')
  | (Panic p, (_, t')) => (Panic p, t')
  | (Crash, (_, t')) => (Crash, t')
  | (NoFuel, (_, t')) => (NoFuel, t')
  end.

(** A loop over a slice whose body may stop it. *)
Fixpoint for_each {S A} (f : A -> M S unit) (l : list A) : M S unit :=
  match l with
  | [] => ret tt
  | x :: l' => f x ;; for_each f l'
  end.

Section monad_lemmas.
Context {S : Type}.

Lemma bind_run_Ret {A B} (m : M S A) (k : A -> M S B) s a s' :
  m s = (Ret a, s') -> bind m k s = k a s'.
Proof. unfold bind. by intros ->. Qed.

Lemma bind_run_Fail {A B} (m : M S A) (k : A -> M S B) s e s' :
  m s = (Fail e, s') -> bind m k s = (Fail e, s').
Proof. unfold bind. by intros ->. Qed.

Lemma bind_run_Crash {A B} (m : M S A) (k : A -> M S B) s s' :
  m s = (Crash, s') -> bind m k s = (Crash, s').
Proof. unfold bind. by intros ->. Qed.

Lemma wrapping_run_Ret {A} pre (m : M S A) s a s' :
  m s = (Ret a, s') -> wrapping pre m s = (Ret a, s').
Proof. unfold wrapping. by intros ->. Qed.

Lemma try_run_Ret {A} (m : M S A) s a s' :
  m s = (Ret a, s') -> try m s = (Ret (inr a), s').
Proof. unfold try. by intros ->. Qed.

Lemma ignore_run_Ret {A} (m : M S A) s a s' :
  m s = (Ret a, s') -> ignore m s = (Ret tt, s').
Proof. unfold ignore. intros H. by rewrite (bind_run_Ret _ _ _ _ _ (try_run_Ret _ _ _ _ H)). Qed.
End monad_lemmas.

(** ** Reasoning about a call through its pre- and postcondition

    [hoare P m Q E]: from a state in [P], [m] either returns a value with [Q],
    or ends in another way in a state with [E]. *)
Definition hoare {S A} (P : S -> Prop) (m : M S A) (Q : A -> S -> Prop) (E : S -> Prop) : Prop :=
  forall s, P s ->
    match m s with
    | (Ret a, s') => Q a s'
    | (_, s') => E s'
    end.

Section hoare_rules.
Context {S : Type}.
Implicit Types P E : S -> Prop.

Lemma hoare_bind {A B} P (m : M S A) (k : A -> M S B) Q R E :
  hoare P m Q E -> (forall a, hoare (Q a) (k a) R E) -> hoare P (bind m k) R E.
Proof.
  intros Hm Hk s Hs. specialize (Hm s Hs). unfold bind.
  destruct (m s) as [[] s']; try exact Hm. by apply Hk.
Qed.

Lemma hoare_try {A} P (m : M S A) Q E :
  hoare P m Q E ->
  hoare P (try m) (fun r s => match r with inr a => Q a s | inl _ => E s end) E.
Proof.
  intros Hm s Hs. specialize (Hm s Hs). unfold try. by destruct (m s) as [[] s'].
Qed.

Lemma hoare_ignore {A} P (m : M S A) (Q : S -> Prop) E :
  hoare P m (fun _ => Q) E -> (forall s, E s -> Q s) -> hoare P (ignore m) (fun _ => Q) E.
Proof.
  intros Hm HE s Hs. specialize (Hm s Hs). unfold ignore, try, bind.
  destruct (m s) as [[] s']; simpl; auto.
Qed.

Lemma hoare_wrapping {A} P pre (m : M S A) Q E :
  hoare P m Q E -> hoare P (wrapping pre m) Q E.
Proof.
  intros Hm s Hs. specialize (Hm s Hs). unfold wrapping. by destruct (m s) as [[] s'].
Qed.

Lemma hoare_ret {A} P (a : A) E : hoare P (ret a) (fun x s => x = a /\ P s) E.
Proof. by intros s Hs. Qed.

Lemma hoare_fail {A} P e Q : hoare P (fail e : M S A) Q P.
Proof. by intros s Hs. Qed.

Lemma hoare_modify (P P' : S -> Prop) f E :
  (forall s, P s -> P' (f s)) -> hoare P (modify f) (fun _ => P') E.
Proof. intros H s Hs. simpl. auto. Qed.

Lemma hoare_gets {A} P (f : S -> A) E : hoare P (gets f) (fun a s => a = f s /\ P s) E.
Proof. by intros s Hs. Qed.

Lemma hoare_of_out {A} P (o : out A) E :
  (forall s, P s -> E s) -> hoare P (of_out o) (fun a s => o = Ret a /\ P s) E.
Proof. intros HE s Hs. simpl. destruct o; auto. Qed.

Lemma hoare_conseq {A} P P' (m : M S A) Q Q' E E' :
  hoare P' m Q' E' -> (forall s, P s -> P' s) -> (forall a s, Q' a s -> Q a s) ->
  (forall s, E' s -> E s) -> hoare P m Q E.
Proof.
  intros Hm HP HQ HE s Hs. specialize (Hm s (HP s Hs)). destruct (m s) as [[] s']; auto.
Qed.

Lemma hoare_pure {A} (b : Prop) P (m : M S A) Q E :
  (b -> hoare P m Q E) -> hoare (fun s => b /\ P s) m Q E.
Proof. intros H s [Hb Hs]. by apply H. Qed.
End hoare_rules.

(** ** Calls that neither panic nor run out of the model's fuel *)

Definition orderly {A} (o : out A) : Prop :=
  match o with Panic _ | NoFuel => False | _ => True end.

Definition ends {S A} (m : M S A) : Prop := forall s, orderly (fst (m s)).

Create HintDb go_ends.

Section ends_rules.
Context {S : Type}.

Lemma ends_bind {A B} (m : M S A) (k : A -> M S B) :
  ends m -> (forall a, ends (k a)) -> ends (bind m k).
Proof.
  intros Hm Hk s. specialize (Hm s). unfold bind.
  destruct (m s) as [[] s']; simpl in *; try done. apply Hk.
Qed.

Lemma ends_try {A} (m : M S A) : ends m -> ends (try m).
Proof. intros Hm s. specialize (Hm s). unfold try. by destruct (m s) as [[] s']. Qed.

Lemma ends_wrapping {A} pre (m : M S A) : ends m -> ends (wrapping pre m).
Proof. intros Hm s. specialize (Hm s). unfold wrapping. by destruct (m s) as [[] s']. Qed.

Lemma ends_ret {A} (a : A) : ends (ret a : M S A).
Proof. by intros s. Qed.

Lemma ends_fail {A} e : ends (fail e : M S A).
Proof. by intros s. Qed.

Lemma ends_gets {A} (f : S -> A) : ends (gets f).
Proof. by intros s. Qed.

Lemma ends_modify (f : S -> S) : ends (modify f).
Proof. by intros s. Qed.

Lemma ends_of_out {A} (o : out A) : orderly o -> ends (of_out o : M S A).
Proof. by intros Ho s. Qed.

Lemma ends_ignore {A} (m : M S A) : ends m -> ends (ignore m).
Proof. intros Hm. apply ends_bind; [by apply ends_try|]. intros a. apply ends_ret. Qed.

Lemma ends_for_each {A} (f : A -> M S unit) (l : list A) :
  (forall x, ends (f x)) -> ends (for_each f l).
Proof. intros Hf. induction l; [apply ends_ret|by apply ends_bind]. Qed.
End ends_rules.

Lemma ends_on_fst {S T A} (m : M S A) : ends m -> ends (on_fst (T := T) m).
Proof. intros Hm [s t]. specialize (Hm s). simpl. by destruct (m s). Qed.

Lemma ends_on_snd {S T A} (m : M T A) : ends m -> ends (on_snd (S := S) m).
Proof. intros Hm [s t]. specialize (Hm t). simpl. by destruct (m t). Qed.

Lemma ends_run_local {S T A} (s : S) (m : M (S * T) A) : ends m -> ends (run_local s m).
Proof.
  intros Hm t. specialize (Hm (s, t)). unfold run_local. by destruct (m (s, t)) as [[] [s' t']].
Qed.

#[export] Hint Resolve ends_bind ends_try ends_wrapping ends_ret ends_fail ends_gets ends_modify
  ends_ignore ends_for_each ends_on_fst ends_on_snd ends_run_local : go_ends.

Lemma on_snd_run {S T A} (m : M T A) (s : S) (t : T) r t' :
  m t = (r, t') -> on_snd m (s, t) = (r, (s, t')).
Proof. simpl. by intros ->. Qed.

(** [go_step H]: runs the first call of the program in the goal, whose result
    the equation [H] gives. *)
Ltac go_step H :=
  first
    [ rewrite (bind_run_Ret _ _ _ _ _ H)
    | rewrite (bind_run_Ret _ _ _ _ _ (wrapping_run_Ret _ _ _ _ _ H))
    | rewrite (bind_run_Ret _ _ _ _ _ (try_run_Ret _ _ _ _ H))
    | rewrite (bind_run_Ret _ _ _ _ _ (ignore_run_Ret _ _ _ _ H)) ].

(** ** The results of a call, error by error
    [result m s Q E]: from [s], [m] returns a value with [Q], fails with an error in [E], or
    the process dies in it; it neither panics nor runs out of fuel. *)
Definition result {S A} (m : M S A) (s : S) (Q : A -> S -> Prop) (E : error -> Prop) : Prop :=
  match m s with
  | (Ret a, s') => Q a s'
  | (Fail e, _) => E e
  | (Crash, _) => True
  | (Panic _, _) | (NoFuel, _) => False
  end.

Section result_rules.
Context {S : Type}.

Lemma result_bind {A B} (m : M S A) (k : A -> M S B) s Q R E :
  result m s Q E -> (forall a s', Q a s' -> result (k a) s' R E) -> result (bind m k) s R E.
Proof.
  unfold result, bind. intros Hm Hk. destruct (m s) as [[] s']; try done. by apply Hk.
Qed.

Lemma result_wrapping {A} pre (m : M S A) s Q (E : error -> Prop) :
  result m s Q (fun e => E (ErrWrap pre e)) -> result (wrapping pre m) s Q E.
Proof. unfold result, wrapping. by destruct (m s) as [[] s']. Qed.

Lemma result_ends {A} (m : M S A) s (E : error -> Prop) :
  ends m -> (forall e, E e) -> result m s (fun _ _ => True) E.
Proof. intros Hm HE. specialize (Hm s). unfold result. by destruct (m s) as [[] s']. Qed.

Lemma result_gets {A} (f : S -> A) s E : result (gets f) s (fun a s' => a = f s /\ s' = s) E.
Proof. done. Qed.

Lemma result_conseq {A} (m : M S A) s (Q Q' : A -> S -> Prop) (E E' : error -> Prop) :
  result m s Q' E' -> (forall a s', Q' a s' -> Q a s') -> (forall e, E' e -> E e) -> result m s Q E.
Proof. unfold result. intros Hm HQ HE. destruct (m s) as [[] s']; auto. Qed.

(** A call whose result is known. *)
Lemma result_step {A B} (m : M S A) (k : A -> M S B) s a s' Q E :
  m s = (Ret a, s') -> result (k a) s' Q E -> result (bind m k) s Q E.
Proof. unfold result, bind. by intros ->. Qed.

Lemma result_error {A} (m : M S A) s (Q : A -> S -> Prop) (E E' : error -> Prop) :
  result m s Q E' -> (forall e, E' e -> E e) -> result m s Q E.
Proof. intros Hm HE. by eapply result_conseq. Qed.
End result_rules.
