(* ===== verification/Bytes.v ===== *)
(** encoding/binary: big-endian integers as the program writes and reads them.

    [put_be] and [be_uint] translate [binary.BigEndian.PutUint32/64] and
    [binary.BigEndian.Uint32/64]; the round trips are derived from coqutil's
    little-endian lists. *)
From coqutil Require Import Byte Word.LittleEndianList.
From stdpp Require Import base list.
From Stdlib Require Import ZArith Lia.
From S2P Require Import Prelude.

Local Open Scope Z_scope.

Abbreviation byte := Init.Byte.byte.

(** [b[0] = byte(v >> 8*(n-1)); ...; b[n-1] = byte(v)]. *)
Definition put_be (n : nat) (v : Z) : list byte := rev (LittleEndianList.le_split n v).

(** [uint(b[n-1]) | uint(b[n-2])<<8 | ...]. *)
Definition be_uint (b : list byte) : Z := LittleEndianList.le_combine (rev b).

Definition put_uint64 (v : Z) : list byte := put_be 8 v.
Definition put_uint32 (v : Z) : list byte := put_be 4 v.

(** [uint32(x)] and [uint64(x)]. *)
Definition uint32 (x : Z) : Z := x mod 2 ^ 32.
Definition uint64 (x : Z) : Z := x mod 2 ^ 64.

Lemma length_put_be n v : length (put_be n v) = n.
Proof. unfold put_be. by rewrite length_rev, LittleEndianList.length_le_split. Qed.

Lemma length_put_uint64 v : length (put_uint64 v) = 8%nat.
Proof. apply length_put_be. Qed.

Lemma length_put_uint32 v : length (put_uint32 v) = 4%nat.
Proof. apply length_put_be. Qed.

Lemma be_uint_put_be n v : be_uint (put_be n v) = v mod 2 ^ (8 * Z.of_nat n).
Proof.
  unfold be_uint, put_be. rewrite rev_involutive, LittleEndianList.le_combine_split.
  f_equal. f_equal. lia.
Qed.

Lemma be_uint_put_uint64 v : 0 <= v < 2 ^ 64 -> be_uint (put_uint64 v) = v.
Proof. intros. unfold put_uint64. rewrite be_uint_put_be. by apply Z.mod_small. Qed.

Lemma be_uint_put_uint32 v : 0 <= v < 2 ^ 32 -> be_uint (put_uint32 v) = v.
Proof. intros. unfold put_uint32. rewrite be_uint_put_be. by apply Z.mod_small. Qed.

Lemma be_uint_bound b : 0 <= be_uint b < 2 ^ (8 * Z.of_nat (length b)).
Proof.
  unfold be_uint. rewrite <- (length_rev b). apply LittleEndianList.le_combine_bound.
Qed.

Lemma put_be_be_uint b : put_be (length b) (be_uint b) = b.
Proof.
  unfold put_be, be_uint. rewrite <- (length_rev b).
  by rewrite LittleEndianList.split_le_combine, rev_involutive.
Qed.

(** A number below 2^56 begins with a zero byte; 256 times it ends with one instead. *)
Lemma put_uint64_high v : 0 <= v < 2 ^ 56 -> put_uint64 v = Byte.x00 :: put_be 7 v.
Proof.
  intros Hv. unfold put_uint64, put_be. change (Byte.x00 :: ?l) with ([Byte.x00] ++ l).
  rewrite <- (rev_involutive ([Byte.x00] ++ _)), rev_app_distr, rev_involutive. f_equal.
  apply LittleEndianList.le_combine_inj.
  { rewrite length_app, !LittleEndianList.length_le_split. done. }
  cbn [rev app]. rewrite LittleEndianList.le_combine_snoc_0, !LittleEndianList.le_combine_split.
  rewrite !Z.mod_small; lia.
Qed.

Lemma put_uint64_low v : 0 <= v < 2 ^ 56 -> put_uint64 (256 * v) = put_be 7 v ++ [Byte.x00].
Proof.
  intros Hv. unfold put_uint64, put_be.
  change (rev (LittleEndianList.le_split 7 v) ++ [Byte.x00]) with (rev (Byte.x00 :: LittleEndianList.le_split 7 v)).
  f_equal. apply LittleEndianList.le_combine_inj.
  { cbn [length]. by rewrite !LittleEndianList.length_le_split. }
  change (LittleEndianList.le_combine (Byte.x00 :: ?l)) with (Z.shiftl (LittleEndianList.le_combine l) 8).
  rewrite !LittleEndianList.le_combine_split, Z.shiftl_mul_pow2 by lia.
  rewrite !Z.mod_small by lia. lia.
Qed.

(** Of a number below 256 all bytes but the last are zero. *)
Lemma take_put_uint64_small v : 0 <= v < 256 -> take 7 (put_uint64 v) = replicate 7 Byte.x00.
Proof.
  intros Hv. change (put_uint64 v) with (put_be 7 (Z.shiftr v 8) ++ [byte.of_Z v]).
  rewrite take_app_length' by (by rewrite length_put_be).
  replace (Z.shiftr v 8) with 0; [done|]. rewrite Z.shiftr_div_pow2 by lia. symmetry. apply Z.div_small. lia.
Qed.

Lemma uint32_id x : 0 <= x < 2 ^ 32 -> uint32 x = x.
Proof. apply Z.mod_small. Qed.

Lemma uint64_id x : 0 <= x < 2 ^ 64 -> uint64 x = x.
Proof. apply Z.mod_small. Qed.

Arguments put_be : simpl never.
Arguments put_uint64 : simpl never.
Arguments put_uint32 : simpl never.
Arguments be_uint : simpl never.
