(* ===== verification/GoStrings.v ===== *)
(** The functions of Go's packages strings and strconv that the program calls.

    Strings are byte strings, as in Go. [ParseInt] drops the difference between
    its two errors: every caller only asks whether there is one. *)
From Stdlib Require Import ZArith Lia Ascii String.
From stdpp Require Import base list strings.
From S2P Require Import Prelude Bytes.

Local Open Scope Z_scope.

Definition to_bytes (s : string) : list byte := String.list_byte_of_string s.
Definition of_bytes (b : list byte) : string := String.string_of_list_byte b.

Lemma of_to_bytes s : of_bytes (to_bytes s) = s.
Proof. apply String.string_of_list_byte_of_string. Qed.

(** ** strconv *)

Definition digit (d : Z) : ascii := Ascii.ascii_of_N (Z.to_N (48 + d)).

Fixpoint decimal (fuel : nat) (n : Z) : string :=
  match fuel with
  | O => ""
  | S fuel => (if n <? 10 then "" else decimal fuel (n / 10)) +:+ String (digit (n mod 10)) ""
  end.

(** As many digits as the number has bits are enough. *)
Definition decimal_fuel (n : Z) : nat := S (Z.to_nat (Z.log2 n)).

(** [strconv.FormatInt(n, 10)] *)
Definition FormatInt (n : Z) : string :=
  if n <? 0 then "-" +:+ decimal (decimal_fuel (- n)) (- n) else decimal (decimal_fuel n) n.

Definition digit_value (c : ascii) : option Z :=
  let v := Z.of_N (Ascii.N_of_ascii c) in
  if (48 <=? v) && (v <=? 57) then Some (v - 48) else None.

Fixpoint parse_digits (acc : Z) (s : string) : option Z :=
  match s with
  | EmptyString => Some acc
  | String c s =>
      match digit_value c with
      | Some d => parse_digits (10 * acc + d) s
      | None => None
      end
  end.

Definition int64_bound (n : Z) : option Z :=
  if (- 2 ^ 63 <=? n) && (n <? 2 ^ 63) then Some n else None.

(** [strconv.ParseInt(s, 10, 64)]: an optional sign, then at least one digit. *)
Definition ParseInt (s : string) : option Z :=
  let '(neg, body) :=
    match s with
    | String c s' =>
        if bool_decide (c = "-"%char) then (true, s')
        else if bool_decide (c = "+"%char) then (false, s') else (false, s)
    | EmptyString => (false, s)
    end in
  if bool_decide (body = "") then None
  else n ← parse_digits 0 body; int64_bound (if neg : bool then - n else n).

(** ** strings *)

(** The UTF-8 encodings of the code points that [unicode.IsSpace] accepts. *)
Definition unicode_spaces : list (list byte) :=
  map (fun n => Ascii.byte_of_ascii (Ascii.ascii_of_N (Z.to_N n))) <$>
    ([[9]; [10]; [11]; [12]; [13]; [32]; [194; 133]; [194; 160]; [225; 154; 128];
      [226; 128; 168]; [226; 128; 169]; [226; 128; 175]; [226; 129; 159]; [227; 128; 128]]
     ++ ((fun d => [226; 128; 128 + Z.of_nat d]) <$> seq 0 11)).

Fixpoint strip_prefix (p b : list byte) : option (list byte) :=
  match p, b with
  | [], _ => Some b
  | x :: p, y :: b => if Byte.eqb x y then strip_prefix p b else None
  | _ :: _, [] => None
  end.

(** The first of [ps] that [b] starts with is removed, again and again. *)
Fixpoint trim_left (fuel : nat) (ps : list (list byte)) (b : list byte) : list byte :=
  match fuel with
  | O => b
  | S fuel =>
      match omap (fun p => strip_prefix p b) ps with
      | [] => b
      | b' :: _ => trim_left fuel ps b'
      end
  end.

(** [strings.TrimSpace] *)
Definition TrimSpace (s : string) : string :=
  let b := to_bytes s in
  let l := trim_left (length b) unicode_spaces b in
  of_bytes (reverse (trim_left (length l) (reverse <$> unicode_spaces) (reverse l))).

(** [strings.Split(s, sep)] for a separator of one byte. *)
Fixpoint Split (s : string) (sep : ascii) : list string :=
  match s with
  | EmptyString => [""%string]
  | String c s =>
      if bool_decide (c = sep) then ""%string :: Split s sep
      else match Split s sep with
           | x :: l => String c x :: l
           | [] => [String c ""]
           end
  end.

(** [strings.Split(s, sep)[0]]: there is always a first field. *)
Definition Split0 (s : string) (sep : ascii) : string := default ""%string (hd_error (Split s sep)).

(** [strings.Join] *)
Fixpoint Join (l : list string) (sep : string) : string :=
  match l with
  | [] => ""
  | [s] => s
  | s :: l => s +:+ sep +:+ Join l sep
  end.

(** [strings.TrimPrefix] *)
Definition TrimPrefix (s pre : string) : string :=
  if String.prefix pre s then String.substring (String.length pre)
                                (String.length s - String.length pre) s
  else s.

(** [strings.ToLower] on the letters A-Z; other characters are kept. *)
Definition lower (c : ascii) : ascii :=
  let n := Ascii.N_of_ascii c in
  if ((65 <=? n) && (n <=? 90))%N then Ascii.ascii_of_N (n + 32) else c.

Fixpoint ToLower (s : string) : string :=
  match s with
  | EmptyString => ""
  | String c s => String (lower c) (ToLower s)
  end.

(** ** Facts *)

Lemma digit_digit_value d : 0 <= d < 10 -> digit_value (digit d) = Some d.
Proof.
  intros H. unfold digit_value, digit. rewrite Ascii.N_ascii_embedding by lia.
  rewrite Z2N.id by lia. replace ((48 <=? 48 + d) && (48 + d <=? 57)) with true by lia.
  f_equal. lia.
Qed.

Lemma parse_digits_app s t acc :
  parse_digits acc (s +:+ t) = a ← parse_digits acc s; parse_digits a t.
Proof.
  revert acc. induction s as [|c s IH]; intros acc; [done|]. simpl.
  destruct (digit_value c); [apply IH|done].
Qed.

Lemma parse_decimal fuel n :
  0 <= n < 2 ^ Z.of_nat fuel -> parse_digits 0 (decimal fuel n) = Some n.
Proof.
  revert n. induction fuel as [|fuel IH]; intros n Hn.
  - simpl in Hn. assert (n = 0) as -> by lia. done.
  - cbn [decimal]. rewrite parse_digits_app. rewrite Nat2Z.inj_succ, Z.pow_succ_r in Hn by lia.
    pose proof (Z.mod_pos_bound n 10 ltac:(lia)).
    assert ((if n <? 10 then "" else decimal fuel (n / 10)) = "" /\ n < 10 \/
            (if n <? 10 then ""%string else decimal fuel (n / 10)) = decimal fuel (n / 10)) as [[-> ?]| ->].
    { destruct (n <? 10) eqn:?; [left; split; [done|lia]|by right]. }
    + simpl. rewrite digit_digit_value by done. f_equal. rewrite Z.mod_small by lia. lia.
    + rewrite IH; [|pose proof (Z.div_mod n 10 ltac:(lia)); split; [apply Z.div_pos; lia|lia]].
      simpl. rewrite digit_digit_value by done. f_equal. symmetry. apply Z.div_mod. lia.
Qed.

Lemma parse_decimal_fuel n : 0 <= n -> parse_digits 0 (decimal (decimal_fuel n) n) = Some n.
Proof.
  intros Hn. apply parse_decimal. split; [done|]. unfold decimal_fuel.
  rewrite Nat2Z.inj_succ, Z2Nat.id by apply Z.log2_nonneg.
  destruct (decide (n = 0)) as [->|]; [done|]. apply Z.log2_spec. lia.
Qed.

Lemma decimal_first fuel n :
  0 <= n -> exists c s, decimal (S fuel) n = String c s /\ digit_value c <> None.
Proof.
  revert n. induction fuel as [|fuel IH]; intros n Hn; cbn [decimal].
  all: pose proof (Z.mod_pos_bound n 10 ltac:(lia)).
  - destruct (n <? 10); eexists _, _; (split; [reflexivity|]); by rewrite digit_digit_value.
  - destruct (n <? 10) eqn:Hlt.
    + eexists _, _; (split; [reflexivity|]); by rewrite digit_digit_value.
    + destruct (IH (n / 10)) as (c & s & Heq & Hc); [apply Z.div_pos; lia|].
      cbn [decimal] in Heq. rewrite Heq. by eexists _, _.
Qed.

Lemma ParseInt_minus s :
  ParseInt (String "-" s) =
    if bool_decide (s = "") then None else n ← parse_digits 0 s; int64_bound (- n).
Proof. reflexivity. Qed.

Lemma ParseInt_FormatInt n : - 2 ^ 63 <= n < 2 ^ 63 -> ParseInt (FormatInt n) = Some n.
Proof.
  intros Hn. assert (int64_bound n = Some n) as Hb.
  { unfold int64_bound. by replace ((- 2 ^ 63 <=? n) && (n <? 2 ^ 63)) with true by lia. }
  unfold FormatInt. destruct (n <? 0) eqn:Hneg.
  - change ("-" +:+ decimal (decimal_fuel (- n)) (- n))
      with (String "-" (decimal (decimal_fuel (- n)) (- n))). rewrite ParseInt_minus.
    destruct (decimal_first (Z.to_nat (Z.log2 (- n))) (- n)) as (c & s & Heq & _); [lia|].
    rewrite bool_decide_false by (unfold decimal_fuel; by rewrite Heq).
    rewrite parse_decimal_fuel by lia. cbn [mbind option_bind].
    by rewrite Z.opp_involutive.
  - destruct (decimal_first (Z.to_nat (Z.log2 n)) n) as (c & s & Heq & Hc); [lia|].
    pose proof (parse_decimal_fuel n ltac:(lia)) as Hp. unfold decimal_fuel in *.
    rewrite Heq in *. unfold ParseInt.
    rewrite !bool_decide_false by (intros ->; by apply Hc). rewrite bool_decide_false by done.
    rewrite Hp. exact Hb.
Qed.

(** ** A printed number has no white space to trim *)

Lemma trim_left_id fuel ps b0 b :
  Forall (fun p => exists x p', p = x :: p' /\ Byte.eqb x b0 = false) ps ->
  trim_left fuel ps (b0 :: b) = b0 :: b.
Proof.
  intros H. destruct fuel as [|fuel]; [done|]. cbn [trim_left].
  assert (omap (fun p => strip_prefix p (b0 :: b)) ps = []) as ->; [|done].
  induction H as [|p ps (x & p' & -> & Hx) _ IH]; [done|]. simpl. by rewrite Hx.
Qed.

(** The first bytes of a decimal number, and the last ones, are not white space. *)
Definition numeral_byte (c : ascii) : Prop :=
  c = "-"%char \/ exists d, 0 <= d < 10 /\ c = digit d.

Lemma numeral_cases c : numeral_byte c ->
  c ∈ (["-"; "0"; "1"; "2"; "3"; "4"; "5"; "6"; "7"; "8"; "9"]%char : list ascii).
Proof.
  intros [->|(d & Hd & ->)]; [left|].
  assert (d = 0 \/ d = 1 \/ d = 2 \/ d = 3 \/ d = 4 \/ d = 5 \/ d = 6 \/ d = 7 \/ d = 8 \/ d = 9)
    as Hc by lia.
  repeat (destruct Hc as [->|Hc]; [vm_compute; repeat constructor|]). subst.
  vm_compute; repeat constructor.
Qed.

Definition starts_apart (b0 : byte) (p : list byte) : bool :=
  match p with x :: _ => negb (Byte.eqb x b0) | [] => false end.

Lemma starts_apart_spec b0 ps :
  forallb (starts_apart b0) ps = true ->
  Forall (fun p => exists x p', p = x :: p' /\ Byte.eqb x b0 = false) ps.
Proof.
  induction ps as [|[|x p] ps IH]; simpl; [constructor|done|].
  intros [H1%negb_true_iff H2]%andb_true_iff. constructor; eauto.
Qed.

Lemma numeral_not_space ps c :
  (ps = unicode_spaces \/ ps = reverse <$> unicode_spaces) -> numeral_byte c ->
  Forall (fun p => exists x p', p = x :: p' /\ Byte.eqb x (Ascii.byte_of_ascii c) = false) ps.
Proof.
  intros Hps Hc%numeral_cases. apply starts_apart_spec. rewrite !elem_of_cons in Hc.
  destruct Hps as [->| ->]; repeat (destruct Hc as [->|Hc]; [vm_compute; reflexivity|]);
    by apply not_elem_of_nil in Hc.
Qed.

Lemma to_bytes_snoc s c : to_bytes (s +:+ String c "") = to_bytes s ++ [Ascii.byte_of_ascii c].
Proof.
  induction s as [|a s IH]; [done|].
  change (to_bytes (String a s +:+ String c "")) with
    (Ascii.byte_of_ascii a :: to_bytes (s +:+ String c "")).
  by rewrite IH.
Qed.

Lemma digit_mod_numeral n : numeral_byte (digit (n mod 10)).
Proof. right. exists (n mod 10). split; [apply Z.mod_pos_bound; lia|done]. Qed.

(** A number starts and ends with a numeral. *)
Lemma FormatInt_ends n :
  exists c s c' s', FormatInt n = String c s /\ FormatInt n = s' +:+ String c' "" /\
    numeral_byte c /\ numeral_byte c'.
Proof.
  assert (forall fuel m, 0 <= m ->
    exists c s, decimal (S fuel) m = String c s /\ numeral_byte c) as Hfirst.
  { intros fuel. induction fuel as [|fuel IH]; intros m Hm; cbn [decimal].
    - destruct (m <? 10); eexists _, _; (split; [reflexivity|apply digit_mod_numeral]).
    - destruct (m <? 10); [eexists _, _; (split; [reflexivity|apply digit_mod_numeral])|].
      destruct (IH (m / 10)) as (c & s & Heq & Hc); [apply Z.div_pos; lia|].
      cbn [decimal] in Heq. rewrite Heq. by eexists _, _. }
  unfold FormatInt, decimal_fuel. destruct (n <? 0) eqn:Hneg.
  - exists "-"%char, (decimal (S (Z.to_nat (Z.log2 (- n)))) (- n)). cbn [decimal].
    eexists _, (String "-" _). split_and!; [done|reflexivity|by left|apply digit_mod_numeral].
  - destruct (Hfirst (Z.to_nat (Z.log2 n)) n) as (c & s & Heq & Hc); [lia|].
    exists c, s. cbn [decimal] in *. eexists _, _.
    split_and!; [done|reflexivity|done|apply digit_mod_numeral].
Qed.

(** A text that neither starts nor ends with white space is left alone. *)
Lemma TrimSpace_id c s c' s' text :
  text = String c s -> text = s' +:+ String c' "" ->
  Forall (fun p => exists x p', p = x :: p' /\ Byte.eqb x (Ascii.byte_of_ascii c) = false) unicode_spaces ->
  Forall (fun p => exists x p', p = x :: p' /\ Byte.eqb x (Ascii.byte_of_ascii c') = false)
    (reverse <$> unicode_spaces) ->
  TrimSpace text = text.
Proof.
  intros H1 H2 Hc Hc'. unfold TrimSpace.
  assert (forall fuel, trim_left fuel unicode_spaces (to_bytes text) = to_bytes text) as Hl.
  { intros fuel. rewrite H1. by apply trim_left_id. }
  rewrite Hl, H2, to_bytes_snoc, reverse_snoc.
  rewrite trim_left_id by done.
  rewrite <- reverse_snoc, reverse_involutive, <- to_bytes_snoc. apply of_to_bytes.
Qed.

Lemma TrimSpace_FormatInt n : TrimSpace (FormatInt n) = FormatInt n.
Proof.
  destruct (FormatInt_ends n) as (c & s & c' & s' & H1 & H2 & Hc & Hc').
  eapply TrimSpace_id; [exact H1|exact H2|..]; (apply numeral_not_space; [|done]); [by left|by right].
Qed.

(** What [persistOffset] writes, [dqLoadOffset] reads. *)
Lemma load_FormatInt n : - 2 ^ 63 <= n < 2 ^ 63 ->
  ParseInt (TrimSpace (of_bytes (to_bytes (FormatInt n)))) = Some n.
Proof. intros. rewrite of_to_bytes, TrimSpace_FormatInt. by apply ParseInt_FormatInt. Qed.

(** ** Lines *)

Lemma of_bytes_app b1 b2 : of_bytes (b1 ++ b2) = of_bytes b1 +:+ of_bytes b2.
Proof.
  induction b1 as [|b b1 IH]; [done|].
  change (of_bytes ((b :: b1) ++ b2)) with (String (Ascii.ascii_of_byte b) (of_bytes (b1 ++ b2))).
  by rewrite IH.
Qed.

(** A text that is one field ends at the first separator behind it. *)
Lemma Split_line s sep rest :
  Split s sep = [s] -> Split (s +:+ String sep rest) sep = s :: Split rest sep.
Proof.
  induction s as [|c s IH]; intros H.
  - simpl. by rewrite bool_decide_true.
  - cbn [Split] in H. change (String c s +:+ String sep rest) with (String c (s +:+ String sep rest)).
    cbn [Split]. case_bool_decide; [discriminate H|].
    destruct (Split s sep) as [|x l] eqn:Hs; [by injection H as <-|].
    injection H as -> ->. by rewrite (IH eq_refl).
Qed.

Lemma get_last s c : String.get (String.length (s +:+ String c "") - 1) (s +:+ String c "") = Some c.
Proof.
  induction s as [|a s IH]; [done|].
  change (String a s +:+ String c "") with (String a (s +:+ String c "")). cbn [String.length].
  assert (exists m, String.length (s +:+ String c "") = S m) as [m Hm].
  { destruct s; simpl; eauto. }
  rewrite Hm in *. replace (S (S m) - 1)%nat with (S m) by lia. cbn [String.get].
  by replace (S m - 1)%nat with m in IH by lia.
Qed.

Lemma substring_app_tail a b :
  String.substring (String.length a) (String.length b) (a +:+ b) = b.
Proof. 
  induction a as [|c a IH]; [|exact IH].
  change (EmptyString +:+ b) with b. induction b as [|c b IH]; [done|]. cbn. f_equal. exact IH.
Qed.

Lemma string_length_app a b : String.length (a +:+ b) = (String.length a + String.length b)%nat.
Proof. induction a as [|c a IH]; [done|]. simpl. f_equal. exact IH. Qed.
