(* ===== verification/Float.v ===== *)
(** Go's float64.

    [Float64] is the arithmetic that the program uses on float64 values, so that a
    component can be read over any number system; [binary64] is IEEE 754 double
    precision, the instance the compiled program has, from the Standard Library's
    executable specification of floating point. *)
From stdpp Require Import base.
From Stdlib Require Import ZArith SpecFloat.
From S2P Require Import Prelude.

Class Float64 (F : Type) := {
  f_of_int : Z -> F;
  f_add : F -> F -> F;
  f_sub : F -> F -> F;
  f_mul : F -> F -> F;
  f_div : F -> F -> F;
  f_ltb : F -> F -> bool;
  f_leb : F -> F -> bool
}.

#[export] Instance binary64 : Float64 spec_float := {|
  f_of_int z := binary_normalize 53 1024 z 0 false;
  f_add := SFadd 53 1024;
  f_sub := SFsub 53 1024;
  f_mul := SFmul 53 1024;
  f_div := SFdiv 53 1024;
  f_ltb := SFltb;
  f_leb := SFleb
|}.

(** [uint64(x)] of a finite non-negative float64: truncation. *)
Definition f_trunc (x : spec_float) : Z :=
  match x with
  | S754_finite false m e => Z.shiftl (Zpos m) e
  | _ => 0
  end.

(** [d.Seconds()] of a duration in nanoseconds; the two integer divisions
    truncate towards zero. *)
Definition Seconds {F} `{Float64 F} (d : Z) : F :=
  f_add (f_of_int (Z.quot d 1000000000))
        (f_div (f_of_int (Z.rem d 1000000000)) (f_of_int 1000000000)).
