(* ===== verification/Duration.v ===== *)
(** time.ParseDuration of Go's package time. *)
From Stdlib Require Import ZArith Lia Ascii String SpecFloat.
From stdpp Require Import base list strings.
From S2P Require Import Prelude Errors Bytes GoStrings Float.

Local Open Scope Z_scope.

Definition Second : Z := 1000000000.
Definition Millisecond : Z := 1000000.

Definition ascii_code (c : ascii) : Z := Z.of_N (Ascii.N_of_ascii c).

Definition dquote : ascii := Ascii.ascii_of_nat 34.
Definition backslash : ascii := Ascii.ascii_of_nat 92.

Definition hex_digit (n : Z) : ascii :=
  Ascii.ascii_of_N (Z.to_N (if n <? 10 then 48 + n else 87 + n)).

(** package time's quote: control and non-ASCII bytes as \xNN. *)
Fixpoint quote_body (s : string) : string :=
  match s with
  | EmptyString => ""
  | String c s =>
      let n := ascii_code c in
      (if (128 <=? n) || (n <? 32) then
         String backslash (String "x" (String (hex_digit (n / 16)) (String (hex_digit (n mod 16)) "")))
       else if bool_decide (c = dquote) || bool_decide (c = backslash) then
         String backslash (String c "")
       else String c "") +:+ quote_body s
  end.
Definition quote (s : string) : string := String dquote "" +:+ quote_body s +:+ String dquote "".

Definition limit : Z := 2 ^ 63.

(** leadingInt: [None] is overflow. *)
Fixpoint leadingInt (x : Z) (s : string) : option (Z * string) :=
  match s with
  | EmptyString => Some (x, s)
  | String c s' =>
      match digit_value c with
      | None => Some (x, s)
      | Some d =>
          if limit / 10 <? x then None
          else let x := 10 * x + d in
               if limit <? x then None else leadingInt x s'
      end
  end.

(** leadingFraction: digits behind the overflow are skipped. *)
Fixpoint leadingFraction (x : Z) (scale : spec_float) (overflow : bool) (s : string) :
    Z * spec_float * string :=
  match s with
  | EmptyString => (x, scale, s)
  | String c s' =>
      match digit_value c with
      | None => (x, scale, s)
      | Some d =>
          if overflow then leadingFraction x scale true s'
          else if (limit - 1) / 10 <? x then leadingFraction x scale true s'
          else let y := 10 * x + d in
               if limit <? y then leadingFraction x scale true s'
               else leadingFraction y (f_mul scale (f_of_int 10)) false s'
      end
  end.

Definition micro (second : Z) : string :=
  String (Ascii.ascii_of_N (if second =? 181 then 194 else 206))
    (String (Ascii.ascii_of_N (Z.to_N (if second =? 181 then 181 else 188))) "s").

(** unitMap; the two spellings of the micro sign are U+00B5 and U+03BC. *)
Definition unit_of (u : string) : option Z :=
  if bool_decide (u = "ns") then Some 1
  else if bool_decide (u = "us") || bool_decide (u = micro 181) || bool_decide (u = micro 188)
       then Some 1000
  else if bool_decide (u = "ms") then Some 1000000
  else if bool_decide (u = "s") then Some 1000000000
  else if bool_decide (u = "m") then Some 60000000000
  else if bool_decide (u = "h") then Some 3600000000000
  else None.

(** The longest prefix with no digit and no dot. *)
Fixpoint unit_prefix (s : string) : string * string :=
  match s with
  | EmptyString => ("", "")
  | String c s' =>
      if bool_decide (c = "."%char) || bool_decide (digit_value c <> None) then ("", s)
      else let '(u, rest) := unit_prefix s' in (String c u, rest)
  end.

Definition invalid (orig : string) : error := ErrNew ("time: invalid duration " +:+ quote orig).

(** One number with its unit: the nanoseconds it adds and what follows. *)
Definition component (orig s : string) : error + (Z * string) :=
  match s with
  | EmptyString => inl (invalid orig)
  | String c _ =>
      if bool_decide (c = "."%char) || bool_decide (digit_value c <> None) then
        match leadingInt 0 s with
        | None => inl (invalid orig)
        | Some (v, s1) =>
            let pre := negb (bool_decide (String.length s1 = String.length s)) in
            let '(f, scale, s2, post) :=
              match s1 with
              | String "." s1' =>
                  let '(f, scale, s2) := leadingFraction 0 (f_of_int 1) false s1' in
                  (f, scale, s2, negb (bool_decide (String.length s2 = String.length s1')))
              | _ => (0, f_of_int 1, s1, false)
              end in
            if negb pre && negb post then inl (invalid orig)
            else
              let '(u, s3) := unit_prefix s2 in
              if bool_decide (u = "") then
                inl (ErrNew ("time: missing unit in duration " +:+ quote orig))
              else
                match unit_of u with
                | None => inl (ErrNew ("time: unknown unit " +:+ quote u +:+ " in duration " +:+ quote orig))
                | Some unit =>
                    if limit / unit <? v then inl (invalid orig)
                    else
                      let v := v * unit in
                      let v := if 0 <? f
                               then v + f_trunc (f_mul (f_of_int f) (f_div (f_of_int unit) scale))
                               else v in
                      if (0 <? f) && (limit <? v) then inl (invalid orig) else inr (v, s3)
                end
        end
      else inl (invalid orig)
  end.

Fixpoint components (fuel : nat) (orig : string) (d : Z) (s : string) : error + Z :=
  match fuel with
  | O => inr d
  | S fuel =>
      if bool_decide (s = "") then inr d
      else match component orig s with
           | inl e => inl e
           | inr (v, s') =>
               let d := uint64 (d + v) in
               if limit <? d then inl (invalid orig) else components fuel orig d s'
           end
  end.

(** Every component takes at least one character. *)
Definition ParseDuration (orig : string) : error + Z :=
  let '(neg, s) :=
    match orig with
    | String c s' => if bool_decide (c = "-"%char) then (true, s')
                     else if bool_decide (c = "+"%char) then (false, s') else (false, orig)
    | EmptyString => (false, orig)
    end in
  if bool_decide (s = "0") then inr 0
  else if bool_decide (s = "") then inl (invalid orig)
  else match components (S (String.length s)) orig 0 s with
       | inl e => inl e
       | inr d =>
           if neg : bool then inr (- d)
           else if limit - 1 <? d then inl (invalid orig) else inr d
       end.

Example parse_5s : ParseDuration "5s" = inr (5 * Second).
Proof. vm_compute. reflexivity. Qed.
Example parse_1h30 : ParseDuration "1.5h10m" = inr (6000 * Second).
Proof. vm_compute. reflexivity. Qed.
Example parse_300ms : ParseDuration "300ms" = inr (300 * Millisecond).
Proof. vm_compute. reflexivity. Qed.
Example parse_bad : ParseDuration "5 parsecs" <> inr 5.
Proof. vm_compute. discriminate. Qed.
Example parse_none : match ParseDuration "10" with inl _ => True | inr _ => False end.
Proof. vm_compute. exact I. Qed.
