(* ===== verification/Config.v ===== *)
(** configs: the configuration record, its defaults and its validation.

    Loading the file and the environment into the record is viper's work, a parameter.
    Field names carry the name of their struct. *)
From Stdlib Require Import ZArith Lia Ascii String.
From stdpp Require Import base list strings gmap sets.
From S2P Require Import Prelude Errors Bytes GoStrings Duration.

Local Open Scope Z_scope.

(** ** definitions.go *)
Definition BufferType := string.
Definition SinkType := string.
Definition DLQType := string.

Definition SinkLog : SinkType := "log".
Definition SinkKafka : SinkType := "kafka".
Definition SinkHTTP : SinkType := "http".
Definition ChannelBufferType : BufferType := "channel".
Definition RedisBufferType : BufferType := "redis".
Definition HybridBufferType : BufferType := "hybrid".
Definition DLQTypeFile : DLQType := "file".
Definition DLQTypeKafka : DLQType := "kafka".
Definition DefaultHybridBufferDir : string := "data/buffer".
Definition DefaultWALDir : string := "data/wal".
Definition DefaultCheckpointInterval : string := "60s".

Record RedisBufferConfig := mk_redis {
  redis_Addr : string; redis_Password : string; redis_DB : Z; redis_Key : string }.
Record HybridBufferConfig := mk_hybrid { hybrid_Dir : string }.
Record KafkaConfig := mk_kafka { kafka_Brokers : list string; kafka_Topic : string }.
Record HTTPConfig := mk_http { http_URL : string; http_Timeout : string }.
Record FileDLQConfig := mk_file_dlq { filedlq_Dir : string }.
Record KafkaDLQConfig := mk_kafka_dlq { kafkadlq_Brokers : list string; kafkadlq_Topic : string }.
Record BufferConfig := mk_buffer {
  buffer_Type : BufferType; buffer_Redis : RedisBufferConfig; buffer_Hybrid : HybridBufferConfig }.
Record SinksConfig := mk_sinks {
  sinks_Active : list SinkType; sinks_Kafka : KafkaConfig; sinks_HTTP : HTTPConfig }.
Record DLQConfig := mk_dlq {
  dlq_Enabled : bool; dlq_Type : DLQType; dlq_File : FileDLQConfig; dlq_Kafka : KafkaDLQConfig }.
Record ServerConfig := mk_server {
  server_GrpcPort : Z; server_HttpPort : Z; server_IngestEnabled : bool;
  server_AdminToken : string }.
Record IngestorConfig := mk_ingestor { ingestor_BufferSize : Z }.
Record WorkerConfig := mk_worker {
  worker_NumWorkers : Z; worker_BatchSize : Z; worker_BatchTimeout : string }.
Record LoggingConfig := mk_logging { logging_Level : string; logging_Format : string }.
Record WALConfig := mk_wal {
  wal_Enabled : bool; wal_Dir : string; wal_CheckpointInterval : string }.
Record ShutdownConfig := mk_shutdown { shutdown_Timeout : string }.
Record TenantConfig := mk_tenant {
  tenant_ID : string; tenant_RateLimit : Z; tenant_KafkaTopic : string }.
Record TenancyConfig := mk_tenancy {
  tenancy_Enabled : bool; tenancy_DefaultRateLimit : Z; tenancy_Tenants : list TenantConfig }.

Record Config := mk_config {
  cfg_Server : ServerConfig;
  cfg_Ingestor : IngestorConfig;
  cfg_Buffer : BufferConfig;
  cfg_Worker : WorkerConfig;
  cfg_Sinks : SinksConfig;
  cfg_DLQ : DLQConfig;
  cfg_WAL : WALConfig;
  cfg_Logging : LoggingConfig;
  cfg_Shutdown : ShutdownConfig;
  cfg_Tenancy : TenancyConfig
}.

(** ** validate.go *)

Definition is_empty (s : string) : bool := bool_decide (s = "").

Definition applyDefaults (c : Config) : Config :=
  let b := cfg_Buffer c in
  let b := if bool_decide (buffer_Type b = HybridBufferType) && is_empty (hybrid_Dir (buffer_Hybrid b))
           then mk_buffer (buffer_Type b) (buffer_Redis b) (mk_hybrid DefaultHybridBufferDir)
           else b in
  let w := cfg_WAL c in
  let w := if wal_Enabled w then
             mk_wal true
               (if is_empty (wal_Dir w) then DefaultWALDir else wal_Dir w)
               (if is_empty (wal_CheckpointInterval w) then DefaultCheckpointInterval
                else wal_CheckpointInterval w)
           else w in
  mk_config (cfg_Server c) (cfg_Ingestor c) b (cfg_Worker c) (cfg_Sinks c) (cfg_DLQ c) w
    (cfg_Logging c) (cfg_Shutdown c) (cfg_Tenancy c).

Definition appendErr (errs : list string) (key msg : string) : list string :=
  errs ++ [key +:+ ": " +:+ msg].

Definition validPort (p : Z) : bool := (0 <? p) && (p <=? 65535).

(** A condition that adds its message to [errs]. *)
Definition check (cond : bool) (key msg : string) (errs : list string) : list string :=
  if cond then appendErr errs key msg else errs.

(** [%q]: as the package's quote for ASCII text. *)
Definition quoted (s : string) : string := quote s.

Definition validateServer (c : Config) (errs : list string) : list string :=
  let s := cfg_Server c in
  let errs := check (negb (validPort (server_GrpcPort s))) "server.grpc_port" "must be in [1, 65535]" errs in
  let errs := check (negb (validPort (server_HttpPort s))) "server.http_port" "must be in [1, 65535]" errs in
  check (bool_decide (server_GrpcPort s = server_HttpPort s)) "server"
    "grpc_port and http_port must differ" errs.

Definition validateIngestor (c : Config) (errs : list string) : list string :=
  check (ingestor_BufferSize (cfg_Ingestor c) <=? 0) "ingestor.buffer_size" "must be > 0" errs.

Definition validateBuffer (c : Config) (errs : list string) : list string :=
  let t := buffer_Type (cfg_Buffer c) in
  if is_empty t || bool_decide (t = ChannelBufferType) || bool_decide (t = HybridBufferType) then errs
  else if bool_decide (t = RedisBufferType) then
    check (is_empty (redis_Addr (buffer_Redis (cfg_Buffer c)))) "buffer.redis.addr"
      "must be set when buffer type is redis" errs
  else appendErr errs "buffer.type"
         ("unknown buffer type " +:+ quoted t +:+ " (must be channel, redis, or hybrid)").

(** A duration field that must parse and be positive. *)
Definition checkDuration (key s : string) (errs : list string) : list string :=
  match ParseDuration s with
  | inl err => appendErr errs key ("invalid duration: " +:+ error_string err)
  | inr d => check (d <=? 0) key "must be > 0" errs
  end.

Definition validateWorker (c : Config) (errs : list string) : list string :=
  let w := cfg_Worker c in
  let errs := check (worker_NumWorkers w <=? 0) "worker.num_workers" "must be > 0" errs in
  let errs := check (worker_BatchSize w <=? 0) "worker.batch_size" "must be > 0" errs in
  if is_empty (worker_BatchTimeout w)
  then appendErr errs "worker.batch_timeout" ("must be set (e.g. " +:+ quoted "5s" +:+ ")")
  else checkDuration "worker.batch_timeout" (worker_BatchTimeout w) errs.

(** The body of the loop over [c.Sinks.Active]. *)
Definition validateSink (c : Config) (errs : list string) (name : SinkType) : list string :=
  let s := cfg_Sinks c in
  if bool_decide (name = SinkLog) then errs
  else if bool_decide (name = SinkKafka) then
    let errs := check (bool_decide (kafka_Brokers (sinks_Kafka s) = [])) "sinks.kafka.brokers"
                  "must be set when kafka sink is active" errs in
    check (is_empty (kafka_Topic (sinks_Kafka s))) "sinks.kafka.topic"
      "must be set when kafka sink is active" errs
  else if bool_decide (name = SinkHTTP) then
    let errs := check (is_empty (http_URL (sinks_HTTP s))) "sinks.http.url"
                  "must be set when http sink is active" errs in
    if is_empty (http_Timeout (sinks_HTTP s)) then errs
    else match ParseDuration (http_Timeout (sinks_HTTP s)) with
         | inl err => appendErr errs "sinks.http.timeout" ("invalid duration: " +:+ error_string err)
         | inr _ => errs
         end
  else appendErr errs "sinks.active" ("unknown sink type " +:+ quoted name).

Definition validateSinks (c : Config) (errs : list string) : list string :=
  let errs := check (bool_decide (sinks_Active (cfg_Sinks c) = [])) "sinks.active"
                "at least one sink must be configured" errs in
  foldl (validateSink c) errs (sinks_Active (cfg_Sinks c)).

Definition validateDLQ (c : Config) (errs : list string) : list string :=
  let d := cfg_DLQ c in
  if negb (dlq_Enabled d) then errs
  else if bool_decide (dlq_Type d = DLQTypeFile) then
    check (is_empty (filedlq_Dir (dlq_File d))) "dlq.file.dir"
      "must be set when file DLQ is enabled" errs
  else if bool_decide (dlq_Type d = DLQTypeKafka) then
    let errs := check (bool_decide (kafkadlq_Brokers (dlq_Kafka d) = [])) "dlq.kafka.brokers"
                  "must be set when kafka DLQ is enabled" errs in
    check (is_empty (kafkadlq_Topic (dlq_Kafka d))) "dlq.kafka.topic"
      "must be set when kafka DLQ is enabled" errs
  else appendErr errs "dlq.type" ("unknown DLQ type " +:+ quoted (dlq_Type d)).

Definition validateWAL (c : Config) (errs : list string) : list string :=
  let w := cfg_WAL c in
  if negb (wal_Enabled w) || is_empty (wal_CheckpointInterval w) then errs
  else checkDuration "wal.checkpoint_interval" (wal_CheckpointInterval w) errs.

Definition validateShutdown (c : Config) (errs : list string) : list string :=
  if is_empty (shutdown_Timeout (cfg_Shutdown c)) then errs
  else checkDuration "shutdown.timeout" (shutdown_Timeout (cfg_Shutdown c)) errs.

Definition tenant_key (i : nat) (field : string) : string :=
  "tenancy.tenants[" +:+ FormatInt (Z.of_nat i) +:+ "]." +:+ field.

(** The loop over the tenants, with the index and the set [seen]. *)
Fixpoint validateTenants (i : nat) (seen : gset string) (l : list TenantConfig)
    (errs : list string) : list string :=
  match l with
  | [] => errs
  | t :: l =>
      if is_empty (tenant_ID t)
      then validateTenants (S i) seen l (appendErr errs (tenant_key i "id") "must be set")
      else
        let errs := check (bool_decide (tenant_ID t ∈ seen)) (tenant_key i "id")
                      ("duplicate tenant id " +:+ quoted (tenant_ID t)) errs in
        let errs := check (tenant_RateLimit t <? 0) (tenant_key i "rate_limit")
                      "must be >= 0 (0 = inherit default)" errs in
        validateTenants (S i) ({[tenant_ID t]} ∪ seen) l errs
  end.

Definition validateTenancy (c : Config) (errs : list string) : list string :=
  let t := cfg_Tenancy c in
  if negb (tenancy_Enabled t) then errs
  else
    let errs := check (tenancy_DefaultRateLimit t <? 0) "tenancy.default_rate_limit"
                  "must be >= 0 (0 = unlimited)" errs in
    validateTenants 0 ∅ (tenancy_Tenants t) errs.

(** The messages in order. *)
Definition validation_errors (c : Config) : list string :=
  validateTenancy c (validateShutdown c (validateWAL c (validateDLQ c (validateSinks c
    (validateWorker c (validateBuffer c (validateIngestor c (validateServer c [])))))))).

Definition Validate (c : Config) : option error :=
  match validation_errors c with
  | [] => None
  | errs => Some (ErrNew ("config validation failed:" +:+ nl +:+ "  - "
                          +:+ Join errs (nl +:+ "  - ")))
  end.

Definition DefaultShutdownTimeout : Z := 30 * Second.

Definition ShutdownTimeout (c : Config) : Z :=
  let s := shutdown_Timeout (cfg_Shutdown c) in
  if is_empty s then DefaultShutdownTimeout
  else match ParseDuration s with
       | inl _ => DefaultShutdownTimeout
       | inr d => if d <=? 0 then DefaultShutdownTimeout else d
       end.

(** ** config.go *)

(** viper: reading the file below [path], and what it decodes, the environment included. *)
Class Viper := {
  viper_ReadInConfig : string -> option error;
  viper_Unmarshal : string -> error + Config
}.

Definition Load `{Viper} (path : string) : error + Config :=
  match viper_ReadInConfig path with
  | Some err => inl err
  | None =>
      match viper_Unmarshal path with
      | inl err => inl err
      | inr cfg =>
          let cfg := applyDefaults cfg in
          match Validate cfg with
          | Some err => inl err
          | None => inr cfg
          end
      end
  end.
