(* ===== verification/ConfigTheorems.v ===== *)
(** What a configuration that passes validation guarantees. *)
From Stdlib Require Import ZArith Lia Ascii String.
From stdpp Require Import base list strings gmap sets.
From S2P Require Import Prelude Errors Bytes GoStrings Duration Config.

Local Open Scope Z_scope.

(** ** What the components require of their configuration *)

Definition positive_duration (s : string) : Prop := exists d, ParseDuration s = inr d /\ 0 < d.

Definition sink_ok (c : Config) (name : SinkType) : Prop :=
  name = SinkLog \/
  (name = SinkKafka /\ kafka_Brokers (sinks_Kafka (cfg_Sinks c)) <> [] /\
     kafka_Topic (sinks_Kafka (cfg_Sinks c)) <> "") \/
  (name = SinkHTTP /\ http_URL (sinks_HTTP (cfg_Sinks c)) <> "" /\
     (http_Timeout (sinks_HTTP (cfg_Sinks c)) = "" \/
      exists d, ParseDuration (http_Timeout (sinks_HTTP (cfg_Sinks c))) = inr d)).

Definition buffer_ok (b : BufferConfig) : Prop :=
  buffer_Type b ∈ [""; ChannelBufferType; HybridBufferType]%string \/
  (buffer_Type b = RedisBufferType /\ redis_Addr (buffer_Redis b) <> "").

Definition dlq_ok (d : DLQConfig) : Prop :=
  (dlq_Type d = DLQTypeFile /\ filedlq_Dir (dlq_File d) <> "") \/
  (dlq_Type d = DLQTypeKafka /\ kafkadlq_Brokers (dlq_Kafka d) <> [] /\
     kafkadlq_Topic (dlq_Kafka d) <> "").

Definition tenancy_ok (t : TenancyConfig) : Prop :=
  0 <= tenancy_DefaultRateLimit t /\
  NoDup (tenant_ID <$> tenancy_Tenants t) /\
  Forall (fun x => tenant_ID x <> "" /\ 0 <= tenant_RateLimit x) (tenancy_Tenants t).

Record well_formed (c : Config) : Prop := {
  wf_grpc : 1 <= server_GrpcPort (cfg_Server c) <= 65535;
  wf_http : 1 <= server_HttpPort (cfg_Server c) <= 65535;
  wf_ports : server_GrpcPort (cfg_Server c) <> server_HttpPort (cfg_Server c);
  wf_size : 0 < ingestor_BufferSize (cfg_Ingestor c);
  wf_buffer : buffer_ok (cfg_Buffer c);
  wf_workers : 0 < worker_NumWorkers (cfg_Worker c);
  wf_batch : 0 < worker_BatchSize (cfg_Worker c);
  wf_timeout : positive_duration (worker_BatchTimeout (cfg_Worker c));
  wf_sinks : sinks_Active (cfg_Sinks c) <> [] /\ Forall (sink_ok c) (sinks_Active (cfg_Sinks c));
  wf_dlq : dlq_Enabled (cfg_DLQ c) = true -> dlq_ok (cfg_DLQ c);
  wf_wal : wal_Enabled (cfg_WAL c) = true -> wal_CheckpointInterval (cfg_WAL c) <> "" ->
           positive_duration (wal_CheckpointInterval (cfg_WAL c));
  wf_shutdown : shutdown_Timeout (cfg_Shutdown c) <> "" ->
                positive_duration (shutdown_Timeout (cfg_Shutdown c));
  wf_tenancy : tenancy_Enabled (cfg_Tenancy c) = true -> tenancy_ok (cfg_Tenancy c)
}.

(** ** The validators *)

(** Messages are only ever added. *)
Lemma appendErr_nil errs k m : appendErr errs k m = [] <-> errs = [] /\ False.
Proof. unfold appendErr. split; [by intros [_ [=]]%app_eq_nil|by intros []]. Qed.

Lemma check_nil b k m errs : check b k m errs = [] <-> errs = [] /\ b = false.
Proof. unfold check. destruct b; [rewrite appendErr_nil|]; naive_solver. Qed.

Lemma is_empty_spec s : is_empty s = true <-> s = "".
Proof. apply bool_decide_eq_true. Qed.

Lemma is_empty_false s : is_empty s = false <-> s <> "".
Proof. apply bool_decide_eq_false. Qed.

Lemma checkDuration_nil k s errs :
  checkDuration k s errs = [] <-> errs = [] /\ positive_duration s.
Proof.
  unfold checkDuration, positive_duration. destruct (ParseDuration s) as [e|d].
  - rewrite appendErr_nil. naive_solver.
  - rewrite check_nil, Z.leb_gt. naive_solver.
Qed.

Lemma validateServer_nil c errs :
  validateServer c errs = [] <->
  errs = [] /\ 1 <= server_GrpcPort (cfg_Server c) <= 65535 /\
  1 <= server_HttpPort (cfg_Server c) <= 65535 /\
  server_GrpcPort (cfg_Server c) <> server_HttpPort (cfg_Server c).
Proof.
  unfold validateServer, validPort. rewrite !check_nil, !negb_false_iff, !andb_true_iff,
    bool_decide_eq_false, !Z.ltb_lt, !Z.leb_le. intuition lia.
Qed.

Lemma validateBuffer_nil c errs :
  validateBuffer c errs = [] <-> errs = [] /\ buffer_ok (cfg_Buffer c).
Proof.
  unfold validateBuffer, buffer_ok. set (t := buffer_Type _).
  rewrite !elem_of_cons, elem_of_nil.
  destruct (is_empty t) eqn:H0; [rewrite is_empty_spec in H0; naive_solver|].
  rewrite is_empty_false in H0. simpl.
  case_bool_decide; [naive_solver|]. case_bool_decide; [naive_solver|]. simpl.
  case_bool_decide.
  - rewrite check_nil, is_empty_false. naive_solver.
  - rewrite appendErr_nil. naive_solver.
Qed.

Lemma validateWorker_nil c errs :
  validateWorker c errs = [] <->
  errs = [] /\ 0 < worker_NumWorkers (cfg_Worker c) /\ 0 < worker_BatchSize (cfg_Worker c) /\
  positive_duration (worker_BatchTimeout (cfg_Worker c)).
Proof.
  unfold validateWorker. destruct (is_empty _) eqn:H0.
  - rewrite appendErr_nil. rewrite is_empty_spec in H0. rewrite H0.
    split; [naive_solver|]. intros (_ & _ & _ & d & Hd & _). vm_compute in Hd. discriminate.
  - rewrite checkDuration_nil, !check_nil, !Z.leb_gt. intuition.
Qed.

Lemma validateSink_nil c errs name :
  validateSink c errs name = [] <-> errs = [] /\ sink_ok c name.
Proof.
  unfold validateSink, sink_ok. case_bool_decide; [naive_solver|].
  case_bool_decide as Hk.
  { rewrite !check_nil, bool_decide_eq_false, is_empty_false. subst. naive_solver. }
  case_bool_decide as Hh; [|rewrite appendErr_nil; naive_solver].
  destruct (is_empty (http_Timeout _)) eqn:H0.
  - rewrite check_nil, is_empty_false. rewrite is_empty_spec in H0. naive_solver.
  - rewrite is_empty_false in H0. destruct (ParseDuration _).
    + rewrite appendErr_nil. naive_solver.
    + rewrite check_nil, is_empty_false. naive_solver.
Qed.

Lemma validateSinks_nil c errs :
  validateSinks c errs = [] <->
  errs = [] /\ sinks_Active (cfg_Sinks c) <> [] /\ Forall (sink_ok c) (sinks_Active (cfg_Sinks c)).
Proof.
  assert (forall l errs, foldl (validateSink c) errs l = [] <-> errs = [] /\ Forall (sink_ok c) l)
    as Hfold.
  { induction l as [|n l IH]; intros e; simpl; [naive_solver|].
    rewrite IH, validateSink_nil, Forall_cons. naive_solver. }
  unfold validateSinks. rewrite Hfold, check_nil, bool_decide_eq_false. naive_solver.
Qed.

Lemma validateDLQ_nil c errs :
  validateDLQ c errs = [] <->
  errs = [] /\ (dlq_Enabled (cfg_DLQ c) = true -> dlq_ok (cfg_DLQ c)).
Proof.
  unfold validateDLQ, dlq_ok. destruct (dlq_Enabled _); simpl; [|naive_solver].
  case_bool_decide as H1; [rewrite check_nil, is_empty_false; rewrite H1; naive_solver|].
  case_bool_decide as H2; [|rewrite appendErr_nil; naive_solver].
  rewrite !check_nil, bool_decide_eq_false, is_empty_false. naive_solver.
Qed.

Lemma validateTenants_nil l : forall i seen errs,
  validateTenants i seen l errs = [] <->
  errs = [] /\ NoDup (tenant_ID <$> l) /\ Forall (fun x => tenant_ID x ∉ seen) l /\
  Forall (fun x => tenant_ID x <> "" /\ 0 <= tenant_RateLimit x) l.
Proof.
  induction l as [|t l IH]; intros i seen errs; cbn [validateTenants].
  { split; [intros ->; repeat constructor|naive_solver]. }
  rewrite fmap_cons, NoDup_cons, !Forall_cons.
  assert (tenant_ID t ∉ tenant_ID <$> l <-> Forall (fun x => tenant_ID x <> tenant_ID t) l) as Hnin.
  { rewrite list_elem_of_fmap, Forall_forall. naive_solver. }
  assert (Forall (fun x => tenant_ID x ∉ ({[tenant_ID t]} ∪ seen : gset string)) l <->
          Forall (fun x => tenant_ID x <> tenant_ID t) l /\
          Forall (fun x => tenant_ID x ∉ seen) l) as Hseen.
  { rewrite <- Forall_and. apply Forall_proper; [|done]. intros x. set_solver. }
  destruct (is_empty (tenant_ID t)) eqn:H0; rewrite IH.
  - rewrite appendErr_nil. rewrite is_empty_spec in H0. naive_solver.
  - rewrite is_empty_false in H0. rewrite !check_nil, bool_decide_eq_false, Z.ltb_ge, Hseen, Hnin.
    naive_solver.
Qed.

Lemma validateTenancy_nil c errs :
  validateTenancy c errs = [] <->
  errs = [] /\ (tenancy_Enabled (cfg_Tenancy c) = true -> tenancy_ok (cfg_Tenancy c)).
Proof.
  unfold validateTenancy, tenancy_ok. destruct (tenancy_Enabled _); simpl; [|naive_solver].
  rewrite validateTenants_nil, check_nil, Z.ltb_ge.
  assert (Forall (fun x => tenant_ID x ∉ (∅ : gset string)) (tenancy_Tenants (cfg_Tenancy c)))
    by (apply Forall_true; set_solver).
  naive_solver.
Qed.

Lemma Validate_wf (c : Config) : Validate c = None <-> well_formed c.
Proof.
  unfold Validate. assert (validation_errors c = [] <-> well_formed c) as Hv.
  { unfold validation_errors.
    rewrite validateTenancy_nil. unfold validateShutdown, validateWAL.
    transitivity (
      (shutdown_Timeout (cfg_Shutdown c) <> "" -> positive_duration (shutdown_Timeout (cfg_Shutdown c))) /\
      (wal_Enabled (cfg_WAL c) = true -> wal_CheckpointInterval (cfg_WAL c) <> "" ->
           positive_duration (wal_CheckpointInterval (cfg_WAL c))) /\
      (validateDLQ c (validateSinks c (validateWorker c (validateBuffer c (validateIngestor c
        (validateServer c []))))) = []) /\
      (tenancy_Enabled (cfg_Tenancy c) = true -> tenancy_ok (cfg_Tenancy c))).
    - destruct (is_empty (shutdown_Timeout _)) eqn:H1, (wal_Enabled _) eqn:H2,
        (is_empty (wal_CheckpointInterval _)) eqn:H3; simpl;
        rewrite ?checkDuration_nil;
        rewrite ?is_empty_spec, ?is_empty_false in H1; rewrite ?is_empty_spec, ?is_empty_false in H3;
        naive_solver.
    - rewrite validateDLQ_nil, validateSinks_nil, validateWorker_nil, validateBuffer_nil.
      unfold validateIngestor. rewrite check_nil, validateServer_nil, Z.leb_gt.
      split; [intros H; destruct_and?; by split; first [done|split_and!]|]. intros []. destruct_and?. by split_and!. }
  destruct (validation_errors c); [naive_solver|]. split; [done|]. intros Hw. by apply Hv in Hw.
Qed.

(** C33. Validate returns nil exactly for the configurations that [well_formed] describes:
    ports in range and different, a positive buffer size, a known buffer type, positive
    worker settings and a positive batch timeout, at least one sink and every
    active sink configured, a configured dead letter queue and durations that parse, and
    tenants with distinct ids and no negative limits. *)
Theorem Validate_iff_well_formed (c : Config) : Validate c = None <-> well_formed c.
Proof. apply Validate_wf. Qed.
