(* ===== verification/Os.v ===== *)
(** The part of Go's package os (and of io.ReadFull) that the program uses.

    A file system is a map from paths to files; a path is the pair of the two
    arguments of [filepath.Join]. Every call consumes one entry of a fault
    schedule, so that a statement over all schedules covers short writes, failing
    calls and the process dying inside a call. A file remembers how many of its
    first bytes are known to be on stable storage ([synced]); [power_loss] may
    take away everything behind them.

    The schedule decides what fails; the empty schedule means that nothing
    does. Writes through a handle go to the end of the file: the program opens
    its sequential files with O_APPEND, or truncates them to empty and is then
    their only writer. *)
From stdpp Require Import base list strings gmap.
From Stdlib Require Import ZArith Lia.
From S2P Require Import Prelude Errors Go Bytes.

Definition path : Type := (string * string)%type.
Definition filepath_Join (dir name : string) : path := (dir, name).

Record file := mk_file { data : list byte; synced : nat }.

(** What the environment does to one system call: nothing, fail it after [n]
    bytes, or kill the process after [n] bytes. Calls that transfer no bytes
    ignore [n]. *)
Inductive fault :=
  | FNone
  | FErr (n : nat)
  | FCrash (n : nat).

Record os := mk_os { files : gmap path file; sched : list fault }.

(** A handle ([*os.File]): [HNil] is the nil pointer a failed open leaves. *)
Inductive hstate := HOpen | HClosed | HNil.
Record handle := mk_handle { h_path : path; h_state : hstate }.

Definition set_files (f : gmap path file -> gmap path file) (w : os) : os :=
  mk_os (f (files w)) (sched w).

Definition tick : M os fault := fun w =>
  match sched w with
  | [] => (Ret FNone, w)
  | f :: l => (Ret f, mk_os (files w) l)
  end.

(** A call that transfers no bytes and whose only effect is [k]. *)
Definition syscall {A} (k : M os A) : M os A :=
  f <- tick ;;
  match f with
  | FNone => k
  | FErr _ => fail os_EIO
  | FCrash _ => fun w => (Crash, w)
  end.

Definition check_handle (h : handle) : M os unit :=
  match h_state h with
  | HOpen => ret tt
  | HClosed => fail os_ErrClosed
  | HNil => fail os_ErrInvalid
  end.

(** ** Writing *)

Definition append_bytes (b : list byte) (f : file) : file :=
  mk_file (data f ++ b) (synced f).

(** [f.WriteAt(b, off)] on a file: overwrite in place, extending with zeros
    when [off] is behind the end. *)
Definition overwrite (off : nat) (b : list byte) (f : file) : file :=
  let d := data f in
  mk_file (take off d ++ replicate (off - length d) Byte.x00 ++ b ++ drop (off + length b) d)
          (min (synced f) off).

Definition truncate_bytes (n : nat) (f : file) : file :=
  mk_file (take n (data f) ++ replicate (n - length (data f)) Byte.x00)
          (min (synced f) n).

Definition sync_bytes (f : file) : file := mk_file (data f) (length (data f)).

(** A write call: the first [n] bytes land when the call is cut short. *)
Definition write_with (upd : list byte -> file -> file) (h : handle) (b : list byte) : M os unit :=
  check_handle h ;;
  f <- tick ;;
  match f with
  | FNone => modify (set_files (alter (upd b) (h_path h)))
  | FErr n => modify (set_files (alter (upd (take n b)) (h_path h))) ;; fail os_EIO
  | FCrash n =>
      modify (set_files (alter (upd (take n b)) (h_path h))) ;; fun w => (Crash, w)
  end.

Definition os_Write (h : handle) (b : list byte) : M os unit := write_with append_bytes h b.
Definition os_WriteAt (h : handle) (b : list byte) (off : Z) : M os unit :=
  if decide (off < 0)%Z then fail os_NegativeOffset
  else write_with (overwrite (Z.to_nat off)) h b.
Definition os_Sync (h : handle) : M os unit :=
  check_handle h ;; syscall (modify (set_files (alter sync_bytes (h_path h)))).
Definition os_Truncate (h : handle) (n : nat) : M os unit :=
  check_handle h ;; syscall (modify (set_files (alter (truncate_bytes n) (h_path h)))).

(** [f.Close()]: the handle is unusable afterwards whatever is returned, so
    callers store [closed h]. *)
Definition os_Close (h : handle) : M os unit := check_handle h ;; syscall (ret tt).
Definition closed (h : handle) : handle := mk_handle (h_path h) HClosed.
Definition nil_handle (p : path) : handle := mk_handle p HNil.

(** ** Opening, renaming, removing *)

Definition empty_file : file := mk_file [] 0.

Definition os_MkdirAll (dir : string) : M os unit := syscall (ret tt).

(** [os.OpenFile(p, O_CREATE|O_RDWR|O_APPEND)] and [O_CREATE|O_RDWR]. *)
Definition os_OpenCreate (p : path) : M os handle :=
  syscall (modify (set_files (partial_alter (fun o => Some (default empty_file o)) p)) ;;
           ret (mk_handle p HOpen)).

(** [os.OpenFile(p, O_CREATE|O_RDWR|O_TRUNC)] and [os.Create]. *)
Definition os_OpenTrunc (p : path) : M os handle :=
  syscall (modify (set_files <[p := empty_file]>) ;; ret (mk_handle p HOpen)).

Definition os_Rename (old new : path) : M os unit :=
  syscall (fun w =>
    match files w !! old with
    | Some f => (Ret tt, set_files (fun m => <[new := f]> (delete old m)) w)
    | None => (Fail os_ErrNotExist, w)
    end).

Definition os_Remove (p : path) : M os unit :=
  syscall (fun w =>
    match files w !! p with
    | Some _ => (Ret tt, set_files (delete p) w)
    | None => (Fail os_ErrNotExist, w)
    end).

Definition os_IsNotExist (e : error) : bool := errors_Is e "os.ErrNotExist".

(** ** Sequential reading *)

(** An open read handle: the bytes still ahead, and whether the device fails
    behind them instead of reporting the end of the file. *)
Record reader := mk_reader { rd_data : list byte; rd_bad : bool }.

Definition os_Open (p : path) : M os reader :=
  f <- tick ;;
  match f with
  | FNone => fun w =>
      match files w !! p with
      | Some f => (Ret (mk_reader (data f) false), w)
      | None => (Fail os_ErrNotExist, w)
      end
  | FErr O => fail os_EIO
  | FErr (S n) => fun w =>
      match files w !! p with
      | Some f => (Ret (mk_reader (take n (data f)) true), w)
      | None => (Fail os_ErrNotExist, w)
      end
  | FCrash _ => fun w => (Crash, w)
  end.

(** [io.ReadFull(r, buf)] with [len(buf) = n]. *)
Definition io_ReadFull (n : Z) (r : reader) : error + (list byte * reader) :=
  let d := rd_data r in
  if decide (n <= Z.of_nat (length d))%Z
  then inr (take (Z.to_nat n) d, mk_reader (drop (Z.to_nat n) d) (rd_bad r))
  else if rd_bad r then inl os_EIO
  else if decide (d = []) then inl io_EOF
  else inl io_ErrUnexpectedEOF.

(** The two errors that end a sequential read without a device failure. *)
Definition is_eof (e : error) : bool :=
  errors_Is e "io.EOF" || errors_Is e "io.ErrUnexpectedEOF".

(** ** Positioned reads, and whole files *)

(** [f.ReadAt(buf, off)] with [len(buf) = n]: all of it, or an error. *)
Definition os_ReadAt (h : handle) (n off : Z) : M os (list byte) :=
  check_handle h ;;
  if decide (off < 0)%Z then fail os_NegativeOffset
  else syscall (fun w =>
    let d := match files w !! h_path h with Some f => data f | None => [] end in
    let b := take (Z.to_nat n) (drop (Z.to_nat off) d) in
    if decide (Z.of_nat (length b) < n)%Z then (Fail io_EOF, w) else (Ret b, w)).

(** [f.Stat()], of which the program uses the size. *)
Definition os_Stat_Size (h : handle) : M os Z :=
  check_handle h ;;
  syscall (gets (fun w => match files w !! h_path h with
                          | Some f => Z.of_nat (length (data f)) | None => 0%Z end)).

(** [os.WriteFile]: the file is truncated or created, written and closed. *)
Definition os_WriteFile (p : path) (b : list byte) : M os unit :=
  h <- os_OpenTrunc p ;;
  e1 <- try (os_Write h b) ;;
  e2 <- try (os_Close h) ;;
  match e1, e2 with
  | inl e, _ => fail e
  | _, inl e => fail e
  | _, _ => ret tt
  end.

(** [os.ReadFile] *)
Definition os_ReadFile (p : path) : M os (list byte) :=
  r <- os_Open p ;;
  if rd_bad r then fail os_EIO else ret (rd_data r).

(** ** Power loss *)

(** After a restart a file holds its synced bytes and any part of the rest:
    [keep p] is how much of the file at [p] the device retained. *)
Definition cut_file (k : nat) (f : file) : file :=
  let d := take (max (synced f) k) (data f) in mk_file d (length d).

Definition power_loss (keep : path -> nat) (w : os) : os :=
  mk_os (map_imap (fun p f => Some (cut_file (keep p) f)) (files w)) [].

(** ** Facts *)

(** Nothing fails from here on. *)
Definition calm (w : os) : Prop := sched w = [].

Definition open_at (h : handle) (p : path) : Prop := h_path h = p /\ h_state h = HOpen.

Lemma tick_calm w : calm w -> tick w = (Ret FNone, w).
Proof. unfold tick. by intros ->. Qed.

Lemma syscall_calm {A} (k : M os A) w : calm w -> syscall k w = k w.
Proof. intros H. unfold syscall. by rewrite (bind_run_Ret _ _ _ _ _ (tick_calm w H)). Qed.

Lemma check_handle_open h p w : open_at h p -> check_handle h w = (Ret tt, w).
Proof. intros [_ H]. unfold check_handle. by rewrite H. Qed.

Lemma calm_set_files f w : calm w -> calm (set_files f w).
Proof. done. Qed.

Lemma os_Write_calm h p b w :
  calm w -> open_at h p ->
  os_Write h b w = (Ret tt, set_files (alter (append_bytes b) p) w).
Proof.
  intros Hc Ho. unfold os_Write, write_with.
  rewrite (bind_run_Ret _ _ _ _ _ (check_handle_open h p w Ho)).
  rewrite (bind_run_Ret _ _ _ _ _ (tick_calm w Hc)). by destruct Ho as [-> _].
Qed.

Lemma os_WriteAt_calm h p b off w :
  calm w -> open_at h p -> (0 <= off)%Z ->
  os_WriteAt h b off w = (Ret tt, set_files (alter (overwrite (Z.to_nat off) b) p) w).
Proof.
  intros Hc Ho Hoff. unfold os_WriteAt, write_with. rewrite decide_False by lia.
  rewrite (bind_run_Ret _ _ _ _ _ (check_handle_open h p w Ho)).
  rewrite (bind_run_Ret _ _ _ _ _ (tick_calm w Hc)). by destruct Ho as [-> _].
Qed.

Lemma os_Sync_calm h p w :
  calm w -> open_at h p ->
  os_Sync h w = (Ret tt, set_files (alter sync_bytes p) w).
Proof.
  intros Hc Ho. unfold os_Sync.
  rewrite (bind_run_Ret _ _ _ _ _ (check_handle_open h p w Ho)).
  rewrite syscall_calm by done. by destruct Ho as [-> _].
Qed.

Lemma os_Truncate_calm h p n w :
  calm w -> open_at h p ->
  os_Truncate h n w = (Ret tt, set_files (alter (truncate_bytes n) p) w).
Proof.
  intros Hc Ho. unfold os_Truncate.
  rewrite (bind_run_Ret _ _ _ _ _ (check_handle_open h p w Ho)).
  rewrite syscall_calm by done. by destruct Ho as [-> _].
Qed.

Lemma os_Close_calm h p w : calm w -> open_at h p -> os_Close h w = (Ret tt, w).
Proof.
  intros Hc Ho. unfold os_Close.
  rewrite (bind_run_Ret _ _ _ _ _ (check_handle_open h p w Ho)).
  by rewrite syscall_calm.
Qed.

Lemma os_Open_calm p f w :
  calm w -> files w !! p = Some f -> os_Open p w = (Ret (mk_reader (data f) false), w).
Proof.
  intros Hc Hf. unfold os_Open. rewrite (bind_run_Ret _ _ _ _ _ (tick_calm w Hc)).
  by rewrite Hf.
Qed.

Lemma os_ReadAt_calm h p f n off w :
  calm w -> open_at h p -> files w !! p = Some f -> (0 <= off)%Z -> (0 <= n)%Z ->
  (off + n <= Z.of_nat (length (data f)))%Z ->
  os_ReadAt h n off w = (Ret (take (Z.to_nat n) (drop (Z.to_nat off) (data f))), w).
Proof.
  intros Hc Ho Hf Hoff Hn Hlen. unfold os_ReadAt.
  rewrite (bind_run_Ret _ _ _ _ _ (check_handle_open h p w Ho)).
  rewrite decide_False by lia. rewrite syscall_calm by done. destruct Ho as [-> _]. rewrite Hf.
  rewrite decide_False; [done|]. rewrite length_take, length_drop. lia.
Qed.

Lemma os_Stat_Size_calm h p f w :
  calm w -> open_at h p -> files w !! p = Some f ->
  os_Stat_Size h w = (Ret (Z.of_nat (length (data f))), w).
Proof.
  intros Hc Ho Hf. unfold os_Stat_Size.
  rewrite (bind_run_Ret _ _ _ _ _ (check_handle_open h p w Ho)).
  rewrite syscall_calm by done. destruct Ho as [-> _]. unfold gets. by rewrite Hf.
Qed.

Lemma os_OpenCreate_calm p w :
  calm w ->
  os_OpenCreate p w =
    (Ret (mk_handle p HOpen),
     set_files (partial_alter (fun o => Some (default empty_file o)) p) w).
Proof. intros. unfold os_OpenCreate. by rewrite syscall_calm. Qed.

Lemma os_OpenTrunc_calm p w :
  calm w ->
  os_OpenTrunc p w = (Ret (mk_handle p HOpen), set_files <[p := empty_file]> w).
Proof. intros. unfold os_OpenTrunc. by rewrite syscall_calm. Qed.

Lemma os_WriteFile_calm p b w :
  calm w ->
  os_WriteFile p b w = (Ret tt, set_files <[p := mk_file b 0]> w).
Proof.
  intros Hc. unfold os_WriteFile.
  assert (open_at (mk_handle p HOpen) p) as Ho by done.
  rewrite (bind_run_Ret _ _ _ _ _ (os_OpenTrunc_calm p w Hc)).
  erewrite bind_run_Ret by (apply try_run_Ret, (os_Write_calm _ p); done).
  erewrite bind_run_Ret by (apply try_run_Ret, (os_Close_calm _ p); done).
  unfold ret, set_files. simpl. by rewrite alter_insert_eq.
Qed.

Lemma os_ReadFile_calm p f w :
  calm w -> files w !! p = Some f -> os_ReadFile p w = (Ret (data f), w).
Proof.
  intros Hc Hf. unfold os_ReadFile. by rewrite (bind_run_Ret _ _ _ _ _ (os_Open_calm p f w Hc Hf)).
Qed.

Lemma os_Rename_calm old new f w :
  calm w -> files w !! old = Some f ->
  os_Rename old new w = (Ret tt, set_files (fun m => <[new := f]> (delete old m)) w).
Proof. intros Hc Hf. unfold os_Rename. rewrite syscall_calm by done. by rewrite Hf. Qed.

(** Opening with O_CREATE: a missing file appears, empty. *)
Definition created (p : path) (w : os) : os :=
  set_files (partial_alter (fun o => Some (default empty_file o)) p) w.

Lemma created_existing p f w : files w !! p = Some f -> created p w = w.
Proof.
  intros Hf. unfold created, set_files. destruct w as [m sc]; simpl in *. f_equal.
  apply map_eq. intros i. destruct (decide (i = p)) as [->|].
  - by rewrite lookup_partial_alter_eq, Hf.
  - by rewrite lookup_partial_alter_ne.
Qed.

Lemma open_existing p f w :
  calm w -> files w !! p = Some f -> os_OpenCreate p w = (Ret (mk_handle p HOpen), w).
Proof.
  intros Hc Hf. rewrite os_OpenCreate_calm by done. fold (created p w).
  by rewrite (created_existing p f).
Qed.

Lemma power_loss_lookup keep w p :
  files (power_loss keep w) !! p = cut_file (keep p) <$> files w !! p.
Proof. unfold power_loss. simpl. rewrite map_lookup_imap. by destruct (files w !! p). Qed.

Lemma power_loss_calm keep w : calm (power_loss keep w).
Proof. done. Qed.

(** A fully synced file survives whatever the device keeps. *)
Lemma cut_file_synced k f : synced f = length (data f) -> data (cut_file k f) = data f.
Proof. intros H. unfold cut_file. simpl. rewrite take_ge; [done | lia]. Qed.

Lemma io_ReadFull_app n b rest bad :
  n = Z.of_nat (length b) ->
  io_ReadFull n (mk_reader (b ++ rest) bad) = inr (b, mk_reader rest bad).
Proof.
  intros ->. unfold io_ReadFull. simpl.
  rewrite decide_True by (rewrite length_app; lia).
  by rewrite Nat2Z.id, take_app_length, drop_app_length.
Qed.

Lemma io_ReadFull_short n d :
  (Z.of_nat (length d) < n)%Z ->
  exists e, io_ReadFull n (mk_reader d false) = inl e /\ is_eof e = true.
Proof.
  intros H. unfold io_ReadFull. simpl. rewrite decide_False by lia.
  case_decide; eauto.
Qed.

Lemma io_ReadFull_inr n r b r' :
  (0 <= n)%Z -> io_ReadFull n r = inr (b, r') ->
  rd_data r = b ++ rd_data r' /\ Z.of_nat (length b) = n /\ rd_bad r' = rd_bad r.
Proof.
  intros Hn. unfold io_ReadFull. destruct (decide _) as [Hl|]; [|by repeat case_match].
  intros [= <- <-]; simpl. rewrite take_drop, length_take. split_and!; [done|lia|done].
Qed.

(** No system call runs out of fuel. *)
Lemma ends_tick : ends tick.
Proof. intros w. unfold tick. by destruct (sched w). Qed.
#[export] Hint Resolve ends_tick : go_ends.

Lemma ends_syscall {A} (k : M os A) : ends k -> ends (syscall k).
Proof. intros Hk. apply ends_bind; [apply ends_tick|]. intros []; auto with go_ends. by intros w. Qed.
#[export] Hint Resolve ends_syscall : go_ends.

Lemma ends_check_handle h : ends (check_handle h).
Proof. unfold check_handle. destruct (h_state h); auto with go_ends. Qed.
#[export] Hint Resolve ends_check_handle : go_ends.

Lemma ends_write_with upd h b : ends (write_with upd h b).
Proof.
  unfold write_with. apply ends_bind; [auto with go_ends|]. intros [].
  apply ends_bind; [auto with go_ends|]. intros []; auto with go_ends.
  apply ends_bind; [auto with go_ends|]. by intros [] w.
Qed.
#[export] Hint Resolve ends_write_with : go_ends.

Lemma ends_os_Open p : ends (os_Open p).
Proof.
  apply ends_bind; [auto with go_ends|]. intros [|[]|]; auto with go_ends; intros w; simpl.
  all: try done; by destruct (files w !! p).
Qed.
#[export] Hint Resolve ends_os_Open : go_ends.

Lemma ends_os_Rename old new : ends (os_Rename old new).
Proof. apply ends_syscall. intros w. by destruct (files w !! old). Qed.

Lemma ends_os_Remove p : ends (os_Remove p).
Proof. apply ends_syscall. intros w. by destruct (files w !! p). Qed.
#[export] Hint Resolve ends_os_Rename ends_os_Remove : go_ends.

Lemma ends_os_Sync h : ends (os_Sync h).
Proof. unfold os_Sync. auto with go_ends. Qed.
Lemma ends_os_Truncate h n : ends (os_Truncate h n).
Proof. unfold os_Truncate. auto with go_ends. Qed.
Lemma ends_os_Close h : ends (os_Close h).
Proof. unfold os_Close. auto with go_ends. Qed.
Lemma ends_os_OpenCreate p : ends (os_OpenCreate p).
Proof. unfold os_OpenCreate. auto with go_ends. Qed.
Lemma ends_os_OpenTrunc p : ends (os_OpenTrunc p).
Proof. unfold os_OpenTrunc. auto with go_ends. Qed.
Lemma ends_os_MkdirAll d : ends (os_MkdirAll d).
Proof. unfold os_MkdirAll. auto with go_ends. Qed.
#[export] Hint Resolve ends_os_Sync ends_os_Truncate ends_os_Close ends_os_OpenCreate
  ends_os_OpenTrunc ends_os_MkdirAll : go_ends.

Lemma ends_os_WriteAt h b off : ends (os_WriteAt h b off).
Proof. unfold os_WriteAt. case_decide; auto with go_ends. Qed.
Lemma ends_os_ReadAt h n off : ends (os_ReadAt h n off).
Proof.
  apply ends_bind; [auto with go_ends|]. intros []. case_decide; [auto with go_ends|].
  apply ends_syscall. intros w. cbv zeta. by destruct (decide _).
Qed.
Lemma ends_os_WriteFile p b : ends (os_WriteFile p b).
Proof.
  unfold os_WriteFile. apply ends_bind; [auto with go_ends|]. intros h.
  apply ends_bind; [apply ends_try; unfold os_Write; auto with go_ends|]. intros r1.
  apply ends_bind; [auto with go_ends|]. intros r2. destruct r1, r2; auto with go_ends.
Qed.
#[export] Hint Resolve ends_os_WriteAt ends_os_ReadAt ends_os_WriteFile : go_ends.
Lemma ends_os_ReadFile p : ends (os_ReadFile p).
Proof. apply ends_bind; [auto with go_ends|]. intros r. destruct (rd_bad r); auto with go_ends. Qed.
Lemma ends_os_Stat_Size h : ends (os_Stat_Size h).
Proof. unfold os_Stat_Size. auto with go_ends. Qed.
#[export] Hint Resolve ends_os_ReadFile ends_os_Stat_Size : go_ends.
