(* ===== verification/OsFaults.v ===== *)
(** System calls under an arbitrary fault schedule: what each may leave behind
    when it fails or the process dies in it, as equations and as Hoare rules on the
    contents of the file system. *)
From stdpp Require Import base list strings gmap.
From Stdlib Require Import ZArith Lia.
From S2P Require Import Prelude Errors Go Bytes Os.

(** ** Single calls under any schedule *)

(** The two ways a call with an [error] result does not succeed. *)
Definition failed {A} (r : out A) : Prop := (exists e, r = Fail e) \/ r = Crash.

Lemma failed_Fail {A} e : failed (Fail e : out A).
Proof. left. by exists e. Qed.

Lemma failed_Crash {A} : failed (Crash : out A).
Proof. by right. Qed.

Create HintDb go_failed.
#[export] Hint Resolve failed_Fail failed_Crash : go_failed.

Lemma tick_any w : exists f s, tick w = (Ret f, mk_os (files w) s).
Proof. unfold tick. destruct w as [m [|f s]]; simpl; eauto. Qed.

Lemma write_with_any upd h p b w f :
  open_at h p -> files w !! p = Some f ->
  exists r w' j,
    write_with upd h b w = (r, w') /\
    files w' = <[p := upd (take j b) f]> (files w) /\
    (r = Ret tt /\ take j b = b \/ failed r).
Proof.
  intros Ho Hf. unfold write_with.
  rewrite (bind_run_Ret _ _ _ _ _ (check_handle_open h p w Ho)).
  destruct (tick_any w) as (ft & s & Ht). rewrite (bind_run_Ret _ _ _ _ _ Ht).
  destruct Ho as [-> _]. destruct ft as [|n|n]; eexists _, _.
  - exists (length b). rewrite firstn_all. split_and!; [done| |by left].
    simpl. by apply alter_alt_Some.
  - exists n. split_and!; [done| |right; left; by eexists].
    simpl. by apply alter_alt_Some.
  - exists n. split_and!; [done| |by right; right]. simpl. by apply alter_alt_Some.
Qed.

Lemma os_Write_any h p b w f :
  open_at h p -> files w !! p = Some f ->
  exists r w' j,
    os_Write h b w = (r, w') /\
    files w' = <[p := append_bytes (take j b) f]> (files w) /\
    (r = Ret tt /\ take j b = b \/ failed r).
Proof. apply write_with_any. Qed.

Lemma os_WriteAt_any h p b off w f :
  open_at h p -> files w !! p = Some f -> (0 <= off)%Z ->
  exists r w' j,
    os_WriteAt h b off w = (r, w') /\
    files w' = <[p := overwrite (Z.to_nat off) (take j b) f]> (files w) /\
    (r = Ret tt /\ take j b = b \/ failed r).
Proof.
  intros Ho Hf Hoff. unfold os_WriteAt. rewrite decide_False by lia. by apply write_with_any.
Qed.

Lemma os_Sync_any h p w f :
  open_at h p -> files w !! p = Some f ->
  exists r w',
    os_Sync h w = (r, w') /\
    (r = Ret tt /\ files w' = <[p := sync_bytes f]> (files w) \/
     failed r /\ files w' = files w).
Proof.
  intros Ho Hf. unfold os_Sync, syscall.
  rewrite (bind_run_Ret _ _ _ _ _ (check_handle_open h p w Ho)).
  destruct (tick_any w) as (ft & s & Ht). rewrite (bind_run_Ret _ _ _ _ _ Ht).
  destruct Ho as [-> _]. destruct ft as [|n|n]; eexists _, _; (split; [done|]).
  - left. split; [done|]. simpl. by apply alter_alt_Some.
  - right. split; [left; by eexists|done].
  - right. by split; [right|].
Qed.

Lemma os_Truncate_any h p n w f :
  open_at h p -> files w !! p = Some f ->
  exists r w',
    os_Truncate h n w = (r, w') /\
    (r = Ret tt /\ files w' = <[p := truncate_bytes n f]> (files w) \/
     failed r /\ files w' = files w).
Proof.
  intros Ho Hf. unfold os_Truncate, syscall.
  rewrite (bind_run_Ret _ _ _ _ _ (check_handle_open h p w Ho)).
  destruct (tick_any w) as (ft & s & Ht). rewrite (bind_run_Ret _ _ _ _ _ Ht).
  destruct Ho as [-> _]. destruct ft as [|n'|n']; eexists _, _; (split; [done|]).
  - left. split; [done|]. simpl. by apply alter_alt_Some.
  - right. split; [auto with go_failed|done].
  - right. split; [auto with go_failed|done].
Qed.

Lemma os_ReadAt_any h p n off w f :
  open_at h p -> files w !! p = Some f ->
  exists r w', os_ReadAt h n off w = (r, w') /\ files w' = files w /\
    (failed r \/ r = fst (os_ReadAt h n off (mk_os (files w) []))).
Proof.
  intros Ho Hf. unfold os_ReadAt, syscall.
  rewrite (bind_run_Ret _ _ _ _ _ (check_handle_open h p w Ho)).
  rewrite (bind_run_Ret _ _ _ _ _ (check_handle_open h p (mk_os (files w) []) Ho)).
  case_decide; [eexists _, _; split_and!; [done..|left; auto with go_failed]|].
  destruct (tick_any w) as (ft & s & Ht). rewrite (bind_run_Ret _ _ _ _ _ Ht).
  destruct Ho as [-> _]. destruct ft as [|n'|n'].
  - unfold bind, tick. simpl. rewrite Hf. case_decide; eexists _, _; split_and!; eauto with go_failed.
  - eexists _, _; split_and!; [done..|left; auto with go_failed].
  - eexists _, _; split_and!; [done..|left; auto with go_failed].
Qed.

Lemma os_WriteFile_any p b w :
  exists r w', os_WriteFile p b w = (r, w') /\ (r = Ret tt \/ failed r) /\
    (forall p', p' <> p -> files w' !! p' = files w !! p').
Proof.
  unfold os_WriteFile, os_OpenTrunc, syscall, bind at 1 2 3.
  destruct (tick_any w) as (ft & s & Ht). rewrite Ht.
  destruct ft as [|n|n]; [|eexists _, _; split_and!; eauto with go_failed..].
  unfold modify, ret at 1. cbv beta iota.
  set (w1 := set_files _ _).
  destruct (os_Write_any (mk_handle p HOpen) p b w1 empty_file) as (r1 & w2 & j & E1 & F1 & R1);
    [done|by simpl; rewrite lookup_insert_eq|].
  assert (forall p', p' <> p -> files w2 !! p' = files w !! p') as Hoth.
  { intros p' Hp. rewrite F1. simpl. by rewrite !lookup_insert_ne by done. }
  assert (exists r3 w3, os_Close (mk_handle p HOpen) w2 = (r3, w3) /\ files w3 = files w2 /\
    (r3 = Ret tt \/ failed r3)) as (r3 & w3 & E3 & F3 & R3).
  { unfold os_Close, check_handle, syscall, bind, ret, fail. simpl.
    destruct (tick_any w2) as (ft & s3 & ->). destruct ft; eexists _, _; split_and!; eauto with go_failed. }
  unfold bind, try. rewrite E1.
  destruct R1 as [[-> _]|[[e ->]| ->]]; rewrite ?E3.
  3: { eexists _, _; split_and!; eauto with go_failed. }
  all: destruct R3 as [->|[[e3 ->]| ->]]; eexists _, _; split_and!; eauto with go_failed;
    intros; rewrite F3; auto.
Qed.

(** ** Hoare rules *)

Section os_hoare.
Implicit Types P E : gmap path file -> Prop.

(** A predicate on the contents of the file system. *)
Definition holds P (w : os) : Prop := P (files w).

Lemma hoare_syscall {A} P (k : M os A) Q E :
  hoare (holds P) k Q (holds E) -> (forall m, P m -> E m) ->
  hoare (holds P) (syscall k) Q (holds E).
Proof.
  intros Hk HE w Hw. unfold syscall. destruct (tick_any w) as (f & s & Ht).
  rewrite (bind_run_Ret _ _ _ _ _ Ht). destruct f; simpl; [|by apply HE|by apply HE].
  by apply (Hk (mk_os (files w) s)).
Qed.

Lemma hoare_check_handle (h : handle) P : hoare (holds P) (check_handle h) (fun _ => holds P) (holds P).
Proof. intros w Hw. unfold check_handle. by destruct (h_state h). Qed.

Lemma hoare_os_Close (h : handle) P : hoare (holds P) (os_Close h) (fun _ => holds P) (holds P).
Proof.
  eapply hoare_bind; [apply hoare_check_handle|]. intros [].
  apply hoare_syscall; [|done]. by intros w Hw.
Qed.

Lemma hoare_os_Sync (h : handle) (p : path) P (P' E : gmap path file -> Prop) :
  open_at h p -> (forall m, P m -> P' (alter sync_bytes p m)) -> (forall m, P m -> E m) ->
  hoare (holds P) (os_Sync h) (fun _ => holds P') (holds E).
Proof.
  intros Ho HP HE w Hw. unfold os_Sync.
  rewrite (bind_run_Ret _ _ _ _ _ (check_handle_open h p w Ho)).
  destruct Ho as [Hp _]. rewrite Hp.
  refine (hoare_syscall P _ (fun _ => holds P') E _ HE w Hw).
  intros w1 Hw1. by apply HP.
Qed.

Lemma hoare_os_Remove (p : path) P :
  (forall m, P m -> P (delete p m)) -> hoare (holds P) (os_Remove p) (fun _ => holds P) (holds P).
Proof.
  intros HP. apply hoare_syscall; [|done]. intros w Hw.
  destruct (files w !! p); [by apply HP|done].
Qed.

Lemma hoare_os_OpenTrunc (p : path) P (P' E : gmap path file -> Prop) :
  (forall m, P m -> P' (<[p := empty_file]> m)) -> (forall m, P m -> E m) ->
  hoare (holds P) (os_OpenTrunc p) (fun h w => h = mk_handle p HOpen /\ holds P' w) (holds E).
Proof.
  intros HP HE. apply hoare_syscall; [|done]. intros w Hw. split; [done|]. by apply HP.
Qed.

Lemma hoare_os_OpenCreate (p : path) P :
  (forall m, P m -> is_Some (m !! p)) ->
  hoare (holds P) (os_OpenCreate p) (fun _ => holds P) (holds P).
Proof.
  intros HP. apply hoare_syscall; [|done]. intros w Hw. destruct (HP _ Hw) as [f Hf].
  unfold holds. simpl.
  replace (partial_alter _ p (files w)) with (files w); [done|].
  apply map_eq. intros i. destruct (decide (i = p)) as [->|].
  - by rewrite lookup_partial_alter_eq, Hf.
  - by rewrite lookup_partial_alter_ne.
Qed.

Lemma hoare_os_Rename (old new : path) P (P' E : gmap path file -> Prop) :
  (forall m f, P m -> m !! old = Some f -> P' (<[new := f]> (delete old m))) ->
  (forall m, P m -> E m) ->
  hoare (holds P) (os_Rename old new) (fun _ => holds P') (holds E).
Proof.
  intros HP HE. apply hoare_syscall; [|done]. intros w Hw.
  destruct (files w !! old) as [f|] eqn:Hf; [by apply HP|by apply HE].
Qed.

Lemma hoare_os_Open (p : path) P : hoare (holds P)
  (os_Open p)
  (fun r w => holds P w /\ exists f, files w !! p = Some f /\
     (r = mk_reader (data f) false \/ rd_bad r = true)) (holds P).
Proof.
  intros w Hw. unfold os_Open. destruct (tick_any w) as (ft & s & Ht).
  rewrite (bind_run_Ret _ _ _ _ _ Ht). destruct ft as [|[|n]|n]; simpl; try exact Hw.
  all: destruct (files w !! p) as [f|] eqn:Hf; simpl; try exact Hw.
  all: split; [done|]; exists f; auto.
Qed.

End os_hoare.

(** A call on the file system beside an object in a fixed state. *)
Lemma hoare_on_snd {S A} (R : S -> Prop) (P : os -> Prop) (m : M os A) Q E :
  hoare P m Q E ->
  hoare (fun st : S * os => R (fst st) /\ P (snd st)) (on_snd m)
    (fun a st => R (fst st) /\ Q a (snd st)) (fun st => R (fst st) /\ E (snd st)).
Proof.
  intros Hm [s t] [HR HP]. specialize (Hm t HP). simpl. by destruct (m t) as [[] t'].
Qed.
