(* ===== verification/Proto.v ===== *)
(** proto/ingestor/v1: the event message, and the interface to the protobuf
    runtime (google.golang.org/protobuf/proto), which is third-party code.

    [Codec] is what the program calls; [CodecLaws] is the documented behaviour it
    relies on: what [Marshal] wrote, [Unmarshal] reads back. [FrameCodec] is one
    concrete codec with that law, used to evaluate the development. *)
From stdpp Require Import base list strings.
From Stdlib Require Import ZArith Lia.
From S2P Require Import Prelude Errors Bytes GoStrings.

(** The message's fields; the runtime's private state carries no data. *)
Record IngestRequest := mk_event {
  EventId : string;
  Source : string;
  Payload : string;
  Timestamp : Z;
  TenantId : string
}.

#[export] Instance IngestRequest_eq_dec : EqDecision IngestRequest.
Proof. solve_decision. Defined.

#[export] Instance IngestRequest_inhabited : Inhabited IngestRequest :=
  populate (mk_event "" "" "" 0 "").

Class Codec := {
  proto_Marshal : IngestRequest -> error + list byte;
  proto_Unmarshal : list byte -> error + IngestRequest
}.

Class CodecLaws (C : Codec) : Prop :=
  unmarshal_marshal : forall e d, proto_Marshal e = inr d -> proto_Unmarshal d = inr e.

(** A concrete codec: four length-prefixed strings around a 64-bit timestamp.
    It refuses what does not fit its prefixes. *)
Module FrameCodec.
Local Open Scope Z_scope.

Definition put_string (s : string) : list byte :=
  put_uint32 (Z.of_nat (length (to_bytes s))) ++ to_bytes s.

Definition get_string (b : list byte) : option (string * list byte) :=
  if decide (4 <= length b)%nat then
    let n := Z.to_nat (be_uint (take 4 b)) in
    let b' := drop 4 b in
    if decide (n <= length b')%nat then Some (of_bytes (take n b'), drop n b') else None
  else None.

Definition fits (s : string) : bool :=
  bool_decide (Z.of_nat (length (to_bytes s)) < 2 ^ 32).

Definition int64_range (t : Z) : bool := bool_decide (- 2 ^ 63 <= t < 2 ^ 63).

Definition marshal (e : IngestRequest) : error + list byte :=
  if fits (EventId e) && fits (Source e) && fits (Payload e) && fits (TenantId e)
     && int64_range (Timestamp e)
  then inr (put_string (EventId e) ++ put_string (Source e) ++ put_string (Payload e)
            ++ put_string (TenantId e) ++ put_uint64 (Timestamp e))
  else inl (ErrNew "message too large").

(** [int64(u)]: two's complement. *)
Definition int64_of (u : Z) : Z := if bool_decide (u < 2 ^ 63) then u else u - 2 ^ 64.

Definition unmarshal (b : list byte) : error + IngestRequest :=
  match get_string b with
  | Some (i, b) =>
    match get_string b with
    | Some (s, b) =>
      match get_string b with
      | Some (p, b) =>
        match get_string b with
        | Some (t, b) =>
            if decide (length b = 8)%nat
            then inr (mk_event i s p (int64_of (be_uint b)) t)
            else inl (ErrNew "invalid wire data")
        | None => inl (ErrNew "invalid wire data")
        end
      | None => inl (ErrNew "invalid wire data")
      end
    | None => inl (ErrNew "invalid wire data")
    end
  | None => inl (ErrNew "invalid wire data")
  end.

Lemma get_put_string s rest :
  fits s = true -> get_string (put_string s ++ rest) = Some (s, rest).
Proof.
  intros Hf%bool_decide_eq_true. unfold get_string, put_string.
  rewrite <- !app_assoc.
  rewrite decide_True by (rewrite length_app, length_put_uint32; lia).
  rewrite (take_app_length' _ _ 4), (drop_app_length' _ _ 4)
    by (by rewrite length_put_uint32).
  rewrite be_uint_put_uint32, Nat2Z.id by lia.
  rewrite decide_True by (rewrite length_app; lia).
  rewrite take_app_length, drop_app_length.
  by rewrite of_to_bytes.
Qed.

Lemma int64_of_mod t : - 2 ^ 63 <= t < 2 ^ 63 -> int64_of (t mod 2 ^ 64) = t.
Proof.
  intros H. unfold int64_of. destruct (decide (0 <= t)).
  - rewrite Z.mod_small by lia. by rewrite bool_decide_true by lia.
  - replace (t mod 2 ^ 64) with (t + 2 ^ 64)
      by (rewrite <- (Z.mod_small (t + 2 ^ 64) (2 ^ 64)) by lia;
          rewrite <- (Z_mod_plus_full t 1 (2 ^ 64)); f_equal; lia).
    rewrite bool_decide_false by lia. lia.
Qed.

#[export] Instance codec : Codec :=
  {| proto_Marshal := marshal; proto_Unmarshal := unmarshal |}.

#[export] Instance codec_laws : CodecLaws codec.
Proof.
  intros e d. unfold proto_Marshal, proto_Unmarshal, codec, marshal.
  destruct (fits (EventId e)) eqn:H1, (fits (Source e)) eqn:H2,
    (fits (Payload e)) eqn:H3, (fits (TenantId e)) eqn:H4,
    (int64_range (Timestamp e)) eqn:H5; cbn [andb]; try discriminate.
  intros H; apply (inj inr) in H; subst d. unfold unmarshal. rewrite !get_put_string by done.
  rewrite decide_True by apply length_put_uint64.
  unfold put_uint64. rewrite be_uint_put_be. change (8 * Z.of_nat 8) with 64.
  unfold int64_range in H5. apply bool_decide_eq_true in H5. rewrite int64_of_mod by done.
  by destruct e.
Qed.
End FrameCodec.
