(* ===== verification/Wal.v ===== *)
(** internal/wal: the sequence tracker, the no-op log and the file log.

    A log file is a sequence of records, each a 12-byte header (64-bit
    sequence number, 32-bit payload length, big endian) and the payload;
    the ack file is a sequence of 8-byte sequence numbers. [FileWAL] keeps
    two open handles, the last sequence number and the acknowledged set;
    its methods run on the pair of that record and the file system of Os.v.
    Each method holds [fw.mu] throughout and is one step here. *)
From stdpp Require Import base list strings gmap sets.
From Stdlib Require Import ZArith Lia.
From S2P Require Import Prelude Errors Go Bytes Os Proto.

(** wal.go: what [Recover] returns. *)
Record Entry := mk_entry { SeqNum : Z; Event : IngestRequest }.

#[export] Instance Entry_eq_dec : EqDecision Entry.
Proof. solve_decision. Defined.

(** wal.go: the interface [WAL]. *)
Class WAL (W : Type) := {
  wal_Append : IngestRequest -> M W Z;
  wal_Acknowledge : Z -> M W unit;
  wal_Recover : M W (list Entry);
  wal_Close : M W unit
}.

(** ** tracker.go *)
Module SeqTracker.

Record SeqTracker := mk { data : gmap string Z }.

Definition NewSeqTracker : SeqTracker := mk ∅.

Definition Store (eventID : string) (seqNum : Z) (t : SeqTracker) : SeqTracker :=
  mk (<[eventID := seqNum]> (data t)).

(** The result is [seq, ok]: the zero value when the key is absent. *)
Definition LoadAndDelete (eventID : string) (t : SeqTracker) : (Z * bool) * SeqTracker :=
  match data t !! eventID with
  | Some seq => ((seq, true), mk (delete eventID (data t)))
  | None => ((0%Z, false), t)
  end.

Definition Len (t : SeqTracker) : nat := size (data t).

End SeqTracker.

(** ** noop_wal.go *)
Module NoOpWAL.

Record NoOpWAL := mk { seq : Z }.

Definition NewNoOpWAL : NoOpWAL := mk 0.

Definition Append (_ : IngestRequest) : M NoOpWAL Z :=
  modify (fun n => mk (uint64 (seq n + 1))) ;; gets seq.

Definition Acknowledge (_ : Z) : M NoOpWAL unit := ret tt.
Definition Recover : M NoOpWAL (list Entry) := ret [].
Definition Close : M NoOpWAL unit := ret tt.

#[global] Instance wal : WAL NoOpWAL :=
  {| wal_Append := Append; wal_Acknowledge := Acknowledge;
     wal_Recover := Recover; wal_Close := Close |}.

End NoOpWAL.

(** ** file_wal.go: records *)
Definition walFileName : string := "wal.log".
Definition ackFileName : string := "wal.ack".
Definition headerSize : nat := 12.

Record record := mk_record { r_seq : Z; r_payload : list byte }.

(** [header[0:8]], [header[8:12]]. *)
Definition record_header (rec : record) : list byte :=
  put_uint64 (r_seq rec) ++ put_uint32 (uint32 (Z.of_nat (length (r_payload rec)))).

Definition writeRecord (h : handle) (rec : record) : M os unit :=
  os_Write h (record_header rec) ;;
  os_Write h (r_payload rec).

Definition readRecord (r : reader) : error + (record * reader) :=
  match io_ReadFull (Z.of_nat headerSize) r with
  | inl err => inl err
  | inr (header, r1) =>
      let seq := be_uint (take 8 header) in
      let length := be_uint (drop 8 header) in
      match io_ReadFull length r1 with
      | inl err => inl err
      | inr (payload, r2) => inr (mk_record seq payload, r2)
      end
  end.

(** The read loop that Recover, Checkpoint and loadMaxSeq share: it stops at
    [io.EOF] or [io.ErrUnexpectedEOF], returns any other error through [onerr],
    and folds the loop body over the records. *)
Fixpoint for_records {A} (fuel : nat) (onerr : error -> error) (body : A -> record -> A)
    (acc : A) (r : reader) : out A :=
  match fuel with
  | O => NoFuel
  | S fuel =>
      match readRecord r with
      | inl err => if is_eof err then Ret acc else Fail (onerr err)
      | inr (rec, r') => for_records fuel onerr body (body acc rec) r'
      end
  end.

(** One more than the number of bytes ahead: every record takes at least 12. *)
Definition loop_fuel (r : reader) : nat := S (length (rd_data r)).

(** ** file_wal.go: the log *)
Module FileWAL.
Section FileWAL.
Context `{C : Codec}.

Record FileWAL := mk {
  dir : string;
  walFile : handle;
  ackFile : handle;
  seq : Z;
  acked : gset Z
}.

Definition walPath (fw : FileWAL) : path := filepath_Join (dir fw) walFileName.
Definition ackPath (fw : FileWAL) : path := filepath_Join (dir fw) ackFileName.
(** [walPath + ".tmp"] *)
Definition tmpPath (fw : FileWAL) : path := filepath_Join (dir fw) (walFileName +:+ ".tmp").

Definition set_seq (s : Z) (fw : FileWAL) : FileWAL :=
  mk (dir fw) (walFile fw) (ackFile fw) s (acked fw).
Definition set_acked (a : gset Z) (fw : FileWAL) : FileWAL :=
  mk (dir fw) (walFile fw) (ackFile fw) (seq fw) a.
Definition set_walFile (h : handle) (fw : FileWAL) : FileWAL :=
  mk (dir fw) h (ackFile fw) (seq fw) (acked fw).
Definition set_ackFile (h : handle) (fw : FileWAL) : FileWAL :=
  mk (dir fw) (walFile fw) h (seq fw) (acked fw).

Definition this : M (FileWAL * os) FileWAL := on_fst (gets id).
Definition update (f : FileWAL -> FileWAL) : M (FileWAL * os) unit := on_fst (modify f).

Definition Append (event : IngestRequest) : M (FileWAL * os) Z :=
  match proto_Marshal event with
  | inl err => fail (ErrWrap "wal: marshal event: " err)
  | inr data =>
      update (fun fw => set_seq (uint64 (seq fw + 1)) fw) ;;
      fw <- this ;;
      let seqNum := seq fw in
      wrapping "wal: write record: "
        (on_snd (writeRecord (walFile fw) (mk_record seqNum data))) ;;
      wrapping "wal: sync: " (on_snd (os_Sync (walFile fw))) ;;
      ret seqNum
  end.

Definition Acknowledge (seqNum : Z) : M (FileWAL * os) unit :=
  update (fun fw => set_acked ({[seqNum]} ∪ acked fw) fw) ;;
  fw <- this ;;
  wrapping "wal: write ack: " (on_snd (os_Write (ackFile fw) (put_uint64 seqNum))).

(** The body of Recover's loop; a record that does not decode is skipped. *)
Definition recover_body (acked : gset Z) (entries : list Entry) (rec : record) : list Entry :=
  if decide (r_seq rec ∈ acked) then entries
  else match proto_Unmarshal (r_payload rec) with
       | inl _ => entries
       | inr event => entries ++ [mk_entry (r_seq rec) event]
       end.

Definition Recover : M (FileWAL * os) (list Entry) :=
  fw <- this ;;
  f <- try (on_snd (os_Open (walPath fw))) ;;
  match f with
  | inl err =>
      if os_IsNotExist err then ret []
      else fail (ErrWrap "wal: open for recovery: " err)
  | inr r =>
      of_out (for_records (loop_fuel r) (ErrWrap "wal: read record: ")
                (recover_body (acked fw)) [] r)
  end.

(** All four calls run; the handles are closed whatever they return. *)
Definition Close : M (FileWAL * os) unit :=
  fw <- this ;;
  e1 <- try (on_snd (os_Sync (walFile fw))) ;;
  e2 <- try (on_snd (os_Close (walFile fw))) ;;
  e3 <- try (on_snd (os_Sync (ackFile fw))) ;;
  e4 <- try (on_snd (os_Close (ackFile fw))) ;;
  update (fun fw => set_ackFile (closed (ackFile fw)) (set_walFile (closed (walFile fw)) fw)) ;;
  let err_of (e : error + unit) := match e with inl x => Some x | inr _ => None end in
  match errors_Join (err_of <$> [e1; e2; e3; e4]) with
  | Some e => fail e
  | None => ret tt
  end.

Definition checkpoint_body (acked : gset Z) (kept : list record) (rec : record) : list record :=
  if decide (r_seq rec ∈ acked) then kept else kept ++ [rec].

(** The failure exits of the temporary file: close it, remove it, report. *)
Definition abandon_tmp (tmpFile : handle) (tmp : path) (err : error) : M (FileWAL * os) unit :=
  ignore (on_snd (os_Close tmpFile)) ;;
  ignore (on_snd (os_Remove tmp)) ;;
  fail err.

(** From the rename on: the new log is put in place, both handles are reopened
    and the acknowledged set is emptied. *)
Definition checkpoint_swap : M (FileWAL * os) unit :=
  fw <- this ;;
  ignore (on_snd (os_Close (walFile fw))) ;;
  update (set_walFile (closed (walFile fw))) ;;
  wrapping "wal: rename tmp: " (on_snd (os_Rename (tmpPath fw) (walPath fw))) ;;
  h <- try (on_snd (os_OpenCreate (walPath fw))) ;;
  match h with
  | inl err =>
      update (set_walFile (nil_handle (walPath fw))) ;;
      fail (ErrWrap "wal: reopen after checkpoint: " err)
  | inr h =>
      update (set_walFile h) ;;
      ignore (on_snd (os_Close (ackFile fw))) ;;
      update (set_ackFile (closed (ackFile fw))) ;;
      a <- try (on_snd (os_OpenTrunc (ackPath fw))) ;;
      match a with
      | inl err =>
          update (set_ackFile (nil_handle (ackPath fw))) ;;
          fail (ErrWrap "wal: reopen ack after checkpoint: " err)
      | inr a =>
          update (set_ackFile a) ;;
          update (set_acked ∅)
      end
  end.

Definition Checkpoint : M (FileWAL * os) unit :=
  fw <- this ;;
  f <- wrapping "wal: open for checkpoint: " (on_snd (os_Open (walPath fw))) ;;
  kept <- of_out (for_records (loop_fuel f) (ErrWrap "wal: checkpoint read record: ")
                    (checkpoint_body (acked fw)) [] f) ;;
  tmpFile <- wrapping "wal: create tmp: " (on_snd (os_OpenTrunc (tmpPath fw))) ;;
  w <- try (on_snd (for_each (writeRecord tmpFile) kept)) ;;
  match w with
  | inl err => abandon_tmp tmpFile (tmpPath fw) (ErrWrap "wal: write tmp record: " err)
  | inr _ =>
      s <- try (on_snd (os_Sync tmpFile)) ;;
      match s with
      | inl err => abandon_tmp tmpFile (tmpPath fw) (ErrWrap "wal: sync tmp: " err)
      | inr _ => ignore (on_snd (os_Close tmpFile)) ;; checkpoint_swap
      end
  end.

Fixpoint for_acks (fuel : nat) (acked : gset Z) (r : reader) : out (gset Z) :=
  match fuel with
  | O => NoFuel
  | S fuel =>
      match io_ReadFull 8 r with
      | inl err => if is_eof err then Ret acked else Fail err
      | inr (buf, r') => for_acks fuel ({[be_uint buf]} ∪ acked) r'
      end
  end.

(** Both loaders treat a missing file as an empty one. *)
Definition open_or_empty (p : path) : M (FileWAL * os) (option reader) :=
  f <- try (on_snd (os_Open p)) ;;
  match f with
  | inl err => if os_IsNotExist err then ret None else fail err
  | inr r => ret (Some r)
  end.

Definition loadAcked : M (FileWAL * os) unit :=
  fw <- this ;;
  f <- open_or_empty (ackPath fw) ;;
  match f with
  | None => ret tt
  | Some r => a <- of_out (for_acks (loop_fuel r) (acked fw) r) ;; update (set_acked a)
  end.

Definition max_body (m : Z) (rec : record) : Z := if decide (m < r_seq rec)%Z then r_seq rec else m.

Definition loadMaxSeq : M (FileWAL * os) unit :=
  fw <- this ;;
  f <- open_or_empty (walPath fw) ;;
  match f with
  | None => ret tt
  | Some r => s <- of_out (for_records (loop_fuel r) id max_body (seq fw) r) ;; update (set_seq s)
  end.

Definition NewFileWAL (d : string) : M os FileWAL :=
  wrapping "wal: create dir: " (os_MkdirAll d) ;;
  walFile <- wrapping "wal: open wal file: " (os_OpenCreate (filepath_Join d walFileName)) ;;
  a <- try (os_OpenCreate (filepath_Join d ackFileName)) ;;
  match a with
  | inl err => ignore (os_Close walFile) ;; fail (ErrWrap "wal: open ack file: " err)
  | inr ackFile =>
      let abandon pre err :=
        ignore (os_Close walFile) ;; ignore (os_Close ackFile) ;; fail (ErrWrap pre err) in
      l <- try (run_local (mk d walFile ackFile 0 ∅) loadAcked) ;;
      match l with
      | inl err => abandon "wal: load acked: "%string err
      | inr (_, fw) =>
          m <- try (run_local fw loadMaxSeq) ;;
          match m with
          | inl err => abandon "wal: load max seq: "%string err
          | inr (_, fw) => ret fw
          end
      end
  end.

#[global] Instance wal : WAL (FileWAL * os) :=
  {| wal_Append := Append; wal_Acknowledge := Acknowledge;
     wal_Recover := Recover; wal_Close := Close |}.

End FileWAL.
End FileWAL.
