(* ===== verification/WalFormat.v ===== *)
(** The on-disk format of the log: what [writeRecord] lays down, [readRecord]
    takes back; the read loops on well-formed, torn and arbitrary files. *)
From stdpp Require Import base list strings gmap sets.
From Stdlib Require Import ZArith Lia.
From S2P Require Import Prelude Errors Go Bytes Os Proto Wal.

(** The bytes of a record, of a log and of an ack file. *)
Definition encode_record (rec : record) : list byte := record_header rec ++ r_payload rec.
Definition encode_log (recs : list record) : list byte := recs ≫= encode_record.
Definition encode_acks (acks : list Z) : list byte := acks ≫= put_uint64.

Arguments encode_record : simpl never.
Arguments encode_log : simpl never.
Arguments encode_acks : simpl never.

(** The values a record can hold and still be read back: a 64-bit sequence
    number, and a payload whose length fits the 32-bit field. *)
Definition wf_record (rec : record) : Prop :=
  (0 <= r_seq rec < 2 ^ 64)%Z /\ (Z.of_nat (length (r_payload rec)) < 2 ^ 32)%Z.

Definition wf_seq (s : Z) : Prop := (0 <= s < 2 ^ 64)%Z.

(** What a write or a crash cut short may leave behind a well-formed log: a
    proper prefix of one more record. *)
Definition torn (t : list byte) : Prop :=
  t = [] \/
  exists rec k, wf_record rec /\ (k < length (encode_record rec))%nat
                /\ t = take k (encode_record rec).

Lemma length_header rec : length (record_header rec) = headerSize.
Proof.
  unfold record_header. by rewrite length_app, length_put_uint64, length_put_uint32.
Qed.

Lemma length_encode_record rec :
  length (encode_record rec) = (headerSize + length (r_payload rec))%nat.
Proof. unfold encode_record. by rewrite length_app, length_header. Qed.

Lemma header_fields rec :
  wf_record rec ->
  be_uint (take 8 (record_header rec)) = r_seq rec /\
  be_uint (drop 8 (record_header rec)) = Z.of_nat (length (r_payload rec)).
Proof.
  intros [Hs Hl]. unfold record_header.
  rewrite take_app_length', drop_app_length' by (by rewrite length_put_uint64).
  rewrite be_uint_put_uint64 by done. split; [done|].
  rewrite uint32_id by lia. by rewrite be_uint_put_uint32 by lia.
Qed.

Lemma readRecord_encode rec rest bad :
  wf_record rec ->
  readRecord (mk_reader (encode_record rec ++ rest) bad) = inr (rec, mk_reader rest bad).
Proof.
  intros Hwf. unfold readRecord, encode_record. rewrite <- app_assoc.
  rewrite io_ReadFull_app by (by rewrite length_header).
  destruct (header_fields rec Hwf) as [-> ->]. rewrite io_ReadFull_app by done.
  by destruct rec.
Qed.

Lemma readRecord_nil : readRecord (mk_reader [] false) = inl io_EOF.
Proof. reflexivity. Qed.

(** A torn record reads as the end of the file. *)
Lemma readRecord_torn t :
  torn t -> exists e, readRecord (mk_reader t false) = inl e /\ is_eof e = true.
Proof.
  intros [->|(rec & k & Hwf & Hk & ->)]; [by eexists|].
  unfold readRecord. rewrite length_encode_record in Hk.
  destruct (decide (k < headerSize)%nat) as [Hh|Hh].
  - destruct (io_ReadFull_short (Z.of_nat headerSize) (take k (encode_record rec)))
      as (e & -> & ?); [rewrite length_take; lia|eauto].
  - unfold encode_record. rewrite take_app_ge by (rewrite length_header; lia).
    rewrite io_ReadFull_app by (by rewrite length_header).
    destruct (header_fields rec Hwf) as [_ ->].
    destruct (io_ReadFull_short (Z.of_nat (length (r_payload rec)))
                (take (k - length (record_header rec)) (r_payload rec)))
      as (e & -> & ?); [rewrite length_take, length_header; lia|eauto].
Qed.

Lemma encode_log_cons rec recs :
  encode_log (rec :: recs) = encode_record rec ++ encode_log recs.
Proof. reflexivity. Qed.

Lemma encode_log_app l1 l2 : encode_log (l1 ++ l2) = encode_log l1 ++ encode_log l2.
Proof. unfold encode_log. by rewrite bind_app. Qed.

Lemma encode_log_snoc recs rec :
  encode_log (recs ++ [rec]) = encode_log recs ++ encode_record rec.
Proof. rewrite encode_log_app, encode_log_cons. by rewrite app_nil_r. Qed.

(** A loop over a well-formed log with a torn tail visits exactly the records. *)
Lemma for_records_log {A} onerr (body : A -> record -> A) recs t fuel acc :
  Forall wf_record recs -> torn t -> (length recs < fuel)%nat ->
  for_records fuel onerr body acc (mk_reader (encode_log recs ++ t) false) =
    Ret (foldl body acc recs).
Proof.
  intros Hwf Ht. revert fuel acc. induction Hwf as [|rec recs Hrec Hwf IH];
    intros [|fuel] acc Hf; simpl in Hf; try lia.
  - destruct (readRecord_torn t Ht) as (e & He & Heof).
    cbn [for_records]. change (encode_log [] ++ t) with t. by rewrite He, Heof.
  - cbn [for_records]. rewrite encode_log_cons, <- app_assoc, readRecord_encode by done.
    rewrite IH by lia. reflexivity.
Qed.

Lemma length_encode_log_ge recs : (length recs <= length (encode_log recs))%nat.
Proof.
  induction recs as [|rec recs IH]; [done|].
  rewrite encode_log_cons, length_app, length_encode_record. simpl. unfold headerSize. lia.
Qed.

Lemma loop_fuel_log recs t bad :
  (length recs < loop_fuel (mk_reader (encode_log recs ++ t) bad))%nat.
Proof.
  unfold loop_fuel. simpl. rewrite length_app. pose proof (length_encode_log_ge recs). lia.
Qed.

Lemma for_records_run {A} onerr (body : A -> record -> A) recs t acc :
  Forall wf_record recs -> torn t ->
  let r := mk_reader (encode_log recs ++ t) false in
  for_records (loop_fuel r) onerr body acc r = Ret (foldl body acc recs).
Proof. intros Hwf Ht r. apply for_records_log; [done|done|apply loop_fuel_log]. Qed.

(** [readRecord] consumes the bytes it returns: the loop's measure. *)
Lemma readRecord_inr r rec r' :
  readRecord r = inr (rec, r') ->
  (length (rd_data r') + headerSize <= length (rd_data r))%nat /\ rd_bad r' = rd_bad r.
Proof.
  unfold readRecord. destruct (io_ReadFull _ r) as [|[h r1]] eqn:H1; [done|].
  destruct (io_ReadFull (be_uint _) r1) as [|[p r2]] eqn:H2; [done|]. intros [= _ <-].
  apply io_ReadFull_inr in H1 as (Hd1 & Hl1 & Hb1); [|lia].
  apply io_ReadFull_inr in H2 as (Hd2 & Hl2 & Hb2); [|apply be_uint_bound].
  rewrite Hd1, Hd2, !length_app. split; [lia|congruence].
Qed.

(** Whatever bytes the file holds, the loop ends within its fuel. *)
Lemma for_records_total {A} onerr (body : A -> record -> A) fuel acc r :
  (length (rd_data r) < fuel)%nat ->
  (exists a, for_records fuel onerr body acc r = Ret a) \/
  (exists e, for_records fuel onerr body acc r = Fail e).
Proof.
  revert acc r. induction fuel as [|fuel IH]; intros acc r Hf; [lia|]. cbn [for_records].
  destruct (readRecord r) as [e|[rec r']] eqn:Hr; [destruct (is_eof e); eauto|].
  apply readRecord_inr in Hr as [Hl _]. unfold headerSize in Hl. apply IH. lia.
Qed.

(** ** Acks *)

Lemma encode_acks_cons a acks : encode_acks (a :: acks) = put_uint64 a ++ encode_acks acks.
Proof. reflexivity. Qed.

Lemma encode_acks_app l1 l2 : encode_acks (l1 ++ l2) = encode_acks l1 ++ encode_acks l2.
Proof. unfold encode_acks. by rewrite bind_app. Qed.

Lemma encode_acks_snoc acks a : encode_acks (acks ++ [a]) = encode_acks acks ++ put_uint64 a.
Proof. rewrite encode_acks_app, encode_acks_cons. by rewrite app_nil_r. Qed.

Lemma length_encode_acks acks : length (encode_acks acks) = (8 * length acks)%nat.
Proof.
  induction acks as [|a acks IH]; [done|].
  rewrite encode_acks_cons, length_app, length_put_uint64, IH. simpl. lia.
Qed.

Lemma for_acks_run acks t fuel s :
  Forall wf_seq acks -> (length t < 8)%nat -> (length acks < fuel)%nat ->
  FileWAL.for_acks fuel s (mk_reader (encode_acks acks ++ t) false) =
    Ret (list_to_set acks ∪ s).
Proof.
  intros Hwf Ht. revert fuel s. induction Hwf as [|a acks Ha Hwf IH];
    intros [|fuel] s Hf; simpl in Hf; try lia; cbn [FileWAL.for_acks].
  - destruct (io_ReadFull_short 8 t) as (e & He & Heof); [lia|].
    change (encode_acks [] ++ t) with t. rewrite He, Heof. simpl. by rewrite (left_id_L ∅ (∪)).
  - rewrite encode_acks_cons, <- app_assoc.
    rewrite io_ReadFull_app by (by rewrite length_put_uint64).
    rewrite IH by lia. rewrite be_uint_put_uint64 by done. f_equal. set_solver.
Qed.

(** A prefix of an ack file is the acks it contains whole, and fewer than
    eight bytes. *)
Lemma take_encode_acks n acks :
  exists t, take n (encode_acks acks) = encode_acks (take (n / 8) acks) ++ t /\ (length t < 8)%nat.
Proof.
  revert n. induction acks as [|a acks IH]; intros n.
  - exists []. change (encode_acks []) with (@nil byte). rewrite !take_nil.
    split; [done|simpl; lia].
  - destruct (decide (n < 8)%nat) as [Hn|Hn].
    + exists (take n (put_uint64 a)). rewrite Nat.div_small by done.
      rewrite encode_acks_cons, take_app_le by (rewrite length_put_uint64; lia).
      split; [done|]. rewrite length_take, length_put_uint64. lia.
    + destruct (IH (n - 8)%nat) as (t & Ht & Hl). exists t. split; [|done].
      rewrite encode_acks_cons, take_app_ge by (rewrite length_put_uint64; lia).
      rewrite length_put_uint64, Ht.
      replace (n / 8)%nat with (S ((n - 8) / 8)).
      * cbn [take]. by rewrite encode_acks_cons, app_assoc.
      * replace n with (1 * 8 + (n - 8))%nat at 2 by lia.
        rewrite Nat.div_add_l by lia. done.
Qed.

(** A prefix of a log that contains all of [recs] and part of [rec] reads as
    [recs], or as [recs ++ [rec]] when [rec] is whole. *)
Lemma take_encode_record k rec :
  wf_record rec ->
  (take k (encode_record rec) = encode_record rec) \/ torn (take k (encode_record rec)).
Proof.
  intros Hwf. destruct (decide (length (encode_record rec) <= k)%nat).
  - left. by rewrite take_ge by lia.
  - right. right. exists rec, k. split_and!; [done|lia|done].
Qed.
