(* ===== verification/WalProofs.v ===== *)
(** The file log: its representation on disk, what each method does to it,
    and what a fault, a crash or a power loss can leave behind. *)
From stdpp Require Import base list strings gmap sets.
From Stdlib Require Import ZArith Lia.
From S2P Require Import Prelude Errors Go Bytes Os OsFaults Proto Wal WalFormat.

Import FileWAL.

(** Runs the sequencing of a method down to its next system call. *)
Ltac run_go :=
  cbv beta iota zeta delta [bind try ignore wrapping on_fst on_snd gets modify of_out
    ret fail run_local id this update open_or_empty].

(** What a record yields on recovery, given the acknowledged set. *)
Definition live_entry `{C : Codec} (acked : gset Z) (rec : record) : option Entry :=
  if decide (r_seq rec ∈ acked) then None
  else match proto_Unmarshal (r_payload rec) with
       | inl _ => None
       | inr event => Some (mk_entry (r_seq rec) event)
       end.

Definition live_entries `{C : Codec} (acked : gset Z) (recs : list record) : list Entry :=
  omap (live_entry acked) recs.

Definition max_seq (recs : list record) : Z := foldl max_body 0%Z recs.

(** The log file of [fw] holds [recs] and then [t]; the ack file [acks] and then [ta]. *)
Definition on_disk (d : string) (w : os) (recs : list record) (t : list byte)
    (acks : list Z) (ta : list byte) : Prop :=
  (data <$> files w !! filepath_Join d walFileName) = Some (encode_log recs ++ t) /\
  (data <$> files w !! filepath_Join d ackFileName) = Some (encode_acks acks ++ ta).

(** The log in good order: what a process that has met no fault maintains. *)
Record log_rep (fw : FileWAL) (w : os) (recs : list record) (acks : list Z) : Prop := {
  rep_wal_h : open_at (walFile fw) (walPath fw);
  rep_ack_h : open_at (ackFile fw) (ackPath fw);
  rep_wal : files w !! walPath fw =
              Some (mk_file (encode_log recs) (length (encode_log recs)));
  rep_ack : (data <$> files w !! ackPath fw) = Some (encode_acks acks);
  rep_acked : acked fw = list_to_set acks;
  rep_wf : Forall wf_record recs;
  rep_acks_wf : Forall wf_seq acks;
  rep_seq : (0 <= seq fw < 2 ^ 64)%Z;
  rep_recs_le : Forall (fun rec => r_seq rec <= seq fw)%Z recs;
  rep_acks_le : Forall (fun a => a <= seq fw)%Z acks;
  rep_nodup : NoDup (r_seq <$> recs)
}.

Lemma walPath_ackPath d : filepath_Join d walFileName <> filepath_Join d ackFileName.
Proof. by intros [=]. Qed.

Section body_folds.
Context `{C : Codec}.

Lemma recover_fold acked recs acc :
  foldl (recover_body acked) acc recs = acc ++ live_entries acked recs.
Proof.
  revert acc. induction recs as [|rec recs IH]; intros acc; simpl; [by rewrite app_nil_r|].
  rewrite IH. unfold recover_body, live_entry.
  case_decide; [done|]. destruct (proto_Unmarshal _); [done|].
  by rewrite <- app_assoc.
Qed.

Lemma checkpoint_fold acked recs acc :
  foldl (checkpoint_body acked) acc recs = acc ++ filter (fun rec => r_seq rec ∉ acked) recs.
Proof.
  revert acc. induction recs as [|rec recs IH]; intros acc; simpl; [by rewrite app_nil_r|].
  rewrite IH, filter_cons. unfold checkpoint_body. repeat case_decide; try done.
  by rewrite <- app_assoc.
Qed.

Lemma max_fold_ge recs m : (m <= foldl max_body m recs)%Z.
Proof.
  revert m. induction recs as [|rec recs IH]; intros m; simpl; [lia|].
  specialize (IH (max_body m rec)). unfold max_body in *. case_decide; lia.
Qed.

Lemma max_fold_le recs m b :
  (m <= b)%Z -> Forall (fun rec => r_seq rec <= b)%Z recs -> (foldl max_body m recs <= b)%Z.
Proof.
  intros Hm Hl. revert m Hm. induction Hl as [|rec recs Hr _ IH]; intros m Hm; simpl; [done|].
  apply IH. unfold max_body. case_decide; lia.
Qed.

Lemma max_fold_bound recs m : Forall (fun rec => r_seq rec <= foldl max_body m recs)%Z recs.
Proof.
  revert m. induction recs as [|rec recs IH]; intros m; simpl; [done|].
  constructor; [|apply IH]. pose proof (max_fold_ge recs (max_body m rec)).
  unfold max_body in *. case_decide; lia.
Qed.

Lemma live_entry_Some acked rec en :
  live_entry acked rec = Some en -> SeqNum en = r_seq rec /\ r_seq rec ∉ acked.
Proof.
  unfold live_entry. case_decide; [done|]. destruct (proto_Unmarshal _); [done|].
  by intros [= <-].
Qed.

Lemma live_entry_anti acked acked' rec en :
  acked' ⊆ acked -> live_entry acked rec = Some en -> live_entry acked' rec = Some en.
Proof. unfold live_entry. intros Hs. by repeat case_decide; set_solver. Qed.

Lemma live_entry_ack acked rec a :
  live_entry ({[a]} ∪ acked) rec =
  if decide (r_seq rec = a) then None else live_entry acked rec.
Proof. unfold live_entry. repeat case_decide; set_solver. Qed.

Lemma live_entries_cons acked rec recs :
  live_entries acked (rec :: recs) =
  match live_entry acked rec with
  | Some en => en :: live_entries acked recs
  | None => live_entries acked recs
  end.
Proof. reflexivity. Qed.

(** Forgetting acknowledgements only adds entries. *)
Lemma live_entries_anti acked acked' recs :
  acked' ⊆ acked -> live_entries acked recs `sublist_of` live_entries acked' recs.
Proof.
  intros Hs. induction recs as [|rec recs IH]; [done|]. rewrite !live_entries_cons.
  destruct (live_entry acked rec) as [en|] eqn:E.
  - rewrite (live_entry_anti _ _ _ _ Hs E). by apply sublist_skip.
  - destruct (live_entry acked' rec); [by apply sublist_cons|done].
Qed.

Lemma live_entries_filter acked acked' recs :
  acked' ⊆ acked ->
  live_entries acked' (filter (fun rec => r_seq rec ∉ acked) recs) = live_entries acked recs.
Proof.
  intros Hs. induction recs as [|rec recs IH]; [done|].
  rewrite filter_cons, live_entries_cons. destruct (decide (r_seq rec ∈ acked)) as [Hin|Hin].
  - rewrite decide_False by tauto. unfold live_entry.
    rewrite decide_True by done. exact IH.
  - rewrite decide_True by done. rewrite live_entries_cons, IH.
    assert (live_entry acked' rec = live_entry acked rec) as ->
      by (unfold live_entry; by rewrite !decide_False by set_solver).
    done.
Qed.

Lemma live_entries_ack acked recs a :
  live_entries ({[a]} ∪ acked) recs =
  filter (fun en => SeqNum en <> a) (live_entries acked recs).
Proof.
  induction recs as [|rec recs IH]; [done|].
  rewrite !live_entries_cons, live_entry_ack. destruct (live_entry acked rec) as [en|] eqn:E.
  - apply live_entry_Some in E as [<- _]. rewrite filter_cons, IH.
    repeat case_decide; naive_solver.
  - by case_decide.
Qed.

Lemma live_entries_snoc acked recs rec :
  live_entries acked (recs ++ [rec]) =
  live_entries acked recs ++ option_list (live_entry acked rec).
Proof. unfold live_entries. rewrite omap_app. simpl. by destruct (live_entry acked rec). Qed.

Lemma live_entries_seqs acked recs en :
  en ∈ live_entries acked recs -> SeqNum en ∈ r_seq <$> recs /\ SeqNum en ∉ acked.
Proof.
  unfold live_entries. rewrite list_elem_of_omap. intros (rec & Hin & Hl).
  apply live_entry_Some in Hl as [-> Ha]. split; [|done].
  apply list_elem_of_fmap. eauto.
Qed.
End body_folds.

(** ** Records under any schedule *)

Lemma writeRecord_any h p rec w f :
  open_at h p -> files w !! p = Some f ->
  exists r w' j,
    writeRecord h rec w = (r, w') /\
    files w' = <[p := append_bytes (take j (encode_record rec)) f]> (files w) /\
    (r = Ret tt /\ take j (encode_record rec) = encode_record rec \/ failed r).
Proof.
  intros Ho Hf. unfold writeRecord.
  destruct (os_Write_any h p (record_header rec) w f Ho Hf)
    as (r1 & w1 & j1 & E1 & F1 & [[-> H1]|[[e ->]| ->]]).
  - rewrite (bind_run_Ret _ _ _ _ _ E1). rewrite H1 in F1.
    destruct (os_Write_any h p (r_payload rec) w1 (append_bytes (record_header rec) f) Ho)
      as (r2 & w2 & j2 & E2 & F2 & R2); [rewrite F1; apply lookup_insert_eq|].
    exists r2, w2, (length (record_header rec) + j2)%nat.
    unfold encode_record. rewrite take_app_add. split_and!; [done| |].
    + rewrite F2, F1, insert_insert_eq. unfold append_bytes. simpl.
      by rewrite <- (assoc_L (++)).
    + destruct R2 as [[-> ->]|R2]; auto.
  - rewrite (bind_run_Fail _ _ _ _ _ E1).
    exists (Fail e), w1, (min j1 (length (record_header rec))).
    unfold encode_record. rewrite take_app_le by lia. rewrite <- take_take, firstn_all.
    split_and!; [done|done|right; left; by eexists].
  - rewrite (bind_run_Crash _ _ _ _ E1).
    exists Crash, w1, (min j1 (length (record_header rec))).
    unfold encode_record. rewrite take_app_le by lia. rewrite <- take_take, firstn_all.
    split_and!; [done|done|by right; right].
Qed.

Lemma writeRecord_calm h p rec f w :
  calm w -> open_at h p -> files w !! p = Some f ->
  writeRecord h rec w = (Ret tt, set_files <[p := append_bytes (encode_record rec) f]> w).
Proof.
  intros Hc Ho Hf. unfold writeRecord.
  rewrite (bind_run_Ret _ _ _ _ _ (os_Write_calm h p _ w Hc Ho)).
  rewrite (os_Write_calm h p) by done. f_equal. unfold set_files. simpl. f_equal.
  rewrite (alter_alt_Some _ (files w) _ f) by done. rewrite alter_insert_eq.
  unfold append_bytes. simpl. by rewrite <- (assoc_L (++)).
Qed.

(** ** The methods under any schedule *)

Section methods.
Context `{C : Codec}.

(** Where [Append] leaves the log, whatever fails: the counter is advanced and
    the file has grown by a prefix of the new record; by all of it, synced,
    when [Append] succeeds. *)
Lemma Append_any e d fw w f :
  proto_Marshal e = inr d ->
  open_at (walFile fw) (walPath fw) ->
  files w !! walPath fw = Some f ->
  let s := uint64 (seq fw + 1) in
  let rec := mk_record s d in
  exists r w' f',
    Append e (fw, w) = (r, (set_seq s fw, w')) /\
    files w' = <[walPath fw := f']> (files w) /\
    (r = Ret s /\ f' = sync_bytes (append_bytes (encode_record rec) f) \/
     failed r /\ exists j, f' = append_bytes (take j (encode_record rec)) f).
Proof.
  intros Hm Ho Hf s rec. unfold Append. rewrite Hm. run_go.
  cbn [walFile set_seq seq]. fold s. fold rec. run_go.
  destruct (writeRecord_any (walFile fw) (walPath fw) rec w f Ho Hf)
    as (r1 & w1 & j1 & E1 & F1 & [[-> H1]|[[err ->]| ->]]); rewrite E1; run_go.
  - destruct (os_Sync_any (walFile fw) (walPath fw) w1
                (append_bytes (take j1 (encode_record rec)) f) Ho)
      as (r2 & w2 & E2 & [[-> F2]|[[[err ->]| ->] F2]]); [by rewrite F1, lookup_insert_eq| | |];
      rewrite E2; run_go; eexists _, _, _; (split; [done|]).
    + split; [by rewrite F2, F1, insert_insert_eq|]. left. by rewrite H1.
    + split; [by rewrite F2, F1|]. right. split; [left; by eexists|by eexists].
    + split; [by rewrite F2, F1|]. right. split; [by right|by eexists].
  - eexists _, _, _. split; [done|]. split; [done|]. right. split; [left; by eexists|by eexists].
  - eexists _, _, _. split; [done|]. split; [done|]. right. split; [by right|by eexists].
Qed.

(** A marshalling error touches nothing. *)
Lemma Append_marshal_error e err fw w :
  proto_Marshal e = inl err ->
  Append e (fw, w) = (Fail (ErrWrap "wal: marshal event: " err), (fw, w)).
Proof. intros Hm. unfold Append. by rewrite Hm. Qed.

(** ** Recovery and reopening on a quiet system *)

Lemma Recover_run fw w recs t f :
  calm w -> files w !! walPath fw = Some f ->
  data f = encode_log recs ++ t -> Forall wf_record recs -> torn t ->
  Recover (fw, w) = (Ret (live_entries (acked fw) recs), (fw, w)).
Proof.
  intros Hc Hf Hd Hwf Ht. unfold Recover. run_go.
  rewrite (os_Open_calm _ f) by done. run_go. rewrite Hd, for_records_run by done.
  by rewrite recover_fold.
Qed.

Definition opened (d : string) (w : os) : os :=
  created (filepath_Join d ackFileName) (created (filepath_Join d walFileName) w).

(** [NewFileWAL] on the files of an earlier process: the acknowledged set is the
    complete acks, the counter the largest sequence number in the log. *)
Lemma NewFileWAL_opened d w recs t acks ta :
  calm w -> on_disk d (opened d w) recs t acks ta ->
  Forall wf_record recs -> torn t -> Forall wf_seq acks -> (length ta < 8)%nat ->
  NewFileWAL d w =
    (Ret (mk d (mk_handle (filepath_Join d walFileName) HOpen)
               (mk_handle (filepath_Join d ackFileName) HOpen)
               (max_seq recs) (list_to_set acks)), opened d w).
Proof.
  intros Hc [Hw Ha] Hwf Ht Hacks Hta.
  apply fmap_Some in Hw as (fw' & Hfw & Hdw). apply fmap_Some in Ha as (fa & Hfa & Hda).
  unfold NewFileWAL, os_MkdirAll. run_go. rewrite syscall_calm by done. run_go.
  rewrite os_OpenCreate_calm by done. run_go. fold (created (filepath_Join d walFileName) w).
  rewrite os_OpenCreate_calm by done. run_go.
  fold (created (filepath_Join d ackFileName) (created (filepath_Join d walFileName) w)).
  fold (opened d w). assert (calm (opened d w)) as Hco by done.
  unfold loadAcked. run_go. unfold ackPath at 1. cbn [dir].
  rewrite (os_Open_calm _ fa) by done. run_go. rewrite <- Hda.
  rewrite (for_acks_run acks ta) by (try done; unfold loop_fuel; simpl;
    rewrite length_app, length_encode_acks; lia). run_go.
  unfold loadMaxSeq. run_go. unfold walPath at 1. cbn [dir set_acked].
  rewrite (os_Open_calm _ fw') by done. run_go. rewrite <- Hdw.
  rewrite for_records_run by done. run_go.
  unfold set_seq, set_acked. simpl. by rewrite (right_id_L ∅ (∪)).
Qed.

Lemma NewFileWAL_run d w recs t acks ta :
  calm w -> on_disk d w recs t acks ta ->
  Forall wf_record recs -> torn t -> Forall wf_seq acks -> (length ta < 8)%nat ->
  NewFileWAL d w =
    (Ret (mk d (mk_handle (filepath_Join d walFileName) HOpen)
               (mk_handle (filepath_Join d ackFileName) HOpen)
               (max_seq recs) (list_to_set acks)), w).
Proof.
  intros Hc Hd Hwf Ht Hacks Hta.
  assert (opened d w = w) as Ho.
  { destruct Hd as [(f & Hf & _)%fmap_Some (fa & Hfa & _)%fmap_Some].
    unfold opened. by rewrite (created_existing _ f w Hf), (created_existing _ fa w Hfa). }
  rewrite (NewFileWAL_opened d w recs t acks ta) by (try done; by rewrite Ho). by rewrite Ho.
Qed.
End methods.

(** ** The methods on a log in good order *)

Section good_order.
Context `{C : Codec}.

Lemma log_rep_on_disk fw w recs acks :
  log_rep fw w recs acks -> on_disk (dir fw) w recs [] acks [].
Proof.
  intros H. split; rewrite app_nil_r; [|by apply H].
  fold (walPath fw). by rewrite (rep_wal _ _ _ _ H).
Qed.

(** A log file holds one sequence of records. *)
Lemma encode_log_inj recs recs' :
  Forall wf_record recs -> Forall wf_record recs' -> encode_log recs = encode_log recs' -> recs = recs'.
Proof.
  intros H. revert recs'. induction H as [|rec recs Hr _ IH]; intros [|rec' recs'] H' E; [done|..].
  1, 2: apply (f_equal length) in E; rewrite encode_log_cons, length_app, length_encode_record in E; simpl in E; lia.
  apply Forall_cons in H' as [Hr' H'].
  pose proof (readRecord_encode rec (encode_log recs) false Hr) as R.
  pose proof (readRecord_encode rec' (encode_log recs') false Hr') as R'.
  rewrite <- encode_log_cons in R, R'. rewrite E, R' in R. injection R as -> R. f_equal. by apply IH.
Qed.

Lemma log_rep_recs fw w recs acks recs' acks' :
  log_rep fw w recs acks -> log_rep fw w recs' acks' -> recs = recs'.
Proof.
  intros H H'. apply encode_log_inj; [apply H|apply H'|].
  pose proof (rep_wal _ _ _ _ H) as E. rewrite (rep_wal _ _ _ _ H') in E. by injection E.
Qed.

Lemma Append_rep e d fw w recs acks :
  calm w -> log_rep fw w recs acks -> proto_Marshal e = inr d ->
  (seq fw + 1 < 2 ^ 64)%Z -> (Z.of_nat (length d) < 2 ^ 32)%Z ->
  exists w',
    Append e (fw, w) = (Ret (seq fw + 1)%Z, (set_seq (seq fw + 1) fw, w')) /\
    calm w' /\
    log_rep (set_seq (seq fw + 1) fw) w' (recs ++ [mk_record (seq fw + 1) d]) acks.
Proof.
  intros Hc H Hm Hs Hl. destruct H as [Hwh Hah Hw Ha Hack Hwf Hawf Hseq Hrle Hale Hnd].
  unfold Append. rewrite Hm. run_go. cbn [walFile set_seq seq]. rewrite uint64_id by lia.
  rewrite (writeRecord_calm _ (walPath fw) _ _ _ Hc Hwh Hw). run_go.
  rewrite (os_Sync_calm _ (walPath fw)) by done. run_go.
  eexists. split; [done|]. split; [done|].
  split; simpl; try done.
  - rewrite alter_insert_eq, lookup_insert_eq. unfold sync_bytes, append_bytes. simpl.
    by rewrite encode_log_snoc.
  - rewrite alter_insert_eq, lookup_insert_ne; [done|apply walPath_ackPath].
  - rewrite Forall_app. split; [done|]. repeat constructor; simpl; lia.
  - lia.
  - rewrite Forall_app. split; [|repeat constructor; simpl; lia].
    eapply Forall_impl; [done|]. simpl. lia.
  - eapply Forall_impl; [done|]. simpl. lia.
  - rewrite fmap_app. simpl. apply NoDup_app. split_and!; [done| |apply NoDup_singleton].
    intros s (rec & -> & Hin)%list_elem_of_fmap. rewrite Forall_forall in Hrle.
    specialize (Hrle rec Hin). set_unfold. simpl. lia.
Qed.

Lemma Acknowledge_run a fw w p :
  calm w -> open_at (ackFile fw) p ->
  Acknowledge a (fw, w) =
    (Ret tt, (set_acked ({[a]} ∪ acked fw) fw, set_files (alter (append_bytes (put_uint64 a)) p) w)).
Proof.
  intros Hc Ho. unfold Acknowledge. run_go. cbn [ackFile set_acked]. by rewrite (os_Write_calm _ p).
Qed.

Lemma Acknowledge_rep a fw w recs acks :
  calm w -> log_rep fw w recs acks -> (0 <= a <= seq fw)%Z ->
  exists w',
    Acknowledge a (fw, w) = (Ret tt, (set_acked ({[a]} ∪ acked fw) fw, w')) /\
    calm w' /\
    log_rep (set_acked ({[a]} ∪ acked fw) fw) w' recs (acks ++ [a]).
Proof.
  intros Hc H Hb. destruct H as [Hwh Hah Hw Ha Hack Hwf Hawf Hseq Hrle Hale Hnd].
  apply fmap_Some in Ha as (fa & Hfa & Hda).
  rewrite (Acknowledge_run a fw w (ackPath fw)) by done.
  eexists. split; [done|]. split; [done|].
  split; simpl; try done.
  - rewrite lookup_alter_ne; [done|]. intros Heq. by apply (walPath_ackPath (dir fw)).
  - rewrite lookup_alter_eq. change (ackPath (set_acked _ fw)) with (ackPath fw).
    rewrite Hfa. simpl. by rewrite encode_acks_snoc, Hda.
  - rewrite Hack. rewrite list_to_set_app_L. simpl. set_solver.
  - rewrite Forall_app. split; [done|]. repeat constructor; simpl; lia.
  - rewrite Forall_app. split; [done|]. repeat constructor; simpl; lia.
Qed.

Lemma Recover_rep fw w recs acks :
  calm w -> log_rep fw w recs acks ->
  Recover (fw, w) = (Ret (live_entries (acked fw) recs), (fw, w)).
Proof.
  intros Hc H. eapply (Recover_run _ _ _ []); [done|apply H| |apply H|by left].
  by rewrite app_nil_r.
Qed.
End good_order.
