(* ===== verification/WalCrash.v ===== *)
(** What survives: restarting on the files another process left, after any
    fault and any loss of unsynced bytes; and checkpointing. *)
From stdpp Require Import base list strings gmap sets.
From Stdlib Require Import ZArith Lia.
From S2P Require Import Prelude Errors Go Bytes Os OsFaults Proto Wal WalFormat WalProofs.

Import FileWAL.

(** Power loss, then a new process: [NewFileWAL] on the directory and [Recover]. *)
Definition recover_after `{C : Codec} (keep : path -> nat) (d : string) (w : os) : out (list Entry) :=
  match NewFileWAL d (power_loss keep w) with
  | (Ret fw, w') => fst (Recover (fw, w'))
  | (Fail e, _) => Fail e
  | (Panic p, _) => Panic p
  | (Crash, _) => Crash
  | (NoFuel, _) => NoFuel
  end.

Section restart.
Context `{C : Codec}.

Lemma prefix_acked n (acks : list Z) :
  (list_to_set (take n acks) : gset Z) ⊆ list_to_set acks.
Proof. pose proof (subseteq_take n acks). set_solver. Qed.

Lemma recover_after_run keep d w recs t acks f fa :
  files w !! filepath_Join d walFileName = Some f ->
  files w !! filepath_Join d ackFileName = Some fa ->
  data (cut_file (keep (filepath_Join d walFileName)) f) = encode_log recs ++ t ->
  data fa = encode_acks acks ->
  Forall wf_record recs -> torn t -> Forall wf_seq acks ->
  exists n, recover_after keep d w = Ret (live_entries (list_to_set (take n acks)) recs).
Proof.
  intros Hf Hfa Hd Hda Hwf Ht Hawf.
  assert (exists m, data (cut_file (keep (filepath_Join d ackFileName)) fa) =
                    take m (encode_acks acks)) as [m Hm].
  { eexists. unfold cut_file. simpl. by rewrite Hda. }
  destruct (take_encode_acks m acks) as (ta & Hta & Hlen). exists (m / 8)%nat.
  unfold recover_after.
  assert (files (power_loss keep w) !! filepath_Join d walFileName =
          Some (cut_file (keep (filepath_Join d walFileName)) f)) as Hpf
    by (by rewrite power_loss_lookup, Hf).
  rewrite (NewFileWAL_run d _ recs t (take (m / 8) acks) ta); try done.
  - by erewrite Recover_run.
  - split; rewrite power_loss_lookup; [by rewrite Hf, <- Hd|].
    rewrite Hfa. cbn [fmap option_fmap option_map]. by rewrite Hm, Hta.
  - by apply Forall_take.
Qed.

(** A log whose files are synced gives back everything that is pending, whatever
    part of the acks is lost. *)
Lemma recover_after_synced keep d w recs acks f fa :
  files w !! filepath_Join d walFileName = Some f ->
  files w !! filepath_Join d ackFileName = Some fa ->
  data f = encode_log recs -> synced f = length (data f) ->
  data fa = encode_acks acks ->
  Forall wf_record recs -> Forall wf_seq acks ->
  exists n, recover_after keep d w = Ret (live_entries (list_to_set (take n acks)) recs).
Proof.
  intros Hf Hfa Hd Hs Hda Hwf Hawf. eapply (recover_after_run _ _ _ _ []); try done.
  - rewrite cut_file_synced by done. by rewrite app_nil_r.
  - by left.
Qed.
End restart.

(** ** Checkpoint under any schedule *)

(** Appending records through a handle fills only its own file. *)
Lemma hoare_writeRecords (h : handle) (p : path) (recs : list record) (b : list byte)
    (P : gmap path file -> Prop) :
  open_at h p -> (forall m f, P m -> P (<[p := f]> m)) ->
  hoare (holds (fun m => P m /\ (data <$> m !! p) = Some b))
    (for_each (writeRecord h) recs)
    (fun _ => holds (fun m => P m /\ (data <$> m !! p) = Some (b ++ encode_log recs)))
    (holds P).
Proof.
  intros Ho HP. revert b. induction recs as [|rec recs IH]; intros b w [Hw Hb].
  - simpl. split; [done|]. by rewrite app_nil_r.
  - apply fmap_Some in Hb as (f & Hf & ->). cbn [for_each].
    destruct (writeRecord_any h p rec w f Ho Hf)
      as (r1 & w1 & j & E1 & F1 & R).
    assert (P (files w1)) as HP1 by (rewrite F1; by apply HP).
    destruct R as [[-> H1]|[[e ->]| ->]].
    + rewrite (bind_run_Ret _ _ _ _ _ E1). rewrite encode_log_cons, (assoc_L (++)).
      apply IH. split; [done|]. by rewrite F1, H1, lookup_insert_eq.
    + by rewrite (bind_run_Fail _ _ _ _ _ E1).
    + by rewrite (bind_run_Crash _ _ _ _ E1).
Qed.
Section checkpoint.
Context `{C : Codec}.
Implicit Types P Q : gmap path file -> Prop.
Implicit Types R : FileWAL -> Prop.

Definition in_state R P (st : FileWAL * os) : Prop := R (fst st) /\ P (files (snd st)).
Definition in_files P (st : FileWAL * os) : Prop := P (files (snd st)).

Lemma hoare_sys {A} R P (m : M os A) (Q : A -> gmap path file -> Prop) E :
  hoare (holds P) m (fun a => holds (Q a)) (holds E) ->
  hoare (in_state R P) (on_snd m) (fun a => in_state R (Q a)) (in_files E).
Proof.
  intros Hm [s w] [HR HP]. specialize (Hm w HP). simpl.
  destruct (m w) as [[] w']; try exact Hm. by split.
Qed.

Lemma hoare_sys_ignore {A} R P (m : M os A) E :
  hoare (holds P) m (fun _ => holds P) (holds P) -> (forall m, P m -> E m) ->
  hoare (in_state R P) (ignore (on_snd m)) (fun _ => in_state R P) (in_files E).
Proof.
  intros Hm HE [s w] [HR HP]. specialize (Hm w HP). simpl. unfold ignore, try, on_snd, bind.
  destruct (m w) as [[] w']; simpl; try (by apply HE); by split.
Qed.

(** [hoare_sys] under [try]: what a failing call leaves is kept. *)
Lemma hoare_sys_keep {A} R P (m : M os A) (Q : A -> gmap path file -> Prop) E F :
  hoare (holds P) m (fun a => holds (Q a)) (holds E) -> (forall m, E m -> F m) ->
  hoare (in_state R P) (try (on_snd m))
    (fun r => match r with inr a => in_state R (Q a) | inl _ => in_state R E end) (in_files F).
Proof.
  intros Hm HF [s w] [HR HP]. specialize (Hm w HP). unfold try. simpl.
  destruct (m w) as [[] w']; simpl; try (by apply HF); by split.
Qed.

Lemma hoare_update R R' P f E :
  (forall fw, R fw -> R' (f fw)) ->
  hoare (in_state R P) (update f) (fun _ => in_state R' P) E.
Proof. intros Hf [s w] [HR HP]. split; simpl; auto. Qed.

Lemma hoare_this R P E :
  hoare (in_state R P) this (fun fw st => R fw /\ in_state R P st) E.
Proof. intros [s w] [HR HP]. by split. Qed.

(** A failed device read never looks like the end of the log. *)
Lemma for_records_bad {A} onerr (body : A -> record -> A) fuel acc r a :
  rd_bad r = true -> for_records fuel onerr body acc r <> Ret a.
Proof.
  revert acc r. induction fuel as [|fuel IH]; intros acc r Hb; [done|]. cbn [for_records].
  destruct (readRecord r) as [e|[rec r']] eqn:Hr.
  - assert (is_eof e = false) as ->; [|done].
    revert Hr. unfold readRecord, io_ReadFull. rewrite Hb.
    repeat (case_decide; simpl); rewrite ?Hb; by intros [= <-].
  - apply IH. apply readRecord_inr in Hr as [_ ->]. done.
Qed.

Variables (d : string) (recs : list record) (acks : list Z) (ackset : gset Z).
Hypothesis Hwf : Forall wf_record recs.

Let walp := filepath_Join d walFileName.
Let ackp := filepath_Join d ackFileName.
Let tmpp := filepath_Join d (walFileName +:+ ".tmp").
Let kept := filter (fun rec => r_seq rec ∉ ackset) recs.

(** Before the rename, after the rename, and with a finished temporary file. *)
Definition before_swap (m : gmap path file) : Prop :=
  m !! walp = Some (mk_file (encode_log recs) (length (encode_log recs))) /\
  (data <$> m !! ackp) = Some (encode_acks acks).
Definition after_swap (m : gmap path file) : Prop :=
  m !! walp = Some (mk_file (encode_log kept) (length (encode_log kept))) /\
  ((data <$> m !! ackp) = Some (encode_acks acks) \/ (data <$> m !! ackp) = Some []).
Definition tmp_ready (m : gmap path file) : Prop :=
  before_swap m /\ m !! tmpp = Some (mk_file (encode_log kept) (length (encode_log kept))).
Definition either_swap (m : gmap path file) : Prop := before_swap m \/ after_swap m.

Definition same_dir (fw : FileWAL) : Prop := dir fw = d.

Lemma paths_distinct : walp <> tmpp /\ ackp <> tmpp /\ walp <> ackp.
Proof. split_and!; by intros [=]. Qed.

Lemma before_swap_insert m f : before_swap m -> before_swap (<[tmpp := f]> m).
Proof.
  destruct paths_distinct as (? & ? & ?). unfold before_swap.
  by rewrite !lookup_insert_ne by done.
Qed.

Lemma before_swap_delete m : before_swap m -> before_swap (delete tmpp m).
Proof.
  destruct paths_distinct as (? & ? & ?). unfold before_swap.
  by rewrite !lookup_delete_ne by done.
Qed.

Lemma tmp_ready_rename m f :
  tmp_ready m -> m !! tmpp = Some f -> after_swap (<[walp := f]> (delete tmpp m)).
Proof.
  destruct paths_distinct as (? & ? & ?). intros [[Hw Ha] Ht] Hf. unfold after_swap.
  rewrite lookup_insert_eq, lookup_insert_ne, lookup_delete_ne by done.
  split; [congruence|by left].
Qed.

(** Everything from the rename on. *)
Lemma hoare_swap :
  hoare (in_state same_dir tmp_ready) checkpoint_swap (fun _ => in_files either_swap)
    (in_files either_swap).
Proof.
  assert (forall m, tmp_ready m -> either_swap m) as HT by (intros m [H _]; by left).
  assert (forall m, after_swap m -> either_swap m) as HA by (by right).
  eapply hoare_bind; [apply hoare_this|]. intros fw. apply hoare_pure. intros Hd.
  unfold same_dir in Hd. unfold tmpPath, walPath, ackPath. rewrite Hd.
  eapply hoare_bind; [apply hoare_sys_ignore; [apply hoare_os_Close|done]|]. intros [].
  eapply hoare_bind; [apply (hoare_update _ same_dir); done|]. intros [].
  eapply hoare_bind.
  { apply hoare_wrapping, (hoare_sys _ _ _ (fun _ => after_swap)).
    apply hoare_os_Rename; [|done]. apply tmp_ready_rename. }
  intros []. eapply hoare_bind.
  { apply hoare_try, (hoare_sys _ _ _ (fun _ => after_swap)).
    eapply hoare_conseq; [apply (hoare_os_OpenCreate _ after_swap)|done|done|].
    - intros m [Hw _]. by eexists.
    - intros w. apply HA. }
  intros [err|h].
  { intros [s w] H. exact H. }
  eapply hoare_bind; [apply (hoare_update _ same_dir); done|]. intros [].
  eapply hoare_bind; [apply hoare_sys_ignore; [apply hoare_os_Close|done]|]. intros [].
  eapply hoare_bind; [apply (hoare_update _ same_dir); done|]. intros [].
  eapply hoare_bind.
  { apply hoare_try, (hoare_sys _ _ _ (fun _ => after_swap)).
    eapply hoare_conseq; [apply (hoare_os_OpenTrunc _ after_swap after_swap either_swap)|..].
    - intros m [Hw _]. destruct paths_distinct as (? & ? & ?). unfold after_swap.
      rewrite lookup_insert_ne, lookup_insert_eq by done. split; [done|by right].
    - apply HA.
    - done.
    - by intros h' w' [_ ?].
    - done. }
  intros [err|a]; intros [s w]; [intros H; exact H|intros [_ H]; by apply HA].
Qed.

Lemma hoare_abandon tmpFile err :
  hoare (in_state same_dir before_swap)
    (abandon_tmp tmpFile tmpp err) (fun _ => in_files either_swap) (in_files either_swap).
Proof.
  assert (forall m, before_swap m -> either_swap m) as HB by (by left).
  eapply hoare_bind; [apply hoare_sys_ignore; [apply hoare_os_Close|done]|]. intros [].
  eapply hoare_bind.
  { apply hoare_sys_ignore; [apply hoare_os_Remove, before_swap_delete|done]. }
  intros [] [s w] [_ H]. by apply HB.
Qed.

(** The records are written to the temporary file, which then replaces the log. *)
Lemma hoare_write_kept :
  hoare (in_state same_dir (fun m => before_swap m /\ (data <$> m !! tmpp) = Some []))
    (w <- try (on_snd (for_each (writeRecord (mk_handle tmpp HOpen)) kept)) ;;
     match w with
     | inl err => abandon_tmp (mk_handle tmpp HOpen) tmpp (ErrWrap "wal: write tmp record: " err)
     | inr _ =>
         s <- try (on_snd (os_Sync (mk_handle tmpp HOpen))) ;;
         match s with
         | inl err => abandon_tmp (mk_handle tmpp HOpen) tmpp (ErrWrap "wal: sync tmp: " err)
         | inr _ => ignore (on_snd (os_Close (mk_handle tmpp HOpen))) ;; checkpoint_swap
         end
     end)
    (fun _ => in_files either_swap) (in_files either_swap).
Proof.
  assert (forall m, before_swap m -> either_swap m) as HB by (by left).
  assert (open_at (mk_handle tmpp HOpen) tmpp) as Ho by done.
  eapply hoare_bind.
  { apply (hoare_sys_keep _ _ _ (fun _ m => before_swap m /\
      (data <$> m !! tmpp) = Some (encode_log kept)) before_swap); [|exact HB].
    apply (hoare_writeRecords _ tmpp kept [] before_swap Ho).
    intros m fm Hm. by apply before_swap_insert. }
  intros [err|[]]; [apply hoare_abandon|].
  eapply hoare_bind.
  { apply (hoare_sys_keep _ _ _ (fun _ => tmp_ready) before_swap); [|exact HB].
    apply hoare_os_Sync with (p := tmpp); [done| |by intros m [? _]].
    intros m [Hm (tf & Htf & Hdt)%fmap_Some]. unfold tmp_ready.
    rewrite (alter_alt_Some _ m _ tf) by done.
    split; [by apply before_swap_insert|]. rewrite lookup_insert_eq. unfold sync_bytes.
    by rewrite <- Hdt. }
  intros [err|[]]; [apply hoare_abandon|].
  apply (hoare_bind _ _ _ (fun _ => in_state same_dir tmp_ready)); [|intros []; apply hoare_swap].
  apply hoare_sys_ignore; [apply hoare_os_Close|by intros m [? _]; left].
Qed.

Lemma hoare_Checkpoint :
  hoare (in_state (fun fw => dir fw = d /\ acked fw = ackset) before_swap)
    Checkpoint (fun _ => in_files either_swap) (in_files either_swap).
Proof.
  assert (forall m, before_swap m -> either_swap m) as HB by (by left).
  eapply hoare_bind; [apply hoare_this|]. intros fw. apply hoare_pure. intros [Hd Ha].
  unfold tmpPath, walPath. rewrite Hd, Ha.
  eapply hoare_bind.
  { apply hoare_wrapping.
    apply (hoare_sys _ _ _ (fun r m => before_swap m /\ exists f, m !! walp = Some f /\
             (r = mk_reader (data f) false \/ rd_bad r = true))).
    eapply hoare_conseq; [apply hoare_os_Open|done|done|intros w; apply HB]. }
  intros f. eapply hoare_bind; [apply hoare_of_out; intros [s w] [_ [H _]]; by apply HB|].
  intros k. apply hoare_pure. intros Hk.
  apply (hoare_conseq _ (fun st => k = kept /\ in_state same_dir before_swap st)
           _ (fun _ => in_files either_swap) (fun _ => in_files either_swap)
           (in_files either_swap) (in_files either_swap)); [|..]; try done.
  2: { intros [s w] [[Hs _] [Hw (wf & Hwf' & Hf)]]. split; [|by split].
       destruct Hf as [->|Hbad]; [|by apply for_records_bad in Hk].
       destruct Hw as [Hwal _].
       assert (wf = mk_file (encode_log recs) (length (encode_log recs))) as ->
         by (apply (inj Some); rewrite <- Hwf'; exact Hwal).
       cbn [data] in Hk.
       rewrite <- (app_nil_r (encode_log recs)) in Hk.
       rewrite for_records_run, checkpoint_fold in Hk; [|done|by left].
       by injection Hk as <-. }
  apply hoare_pure. intros ->. fold tmpp.
  eapply hoare_bind.
  { apply hoare_wrapping.
    apply (hoare_sys _ _ _ (fun h m => h = mk_handle tmpp HOpen /\
             before_swap m /\ (data <$> m !! tmpp) = Some [])).
    eapply hoare_conseq; [apply (hoare_os_OpenTrunc tmpp before_swap
      (fun m => before_swap m /\ (data <$> m !! tmpp) = Some []))|done|done|done].
    - intros m Hm. split; [by apply before_swap_insert|]. by rewrite lookup_insert_eq.
    - exact HB. }
  intros tmpFile. apply (hoare_conseq _ (fun st => tmpFile = mk_handle tmpp HOpen /\
    in_state same_dir (fun m => before_swap m /\ (data <$> m !! tmpp) = Some []) st)
    _ (fun _ => in_files either_swap) (fun _ => in_files either_swap)
    (in_files either_swap) (in_files either_swap)); [|by intros [s w] (? & ? & ?)|done|done].
  apply hoare_pure. intros ->.
  apply hoare_write_kept.
Qed.
End checkpoint.
