(* ===== verification/WalSpec.v ===== *)
(** The contract of a write-ahead log, and the file log as an implementation of it.

    [DurableLog] is the interface the service and the workers are verified against:
    a log in state [w] durably holds exactly the entries [p]; appending adds one,
    acknowledging removes one, recovering returns them, and a crash loses none.
    [alog] is the same contract as an executable abstract machine, which the
    file log refines operation by operation. *)
From stdpp Require Import base list strings gmap sets.
From Stdlib Require Import ZArith Lia.
From S2P Require Import Prelude Errors Go Bytes Os OsFaults Proto Wal WalFormat WalProofs WalCrash.

(** The log of the process that starts on what a crash of the machine left behind, and what
    it recovers. *)
Class Restart (W : Type) := restart : (path -> nat) -> W -> out W.

Definition restart_recover `{WAL W} `{Restart W} (keep : path -> nat) (w : W) : out (list Entry) :=
  match restart keep w with
  | Ret w' => fst (wal_Recover w')
  | Fail e => Fail e
  | Panic p => Panic p
  | Crash => Crash
  | NoFuel => NoFuel
  end.

(** [wal_holds w p]: [w] is in good order and its unacknowledged entries are [p].
    [wal_logged w l]: [l] are the entries in the log, acknowledged or not.
    [wal_issued w s]: [s] is a sequence number [w] has handed out.
    [wal_room w e]: [w] can still take [e].
    [wal_whole keep w]: the crash tears no acknowledgement in two. *)
Class DurableLog (W : Type) `{WAL W} `{Restart W} := {
  wal_holds : W -> list Entry -> Prop;
  wal_logged : W -> list Entry -> Prop;
  wal_issued : W -> Z -> Prop;
  wal_room : W -> IngestRequest -> Prop;
  wal_whole : (path -> nat) -> W -> Prop;

  holds_issued : forall w p en, wal_holds w p -> en ∈ p -> wal_issued w (SeqNum en);
  append_law : forall w p e, wal_holds w p -> wal_room w e ->
    (exists err, wal_Append e w = (Fail err, w)) \/
    (exists s w', wal_Append e w = (Ret s, w') /\
       wal_holds w' (p ++ [mk_entry s e]) /\ ~ wal_issued w s /\ wal_issued w' s /\
       (forall s', wal_issued w s' -> wal_issued w' s') /\
       (forall l, wal_logged w l -> wal_logged w' (l ++ [mk_entry s e])));
  ack_law : forall w p s, wal_holds w p -> wal_issued w s ->
    exists w', wal_Acknowledge s w = (Ret tt, w') /\
      wal_holds w' (filter (fun en => SeqNum en <> s) p) /\
      (forall s', wal_issued w s' -> wal_issued w' s') /\
      (forall l, wal_logged w l -> wal_logged w' l);
  recover_law : forall w p, wal_holds w p -> wal_Recover w = (Ret p, w);
  crash_law : forall w p keep, wal_holds w p ->
    exists out, restart_recover keep w = Ret out /\ p `sublist_of` out;
  restart_law : forall w p l keep, wal_holds w p -> wal_logged w l -> wal_whole keep w ->
    exists w' p', restart keep w = Ret w' /\ wal_holds w' p' /\ wal_logged w' l /\
      p `sublist_of` p' /\ p' `sublist_of` l
}.

(** ** The abstract machine *)
Module AbstractLog.

Record alog := mk { last : Z; pending : list Entry }.

Inductive op :=
  | OAppend (e : IngestRequest)
  | OAcknowledge (s : Z)
  | ORecover
  | OCheckpoint.

Inductive answer :=
  | ASeq (s : Z)
  | ADone
  | AEntries (l : list Entry).

Definition step (o : op) (a : alog) : answer * alog :=
  match o with
  | OAppend e => (ASeq (last a + 1), mk (last a + 1) (pending a ++ [mk_entry (last a + 1) e]))
  | OAcknowledge s => (ADone, mk (last a) (filter (fun en => SeqNum en <> s) (pending a)))
  | ORecover => (AEntries (pending a), a)
  | OCheckpoint => (ADone, a)
  end.

Fixpoint run (ops : list op) (a : alog) : list answer * alog :=
  match ops with
  | [] => ([], a)
  | o :: ops =>
      let '(r, a) := step o a in
      let '(rs, a) := run ops a in (r :: rs, a)
  end.

(** What the operations need: room in the 64-bit counter and in the 32-bit length
    field, an event that marshals, and only issued numbers acknowledged. *)
Fixpoint admissible `{C : Codec} (ops : list op) (n : Z) : Prop :=
  match ops with
  | [] => True
  | OAppend e :: ops =>
      (n + 1 < 2 ^ 64)%Z /\
      (exists d, proto_Marshal e = inr d /\ (Z.of_nat (length d) < 2 ^ 32)%Z) /\
      admissible ops (n + 1)
  | OAcknowledge s :: ops => (0 <= s <= n)%Z /\ admissible ops n
  | ORecover :: ops | OCheckpoint :: ops => admissible ops n
  end.
End AbstractLog.

(** The same operations on the file log; an error stops the run. *)
Module ConcreteLog.
Import AbstractLog.

Definition do_op `{C : Codec} (o : op) : M (FileWAL.FileWAL * os) answer :=
  match o with
  | OAppend e => s <- FileWAL.Append e ;; ret (ASeq s)
  | OAcknowledge s => FileWAL.Acknowledge s ;; ret ADone
  | ORecover => l <- FileWAL.Recover ;; ret (AEntries l)
  | OCheckpoint => FileWAL.Checkpoint ;; ret ADone
  end.

Fixpoint do_ops `{C : Codec} (ops : list op) : M (FileWAL.FileWAL * os) (list answer) :=
  match ops with
  | [] => ret []
  | o :: ops => r <- do_op o ;; rs <- do_ops ops ;; ret (r :: rs)
  end.
End ConcreteLog.

Import FileWAL.

Section calm_checkpoint.
Context `{C : Codec}.

Lemma for_each_write_calm h p recs w f :
  calm w -> open_at h p -> files w !! p = Some f ->
  for_each (writeRecord h) recs w =
    (Ret tt, set_files <[p := append_bytes (encode_log recs) f]> w).
Proof.
  intros Hc Ho. revert w f Hc. induction recs as [|rec recs IH]; intros w f Hc Hf.
  - cbn [for_each]. unfold ret. f_equal. unfold set_files, append_bytes.
    change (encode_log []) with (@nil byte).
    rewrite app_nil_r. destruct w, f. simpl in *. by rewrite insert_id.
  - cbn [for_each]. rewrite (bind_run_Ret _ _ _ _ _ (writeRecord_calm h p _ _ _ Hc Ho Hf)).
    rewrite (IH _ (append_bytes (encode_record rec) f)); [|done|by simpl; rewrite lookup_insert_eq].
    f_equal. unfold set_files. simpl. rewrite insert_insert_eq. unfold append_bytes. simpl.
    by rewrite encode_log_cons, (assoc_L (++)).
Qed.

Lemma Checkpoint_rep fw w recs acks :
  calm w -> log_rep fw w recs acks ->
  exists fw' w',
    Checkpoint (fw, w) = (Ret tt, (fw', w')) /\ calm w' /\
    dir fw' = dir fw /\ seq fw' = seq fw /\ acked fw' = ∅ /\
    log_rep fw' w' (filter (fun rec => r_seq rec ∉ acked fw) recs) [].
Proof.
  intros Hc H. destruct H as [Hwh Hah Hw Ha Hack Hwf Hawf Hseq Hrle Hale Hnd].
  set (kept := filter _ recs).
  assert (walPath fw <> tmpPath fw) as Hne1 by (by intros [=]).
  assert (ackPath fw <> tmpPath fw) as Hne2 by (by intros [=]).
  assert (walPath fw <> ackPath fw) as Hne3 by (by intros [=]).
  unfold Checkpoint. run_go. rewrite (os_Open_calm _ _ _ Hc Hw). run_go. cbn [data].
  rewrite <- (app_nil_r (encode_log recs)).
  rewrite for_records_run, checkpoint_fold by (try done; by left). cbn [app]. fold kept. run_go.
  rewrite os_OpenTrunc_calm by done. run_go.
  rewrite (for_each_write_calm _ (tmpPath fw) _ _ empty_file)
    by (try done; by simpl; rewrite lookup_insert_eq). run_go.
  rewrite (os_Sync_calm _ (tmpPath fw)) by done. run_go.
  rewrite (os_Close_calm _ (tmpPath fw)) by done. run_go.
  unfold checkpoint_swap. run_go.
  rewrite (os_Close_calm _ (walPath fw)) by done. run_go.
  erewrite os_Rename_calm; [|done|]. 2: { simpl. by rewrite insert_insert_eq, alter_insert_eq,
    lookup_insert_eq. }
  run_go. change (walPath (set_walFile _ fw)) with (walPath fw).
  erewrite open_existing; [|done|]. 2: { simpl. by rewrite lookup_insert_eq. }
  run_go. cbn [ackFile set_walFile]. rewrite (os_Close_calm _ (ackPath fw)) by done. run_go.
  rewrite os_OpenTrunc_calm by done. run_go.
  eexists _, _. split; [done|]. split; [done|]. split_and!; [done..|].
  unfold set_files. simpl.
  split; simpl; try done.
  - rewrite lookup_insert_ne by done. rewrite lookup_insert_eq. done.
  - by rewrite lookup_insert_eq.
  - by apply Forall_filter.
  - by apply Forall_filter.
  - by apply NoDup_fmap_filter.
Qed.
End calm_checkpoint.
