(* ===== verification/WalTheorems.v ===== *)
(** The file log implements the contract of WalSpec.v, and the properties of its
    operations: refinement, crash atomicity, checkpointing, termination of the
    read loops, the record round trip, and what a torn tail does. *)
From stdpp Require Import base list strings gmap sets.
From Stdlib Require Import ZArith Lia.
From S2P Require Import Prelude Errors Go Bytes Os OsFaults Proto Wal WalFormat WalProofs WalCrash WalSpec.

Import FileWAL.

(** How the file log realises the interface. *)
#[export] Instance file_restart `{C : Codec} : Restart (FileWAL * os) :=
  fun keep st =>
    match NewFileWAL (dir (fst st)) (power_loss keep (snd st)) with
    | (Ret fw, w) => Ret (fw, w)
    | (Fail e, _) => Fail e
    | (Panic p, _) => Panic p
    | (Crash, _) => Crash
    | (NoFuel, _) => NoFuel
    end.

(** Good order, as long as no checkpoint has removed the record of the last number. *)
Definition file_rep (st : FileWAL * os) (recs : list record) (acks : list Z) : Prop :=
  calm (snd st) /\ log_rep (fst st) (snd st) recs acks /\ seq (fst st) = max_seq recs.

Definition file_holds `{C : Codec} (st : FileWAL * os) (p : list Entry) : Prop :=
  exists recs acks, file_rep st recs acks /\ p = live_entries (acked (fst st)) recs.

Definition file_logged `{C : Codec} (st : FileWAL * os) (l : list Entry) : Prop :=
  exists recs acks, file_rep st recs acks /\ l = live_entries ∅ recs.

(** The ack file keeps a whole number of acknowledgements. *)
Definition file_whole (keep : path -> nat) (st : FileWAL * os) : Prop :=
  let p := ackPath (fst st) in
  forall f, files (snd st) !! p = Some f -> Nat.divide 8 (length (data (cut_file (keep p) f))).

Definition file_issued (st : FileWAL * os) (s : Z) : Prop := (0 <= s <= seq (fst st))%Z.

Definition file_room `{C : Codec} (st : FileWAL * os) (e : IngestRequest) : Prop :=
  (seq (fst st) + 1 < 2 ^ 64)%Z /\
  forall d, proto_Marshal e = inr d -> (Z.of_nat (length d) < 2 ^ 32)%Z.

(** Loading the empty directory. *)
Definition empty_os : os := mk_os ∅ [].
Definition fresh_log (d : string) : FileWAL :=
  mk d (mk_handle (filepath_Join d walFileName) HOpen)
       (mk_handle (filepath_Join d ackFileName) HOpen) 0 ∅.
Definition fresh_os (d : string) : os :=
  mk_os (<[filepath_Join d ackFileName := empty_file]>
           (<[filepath_Join d walFileName := empty_file]> ∅)) [].

Section refinement.
Context `{C : Codec} `{!CodecLaws C}.

Lemma live_entry_new acked s e d :
  proto_Marshal e = inr d -> s ∉ acked ->
  live_entry acked (mk_record s d) = Some (mk_entry s e).
Proof.
  intros Hm Hs. unfold live_entry. simpl. rewrite decide_False by done.
  by rewrite (unmarshal_marshal e d Hm).
Qed.

Lemma log_rep_fresh_seq fw w recs acks :
  log_rep fw w recs acks -> (seq fw + 1)%Z ∉ (list_to_set acks : gset Z).
Proof.
  intros H. rewrite elem_of_list_to_set. intros Hin.
  pose proof (rep_acks_le _ _ _ _ H) as Hle. rewrite Forall_forall in Hle.
  specialize (Hle _ Hin). simpl in Hle. lia.
Qed.

Lemma log_rep_wf_seq fw w recs acks en :
  log_rep fw w recs acks -> en ∈ live_entries (acked fw) recs -> (0 <= SeqNum en <= seq fw)%Z.
Proof.
  intros H [(rec & -> & Hin)%list_elem_of_fmap _]%live_entries_seqs.
  pose proof (rep_recs_le _ _ _ _ H) as H1. pose proof (rep_wf _ _ _ _ H) as H2.
  rewrite Forall_forall in H1, H2. specialize (H1 _ Hin). specialize (H2 _ Hin).
  unfold wf_record in H2. simpl in H1. lia.
Qed.

Lemma NewFileWAL_fresh d : NewFileWAL d empty_os = (Ret (fresh_log d), fresh_os d).
Proof.
  assert (opened d empty_os = fresh_os d) as Ho.
  { unfold opened, created, set_files, fresh_os. simpl. f_equal.
    apply map_eq. intros p. rewrite !lookup_partial_alter, !lookup_insert, !lookup_empty.
    by repeat case_decide. }
  rewrite (NewFileWAL_opened d empty_os [] [] [] []), Ho; try done; [|by left|simpl; lia].
  rewrite Ho. unfold fresh_os. split; simpl;
    [rewrite lookup_insert_ne by (by intros [=])|]; by rewrite lookup_insert_eq.
Qed.

Lemma fresh_log_rep d : log_rep (fresh_log d) (fresh_os d) [] [].
Proof.
  split; simpl; try done; try lia.
  - unfold walPath. simpl. rewrite lookup_insert_ne by (by intros [=]).
    by rewrite lookup_insert_eq.
  - unfold ackPath. simpl. by rewrite lookup_insert_eq.
  - constructor.
Qed.

Lemma do_ops_refines ops fw w recs acks :
  calm w -> log_rep fw w recs acks -> AbstractLog.admissible ops (seq fw) ->
  exists st',
    ConcreteLog.do_ops ops (fw, w) =
      (Ret (fst (AbstractLog.run ops (AbstractLog.mk (seq fw) (live_entries (acked fw) recs)))),
       st').
Proof.
  revert fw w recs acks. induction ops as [|o ops IH]; intros fw w recs acks Hc H Hadm;
    [by eexists|].
  assert (forall r fw1 w1 recs1 acks1 a1,
    ConcreteLog.do_op o (fw, w) = (Ret r, (fw1, w1)) -> calm w1 -> log_rep fw1 w1 recs1 acks1 ->
    AbstractLog.admissible ops (seq fw1) ->
    AbstractLog.step o (AbstractLog.mk (seq fw) (live_entries (acked fw) recs)) = (r, a1) ->
    a1 = AbstractLog.mk (seq fw1) (live_entries (acked fw1) recs1) ->
    exists st', ConcreteLog.do_ops (o :: ops) (fw, w) =
      (Ret (fst (AbstractLog.run (o :: ops)
                   (AbstractLog.mk (seq fw) (live_entries (acked fw) recs)))), st')) as step.
  { intros r fw1 w1 recs1 acks1 a1 E1 Hc1 H1 Hadm1 E2 ->.
    destruct (IH fw1 w1 recs1 acks1 Hc1 H1 Hadm1) as [st' E]. exists st'.
    cbn [ConcreteLog.do_ops AbstractLog.run]. rewrite (bind_run_Ret _ _ _ _ _ E1).
    rewrite (bind_run_Ret _ _ _ _ _ E), E2. by destruct (AbstractLog.run _ _). }
  destruct o as [e|s| |]; simpl in Hadm.
  - destruct Hadm as (Hs & (d & Hm & Hl) & Hadm).
    destruct (Append_rep e d fw w recs acks Hc H Hm Hs Hl) as (w1 & E1 & Hc1 & H1).
    eapply step; try done.
    + unfold ConcreteLog.do_op. rewrite (bind_run_Ret _ _ _ _ _ E1). done.
    + simpl. f_equal. rewrite live_entries_snoc, (live_entry_new _ _ e d Hm); [done|].
      rewrite (rep_acked _ _ _ _ H). by eapply log_rep_fresh_seq.
  - destruct Hadm as [Hs Hadm].
    destruct (Acknowledge_rep s fw w recs acks Hc H Hs) as (w1 & E1 & Hc1 & H1).
    eapply step; try done.
    + unfold ConcreteLog.do_op. rewrite (bind_run_Ret _ _ _ _ _ E1). done.
    + simpl. f_equal. by rewrite live_entries_ack.
  - eapply step; try done.
    unfold ConcreteLog.do_op. by rewrite (bind_run_Ret _ _ _ _ _ (Recover_rep _ _ _ _ Hc H)).
  - destruct (Checkpoint_rep fw w recs acks Hc H) as (fw1 & w1 & E1 & Hc1 & _ & Hs & Ha & H1).
    eapply step; try done.
    + unfold ConcreteLog.do_op. rewrite (bind_run_Ret _ _ _ _ _ E1). done.
    + by rewrite Hs.
    + simpl. by rewrite Hs, Ha, live_entries_filter by set_solver.
Qed.
End refinement.

(** ** A log in good order survives any crash *)

Section crash.
Context `{C : Codec}.

Lemma log_rep_crash keep fw w recs acks :
  log_rep fw w recs acks ->
  exists n, recover_after keep (dir fw) w = Ret (live_entries (list_to_set (take n acks)) recs).
Proof.
  intros H. pose proof (rep_ack _ _ _ _ H) as (fa & Hfa & Hda)%fmap_Some.
  eapply recover_after_synced; try apply H; done.
Qed.

Lemma live_entries_crash fw w recs acks n :
  log_rep fw w recs acks ->
  live_entries (acked fw) recs `sublist_of` live_entries (list_to_set (take n acks)) recs.
Proof.
  intros H. apply live_entries_anti. rewrite (rep_acked _ _ _ _ H). apply prefix_acked.
Qed.

Lemma live_entries_all acked recs : live_entries acked recs `sublist_of` live_entries ∅ recs.
Proof. apply live_entries_anti. set_solver. Qed.

End crash.

(** ** The interface is implemented *)

Section instance.
Context `{C : Codec} `{!CodecLaws C}.

Lemma max_seq_snoc recs rec :
  (max_seq recs <= r_seq rec)%Z -> max_seq (recs ++ [rec]) = r_seq rec.
Proof. unfold max_seq. rewrite foldl_app. simpl. unfold max_body. intros H. case_decide; lia. Qed.

Lemma file_append_law (st : FileWAL * os) p e :
  file_holds st p -> file_room st e ->
  (exists err, wal_Append e st = (Fail err, st)) \/
  (exists s st', wal_Append e st = (Ret s, st') /\
     file_holds st' (p ++ [mk_entry s e]) /\ ~ file_issued st s /\ file_issued st' s /\
     (forall s', file_issued st s' -> file_issued st' s') /\
     (forall l, file_logged st l -> file_logged st' (l ++ [mk_entry s e]))).
Proof.
  destruct st as [fw w]. intros (recs & acks & (Hc & H & Hmax) & ->) [Hs Hd]. simpl in *.
  destruct (proto_Marshal e) as [err|d] eqn:Hm.
  - left. exists (ErrWrap "wal: marshal event: " err). by apply Append_marshal_error.
  - right. destruct (Append_rep e d fw w recs acks Hc H Hm Hs (Hd d eq_refl))
      as (w' & E & Hc' & H').
    exists (seq fw + 1)%Z, (set_seq (seq fw + 1) fw, w'). split; [done|].
    pose proof (rep_seq _ _ _ _ H) as Hseq. unfold file_issued. simpl.
    assert (forall recs0 acks0, file_rep (fw, w) recs0 acks0 -> recs0 = recs) as Hfun.
    { intros recs0 acks0 (_ & H0 & _). eapply log_rep_recs; [exact H0|exact H]. }
    assert (file_rep (set_seq (seq fw + 1) fw, w') (recs ++ [mk_record (seq fw + 1) d]) acks) as Hrep.
    { split_and!; [done|done|]. cbn [fst]. rewrite max_seq_snoc; cbn; lia. }
    split_and!; [|lia|lia|lia|lia|].
    + exists (recs ++ [mk_record (seq fw + 1) d]), acks. split; [done|].
      rewrite live_entries_snoc. f_equal. simpl. rewrite (live_entry_new _ _ e d Hm); [done|].
      rewrite (rep_acked _ _ _ _ H). by eapply log_rep_fresh_seq.
    + intros l (recs0 & acks0 & H0 & ->). rewrite (Hfun _ _ H0).
      eexists _, acks. split; [exact Hrep|]. rewrite live_entries_snoc. f_equal.
      by rewrite (live_entry_new _ _ e d Hm).
Qed.

Lemma file_ack_law (st : FileWAL * os) p s :
  file_holds st p -> file_issued st s ->
  exists st', wal_Acknowledge s st = (Ret tt, st') /\
    file_holds st' (filter (fun en => SeqNum en <> s) p) /\
    (forall s', file_issued st s' -> file_issued st' s') /\
    (forall l, file_logged st l -> file_logged st' l).
Proof.
  destruct st as [fw w]. intros (recs & acks & (Hc & H & Hmax) & ->) Hs. simpl in *.
  destruct (Acknowledge_rep s fw w recs acks Hc H Hs) as (w' & E & Hc' & H').
  assert (file_rep (set_acked ({[s]} ∪ acked fw) fw, w') recs (acks ++ [s])) as Hrep by done.
  eexists. split; [done|]. split_and!; [|done|].
  - exists recs, (acks ++ [s]). split; [done|]. simpl. by rewrite live_entries_ack.
  - intros l (recs0 & acks0 & (_ & H0 & _) & ->).
    rewrite (log_rep_recs _ _ _ _ _ _ H0 H). by eexists _, _.
Qed.

Lemma file_recover_law (st : FileWAL * os) p :
  file_holds st p -> wal_Recover st = (Ret p, st).
Proof.
  destruct st as [fw w]. intros (recs & acks & (Hc & H & _) & ->). by eapply Recover_rep.
Qed.

(** A whole restart: the acknowledgements that the crash left, the records all of them. *)
Lemma file_restart_rep keep fw w recs acks :
  file_rep (fw, w) recs acks -> file_whole keep (fw, w) ->
  exists st n, restart keep (fw, w) = Ret st /\ file_rep st recs (take n acks).
Proof.
  intros (_ & H & Hmax) Hwhole. cbn [fst snd] in *. destruct H as [Hwh Hah Hw Ha Hack Hwf Hawf Hseq Hrle Hale Hnd].
  apply fmap_Some in Ha as (fa & Hfa & Hda). specialize (Hwhole fa Hfa). cbn [fst] in Hwhole.
  assert (exists m, data (cut_file (keep (ackPath fw)) fa) = take m (encode_acks acks)) as [m Hm].
  { eexists. unfold cut_file. simpl. by rewrite Hda. }
  destruct (take_encode_acks m acks) as (ta & Hta & Hlen).
  rewrite Hm, Hta, length_app, length_encode_acks in Hwhole. destruct Hwhole as [k Hk].
  destruct ta; [|simpl in *; lia]. rewrite app_nil_r in Hta. clear k Hk Hlen.
  assert (on_disk (dir fw) (power_loss keep w) recs [] (take (m / 8) acks) []) as Hod.
  { split; rewrite power_loss_lookup, app_nil_r; fold (walPath fw) (ackPath fw).
    - rewrite Hw. cbn [fmap option_fmap option_map]. by rewrite cut_file_synced.
    - rewrite Hfa. cbn [fmap option_fmap option_map]. by rewrite Hm, Hta. }
  unfold restart, file_restart. cbn [fst snd].
  rewrite (NewFileWAL_run _ _ recs [] (take (m / 8) acks) []);
    [|apply power_loss_calm|done|done|by left|by apply Forall_take|simpl; lia].
  eexists _, (m / 8)%nat. split; [done|]. split_and!; [apply power_loss_calm| |done].
  cbn [fst snd]. destruct Hod as [_ Hoa]. rewrite app_nil_r in Hoa.
  split; try done; cbn [seq acked]; rewrite <- ?Hmax; try done; try (by apply Forall_take).
  unfold walPath. cbn [dir]. rewrite power_loss_lookup. fold (walPath fw). rewrite Hw. simpl.
  unfold cut_file. cbn [synced data]. rewrite take_ge by lia. done.
Qed.

#[export] Program Instance file_durable : DurableLog (FileWAL * os) := {|
  wal_holds := file_holds;
  wal_logged := file_logged;
  wal_issued := file_issued;
  wal_room := file_room;
  wal_whole := file_whole
|}.
Next Obligation.
  intros [fw w] p en (recs & acks & (Hc & H & _) & ->) Hin. by eapply log_rep_wf_seq.
Qed.
Next Obligation. intros. by apply file_append_law. Qed.
Next Obligation. intros. by apply file_ack_law. Qed.
Next Obligation. intros. by apply file_recover_law. Qed.
Next Obligation.
  intros [fw w] p keep (recs & acks & (Hc & H & _) & ->).
  destruct (log_rep_crash keep fw w recs acks H) as [n Hn].
  eexists. split; [|by eapply live_entries_crash].
  revert Hn. unfold recover_after, restart_recover, restart, file_restart. cbn [fst snd].
  by destruct (NewFileWAL _ _) as [[] ?].
Qed.
Next Obligation.
  intros [fw w] p l keep (recs & acks & Hr & ->) (recs0 & acks0 & (_ & H0 & _) & ->) Hwhole.
  pose proof Hr as (_ & H & _). rewrite (log_rep_recs _ _ _ _ _ _ H0 H).
  destruct (file_restart_rep keep fw w recs acks Hr Hwhole) as (st & n & Hst & Hr').
  pose proof Hr' as (_ & H' & _).
  exists st, (live_entries (acked (fst st)) recs). split_and!; [done|by eexists _, _|by eexists _, _| |].
  - rewrite (rep_acked _ _ _ _ H'). by eapply live_entries_crash.
  - apply live_entries_all.
Qed.
End instance.

(** ** Termination of the read loops *)

Lemma for_records_ends {A} onerr (body : A -> record -> A) acc r :
  orderly (for_records (loop_fuel r) onerr body acc r).
Proof.
  destruct (for_records_total onerr body (loop_fuel r) acc r) as [[a ->]|[e ->]];
    [unfold loop_fuel; lia|done|done].
Qed.

Lemma for_acks_ends fuel a r :
  (length (rd_data r) < fuel)%nat -> orderly (for_acks fuel a r).
Proof.
  revert a r. induction fuel as [|fuel IH]; intros a r Hf; [lia|]. cbn [for_acks].
  destruct (io_ReadFull 8 r) as [e|[b r']] eqn:Hr; [by destruct (is_eof e)|].
  apply io_ReadFull_inr in Hr as (Hd & Hl & _); [|lia]. apply IH.
  rewrite Hd, length_app in Hf. lia.
Qed.

Section ends.
Context `{C : Codec}.

Lemma ends_this : ends this.
Proof. apply ends_on_fst, ends_gets. Qed.
Lemma ends_update f : ends (update f).
Proof. apply ends_on_fst, ends_modify. Qed.
Local Hint Resolve ends_this ends_update : go_ends.

Lemma ends_open_or_empty p : ends (open_or_empty p).
Proof.
  apply ends_bind; [auto with go_ends|]. intros [e|r]; [|auto with go_ends].
  destruct (os_IsNotExist e); auto with go_ends.
Qed.
Local Hint Resolve ends_open_or_empty : go_ends.

Lemma ends_for_records {A} onerr (body : A -> record -> A) acc r :
  ends (of_out (S := FileWAL * os) (for_records (loop_fuel r) onerr body acc r)).
Proof. apply ends_of_out, for_records_ends. Qed.
Local Hint Resolve ends_for_records : go_ends.

Lemma ends_loadAcked : ends loadAcked.
Proof.
  apply ends_bind; [auto with go_ends|]. intros fw.
  apply ends_bind; [auto with go_ends|]. intros [r|]; [|auto with go_ends].
  apply ends_bind; [|auto with go_ends].
  apply ends_of_out, for_acks_ends. unfold loop_fuel. lia.
Qed.

Lemma ends_loadMaxSeq : ends loadMaxSeq.
Proof.
  apply ends_bind; [auto with go_ends|]. intros fw.
  apply ends_bind; [auto with go_ends|]. intros [r|]; auto with go_ends.
Qed.
Local Hint Resolve ends_loadAcked ends_loadMaxSeq : go_ends.

Lemma ends_NewFileWAL d : ends (NewFileWAL d).
Proof.
  apply ends_bind; [auto with go_ends|]. intros [].
  apply ends_bind; [auto with go_ends|]. intros h.
  apply ends_bind; [auto with go_ends|]. intros [e|a]; [auto with go_ends|].
  apply ends_bind; [auto with go_ends|]. intros [e|[_ fw]]; [auto with go_ends|].
  apply ends_bind; [auto with go_ends|]. intros [e|[_ fw']]; auto with go_ends.
Qed.

Lemma ends_Recover : ends Recover.
Proof.
  apply ends_bind; [auto with go_ends|]. intros fw.
  apply ends_bind; [auto with go_ends|]. intros [e|r]; [|auto with go_ends].
  destruct (os_IsNotExist e); auto with go_ends.
Qed.

Lemma ends_abandon h p err : ends (abandon_tmp h p err).
Proof. unfold abandon_tmp. auto 10 with go_ends. Qed.
Local Hint Resolve ends_abandon : go_ends.

Lemma ends_swap : ends checkpoint_swap.
Proof.
  apply ends_bind; [auto with go_ends|]. intros fw.
  do 3 (apply ends_bind; [auto with go_ends|]; intros []).
  apply ends_bind; [auto with go_ends|]. intros [e|h]; [auto with go_ends|].
  do 3 (apply ends_bind; [auto with go_ends|]; intros []).
  apply ends_bind; [auto with go_ends|]. intros [e|a]; auto with go_ends.
Qed.
Local Hint Resolve ends_swap : go_ends.

Lemma ends_writeRecord h rec : ends (writeRecord h rec).
Proof. unfold writeRecord, os_Write. auto with go_ends. Qed.
Local Hint Resolve ends_writeRecord : go_ends.

Lemma ends_Checkpoint : ends Checkpoint.
Proof.
  do 4 (apply ends_bind; [auto with go_ends|]; intros ?).
  apply ends_bind; [auto with go_ends|]. intros [e|[]]; [auto with go_ends|].
  apply ends_bind; [auto with go_ends|]. intros [e|[]]; auto with go_ends.
Qed.
End ends.

(** ** What a partial append leaves *)

Section partial.
Context `{C : Codec} `{!CodecLaws C}.

Lemma cut_appended k j b l :
  exists j', data (cut_file k (append_bytes (take j b) (mk_file l (length l)))) = l ++ take j' b.
Proof.
  unfold cut_file, append_bytes. simpl.
  rewrite take_app_ge by lia. rewrite take_take. eauto.
Qed.

(** The log after a cut-short or complete append reads as the old records, or as
    the old records and the new one. *)
Lemma recover_partial keep fw w w' recs acks rec f' :
  log_rep fw w recs acks -> wf_record rec ->
  files w' = <[walPath fw := f']> (files w) ->
  (exists j, data (cut_file (keep (walPath fw)) f') = encode_log recs ++ take j (encode_record rec)) ->
  exists n,
    recover_after keep (dir fw) w' = Ret (live_entries (list_to_set (take n acks)) recs) \/
    recover_after keep (dir fw) w' =
      Ret (live_entries (list_to_set (take n acks)) (recs ++ [rec])).
Proof.
  intros H Hrec Hf [j Hj]. pose proof (rep_ack _ _ _ _ H) as (fa & Hfa & Hda)%fmap_Some.
  assert (files w' !! filepath_Join (dir fw) walFileName = Some f') as Hw'
    by (rewrite Hf; apply lookup_insert_eq).
  assert (files w' !! filepath_Join (dir fw) ackFileName = Some fa) as Ha'
    by (rewrite Hf, lookup_insert_ne; [done|apply walPath_ackPath]).
  destruct (take_encode_record j rec Hrec) as [Hfull|Htorn].
  - destruct (recover_after_run keep (dir fw) w' (recs ++ [rec]) [] acks f' fa) as [n Hn];
      try done; try apply H; [| |by left|by exists n; right].
    + rewrite app_nil_r, encode_log_snoc, <- Hfull. exact Hj.
    + apply Forall_app. split; [apply H|by constructor].
  - destruct (recover_after_run keep (dir fw) w' recs (take j (encode_record rec)) acks f' fa)
      as [n Hn]; try done; try apply H. by exists n; left.
Qed.

Lemma recover_whole keep fw w w' recs acks rec f' :
  log_rep fw w recs acks -> wf_record rec ->
  files w' = <[walPath fw := f']> (files w) ->
  f' = sync_bytes (append_bytes (encode_record rec)
         (mk_file (encode_log recs) (length (encode_log recs)))) ->
  exists n,
    recover_after keep (dir fw) w' =
      Ret (live_entries (list_to_set (take n acks)) (recs ++ [rec])).
Proof.
  intros H Hrec Hf ->. pose proof (rep_ack _ _ _ _ H) as (fa & Hfa & Hda)%fmap_Some.
  eapply recover_after_synced; try apply H; try done.
  - rewrite Hf. apply lookup_insert_eq.
  - rewrite Hf, lookup_insert_ne; [done|apply walPath_ackPath].
  - simpl. by rewrite encode_log_snoc.
  - done.
  - apply Forall_app. split; [apply H|by constructor].
Qed.

Lemma live_entries_snoc_new fw w recs acks n e d :
  log_rep fw w recs acks -> proto_Marshal e = inr d ->
  live_entries (list_to_set (take n acks)) (recs ++ [mk_record (seq fw + 1) d]) =
  live_entries (list_to_set (take n acks)) recs ++ [mk_entry (seq fw + 1) e].
Proof.
  intros H Hm. rewrite live_entries_snoc, (live_entry_new _ _ e d Hm); [done|].
  pose proof (log_rep_fresh_seq _ _ _ _ H). pose proof (prefix_acked n acks). set_solver.
Qed.
End partial.

(** ** Properties *)

#[local] Existing Instance FrameCodec.codec_laws.

Definition ev (i : string) : IngestRequest := mk_event i "web" "{}" 1717100000 "".

(** A file system with the given schedule of faults. *)
Definition with_faults (l : list fault) (w : os) : os := mk_os (files w) l.

(** C4. The file log behaves as the abstract log: started in an empty directory, every
    sequence of appends, acknowledgements, recoveries and checkpoints returns
    what the abstract machine returns. Appends number their events 1, 2, ...; a
    recovery returns exactly the unacknowledged events, oldest first, and a
    checkpoint changes no later answer. *)
Theorem FileWAL_refines_AbstractLog `{C : Codec, !CodecLaws C} d ops :
  AbstractLog.admissible ops 0 ->
  exists fw w st',
    NewFileWAL d empty_os = (Ret fw, w) /\
    ConcreteLog.do_ops ops (fw, w) =
      (Ret (fst (AbstractLog.run ops (AbstractLog.mk 0 []))), st').
Proof.
  intros Hadm.
  destruct (do_ops_refines ops (fresh_log d) (fresh_os d) [] []) as [st' E];
    [done|apply fresh_log_rep|done|].
  exists (fresh_log d), (fresh_os d), st'. split; [apply NewFileWAL_fresh|exact E].
Qed.

Definition demo_ops : list AbstractLog.op :=
  [AbstractLog.OAppend (ev "a"); AbstractLog.OAppend (ev "b"); AbstractLog.OAppend (ev "c");
   AbstractLog.OAcknowledge 1; AbstractLog.OAcknowledge 3; AbstractLog.OCheckpoint;
   AbstractLog.OAppend (ev "d"); AbstractLog.ORecover].

Lemma FileWAL_refines_AbstractLog_witness :
  fst (AbstractLog.run demo_ops (AbstractLog.mk 0 [])) =
    [AbstractLog.ASeq 1; AbstractLog.ASeq 2; AbstractLog.ASeq 3; AbstractLog.ADone;
     AbstractLog.ADone; AbstractLog.ADone; AbstractLog.ASeq 4;
     AbstractLog.AEntries [mk_entry 2 (ev "b"); mk_entry 4 (ev "d")]] /\
  exists fw w st',
    NewFileWAL "data/wal" empty_os = (Ret fw, w) /\
    ConcreteLog.do_ops (C := FrameCodec.codec) demo_ops (fw, w) =
      (Ret (fst (AbstractLog.run demo_ops (AbstractLog.mk 0 []))), st').
Proof.
  split; [vm_compute; reflexivity|].
  apply (FileWAL_refines_AbstractLog (C := FrameCodec.codec)).
  simpl. repeat first
    [ split | lia
    | eexists; split; [vm_compute; reflexivity|vm_compute; reflexivity] ].
Defined.

(** C5. [Append] is atomic and durable. Whatever system call fails, is cut short or kills
    the process during [Append], and whatever part of the unsynced bytes the machine
    then loses, a restarted process recovers every entry that was pending before, invents
    nothing, and, when [Append] had returned a sequence number, also recovers the new event. *)
Theorem Append_crash_atomic `{C : Codec, !CodecLaws C} e fw w recs acks keep r fw' w' :
  log_rep fw w recs acks ->
  (seq fw + 1 < 2 ^ 64)%Z ->
  (forall d, proto_Marshal e = inr d -> (Z.of_nat (length d) < 2 ^ 32)%Z) ->
  Append e (fw, w) = (r, (fw', w')) ->
  let old := live_entries (acked fw) recs in
  let new := mk_entry (seq fw + 1) e in
  exists out,
    recover_after keep (dir fw) w' = Ret out /\
    old `sublist_of` out /\
    out `sublist_of` live_entries ∅ recs ++ [new] /\
    (forall s, r = Ret s -> s = (seq fw + 1)%Z /\ old ++ [new] `sublist_of` out).
Proof.
  intros H Hs Hd E old new. pose proof (rep_seq _ _ _ _ H) as Hseq.
  destruct (proto_Marshal e) as [err|d] eqn:Hm.
  { rewrite (Append_marshal_error e err fw w Hm) in E. injection E as <- <- <-.
    destruct (log_rep_crash keep fw w recs acks H) as [n Hn]. eexists. split; [exact Hn|].
    split_and!; [by eapply live_entries_crash| |done].
    apply sublist_inserts_r, live_entries_all. }
  destruct (Append_any e d fw w _ Hm (rep_wal_h _ _ _ _ H) (rep_wal _ _ _ _ H))
    as (r0 & w0 & f' & E0 & F & R). rewrite E in E0. injection E0 as <- -> <-.
  rewrite uint64_id in R by lia.
  set (rec := mk_record (seq fw + 1) d) in *.
  assert (wf_record rec) as Hrec by (split; simpl; [lia|by apply Hd]).
  destruct R as [[-> ->]|[Hfail [j ->]]].
  - destruct (recover_whole keep fw w w' recs acks rec _ H Hrec F eq_refl) as [n Hn].
    exists (live_entries (list_to_set (take n acks)) (recs ++ [rec])). split; [exact Hn|].
    unfold rec. rewrite (live_entries_snoc_new fw w recs acks n e d H Hm).
    split_and!.
    + apply sublist_inserts_r. by eapply live_entries_crash.
    + apply sublist_app; [apply live_entries_all|done].
    + intros s [= <-]. split; [done|]. apply sublist_app; [by eapply live_entries_crash|done].
  - destruct (recover_partial keep fw w w' recs acks rec _ H Hrec F (cut_appended _ _ _ _))
      as (n & [Hn|Hn]); (eexists; split; [exact Hn|]).
    + split_and!; [by eapply live_entries_crash|apply sublist_inserts_r, live_entries_all|].
      intros s ->. by destruct Hfail as [[? [=]]|[=]].
    + unfold rec. rewrite (live_entries_snoc_new fw w recs acks n e d H Hm). split_and!.
      * apply sublist_inserts_r. by eapply live_entries_crash.
      * apply sublist_app; [apply live_entries_all|done].
      * intros s ->. by destruct Hfail as [[? [=]]|[=]].
Qed.

Lemma Append_crash_atomic_witness :
  let w := with_faults [FNone; FCrash 4] (fresh_os "d") in
  let run := Append (C := FrameCodec.codec) (ev "a") (fresh_log "d", w) in
  fst run = Crash /\
  exists out,
    recover_after (C := FrameCodec.codec) (fun _ => 16%nat) "d" (snd (snd run)) = Ret out /\
    [] `sublist_of` out /\
    out `sublist_of` [mk_entry 1 (ev "a")] /\
    (forall s, fst run = Ret s -> s = 1%Z /\ [mk_entry 1 (ev "a")] `sublist_of` out).
Proof.
  split; [vm_compute; reflexivity|].
  apply (Append_crash_atomic (C := FrameCodec.codec) (ev "a") (fresh_log "d")
           (with_faults [FNone; FCrash 4] (fresh_os "d")) [] [] (fun _ => 16%nat) _
           (fst (snd (Append (C := FrameCodec.codec) (ev "a")
              (fresh_log "d", with_faults [FNone; FCrash 4] (fresh_os "d")))))).
  - destruct (fresh_log_rep "d"). split; assumption.
  - simpl. lia.
  - intros d Hd. vm_compute in Hd. injection Hd as <-. vm_compute. reflexivity.
  - vm_compute. reflexivity.
Defined.

(** C20. A checkpoint loses nothing. Whatever system call of [Checkpoint] fails or kills the
    process - reading the log, writing and syncing the temporary file, renaming it,
    reopening either file - and whatever the machine then loses, a restarted process
    recovers every entry that was pending, and nothing that was never appended. *)
Theorem Checkpoint_crash_safe `{C : Codec} fw w recs acks keep r fw' w' :
  log_rep fw w recs acks ->
  Checkpoint (fw, w) = (r, (fw', w')) ->
  exists out,
    recover_after keep (dir fw) w' = Ret out /\
    live_entries (acked fw) recs `sublist_of` out /\
    out `sublist_of` live_entries ∅ recs.
Proof.
  intros H E. pose proof (rep_acked _ _ _ _ H) as Hack.
  assert (either_swap (dir fw) recs acks (acked fw) (files w')) as [[Hw Ha]|[Hw Ha]].
  { assert (in_state (fun f => dir f = dir fw /\ acked f = acked fw)
              (before_swap (dir fw) recs acks) (fw, w)) as Hpre
      by (split; [done|]; split; apply H).
    pose proof (hoare_Checkpoint (dir fw) recs acks (acked fw) (rep_wf _ _ _ _ H) _ Hpre) as Hpost.
    rewrite E in Hpost. by destruct r. }
  - apply fmap_Some in Ha as (fa & Hfa & Hda).
    destruct (recover_after_synced keep (dir fw) w' recs acks _ fa Hw Hfa) as [n Hn];
      try done; try apply H.
    eexists. split; [exact Hn|].
    split; [by eapply live_entries_crash|apply live_entries_all].
  - set (kept := filter _ recs) in *.
    assert (Forall wf_record kept) as Hwf by (apply Forall_filter, H).
    assert (exists acks' fa, files w' !! filepath_Join (dir fw) ackFileName = Some fa /\
              data fa = encode_acks acks' /\ Forall wf_seq acks' /\
              (list_to_set acks' : gset Z) ⊆ acked fw) as (acks' & fa & Hfa & Hda & Hwfa & Hsub).
    { destruct Ha as [(fa & Hfa & Hda)%fmap_Some|(fa & Hfa & Hda)%fmap_Some].
      - exists acks, fa. split_and!; [done|done|apply H|by rewrite Hack].
      - exists [], fa. split_and!; [done|done|done|set_solver]. }
    destruct (recover_after_synced keep (dir fw) w' kept acks' _ fa Hw Hfa) as [n Hn]; try done.
    assert ((list_to_set (take n acks') : gset Z) ⊆ acked fw) as Hsub'
      by (etrans; [apply prefix_acked|done]).
    eexists. split; [exact Hn|]. unfold kept. rewrite live_entries_filter by done.
    split; [done|apply live_entries_all].
Qed.

(** A log of two records, the first one acknowledged. *)
Definition demo_recs : list record :=
  [mk_record 1 (FrameCodec.put_string "x"); mk_record 2 (FrameCodec.put_string "y")].
Definition demo_fw : FileWAL := set_acked {[1%Z]} (set_seq 2 (fresh_log "d")).
Definition demo_os (l : list fault) : os :=
  mk_os (<[filepath_Join "d" ackFileName := mk_file (encode_acks [1%Z]) 0]>
        (<[filepath_Join "d" walFileName :=
             mk_file (encode_log demo_recs) (length (encode_log demo_recs))]> ∅)) l.

Lemma demo_rep l : log_rep demo_fw (demo_os l) demo_recs [1%Z].
Proof.
  split; try done.
  - repeat constructor; vm_compute; intros [=].
  - repeat constructor; vm_compute; intros [=].
  - repeat constructor; vm_compute; intros [=].
  - repeat constructor; vm_compute; intros [=].
  - vm_compute. repeat constructor; set_solver.
Qed.

Lemma Checkpoint_crash_safe_witness :
  let w := demo_os [FNone; FNone; FNone; FNone; FNone; FNone; FNone; FNone; FCrash 0] in
  let run := Checkpoint (demo_fw, w) in
  fst run = Crash /\
  exists out,
    recover_after (C := FrameCodec.codec) (fun _ => O) "d" (snd (snd run)) = Ret out /\
    live_entries (C := FrameCodec.codec) {[1%Z]} demo_recs `sublist_of` out /\
    out `sublist_of` live_entries (C := FrameCodec.codec) ∅ demo_recs.
Proof.
  split; [vm_compute; reflexivity|].
  apply (Checkpoint_crash_safe (C := FrameCodec.codec) demo_fw
    (demo_os [FNone; FNone; FNone; FNone; FNone; FNone; FNone; FNone; FCrash 0])
    demo_recs [1%Z] (fun _ => O) Crash
    (fst (snd (Checkpoint (demo_fw,
       demo_os [FNone; FNone; FNone; FNone; FNone; FNone; FNone; FNone; FCrash 0]))))).
  - apply demo_rep.
  - vm_compute. reflexivity.
Defined.

(** On a system where nothing fails, [Checkpoint] returns nil, rewrites the log to
    exactly the records that are not acknowledged, empties the ack file and the
    acknowledged set, keeps the counter, and does not change what [Recover] returns. *)
Theorem Checkpoint_compacts `{C : Codec} fw w recs acks :
  calm w -> log_rep fw w recs acks ->
  exists fw' w',
    Checkpoint (fw, w) = (Ret tt, (fw', w')) /\
    log_rep fw' w' (filter (fun rec => r_seq rec ∉ acked fw) recs) [] /\
    seq fw' = seq fw /\ acked fw' = ∅ /\
    fst (Recover (fw', w')) = fst (Recover (fw, w)).
Proof.
  intros Hc H.
  destruct (Checkpoint_rep fw w recs acks Hc H) as (fw' & w' & E & Hc' & _ & Hs & Ha & H').
  exists fw', w'. split_and!; try done.
  rewrite (Recover_rep _ _ _ _ Hc H), (Recover_rep _ _ _ _ Hc' H'), Ha. simpl.
  by rewrite live_entries_filter by set_solver.
Qed.

Lemma Checkpoint_compacts_witness :
  filter (fun rec => r_seq rec ∉ acked demo_fw) demo_recs =
    [mk_record 2 (FrameCodec.put_string "y")] /\
  exists fw' w',
    Checkpoint (demo_fw, demo_os []) = (Ret tt, (fw', w')) /\
    log_rep fw' w' (filter (fun rec => r_seq rec ∉ acked demo_fw) demo_recs) [] /\
    seq fw' = 2%Z /\ acked fw' = ∅ /\
    fst (Recover (C := FrameCodec.codec) (fw', w')) =
      fst (Recover (C := FrameCodec.codec) (demo_fw, demo_os [])).
Proof.
  split; [vm_compute; reflexivity|].
  apply (Checkpoint_compacts (C := FrameCodec.codec) demo_fw (demo_os []) demo_recs [1%Z]);
    [reflexivity|apply demo_rep].
Defined.

(** C36. The loops that read the two files end on every content, well formed or
    not, under every schedule of faults: opening, recovering and checkpointing never run
    out of the bound the model puts on them, and never panic. *)
Theorem FileWAL_reads_terminate `{C : Codec} d fw w :
  orderly (fst (NewFileWAL d w)) /\
  orderly (fst (Recover (fw, w))) /\
  orderly (fst (Checkpoint (fw, w))).
Proof.
  split_and!; [apply ends_NewFileWAL|apply ends_Recover|apply ends_Checkpoint].
Qed.

(** Reading back what [writeRecord] wrote. Through an open handle and with no fault,
    the file grows by bytes that [readRecord] turns back into the same record,
    leaving the reader at whatever was written next. *)
Theorem writeRecord_readRecord h p rec w f rest :
  calm w -> open_at h p -> files w !! p = Some f -> wf_record rec ->
  exists w' f',
    writeRecord h rec w = (Ret tt, w') /\ files w' !! p = Some f' /\
    take (length (data f)) (data f') = data f /\
    readRecord (mk_reader (drop (length (data f)) (data f') ++ rest) false) =
      inr (rec, mk_reader rest false).
Proof.
  intros Hc Ho Hf Hwf. rewrite (writeRecord_calm h p rec f w Hc Ho Hf).
  eexists _, (append_bytes (encode_record rec) f).
  split; [done|]. split; [by simpl; rewrite lookup_insert_eq|]. simpl.
  rewrite take_app_length, drop_app_length. split; [done|by apply readRecord_encode].
Qed.

Lemma writeRecord_readRecord_witness :
  let h := mk_handle ("d", "wal.log") HOpen in
  let rec := mk_record 7 (FrameCodec.put_string "payload") in
  wf_record rec /\
  exists w' f',
    writeRecord h rec (demo_os []) = (Ret tt, w') /\ files w' !! ("d", "wal.log") = Some f' /\
    take (length (encode_log demo_recs)) (data f') = encode_log demo_recs /\
    readRecord (mk_reader (drop (length (encode_log demo_recs)) (data f') ++ [Byte.x01]) false) =
      inr (rec, mk_reader [Byte.x01] false).
Proof.
  split; [vm_compute; repeat split; intros [=]|].
  apply (writeRecord_readRecord _ ("d", "wal.log") _ (demo_os [])
           (mk_file (encode_log demo_recs) (length (encode_log demo_recs))) [Byte.x01]);
    [reflexivity|split; reflexivity|reflexivity|vm_compute; repeat split; intros [=]].
Defined.

(** A write that is cut short is not undone, and the file is not truncated when it is
    reopened. After an [Append] fails with five bytes written, the next [Append]
    succeeds and returns its sequence number, but neither the running process nor a
    restarted one can recover the event: the record sits behind the torn one. *)
Theorem append_after_torn_record_is_unrecoverable :
  let '(r1, st1) := Append (C := FrameCodec.codec) (ev "torn")
                      (fresh_log "d", with_faults [FErr 5] (fresh_os "d")) in
  let '(r2, st2) := Append (C := FrameCodec.codec) (ev "accepted") st1 in
  r1 = Fail (ErrWrap "wal: write record: " os_EIO) /\ r2 = Ret 2%Z /\
  fst (Recover (C := FrameCodec.codec) st2) = Ret [] /\
  recover_after (C := FrameCodec.codec) (fun _ => 1000%nat) "d" (snd st2) = Ret [].
Proof. vm_compute. repeat split. Qed.

(** A crash inside [Checkpoint] between the rename of the compacted log and the
    truncation of the ack file leaves acknowledgements of numbers the log no longer
    holds. The restarted process counts from the compacted log again, hands out such a
    number, and [Recover] then skips the newly accepted event as acknowledged. *)
Theorem checkpoint_crash_reuses_acked_numbers :
  let '(r1, st1) :=
    Append (C := FrameCodec.codec) (ev "old") (fresh_log "d", fresh_os "d") in
  let '(r2, (fw2, w2)) := Acknowledge 1 st1 in
  (* the process dies in the OpenFile that follows the rename *)
  let '(r3, (_, w3)) := Checkpoint (fw2, with_faults
      [FNone; FNone; FNone; FNone; FNone; FNone; FCrash 0] w2) in
  match NewFileWAL "d" (with_faults [] w3) with
  | (Ret fw4, w4) =>
      let '(r5, st5) := Append (C := FrameCodec.codec) (ev "new") (fw4, w4) in
      r1 = Ret 1%Z /\ r2 = Ret tt /\ r3 = Crash /\ r5 = Ret 1%Z /\
      fst (Recover (C := FrameCodec.codec) st5) = Ret []
  | _ => False
  end.
Proof. vm_compute. repeat split. Qed.

(** Seven bytes of an acknowledgement shift the ones behind it by a byte. *)
Lemma shifted_acks a b : (0 <= a < 2 ^ 56)%Z -> (0 <= b < 2 ^ 56)%Z ->
  replicate 7 Byte.x00 ++ put_uint64 a ++ put_uint64 b = encode_acks [0; 256 * a]%Z ++ put_be 7 b.
Proof.
  intros Ha Hb. rewrite (put_uint64_high a), (put_uint64_high b) by done.
  rewrite !encode_acks_cons. change (encode_acks []) with (@nil byte).
  rewrite put_uint64_low by done. rewrite app_nil_r. change (put_uint64 0) with (replicate 8 Byte.x00).
  change (replicate 8 Byte.x00) with (replicate 7 Byte.x00 ++ [Byte.x00]).
  by rewrite <- !(assoc_L (++)).
Qed.

(** C39. Acknowledgements are not synced, and the ack file is not cut when it is opened. When a
    power loss leaves seven bytes of the acknowledgement of a number below 256, the process
    that starts on it and all that follow read every later acknowledgement a byte off: the
    next two, of [a] and [b], return nil, but the process after that takes neither of them
    for acknowledged; it takes 0 and 256 times [a]. Recover then skips the event with that
    number, which nobody has acknowledged. *)
Theorem torn_ack_acknowledges_another_event `{C : Codec} d w recs acks n a b :
  calm w -> (0 <= n < 256)%Z -> on_disk d w recs [] acks (take 7 (put_uint64 n)) ->
  Forall wf_record recs -> Forall wf_seq acks -> (0 <= a < 2 ^ 56)%Z -> (0 <= b < 2 ^ 56)%Z ->
  exists fw fw1 w1 fw2,
    NewFileWAL d w = (Ret fw, w) /\ acked fw = list_to_set acks /\
    (Acknowledge a ;; Acknowledge b) (fw, w) = (Ret tt, (fw1, w1)) /\
    NewFileWAL d w1 = (Ret fw2, w1) /\
    fst (Recover (fw2, w1)) = Ret (live_entries ({[0%Z; (256 * a)%Z]} ∪ list_to_set acks) recs).
Proof.
  intros Hc Hn Hd Hwf Hacks Ha Hb.
  destruct Hd as [Hw (fa & Hfa & Hda)%fmap_Some]. rewrite take_put_uint64_small in Hda by done.
  assert (open_at (mk_handle (filepath_Join d ackFileName) HOpen) (filepath_Join d ackFileName)) as Ho by done.
  eexists _, _, _, _. split; [apply (NewFileWAL_run d w recs [] acks (replicate 7 Byte.x00)); try done; [|by left|simpl; lia]|].
  { split; [exact Hw|]. by rewrite Hfa, Hda. }
  split; [done|]. split.
  { erewrite bind_run_Ret by (apply (Acknowledge_run a _ w (filepath_Join d ackFileName)); done).
    apply (Acknowledge_run b _ _ (filepath_Join d ackFileName)); done. }
  set (w1 := set_files _ _).
  assert (on_disk d w1 recs [] (acks ++ [0; 256 * a]%Z) (put_be 7 b)) as Hod.
  { subst w1. split; cbn [files set_files].
    - rewrite !lookup_alter_ne by (apply not_eq_sym, walPath_ackPath). exact Hw.
    - rewrite !lookup_alter_eq, Hfa. cbn. rewrite <- Hda, <- !(assoc_L (++)), shifted_acks by done.
      by rewrite encode_acks_app, <- (assoc_L (++)). }
  split.
  - apply (NewFileWAL_run d w1 recs [] (acks ++ [0; 256 * a]%Z) (put_be 7 b)); try done.
    + by left.
    + apply Forall_app. split; [done|]. repeat constructor; lia.
    + rewrite length_put_be. lia.
  - destruct Hod as [(f & Hf & Hdf)%fmap_Some _].
    rewrite (Recover_run _ w1 recs [] f); [|done|exact Hf|by symmetry|done|by left].
    cbn [fst acked]. do 2 f_equal. rewrite list_to_set_app_L. simpl. set_solver.
Qed.

(** Two records are pending, numbers 1 and 256; a power loss has cut the acknowledgement of
    number 2, whose record a checkpoint has removed. The acknowledgements of 1 and 1 again, of a
    delivery that was repeated, take 256 out of the log and leave 1 in. *)
Definition shifted_recs : list record :=
  (fun n => mk_record n (match FrameCodec.marshal (ev "e") with inr d => d | inl _ => [] end)) <$> [1%Z; 256%Z].

Definition shifted_os : os :=
  mk_os (<[filepath_Join "d" ackFileName := mk_file (take 7 (put_uint64 2)) 7]>
           (<[filepath_Join "d" walFileName := mk_file (encode_log shifted_recs) (length (encode_log shifted_recs))]> ∅)) [].

Lemma torn_ack_acknowledges_another_event_witness :
  exists fw fw1 w1 fw2,
    NewFileWAL "d" shifted_os = (Ret fw, shifted_os) /\
    fst (Recover (C := FrameCodec.codec) (fw, shifted_os)) = Ret [mk_entry 1 (ev "e"); mk_entry 256 (ev "e")] /\
    (Acknowledge 1 ;; Acknowledge 1) (fw, shifted_os) = (Ret tt, (fw1, w1)) /\
    NewFileWAL "d" w1 = (Ret fw2, w1) /\
    fst (Recover (C := FrameCodec.codec) (fw2, w1)) = Ret [mk_entry 1 (ev "e")].
Proof.
  destruct (torn_ack_acknowledges_another_event (C := FrameCodec.codec) "d" shifted_os shifted_recs [] 2 1 1
    eq_refl ltac:(lia) ltac:(split; vm_compute; reflexivity)
    ltac:(repeat constructor; vm_compute; (reflexivity || (intros [=]))) ltac:(constructor)
    ltac:(lia) ltac:(lia)) as (fw & fw1 & w1 & fw2 & H1 & _ & H3 & H4 & H5).
  exists fw, fw1, w1, fw2. split; [exact H1|]. split.
  { vm_compute in H1. injection H1 as <-. vm_compute. reflexivity. }
  split; [exact H3|]. split; [exact H4|]. rewrite H5. vm_compute. reflexivity.
Defined.
