(* ===== verification/DiskQueue.v ===== *)
(** internal/buffer/disk_queue.go: the overflow file of the hybrid buffer.

    The queue is one data file of length-prefixed messages, read from
    [readOffset] and written at [writeOffset], and one small file that holds
    the read offset in decimal. [q.mu] is held throughout Enqueue and Dequeue,
    so each is one step on the pair of the queue and the file system. Offsets are
    int64 positions inside a file that exists; they stay far from 2^63. *)
From stdpp Require Import base list strings gmap.
From Stdlib Require Import ZArith Lia.
From S2P Require Import Prelude Errors Go Bytes GoStrings Os Proto.

Local Open Scope Z_scope.

Module DiskQueue.
Section DiskQueue.
Context `{C : Codec}.

Definition megaByte : Z := 1024 * 1024.
Definition dqDataFile : string := "overflow.bin".
Definition dqOffsetFile : string := "overflow.offset".
Definition dqCompactThreshold : Z := 64 * megaByte.

Record diskQueue := mk {
  f : handle;
  writeOffset : Z;
  readOffset : Z;
  count : Z;
  dir : string
}.

Definition set_writeOffset (n : Z) (q : diskQueue) : diskQueue :=
  mk (f q) n (readOffset q) (count q) (dir q).
Definition set_readOffset (n : Z) (q : diskQueue) : diskQueue :=
  mk (f q) (writeOffset q) n (count q) (dir q).
Definition add_count (n : Z) (q : diskQueue) : diskQueue :=
  mk (f q) (writeOffset q) (readOffset q) (count q + n) (dir q).

Definition this : M (diskQueue * os) diskQueue := on_fst (gets id).
Definition update (g : diskQueue -> diskQueue) : M (diskQueue * os) unit := on_fst (modify g).

Definition dataPath (d : string) : path := filepath_Join d dqDataFile.
Definition offsetPath (d : string) : path := filepath_Join d dqOffsetFile.

(** Any failure, to read or to parse, counts as offset 0. *)
Definition dqLoadOffset (p : path) : M os Z :=
  r <- try (os_ReadFile p) ;;
  match r with
  | inl _ => ret 0
  | inr data => ret (default 0 (ParseInt (TrimSpace (of_bytes data))))
  end.

(** [for pos < q.writeOffset]: a length that cannot be read ends the scan. *)
Fixpoint scan_loop (fuel : nat) (pos count : Z) : M (diskQueue * os) Z :=
  match fuel with
  | O => of_out NoFuel
  | S fuel =>
      q <- this ;;
      if decide (pos < writeOffset q) then
        r <- try (on_snd (os_ReadAt (f q) 4 pos)) ;;
        match r with
        | inl _ => ret count
        | inr lenBuf => scan_loop fuel (pos + (4 + be_uint lenBuf)) (count + 1)
        end
      else ret count
  end.

Definition scanCount : M (diskQueue * os) Z :=
  q <- this ;;
  scan_loop (S (Z.to_nat (writeOffset q - readOffset q))) (readOffset q) 0.

Definition newDiskQueue (d : string) : M os diskQueue :=
  wrapping "create overflow dir: " (os_MkdirAll d) ;;
  h <- wrapping "open overflow file: " (os_OpenCreate (dataPath d)) ;;
  info <- try (os_Stat_Size h) ;;
  match info with
  | inl err => ignore (os_Close h) ;; fail (ErrWrap "stat overflow file: " err)
  | inr size =>
      saved <- dqLoadOffset (offsetPath d) ;;
      let readOffset := if decide (saved > size) then size else saved in
      r <- run_local (mk h size readOffset 0 d) scanCount ;;
      let '(n, q) := r in
      ret (add_count n q)
  end.

(** [frame[:4]] and [frame[4:]]. *)
Definition frame (data : list byte) : list byte :=
  put_uint32 (uint32 (Z.of_nat (length data))) ++ data.

Definition Enqueue (event : IngestRequest) : M (diskQueue * os) unit :=
  match proto_Marshal event with
  | inl err => fail (ErrWrap "marshal event: " err)
  | inr data =>
      q <- this ;;
      wrapping "write overflow entry: "
        (on_snd (os_WriteAt (f q) (frame data) (writeOffset q))) ;;
      wrapping "sync overflow file: " (on_snd (os_Sync (f q))) ;;
      update (fun q => set_writeOffset (writeOffset q + Z.of_nat (length (frame data))) q) ;;
      update (add_count 1)
  end.

(** The error of [os.WriteFile] is dropped. *)
Definition persistOffset : M (diskQueue * os) unit :=
  q <- this ;;
  ignore (on_snd (os_WriteFile (offsetPath (dir q)) (to_bytes (FormatInt (readOffset q))))).

(** Every failure gives up silently, whatever has been done by then. *)
Definition compact : M (diskQueue * os) unit :=
  q <- this ;;
  let remaining := writeOffset q - readOffset q in
  if decide (remaining <= 0) then
    t <- try (on_snd (os_Truncate (f q) 0)) ;;
    match t with
    | inl _ => ret tt
    | inr _ => update (set_readOffset 0) ;; update (set_writeOffset 0) ;; persistOffset
    end
  else
    b <- try (on_snd (os_ReadAt (f q) remaining (readOffset q))) ;;
    match b with
    | inl _ => ret tt
    | inr buf =>
        w <- try (on_snd (os_WriteAt (f q) buf 0)) ;;
        match w with
        | inl _ => ret tt
        | inr _ =>
            t <- try (on_snd (os_Truncate (f q) (Z.to_nat remaining))) ;;
            match t with
            | inl _ => ret tt
            | inr _ =>
                update (set_readOffset 0) ;; update (set_writeOffset remaining) ;; persistOffset
            end
        end
    end.

(** [nil, nil] is [None]. *)
Definition Dequeue : M (diskQueue * os) (option IngestRequest) :=
  q <- this ;;
  if decide (readOffset q >= writeOffset q) then ret None
  else
    lenBuf <- wrapping "read entry length: " (on_snd (os_ReadAt (f q) 4 (readOffset q))) ;;
    let entryLen := be_uint lenBuf in
    data <- wrapping "read entry data: "
              (on_snd (os_ReadAt (f q) entryLen (readOffset q + 4))) ;;
    match proto_Unmarshal data with
    | inl err => fail (ErrWrap "unmarshal event: " err)
    | inr event =>
        update (fun q => set_readOffset (readOffset q + (4 + entryLen)) q) ;;
        update (add_count (-1)) ;;
        persistOffset ;;
        q <- this ;;
        (if decide (readOffset q >= writeOffset q) then compact
         else if decide (readOffset q > dqCompactThreshold) then compact
         else ret tt) ;;
        ret (Some event)
    end.

Definition IsEmpty (q : diskQueue) : bool := bool_decide (count q <= 0).

Definition Len (q : diskQueue) : Z := if decide (count q < 0) then 0 else count q.

Definition Close : M (diskQueue * os) unit :=
  q <- this ;;
  e <- try (on_snd (os_Close (f q))) ;;
  update (fun q => mk (closed (f q)) (writeOffset q) (readOffset q) (count q) (dir q)) ;;
  match e with inl err => fail err | inr _ => ret tt end.

End DiskQueue.
End DiskQueue.
