(* ===== verification/DiskQueueProofs.v ===== *)
(** The overflow file: its layout on disk and what each method does to it. *)
From stdpp Require Import base list strings gmap.
From Stdlib Require Import ZArith Lia.
From S2P Require Import Prelude Errors Go Bytes GoStrings Os OsFaults Proto DiskQueue.

Import DiskQueue.
Local Open Scope Z_scope.

(** Runs the sequencing of a method down to its next system call. *)
Ltac run_dq :=
  cbv beta iota zeta delta [bind try ignore wrapping on_fst on_snd gets modify of_out
    ret fail run_local id this update].

Definition encode_frames (ps : list (list byte)) : list byte := ps ≫= frame.

Arguments frame : simpl never.
Arguments encode_frames : simpl never.

Definition fits (d : list byte) : Prop := Z.of_nat (length d) < 2 ^ 32.

(** [len b] as an offset. *)
Definition zlen (b : list byte) : Z := Z.of_nat (length b).

Lemma zlen_app a b : zlen (a ++ b) = zlen a + zlen b.
Proof. unfold zlen. rewrite length_app. lia. Qed.

Lemma zlen_nonneg b : 0 <= zlen b.
Proof. unfold zlen. lia. Qed.

Lemma zlen_frame d : zlen (frame d) = 4 + zlen d.
Proof. unfold frame. rewrite zlen_app. unfold zlen at 1. by rewrite length_put_uint32. Qed.

Lemma encode_frames_cons d ps : encode_frames (d :: ps) = frame d ++ encode_frames ps.
Proof. reflexivity. Qed.

Lemma encode_frames_snoc ps d : encode_frames (ps ++ [d]) = encode_frames ps ++ frame d.
Proof. unfold encode_frames. rewrite bind_app. simpl. by rewrite app_nil_r. Qed.

(** The data file is [pre], already read; the frames of [ps]; [tl], bytes that
    are inside the queue but are no frames; and [junk], bytes behind the write
    offset, left by a write that failed. *)
Record layout (q : diskQueue) (w : os) (pre : list byte) (ps : list (list byte))
    (tl junk : list byte) : Prop := {
  lay_h : open_at (f q) (dataPath (dir q));
  lay_file : (data <$> files w !! dataPath (dir q)) = Some (pre ++ encode_frames ps ++ tl ++ junk);
  lay_read : readOffset q = zlen pre;
  lay_write : writeOffset q = zlen pre + zlen (encode_frames ps) + zlen tl;
  lay_fits : Forall fits ps;
  lay_bound : writeOffset q < 2 ^ 63
}.

(** What a restart would load as the read offset. *)
Definition saved_offset (w : os) (d : string) : Z :=
  match files w !! offsetPath d with
  | Some g => default 0 (ParseInt (TrimSpace (of_bytes (data g))))
  | None => 0
  end.

Lemma dataPath_offsetPath d : dataPath d <> offsetPath d.
Proof. by intros [=]. Qed.

(** ** Bytes of the data file *)

(** Writing at the write offset replaces junk and nothing else. *)
Lemma overwrite_end a junk b s :
  data (overwrite (length a) b (mk_file (a ++ junk) s)) = a ++ b ++ drop (length b) junk.
Proof.
  unfold overwrite. cbn [data]. rewrite take_app_length.
  replace (length a - length (a ++ junk))%nat with 0%nat by (rewrite length_app; lia).
  cbn [replicate app]. f_equal. f_equal. rewrite <- drop_drop. by rewrite drop_app_length.
Qed.

(** The slice that starts behind [pre]. *)
Lemma slice_app (pre b rest : list byte) n :
  n = Z.of_nat (length b) ->
  take (Z.to_nat n) (drop (Z.to_nat (zlen pre)) (pre ++ b ++ rest)) = b.
Proof. intros ->. unfold zlen. by rewrite !Nat2Z.id, drop_app_length, take_app_length. Qed.

(** A compaction: the first [length buf] bytes are replaced and the rest cut off. *)
Lemma overwrite_truncate (buf : list byte) (g : file) :
  (length buf <= length (data g))%nat ->
  data (truncate_bytes (length buf) (overwrite 0 buf g)) = buf.
Proof.
  intros Hl. unfold truncate_bytes, overwrite. simpl.
  rewrite take_app_length. rewrite length_app, length_drop.
  replace (length buf - (length buf + (length (data g) - length buf)))%nat with 0%nat by lia.
  apply app_nil_r.
Qed.

Lemma frame_header d :
  fits d -> be_uint (put_uint32 (uint32 (Z.of_nat (length d)))) = zlen d.
Proof.
  intros Hf. unfold fits in Hf. rewrite uint32_id by lia. rewrite be_uint_put_uint32 by lia. done.
Qed.

Section methods.
Context `{C : Codec}.

Lemma lay_lookup q w pre ps tl junk :
  layout q w pre ps tl junk ->
  exists s, files w !! dataPath (dir q) =
    Some (mk_file (pre ++ encode_frames ps ++ tl ++ junk) s).
Proof.
  intros H. destruct H as [_ Hf _ _ _ _]. apply fmap_Some in Hf as ([d s] & Hf & Hd).
  exists s. rewrite Hf. simpl in Hd. by rewrite Hd.
Qed.

(** The next entry is where [Dequeue] looks for it. *)
Lemma read_next q w pre d ps tl junk :
  calm w -> layout q w pre (d :: ps) tl junk ->
  os_ReadAt (f q) 4 (readOffset q) w =
    (Ret (put_uint32 (uint32 (Z.of_nat (length d)))), w) /\
  os_ReadAt (f q) (zlen d) (readOffset q + 4) w = (Ret d, w).
Proof.
  intros Hc Hl. destruct (lay_lookup _ _ _ _ _ _ Hl) as [s Hf]. destruct Hl as [Hh _ Hr _ _ _].
  set (hd := put_uint32 _). assert (length hd = 4%nat) as Hhd by apply length_put_uint32.
  assert (zlen (pre ++ hd) = readOffset q + 4) as Hr4.
  { rewrite zlen_app, Hr. unfold zlen. lia. }
  assert (pre ++ encode_frames (d :: ps) ++ tl ++ junk =
          pre ++ hd ++ d ++ encode_frames ps ++ tl ++ junk) as Heq.
  { rewrite encode_frames_cons. unfold frame. by rewrite <- !(assoc_L (++)). }
  rewrite Heq in Hf. pose proof (zlen_nonneg pre). pose proof (zlen_nonneg d).
  split; (erewrite (os_ReadAt_calm _ _ _ _ _ _ Hc Hh Hf); [f_equal|..]); cbn [data].
  - rewrite Hr. by rewrite slice_app by (by rewrite Hhd).
  - lia.
  - lia.
  - rewrite Hr. rewrite !length_app, Hhd. unfold zlen. lia.
  - rewrite <- Hr4, (assoc_L (++)). by rewrite slice_app.
  - lia.
  - lia.
  - rewrite Hr. rewrite !length_app, Hhd. unfold zlen. lia.
Qed.

Lemma persistOffset_calm q w :
  calm w ->
  persistOffset (q, w) =
    (Ret tt, (q, set_files <[offsetPath (dir q) :=
       mk_file (to_bytes (FormatInt (readOffset q))) 0]> w)).
Proof. intros Hc. unfold persistOffset. run_dq. by rewrite os_WriteFile_calm. Qed.

(** Writing another file leaves the layout alone. *)
Lemma layout_other q w pre ps tl junk p g :
  p <> dataPath (dir q) ->
  layout q w pre ps tl junk -> layout q (set_files <[p := g]> w) pre ps tl junk.
Proof.
  intros Hp [Hh Hf Hr Hw Hfit Hb]. split; try done. simpl. by rewrite lookup_insert_ne.
Qed.

Lemma saved_offset_insert w d n :
  - 2 ^ 63 <= n < 2 ^ 63 ->
  saved_offset (set_files <[offsetPath d := mk_file (to_bytes (FormatInt n)) 0]> w) d = n.
Proof.
  intros Hn. unfold saved_offset. simpl. rewrite lookup_insert_eq. cbn [data].
  by rewrite load_FormatInt.
Qed.

Lemma lay_range q w pre ps tl junk :
  layout q w pre ps tl junk -> 0 <= readOffset q <= writeOffset q /\ writeOffset q < 2 ^ 63.
Proof.
  intros [_ _ Hr Hw _ Hb]. pose proof (zlen_nonneg pre).
  pose proof (zlen_nonneg (encode_frames ps)). pose proof (zlen_nonneg tl). lia.
Qed.

(** [compact] brings what is left to the front of the file. *)
Lemma compact_calm q w pre ps tl junk :
  calm w -> layout q w pre ps tl junk ->
  exists q' w', compact (q, w) = (Ret tt, (q', w')) /\ calm w' /\
    layout q' w' [] ps tl [] /\ count q' = count q /\ dir q' = dir q /\
    saved_offset w' (dir q) = readOffset q' /\ writeOffset q' <= writeOffset q.
Proof.
  intros Hc Hl. pose proof (lay_range _ _ _ _ _ _ Hl) as Hrng.
  destruct (lay_lookup _ _ _ _ _ _ Hl) as [s Hf]. destruct Hl as [Hh _ Hr Hw Hfit Hb].
  pose proof (zlen_nonneg (encode_frames ps)). pose proof (zlen_nonneg tl).
  pose proof (dataPath_offsetPath (dir q)) as Hne.
  unfold compact. run_dq. destruct (decide _) as [Hrem|Hrem].
  - rewrite (os_Truncate_calm _ _ _ _ Hc Hh). rewrite persistOffset_calm by done.
    assert (encode_frames ps ++ tl = []) as [He ->]%app_eq_nil.
    { apply length_zero_iff_nil. rewrite length_app. unfold zlen in *. lia. }
    eexists _, _. split; [done|]. split_and!; try done; [|by apply saved_offset_insert|simpl; lia].
    apply layout_other; [done|]. split; try done; simpl; [|by rewrite He].
    rewrite (alter_alt_Some _ _ _ _ Hf), lookup_insert_eq. by rewrite He.
  - set (buf := encode_frames ps ++ tl).
    assert (writeOffset q - readOffset q = Z.of_nat (length buf)) as Hlen.
    { rewrite Hw, Hr. unfold buf. rewrite length_app. unfold zlen. lia. }
    erewrite (os_ReadAt_calm _ _ _ _ _ _ Hc Hh Hf);
      [|lia|lia|rewrite Hlen, Hr; cbn [data]; unfold buf, zlen; rewrite !length_app; lia].
    cbn [data]. replace (encode_frames ps ++ tl ++ junk) with (buf ++ junk)
      by (unfold buf; by rewrite (assoc_L (++))).
    rewrite Hlen, Hr. rewrite (slice_app pre buf junk _ eq_refl).
    rewrite (os_WriteAt_calm _ _ _ _ _ Hc Hh) by lia. cbv beta iota.
    erewrite (os_Truncate_calm _ _ _ _ _ Hh). cbv beta iota zeta.
    rewrite persistOffset_calm by done. rewrite Nat2Z.id.
    eexists _, _. split; [done|]. split_and!; try done; [|by apply saved_offset_insert|simpl; lia].
    apply layout_other; [done|]. split; try done; simpl.
    + rewrite (alter_alt_Some _ _ _ _ Hf), (alter_insert_eq), lookup_insert_eq.
      cbn [fmap option_fmap option_map]. rewrite overwrite_truncate.
      * unfold buf. by rewrite app_nil_r.
      * simpl. unfold buf. rewrite !length_app. lia.
    + unfold buf. rewrite length_app. unfold zlen. simpl. lia.
    + lia.
  Unshelve. done.
Qed.

(** The queue behind its first frame. *)
Lemma layout_advance q w pre d ps tl junk :
  layout q w pre (d :: ps) tl junk ->
  layout (add_count (-1) (set_readOffset (readOffset q + (4 + zlen d)) q)) w
    (pre ++ frame d) ps tl junk.
Proof.
  intros [Hh Hf Hr Hw Hfit Hb]. apply Forall_cons in Hfit as [Hd Hfit].
  rewrite encode_frames_cons in *. rewrite zlen_app in Hw.
  split; try done; simpl.
  - by rewrite <- !(assoc_L (++)) in *.
  - rewrite zlen_app, zlen_frame. lia.
  - rewrite zlen_app. lia.
Qed.

(** [Dequeue] hands out the first event; the rest stays, and its offset is saved. *)
Lemma Dequeue_calm q w pre d e ps tl junk :
  calm w -> layout q w pre (d :: ps) tl junk -> proto_Unmarshal d = inr e ->
  exists q' w' pre' junk',
    Dequeue (q, w) = (Ret (Some e), (q', w')) /\ calm w' /\
    layout q' w' pre' ps tl junk' /\ count q' = count q - 1 /\ dir q' = dir q /\
    saved_offset w' (dir q) = readOffset q' /\ (junk = [] -> junk' = []) /\
    writeOffset q' <= writeOffset q.
Proof.
  intros Hc Hl He. pose proof (layout_advance _ _ _ _ _ _ _ Hl) as Hl'.
  pose proof (lay_range _ _ _ _ _ _ Hl') as Hrng. set (q1 := add_count _ _) in *.
  destruct (read_next _ _ _ _ _ _ _ Hc Hl) as [Hlen Hdata].
  assert (fits d) as Hd by (destruct Hl as [_ _ _ _ Hfit _]; by apply Forall_cons in Hfit as [? _]).
  unfold Dequeue. run_dq. destruct (decide (readOffset q >= writeOffset q)) as [Hge|_].
  { destruct Hl as [_ _ Hr Hw _ _]. rewrite encode_frames_cons, zlen_app, zlen_frame in Hw.
    pose proof (zlen_nonneg d). pose proof (zlen_nonneg (encode_frames ps)).
    pose proof (zlen_nonneg tl). lia. }
  rewrite Hlen. cbv beta iota zeta. rewrite frame_header, Hdata by done. cbv beta iota zeta.
  rewrite He. cbv beta iota zeta. fold q1. rewrite persistOffset_calm by done. cbv beta iota zeta.
  set (w1 := set_files _ w). change (dir q1) with (dir q) in *.
  assert (layout q1 w1 (pre ++ frame d) ps tl junk) as Hl1 by (by apply layout_other).
  assert (exists q' w' pre' junk',
    (if decide (readOffset q1 >= writeOffset q1) then compact
     else if decide (readOffset q1 > dqCompactThreshold) then compact else ret tt) (q1, w1)
      = (Ret tt, (q', w')) /\ calm w' /\ layout q' w' pre' ps tl junk' /\
    count q' = count q1 /\ dir q' = dir q1 /\ saved_offset w' (dir q) = readOffset q' /\
    (junk = [] -> junk' = []) /\ writeOffset q' <= writeOffset q1)
    as (q' & w' & pre' & junk' & Hrun & H).
  { destruct (compact_calm q1 w1 _ _ _ _ Hc Hl1) as (q' & w' & Hcp & ? & ? & ? & ? & ? & ?).
    repeat destruct (decide _); rewrite ?Hcp.
    1, 2: exists q', w', [], []; done.
    exists q1, w1, (pre ++ frame d), junk. split_and!; try done.
    apply saved_offset_insert. lia. }
  unfold ret in Hrun. rewrite Hrun. exists q', w', pre', junk'.
  destruct H as (? & ? & ? & ? & ? & ? & ?). by split_and!.
Qed.

Lemma Dequeue_empty q w pre junk :
  layout q w pre [] [] junk -> Dequeue (q, w) = (Ret None, (q, w)).
Proof.
  intros [_ _ Hr Hw _ _]. unfold Dequeue. run_dq. rewrite decide_True; [done|].
  rewrite Hr, Hw. change (zlen (encode_frames [])) with 0. change (zlen []) with 0. lia.
Qed.

(** [Enqueue] under any schedule: on success the event is the last of the queue
    and on stable storage; otherwise the queue is as before, with other junk. *)
Lemma Enqueue_any e d q w pre ps junk :
  proto_Marshal e = inr d -> fits d -> layout q w pre ps [] junk ->
  writeOffset q + zlen (frame d) < 2 ^ 63 ->
  exists r q' w' junk',
    Enqueue e (q, w) = (r, (q', w')) /\
    (forall p, p <> dataPath (dir q) -> files w' !! p = files w !! p) /\ dir q' = dir q /\
    ((r = Ret tt /\ q' = add_count 1 (set_writeOffset (writeOffset q + zlen (frame d)) q) /\
      layout q' w' pre (ps ++ [d]) [] (drop (length (frame d)) junk)) \/
     (failed r /\ q' = q /\ layout q w' pre ps [] junk' /\
      exists j, junk' = take j (frame d) ++ drop (length (take j (frame d))) junk)).
Proof.
  intros Hm Hd Hl Hroom. pose proof (lay_range _ _ _ _ _ _ Hl) as Hrng.
  destruct (lay_lookup _ _ _ _ _ _ Hl) as [s Hf]. destruct Hl as [Hh _ Hr Hw Hfit Hb].
  cbn [app] in Hf. rewrite (assoc_L (++)) in Hf. set (a := pre ++ encode_frames ps) in *.
  assert (Z.to_nat (writeOffset q) = length a) as Hoff.
  { rewrite Hw. unfold a. rewrite length_app. unfold zlen. simpl. lia. }
  destruct (os_WriteAt_any (f q) _ (frame d) (writeOffset q) w _ Hh Hf) as
    (r1 & w1 & j & E1 & F1 & R1); [lia|]. rewrite Hoff in F1.
  set (g1 := overwrite _ _ _) in F1.
  assert (data g1 = a ++ take j (frame d) ++ drop (length (take j (frame d))) junk) as Hg1
    by apply overwrite_end. clearbody g1.
  unfold Enqueue. rewrite Hm. run_dq. rewrite E1.
  assert (forall w' g, files w' = <[dataPath (dir q) := g]> (files w1) -> data g = data g1 ->
    layout q w' pre ps [] (take j (frame d) ++ drop (length (take j (frame d))) junk)) as Hsame.
  { intros w' g Hw' Hg. split; try done. rewrite Hw', lookup_insert_eq. simpl.
    by rewrite Hg, Hg1; unfold a; rewrite <- (assoc_L (++)). }
  assert (forall p, p <> dataPath (dir q) -> files w1 !! p = files w !! p) as Hother1.
  { intros p Hp. by rewrite F1, lookup_insert_ne. }
  destruct R1 as [[-> Hj]|Hfail].
  - cbv beta iota zeta.
    destruct (os_Sync_any (f q) _ w1 g1 Hh) as (r2 & w2 & E2 & R2);
      [by rewrite F1, lookup_insert_eq|]. rewrite E2.
    assert (forall p, p <> dataPath (dir q) -> files w2 !! p = files w !! p) as Hother2.
    { intros p Hp. rewrite <- Hother1 by done.
      destruct R2 as [[_ ->]|[_ ->]]; [by rewrite lookup_insert_ne|done]. }
    destruct R2 as [[-> F2]|[Hfail F2]].
    + cbv beta iota zeta. eexists _, _, _, []. split_and!; [done..|]. left.
      split_and!; [done..|]. rewrite Hj in Hg1. split; try done; simpl.
      * rewrite F2, lookup_insert_eq. simpl. rewrite Hg1, encode_frames_snoc. unfold a.
        by rewrite <- !(assoc_L (++)).
      * rewrite encode_frames_snoc, zlen_app, Hw, zlen_frame. unfold zlen. lia.
      * by apply Forall_app; split; [|constructor].
    + assert (layout q w2 pre ps [] (take j (frame d) ++ drop (length (take j (frame d))) junk)).
      { apply (Hsame _ g1); [|done]. by rewrite F2, F1, insert_insert_eq. }
      destruct Hfail as [[x ->]| ->]; cbv beta iota zeta; eexists _, _, _, _;
        (split_and!; [done..|right]); (split_and!; [auto with go_failed|done|done|by eexists]).
  - assert (layout q w1 pre ps [] (take j (frame d) ++ drop (length (take j (frame d))) junk)).
    { apply (Hsame _ g1); [|done]. by rewrite F1, insert_insert_eq. }
    destruct Hfail as [[x ->]| ->]; cbv beta iota zeta; eexists _, _, _, _;
      (split_and!; [done..|right]); (split_and!; [auto with go_failed|done|done|by eexists]).
Qed.
(** Without faults it succeeds. *)
Lemma Enqueue_calm e d q w pre ps :
  calm w -> proto_Marshal e = inr d -> fits d -> layout q w pre ps [] [] ->
  writeOffset q + zlen (frame d) < 2 ^ 63 ->
  exists w', Enqueue e (q, w) =
      (Ret tt, (add_count 1 (set_writeOffset (writeOffset q + zlen (frame d)) q), w')) /\
    calm w' /\ files w' !! offsetPath (dir q) = files w !! offsetPath (dir q) /\
    layout (add_count 1 (set_writeOffset (writeOffset q + zlen (frame d)) q)) w'
      pre (ps ++ [d]) [] [].
Proof.
  intros Hc Hm Hd Hl Hroom. pose proof (lay_range _ _ _ _ _ _ Hl) as Hrng.
  assert (exists q' w', Enqueue e (q, w) = (Ret tt, (q', w')) /\ calm w') as (q1 & w1 & H1 & Hc1).
  { unfold Enqueue. rewrite Hm. run_dq. rewrite (os_WriteAt_calm _ _ _ _ _ Hc (lay_h _ _ _ _ _ _ Hl))
      by lia.
    cbv beta iota. erewrite (os_Sync_calm _ _ _ _ (lay_h _ _ _ _ _ _ Hl)). by eexists _, _. }
  destruct (Enqueue_any e d q w pre ps [] Hm Hd Hl Hroom)
    as (r & q' & w' & junk' & Hrun & Hoth & Hdir & Hres).
  rewrite Hrun in H1. injection H1 as -> -> ->.
  destruct Hres as [(_ & -> & Hl')|([[? [=]]|[=]] & _)]. rewrite drop_nil in Hl'.
  exists w1. split_and!; [done|done| |done]. apply Hoth. apply not_eq_sym, dataPath_offsetPath.
  Unshelve. done.
Qed.
End methods.
