(* ===== verification/DiskQueueRestart.v ===== *)
(** The overflow file across restarts: what [newDiskQueue] makes of the files that
    an earlier process left. *)
From stdpp Require Import base list strings gmap.
From Stdlib Require Import ZArith Lia.
From S2P Require Import Prelude Errors Go Bytes GoStrings Os OsFaults Proto DiskQueue DiskQueueProofs.

Import DiskQueue.
Local Open Scope Z_scope.

(** What a write cut short leaves behind the frames: a proper prefix of a frame. *)
Definition torn_frame (t : list byte) : Prop :=
  exists d k, fits d /\ (k < length (frame d))%nat /\ t = take k (frame d).

(** A tail of four bytes or more is counted as an entry. *)
Definition tail_count (t : list byte) : Z := if decide (4 <= zlen t) then 1 else 0.

Lemma torn_frame_nil : torn_frame [].
Proof. exists [], 0%nat. split_and!; [done| |done]. unfold frame. rewrite length_app, length_put_uint32. lia. Qed.

(** The length field of a torn frame points behind its end. *)
Lemma torn_frame_header t :
  torn_frame t -> 4 <= zlen t -> zlen t < 4 + be_uint (take 4 t).
Proof.
  intros (d & k & Hd & Hk & ->). unfold zlen. rewrite length_take. intros Hl.
  rewrite take_take. replace (min 4 k) with 4%nat by lia.
  unfold frame. rewrite take_app_length' by (by rewrite length_put_uint32).
  rewrite frame_header by done. unfold frame in Hk. rewrite length_app, length_put_uint32 in Hk.
  unfold zlen, frame. rewrite length_app, length_put_uint32. lia.
Qed.

Section restart.
Context `{C : Codec}.

(** A read that wants more than the file has. *)
Lemma ReadAt_short (h : handle) p n off w g :
  calm w -> open_at h p -> files w !! p = Some g -> 0 <= off -> 0 < n ->
  zlen (data g) < off + n -> os_ReadAt h n off w = (Fail io_EOF, w).
Proof.
  intros Hc Ho Hf Hoff Hpos Hn.
  unfold os_ReadAt. rewrite (bind_run_Ret _ _ _ _ _ (check_handle_open _ _ w Ho)).
  rewrite decide_False by lia. rewrite syscall_calm by done. destruct Ho as [-> _]. rewrite Hf.
  cbv zeta. rewrite decide_True; [done|]. unfold zlen in *. rewrite length_take, length_drop. lia.
Qed.

(** Reading a length field at [zlen pre]. *)
Lemma read_len (h : handle) p w pre rest s :
  calm w -> open_at h p -> files w !! p = Some (mk_file (pre ++ rest) s) ->
  os_ReadAt h 4 (zlen pre) w =
    if decide (4 <= zlen rest) then (Ret (take 4 rest), w) else (Fail io_EOF, w).
Proof.
  intros Hc Ho Hf. pose proof (zlen_nonneg pre). destruct (decide _) as [Hr|Hr].
  - rewrite (os_ReadAt_calm _ _ _ _ _ _ Hc Ho Hf); [|lia|lia|].
    + f_equal. f_equal. cbn [data]. unfold zlen. rewrite Nat2Z.id. by rewrite drop_app_length.
    + cbn [data]. rewrite length_app. unfold zlen in *. lia.
  - apply (ReadAt_short _ _ _ _ _ _ Hc Ho Hf); [lia|lia|]. cbn [data]. rewrite zlen_app. lia.
Qed.

Lemma scan_run ps : forall fuel q w pre t s n,
  calm w -> open_at (f q) (dataPath (dir q)) ->
  files w !! dataPath (dir q) = Some (mk_file (pre ++ encode_frames ps ++ t) s) ->
  writeOffset q = zlen pre + zlen (encode_frames ps) + zlen t ->
  Forall fits ps -> torn_frame t -> zlen (encode_frames ps) + zlen t < Z.of_nat fuel ->
  scan_loop fuel (zlen pre) n (q, w) =
    (Ret (n + Z.of_nat (length ps) + tail_count t), (q, w)).
Proof.
  induction ps as [|d ps IH]; intros [|fuel] q w pre t s n Hc Ho Hf Hw Hfit Ht Hfuel;
    pose proof (zlen_nonneg t);
    [change (zlen (encode_frames [])) with 0 in Hfuel| |
     pose proof (zlen_nonneg (encode_frames (d :: ps)))|]; try (simpl in Hfuel; lia);
    cbn [scan_loop]; run_dq.
  - change (encode_frames [] ++ t) with t in Hf. change (zlen (encode_frames [])) with 0 in *.
    unfold tail_count. destruct (decide (zlen pre < writeOffset q)) as [Hlt|Hge].
    + rewrite (read_len _ _ _ _ _ _ Hc Ho Hf). destruct (decide (4 <= zlen t)) as [H4|H4].
      * cbv beta iota. pose proof (torn_frame_header t Ht H4).
        destruct fuel as [|fuel]; [lia|]. cbn [scan_loop]. run_dq. rewrite decide_False by lia.
        repeat f_equal. simpl. lia.
      * repeat f_equal. simpl. lia.
    + rewrite decide_False by (pose proof (zlen_nonneg t); lia). repeat f_equal. simpl. lia.
  - apply Forall_cons in Hfit as [Hd Hfit]. rewrite encode_frames_cons, <- (assoc_L (++)) in Hf.
    rewrite encode_frames_cons, zlen_app, zlen_frame in Hw, Hfuel.
    pose proof (zlen_nonneg d). pose proof (zlen_nonneg (encode_frames ps)).
    rewrite decide_True by lia. rewrite (read_len _ _ _ _ _ _ Hc Ho Hf).
    rewrite decide_True by (rewrite zlen_app, zlen_frame; pose proof (zlen_nonneg (encode_frames ps ++ t)); lia).
    cbv beta iota. unfold frame at 1. rewrite <- (assoc_L (++)).
    rewrite take_app_length' by (by rewrite length_put_uint32). rewrite frame_header by done.
    replace (zlen pre + (4 + zlen d)) with (zlen (pre ++ frame d)) by (rewrite zlen_app, zlen_frame; lia).
    rewrite (IH _ _ _ _ t s); try done; [do 2 f_equal; cbn [length]; lia|by rewrite <- (assoc_L (++))|
      rewrite zlen_app, zlen_frame; lia|lia].
Qed.

(** Opening the files of an earlier process whose saved offset is at a frame:
    the frames are the queue; a torn tail is part of it, and counted. *)
Lemma newDiskQueue_run d w pre ps t g :
  calm w -> files w !! dataPath d = Some g -> data g = pre ++ encode_frames ps ++ t ->
  saved_offset w d = zlen pre -> Forall fits ps -> torn_frame t -> zlen (data g) < 2 ^ 63 ->
  exists q, newDiskQueue d w = (Ret q, w) /\ layout q w pre ps t [] /\ dir q = d /\
    count q = Z.of_nat (length ps) + tail_count t.
Proof.
  intros Hc Hg Hd Hs Hfit Ht Hb. destruct g as [gd gs]. simpl in Hd, Hb. subst gd.
  pose proof (zlen_nonneg pre). pose proof (zlen_nonneg (encode_frames ps)). pose proof (zlen_nonneg t).
  rewrite !zlen_app in Hb.
  set (h := mk_handle (dataPath d) HOpen). assert (open_at h (dataPath d)) as Ho by done.
  set (size := zlen pre + zlen (encode_frames ps) + zlen t).
  set (q := mk h size (zlen pre) 0 d).
  exists (add_count (Z.of_nat (length ps) + tail_count t) q).
  split_and!; [|split; try done; simpl; [by rewrite Hg, app_nil_r|lia]|done|done].
  unfold newDiskQueue. run_dq. unfold os_MkdirAll. rewrite syscall_calm by done. run_dq.
  rewrite (open_existing _ _ _ Hc Hg). cbv beta iota. fold h. rewrite (os_Stat_Size_calm _ _ _ _ Hc Ho Hg).
  assert (dqLoadOffset (offsetPath d) w = (Ret (zlen pre), w)) as ->.
  { unfold dqLoadOffset. run_dq. unfold saved_offset in Hs. unfold os_ReadFile, bind.
    unfold os_Open. rewrite (bind_run_Ret _ _ _ _ _ (tick_calm w Hc)).
    destruct (files w !! offsetPath d); simpl; by rewrite <- Hs. }
  cbv beta iota zeta. cbn [data].
  replace (Z.of_nat (length (pre ++ encode_frames ps ++ t))) with size
    by (unfold size, zlen; rewrite !length_app; lia).
  rewrite (decide_False (P := zlen pre > size)) by (unfold size; lia). fold q.
  unfold scanCount. run_dq.
  rewrite (scan_run ps _ q w pre t gs 0); try done. simpl. unfold size. lia.
Qed.
End restart.

(** ** Opening ends on any contents *)

Lemma scan_loop_ends fuel : forall q w pos n,
  (Z.to_nat (writeOffset q - pos) < fuel)%nat -> orderly (fst (scan_loop fuel pos n (q, w))).
Proof.
  induction fuel as [|fuel IH]; intros q w pos n Hf; [lia|]. cbn [scan_loop]. run_dq.
  destruct (decide (pos < writeOffset q)) as [Hlt|]; [|done].
  pose proof (ends_os_ReadAt (f q) 4 pos w) as He.
  destruct (os_ReadAt (f q) 4 pos w) as [[b|e|p| |] w']; try done.
  apply IH. pose proof (be_uint_bound b). lia.
Qed.

Lemma ends_newDiskQueue d : ends (newDiskQueue d).
Proof.
  unfold newDiskQueue. apply ends_bind; [auto with go_ends|]. intros ?.
  apply ends_bind; [auto with go_ends|]. intros h.
  apply ends_bind; [auto with go_ends|]. intros [e|size].
  { auto with go_ends. }
  apply ends_bind; [apply ends_bind; [auto with go_ends|]; intros [|]; auto with go_ends|]. intros saved.
  apply ends_bind; [|intros [n q]; auto with go_ends].
  apply ends_run_local. intros [q w]. unfold scanCount. run_dq. apply scan_loop_ends. lia.
Qed.
