(* ===== verification/DiskQueueTheorems.v ===== *)
(** The overflow queue as a FIFO queue: refinement, faults, restarts. *)
From stdpp Require Import base list strings gmap.
From Stdlib Require Import ZArith Lia.
From S2P Require Import Prelude Errors Go Bytes GoStrings Os OsFaults Proto.
From S2P Require Import DiskQueue DiskQueueProofs DiskQueueRestart.

Import DiskQueue.
Local Open Scope Z_scope.

(** ** The specification: a list of events *)
Module Fifo.

Inductive op :=
  | OEnqueue (e : IngestRequest)
  | ODequeue
  | OReopen
  | OLen.

Inductive answer :=
  | ADone
  | AEvent (e : option IngestRequest)
  | ALen (n : Z) (empty : bool).

Definition step (o : op) (l : list IngestRequest) : answer * list IngestRequest :=
  match o with
  | OEnqueue e => (ADone, l ++ [e])
  | ODequeue => (AEvent (hd_error l), tail l)
  | OReopen => (ADone, l)
  | OLen => (ALen (Z.of_nat (length l)) (bool_decide (l = [])), l)
  end.

Fixpoint run (ops : list op) (l : list IngestRequest) : list answer * list IngestRequest :=
  match ops with
  | [] => ([], l)
  | o :: ops =>
      let '(r, l) := step o l in
      let '(rs, l) := run ops l in (r :: rs, l)
  end.

(** Every event marshals into less than 2^32 bytes, and the frames written after
    the first [n] bytes stay below 2^63. *)
Fixpoint admissible `{C : Codec} (ops : list op) (n : Z) : Prop :=
  match ops with
  | [] => True
  | OEnqueue e :: ops =>
      exists d, proto_Marshal e = inr d /\ fits d /\ n + zlen (frame d) < 2 ^ 63 /\
        admissible ops (n + zlen (frame d))
  | _ :: ops => admissible ops n
  end.
End Fifo.

(** The same operations on the file queue; a reopening closes the queue and
    opens the directory again. *)
Module FileFifo.
Import Fifo.

Definition reopen `{C : Codec} : M (diskQueue * os) unit :=
  q <- this ;;
  ignore Close ;;
  q' <- on_snd (newDiskQueue (dir q)) ;;
  update (fun _ => q').

Definition do_op `{C : Codec} (o : op) : M (diskQueue * os) answer :=
  match o with
  | OEnqueue e => Enqueue e ;; ret ADone
  | ODequeue => r <- Dequeue ;; ret (AEvent r)
  | OReopen => reopen ;; ret ADone
  | OLen => q <- this ;; ret (ALen (Len q) (IsEmpty q))
  end.

Fixpoint do_ops `{C : Codec} (ops : list op) : M (diskQueue * os) (list answer) :=
  match ops with
  | [] => ret []
  | o :: ops => r <- do_op o ;; rs <- do_ops ops ;; ret (r :: rs)
  end.

(** [n] calls of [Dequeue], stopping at the first that finds nothing. *)
Fixpoint dequeue_n `{C : Codec} (n : nat) : M (diskQueue * os) (list IngestRequest) :=
  match n with
  | O => ret []
  | S n =>
      r <- Dequeue ;;
      match r with
      | None => ret []
      | Some e => l <- dequeue_n n ;; ret (e :: l)
      end
  end.
End FileFifo.

Import FileFifo.

Section fifo.
Context `{C : Codec}.

Definition decodes (d : list byte) (e : IngestRequest) : Prop := proto_Unmarshal d = inr e.

(** The queue in good order holds [evs]. *)
Definition holds_events (q : diskQueue) (w : os) (evs : list IngestRequest) : Prop :=
  exists pre ps, layout q w pre ps [] [] /\ Forall2 decodes ps evs /\
    count q = Z.of_nat (length evs) /\ saved_offset w (dir q) = readOffset q.

(** Dequeuing a part of the queue, whatever is behind it. *)
Lemma dequeue_n_prefix ps ps2 : forall evs q w pre tl junk,
  calm w -> layout q w pre (ps ++ ps2) tl junk -> Forall2 decodes ps evs ->
  exists st, dequeue_n (length evs) (q, w) = (Ret evs, st).
Proof.
  induction ps as [|d ps IH]; intros evs q w pre tl junk Hc Hl Hd.
  - apply Forall2_nil_inv_l in Hd as ->. by eexists.
  - apply Forall2_cons_inv_l in Hd as (e & evs' & He & Hd & ->). cbn [length dequeue_n app] in *.
    destruct (Dequeue_calm _ _ _ _ e _ _ _ Hc Hl He) as (q' & w' & pre' & junk' & Hrun & Hc' & Hl' & _).
    rewrite (bind_run_Ret _ _ _ _ _ Hrun).
    destruct (IH _ _ _ _ _ _ Hc' Hl' Hd) as [st Hst].
    rewrite (bind_run_Ret _ _ _ _ _ Hst). by eexists.
Qed.

Lemma Enqueue_holds `{!CodecLaws C} e d q w evs :
  calm w -> holds_events q w evs -> proto_Marshal e = inr d -> fits d ->
  writeOffset q + zlen (frame d) < 2 ^ 63 ->
  exists q' w', Enqueue e (q, w) = (Ret tt, (q', w')) /\ calm w' /\
    holds_events q' w' (evs ++ [e]) /\ dir q' = dir q /\
    writeOffset q' = writeOffset q + zlen (frame d).
Proof.
  intros Hc (pre & ps & Hl & Hd & Hn & Hs) Hm Hfit Hroom.
  destruct (Enqueue_calm e d q w pre ps Hc Hm Hfit Hl Hroom) as (w' & Hrun & Hc' & Hoff & Hl').
  eexists _, w'. split_and!; [done|done| |done|done]. exists pre, (ps ++ [d]).
  split_and!; [done| | |].
  - apply Forall2_app; [done|]. constructor; [by apply unmarshal_marshal|constructor].
  - simpl. rewrite length_app, Hn. simpl. lia.
  - unfold saved_offset in *. simpl. by rewrite Hoff.
Qed.

Lemma Dequeue_holds q w evs :
  calm w -> holds_events q w evs ->
  exists q' w', Dequeue (q, w) = (Ret (hd_error evs), (q', w')) /\ calm w' /\
    holds_events q' w' (tail evs) /\ dir q' = dir q /\ writeOffset q' <= writeOffset q.
Proof.
  intros Hc (pre & ps & Hl & Hd & Hn & Hs). destruct Hd as [|d e ps evs He Hd].
  - exists q, w. rewrite (Dequeue_empty _ _ _ _ Hl). split_and!; [done|done| |done|lia].
    by exists pre, [].
  - destruct (Dequeue_calm _ _ _ _ e _ _ _ Hc Hl He)
      as (q' & w' & pre' & junk' & Hrun & Hc' & Hl' & Hcnt & Hdir & Hoff & Hj & Hwle).
    rewrite (Hj eq_refl) in Hl'.
    exists q', w'. split_and!; [done|done| |done|done].
    exists pre', ps. split_and!; [done|done| |by rewrite Hdir].
    rewrite Hcnt, Hn. cbn [length tail]. lia.
Qed.

Lemma reopen_holds q w evs :
  calm w -> holds_events q w evs ->
  exists q', reopen (q, w) = (Ret tt, (q', w)) /\
    holds_events q' w evs /\ dir q' = dir q /\ writeOffset q' = writeOffset q.
Proof.
  intros Hc (pre & ps & Hl & Hd & Hn & Hs). destruct (lay_lookup _ _ _ _ _ _ Hl) as [s Hf].
  pose proof Hl as [Hh _ Hr Hw Hfit Hb].
  destruct (newDiskQueue_run (dir q) w pre ps [] _ Hc Hf) as (q' & Hrun & Hl' & Hdir & Hcnt);
    [by simpl; rewrite !app_nil_r|congruence|done|apply torn_frame_nil| |].
  { simpl. rewrite app_nil_r, zlen_app. rewrite Hw in Hb. change (zlen []) with 0 in Hb. lia. }
  exists q'. split_and!; [|exists pre, ps|done|].
  - unfold reopen. run_dq. unfold Close. run_dq. rewrite (os_Close_calm _ _ _ Hc Hh).
    cbv beta iota. by rewrite Hrun.
  - destruct Hl' as [? ? Hr' ? ? ?]. split_and!; [by split|done| |].
    + rewrite Hcnt. change (tail_count []) with 0. by rewrite (Forall2_length _ _ _ Hd), Z.add_0_r.
    + by rewrite Hdir, Hr', Hs, Hr.
  - by rewrite (lay_write _ _ _ _ _ _ Hl'), Hw.
Qed.

Lemma Len_holds q w evs :
  holds_events q w evs ->
  Len q = Z.of_nat (length evs) /\ IsEmpty q = bool_decide (evs = []).
Proof.
  intros (pre & ps & _ & _ & Hn & _). unfold Len, IsEmpty. rewrite Hn.
  rewrite decide_False by lia. split; [done|]. apply bool_decide_ext.
  destruct evs; simpl; split; intros; [done|lia|lia|done].
Qed.

Lemma do_ops_run `{!CodecLaws C} ops : forall q w evs n,
  calm w -> holds_events q w evs -> writeOffset q <= n -> Fifo.admissible ops n ->
  exists q' w', do_ops ops (q, w) = (Ret (fst (Fifo.run ops evs)), (q', w')) /\
    calm w' /\ holds_events q' w' (snd (Fifo.run ops evs)).
Proof.
  induction ops as [|o ops IH]; intros q w evs n Hc Hh Hle Hadm; [by exists q, w|].
  assert (exists q' w' n', do_op o (q, w) = (Ret (fst (Fifo.step o evs)), (q', w')) /\
    calm w' /\ holds_events q' w' (snd (Fifo.step o evs)) /\ writeOffset q' <= n' /\
    Fifo.admissible ops n') as (q1 & w1 & n1 & Hrun & Hc1 & Hh1 & Hle1 & Hadm1).
  { destruct o as [e| | |]; cbn [do_op Fifo.step fst snd Fifo.admissible] in *.
    - destruct Hadm as (d & Hm & Hfit & Hroom & Hadm).
      destruct (Enqueue_holds e d q w evs Hc Hh Hm Hfit ltac:(lia))
        as (q' & w' & Hrun & Hc' & Hh' & _ & Hw').
      exists q', w', (n + zlen (frame d)). rewrite (bind_run_Ret _ _ _ _ _ Hrun).
      split_and!; [done..|lia|done].
    - destruct (Dequeue_holds q w evs Hc Hh) as (q' & w' & Hrun & Hc' & Hh' & _ & Hw').
      exists q', w', n. rewrite (bind_run_Ret _ _ _ _ _ Hrun). split_and!; [done..|lia|done].
    - destruct (reopen_holds q w evs Hc Hh) as (q' & Hrun & Hh' & _ & Hw').
      exists q', w, n. rewrite (bind_run_Ret _ _ _ _ _ Hrun). split_and!; [done..|lia|done].
    - destruct (Len_holds q w evs Hh) as [HL HE]. exists q, w, n. run_dq. rewrite HL, HE.
      by split_and!. }
  destruct (IH _ _ _ _ Hc1 Hh1 Hle1 Hadm1) as (q2 & w2 & Hrun2 & Hc2 & Hh2).
  cbn [do_ops Fifo.run]. destruct (Fifo.step o evs) as [r l]. simpl in *.
  destruct (Fifo.run ops l) as [rs l']. exists q2, w2.
  rewrite (bind_run_Ret _ _ _ _ _ Hrun), (bind_run_Ret _ _ _ _ _ Hrun2). by split_and!.
Qed.

(** A missing file is made first. *)
Lemma newDiskQueue_created d w : calm w -> newDiskQueue d w = newDiskQueue d (created (dataPath d) w).
Proof.
  intros Hc. unfold newDiskQueue. run_dq. unfold os_MkdirAll. rewrite !syscall_calm by done. run_dq.
  rewrite !os_OpenCreate_calm by done. fold (created (dataPath d) w).
  fold (created (dataPath d) (created (dataPath d) w)).
  erewrite (created_existing (dataPath d) _ (created _ _)); [done|].
  simpl. by rewrite lookup_partial_alter_eq.
Qed.

(** A fresh directory gives an empty queue. *)
Lemma newDiskQueue_fresh d :
  exists q w, newDiskQueue d (mk_os ∅ []) = (Ret q, w) /\ calm w /\
    holds_events q w [] /\ writeOffset q = 0.
Proof.
  set (w := mk_os ∅ []). assert (calm w) as Hc by done. rewrite (newDiskQueue_created d w Hc).
  destruct (newDiskQueue_run d (created (dataPath d) w) [] [] [] empty_file)
    as (q & Hrun & Hl & Hdir & Hcnt); try done.
  - simpl. by rewrite lookup_partial_alter_eq.
  - unfold saved_offset. simpl. rewrite lookup_partial_alter_ne by apply dataPath_offsetPath. done.
  - apply torn_frame_nil.
  - exists q, (created (dataPath d) w). split_and!; [done|done| |].
    + exists [], []. split_and!; [done|constructor|done|].
      rewrite Hdir, (lay_read _ _ _ _ _ _ Hl). unfold saved_offset. simpl.
      rewrite lookup_partial_alter_ne by apply dataPath_offsetPath. done.
    + by rewrite (lay_write _ _ _ _ _ _ Hl).
Qed.
End fifo.

(** ** Faults and process restarts *)
Section faults.
Context `{C : Codec}.

(** A new process on the files the old one left. *)
Definition restarted (w : os) : os := mk_os (files w) [].

Lemma layout_files q w w' pre ps tl junk :
  files w !! dataPath (dir q) = files w' !! dataPath (dir q) ->
  layout q w pre ps tl junk -> layout q w' pre ps tl junk.
Proof. intros Hf [Hh Hd Hr Hw Hfit Hb]. split; try done. by rewrite <- Hf. Qed.

Lemma persistOffset_any q w :
  exists r w', persistOffset (q, w) = (r, (q, w')) /\ (r = Ret tt \/ r = Crash) /\
    files w' !! dataPath (dir q) = files w !! dataPath (dir q).
Proof.
  destruct (os_WriteFile_any (offsetPath (dir q)) (to_bytes (FormatInt (readOffset q))) w)
    as (r & w' & Hrun & Hr & Hf).
  unfold persistOffset. run_dq. rewrite Hrun.
  destruct Hr as [->|[[e ->]| ->]]; eexists _, w'; split_and!; eauto using dataPath_offsetPath.
Qed.

(** With nothing left, [compact] empties the file or leaves it as it is. *)
Lemma compact_any q w pre junk :
  layout q w pre [] [] junk ->
  exists r q' w' pre' junk', compact (q, w) = (r, (q', w')) /\ (r = Ret tt \/ r = Crash) /\
    (r = Ret tt -> layout q' w' pre' [] [] junk' /\ count q' = count q /\ dir q' = dir q).
Proof.
  intros Hl. destruct (lay_lookup _ _ _ _ _ _ Hl) as [s Hf].
  unfold compact. run_dq. rewrite decide_True.
  2: { rewrite (lay_read _ _ _ _ _ _ Hl), (lay_write _ _ _ _ _ _ Hl).
       change (zlen (encode_frames [])) with 0. change (zlen []) with 0. lia. }
  destruct (os_Truncate_any (f q) _ 0 w _ (lay_h _ _ _ _ _ _ Hl) Hf)
    as (r1 & w1 & E1 & [[-> F1]|[Hfail F1]]); rewrite E1.
  - cbv beta iota zeta. set (q1 := set_writeOffset _ _).
    assert (layout q1 w1 [] [] [] []) as Hl1.
    { split; try done; [apply Hl|]. simpl. by rewrite F1, lookup_insert_eq. }
    destruct (persistOffset_any q1 w1) as (r & w' & -> & Hr & Hd).
    exists r, q1, w', [], []. split_and!; [done..|]. intros _. split_and!; [|done|done].
    by eapply layout_files.
  - destruct Hfail as [[e ->]| ->]; cbv beta iota zeta.
    + exists (Ret tt), q, w1, pre, junk. split_and!; [done|by left|]. intros _.
      split_and!; [|done|done]. eapply layout_files; [|done]. by rewrite F1.
    + exists Crash, q, w1, pre, junk. split_and!; [done|by right|done].
Qed.
(** One [Dequeue] of a non-empty queue under any schedule, as long as the file has
    not reached the size at which compaction rewrites live entries. *)
Lemma Dequeue_any q w pre d e ps junk :
  layout q w pre (d :: ps) [] junk -> proto_Unmarshal d = inr e ->
  writeOffset q <= dqCompactThreshold ->
  exists r q' w', Dequeue (q, w) = (r, (q', w')) /\
    ((exists pre' junk', r = Ret (Some e) /\ layout q' w' pre' ps [] junk' /\
        count q' = count q - 1 /\ dir q' = dir q) \/
     (exists err, r = Fail err /\ q' = q /\ layout q w' pre (d :: ps) [] junk) \/ r = Crash).
Proof.
  intros Hl He Hthr. pose proof (layout_advance _ _ _ _ _ _ _ Hl) as Hl'.
  pose proof (lay_range _ _ _ _ _ _ Hl') as Hrng. set (q1 := add_count _ _) in *.
  destruct (lay_lookup _ _ _ _ _ _ Hl) as [s Hf]. pose proof (lay_h _ _ _ _ _ _ Hl) as Hh.
  assert (layout q (mk_os (files w) []) pre (d :: ps) [] junk) as Hl0
    by (eapply layout_files; [|exact Hl]; done).
  assert (calm (mk_os (files w) [])) as Hc0 by done.
  destruct (read_next _ _ _ _ _ _ _ Hc0 Hl0) as [Hlen Hdata].
  assert (fits d) as Hd by (destruct Hl as [_ _ _ _ Hfit _]; by apply Forall_cons in Hfit as [? _]).
  unfold Dequeue. run_dq. rewrite decide_False.
  2: { rewrite (lay_read _ _ _ _ _ _ Hl), (lay_write _ _ _ _ _ _ Hl), encode_frames_cons, zlen_app,
         zlen_frame. pose proof (zlen_nonneg d). pose proof (zlen_nonneg (encode_frames ps)).
       change (zlen []) with 0. lia. }
  destruct (os_ReadAt_any _ _ 4 (readOffset q) w _ Hh Hf) as (r1 & w1 & E1 & F1 & R1).
  rewrite E1. rewrite Hlen in R1. cbn [fst] in R1.
  assert (forall w', files w' = files w -> layout q w' pre (d :: ps) [] junk) as Hkeep.
  { intros w' Hw'. eapply layout_files; [|exact Hl]. by rewrite Hw'. }
  destruct R1 as [[[x ->]| ->]| ->]; cbv beta iota zeta.
  { eexists _, _, _. split; [done|]. right; left. eexists. split_and!; eauto. }
  { eexists _, _, _. split; [done|]. by do 2 right. }
  rewrite frame_header by done. rewrite <- F1 in Hf.
  destruct (os_ReadAt_any _ _ (zlen d) (readOffset q + 4) w1 _ Hh Hf) as (r2 & w2 & E2 & F2 & R2).
  rewrite E2. rewrite F1, Hdata in R2. cbn [fst] in R2.
  destruct R2 as [[[x ->]| ->]| ->]; cbv beta iota zeta.
  { eexists _, _, _. split; [done|]. right; left. eexists. split_and!; eauto. apply Hkeep. congruence. }
  { eexists _, _, _. split; [done|]. by do 2 right. }
  rewrite He. cbv beta iota zeta. fold q1.
  destruct (persistOffset_any q1 w2) as (r3 & w3 & E3 & R3 & F3). rewrite E3.
  destruct R3 as [->| ->]; cbv beta iota zeta;
    [|eexists _, _, _; split; [done|]; by do 2 right].
  assert (layout q1 w3 (pre ++ frame d) ps [] junk) as Hl3.
  { eapply layout_files; [|exact Hl']. rewrite F3. congruence. }
  destruct (decide (readOffset q1 >= writeOffset q1)) as [Hge|Hlt].
  - assert (ps = []) as ->.
    { destruct ps as [|x ps]; [done|]. exfalso. pose proof (lay_write _ _ _ _ _ _ Hl3) as Hw3.
      rewrite encode_frames_cons, (zlen_app (frame x)), (zlen_frame x) in Hw3.
      rewrite (lay_read _ _ _ _ _ _ Hl3) in Hge. pose proof (zlen_nonneg x).
      pose proof (zlen_nonneg (encode_frames ps)). change (zlen []) with 0 in Hw3. lia. }
    destruct (compact_any q1 w3 _ _ Hl3) as (r4 & q4 & w4 & pre4 & junk4 & E4 & R4 & H4).
    rewrite E4. destruct R4 as [->| ->]; cbv beta iota zeta;
      [|eexists _, _, _; split; [done|]; by do 2 right].
    destruct (H4 eq_refl) as (Hl4 & Hc4 & Hd4). eexists _, _, _. split; [done|].
    left. exists pre4, junk4. by split_and!.
  - rewrite decide_False by (change (writeOffset q1) with (writeOffset q) in *; lia).
    eexists _, _, _. split; [done|]. left. exists (pre ++ frame d), junk. by split_and!.
Qed.
(** A new process on a data file of frames and a torn tail dequeues the frames. *)
Lemma restart_dequeues d w pre ps t evs g :
  files w !! dataPath d = Some g -> data g = pre ++ encode_frames ps ++ t ->
  saved_offset w d = zlen pre -> Forall fits ps -> torn_frame t -> zlen (data g) < 2 ^ 63 ->
  Forall2 decodes ps evs ->
  exists q1, newDiskQueue d (restarted w) = (Ret q1, restarted w) /\
    forall n, exists st, dequeue_n (length (take n evs)) (q1, restarted w) = (Ret (take n evs), st).
Proof.
  intros Hg Hd Hs Hfit Ht Hb Hdec.
  destruct (newDiskQueue_run d (restarted w) pre ps t g eq_refl Hg Hd Hs Hfit Ht Hb)
    as (q1 & Hnew & Hl1 & _ & _).
  exists q1. split; [done|]. intros n. rewrite <- (take_drop n ps) in Hl1.
  apply (dequeue_n_prefix (take n ps) (drop n ps) (take n evs) q1 (restarted w) pre t []);
    [done|done|]. by apply Forall2_take.
Qed.

(** Whatever part of a frame was written behind the queue, the file is a queue
    with a torn tail, or the queue with the new entry. *)
Lemma partial_frame ps d j :
  fits d ->
  encode_frames ps ++ take j (frame d) = encode_frames (ps ++ [d]) ++ [] \/
  torn_frame (take j (frame d)).
Proof.
  intros Hd. destruct (decide (length (frame d) <= j)%nat).
  - left. by rewrite take_ge, encode_frames_snoc, app_nil_r by done.
  - right. exists d, j. split_and!; [done|lia|done].
Qed.
End faults.

(** ** Claims *)

(** C7. The overflow file is a FIFO queue: from a fresh directory, any sequence of
    Enqueue, Dequeue, Len/IsEmpty and close-and-reopen returns exactly what the
    list of events would, through every compaction, and nothing errs. *)
Theorem diskQueue_refines_Fifo `{C : Codec} `{!CodecLaws C} (d : string) (ops : list Fifo.op) :
  Fifo.admissible ops 0 ->
  exists q w q' w',
    newDiskQueue d (mk_os ∅ []) = (Ret q, w) /\
    do_ops ops (q, w) = (Ret (fst (Fifo.run ops [])), (q', w')) /\
    holds_events q' w' (snd (Fifo.run ops [])).
Proof.
  intros Hadm. destruct (newDiskQueue_fresh d) as (q & w & Hnew & Hc & Hh & Hw).
  destruct (do_ops_run ops q w [] 0 Hc Hh ltac:(lia) Hadm) as (q' & w' & Hrun & _ & Hh').
  by exists q, w, q', w'.
Qed.


(** No failing system call makes Dequeue lose or repeat an entry: under any
    schedule it returns the first event and leaves the others, or returns an error
    and leaves the queue as it was, or the process died. The file is smaller than
    the size at which live entries are moved. *)
Theorem Dequeue_fault_atomic `{C : Codec} q w pre ps junk evs :
  layout q w pre ps [] junk -> Forall2 decodes ps evs ->
  writeOffset q <= dqCompactThreshold ->
  let '(r, (q', w')) := Dequeue (q, w) in
  match r with
  | Ret None => evs = [] /\ (q', w') = (q, w)
  | Ret (Some e) => exists evs' pre' ps' junk', evs = e :: evs' /\
      layout q' w' pre' ps' [] junk' /\ Forall2 decodes ps' evs' /\ count q' = count q - 1
  | Fail _ => q' = q /\ layout q w' pre ps [] junk
  | Crash => True
  | Panic _ | NoFuel => False
  end.
Proof.
  intros Hl Hd Hthr. destruct Hd as [|d e ps evs He Hd].
  - by rewrite (Dequeue_empty _ _ _ _ Hl).
  - destruct (Dequeue_any _ _ _ _ _ _ _ Hl He Hthr) as (r & q' & w' & -> & H).
    destruct H as [(pre' & junk' & -> & Hl' & Hc & _)|[(err & -> & -> & Hl')| ->]]; [|done..].
    exists evs, pre', ps, junk'. by split_and!.
Qed.

(** A process killed while it writes an entry leaves a tail the next process counts
    as an entry (when it has its length field) and can never read: with all whole
    entries dequeued the queue reports that it is not empty, and Dequeue fails
    and changes nothing, however often it is called. *)
Theorem torn_tail_blocks_queue `{C : Codec} d w pre t g :
  calm w -> files w !! dataPath d = Some g -> data g = pre ++ t -> saved_offset w d = zlen pre ->
  torn_frame t -> 4 <= zlen t -> zlen (data g) < 2 ^ 63 ->
  exists q err, newDiskQueue d w = (Ret q, w) /\ IsEmpty q = false /\
    Dequeue (q, w) = (Fail err, (q, w)).
Proof.
  intros Hc Hg Hd Hs Ht H4 Hb.
  destruct (newDiskQueue_run d w pre [] t g Hc Hg Hd Hs) as (q & Hrun & Hl & Hdir & Hcnt);
    [constructor|done|done|].
  destruct g as [gd gs]. simpl in Hd, Hb. subst gd d. rewrite zlen_app in Hb.
  assert (tail_count t = 1) as Htc by (unfold tail_count; by rewrite decide_True).
  pose proof (lay_h _ _ _ _ _ _ Hl) as Hh. pose proof (lay_read _ _ _ _ _ _ Hl) as Hr.
  pose proof (lay_write _ _ _ _ _ _ Hl) as Hw. change (zlen (encode_frames [])) with 0 in Hw.
  exists q, (ErrWrap "read entry data: " io_EOF). split_and!; [done| |].
  { unfold IsEmpty. rewrite Hcnt, Htc. apply bool_decide_eq_false. simpl. lia. }
  pose proof (torn_frame_header t Ht H4) as Hlen. pose proof (zlen_nonneg pre).
  unfold Dequeue. run_dq. rewrite decide_False by lia.
  rewrite Hr, (read_len _ _ _ _ _ _ Hc Hh Hg), decide_True by done. cbv beta iota zeta.
  rewrite (ReadAt_short (f q) _ _ _ _ _ Hc Hh Hg); [done|lia|lia|].
  cbn [data]. rewrite zlen_app. lia.
Qed.

(** ** Concrete runs *)
#[local] Existing Instance FrameCodec.codec.
#[local] Existing Instance FrameCodec.codec_laws.

Definition event_a : IngestRequest := mk_event "a" "src" "1" 7 "t".
Definition event_b : IngestRequest := mk_event "b" "src" "2" 8 "t".

(** [n] system calls that succeed, then [f]. *)
Definition then_fault (n : nat) (f : fault) : list fault := replicate n FNone ++ [f].

(** Runs a call on the files of [w] under the schedule [s]. *)
Definition under {A} (s : list fault) (m : M (diskQueue * os) A) (q : diskQueue) (w : os) :=
  m (q, mk_os (files w) s).

(** A read offset that was not reset on disk swallows a later event. [event_a]
    is enqueued and dequeued, but the process dies between truncating the data
    file and saving offset 0. The next process clamps the stale offset to the
    file's size, 0, and does not save it; it accepts [event_b] with no error. The
    process after that loads the stale offset, which now lies at the end of
    [event_b]'s frame: the queue is empty and [event_b] is gone. *)
Theorem stale_offset_loses_event :
  match newDiskQueue "d" (mk_os ∅ []) with
  | (Ret q, w) =>
      let '(r1, (q, w)) := under [] (Enqueue event_a) q w in
      let '(r2, (_, w)) := under (then_fault 6 (FCrash 0)) Dequeue q w in
      match newDiskQueue "d" (restarted w) with
      | (Ret q, w) =>
          let '(r3, (_, w)) := under [] (Enqueue event_b) q w in
          match newDiskQueue "d" (restarted w) with
          | (Ret q, w) =>
              r1 = Ret tt /\ r2 = Crash /\ r3 = Ret tt /\
              fst (under [] Dequeue q w) = Ret None /\ Len q = 0
          | _ => False
          end
      | _ => False
      end
  | _ => False
  end.
Proof. vm_compute. repeat split. Qed.

Definition example_ops : list Fifo.op :=
  [Fifo.OEnqueue event_a; Fifo.OLen; Fifo.OEnqueue event_b; Fifo.ODequeue; Fifo.OReopen;
   Fifo.ODequeue; Fifo.ODequeue].

Lemma event_a_marshals : exists d, proto_Marshal event_a = inr d /\ fits d /\ zlen (frame d) = 34.
Proof. eexists. split; [vm_compute; reflexivity|split; vm_compute; reflexivity]. Qed.

Lemma event_b_marshals : exists d, proto_Marshal event_b = inr d /\ fits d /\ zlen (frame d) = 34.
Proof. eexists. split; [vm_compute; reflexivity|split; vm_compute; reflexivity]. Qed.

Lemma example_ops_admissible : Fifo.admissible example_ops 0.
Proof.
  destruct event_a_marshals as (da & Ha & Hfa & La). destruct event_b_marshals as (db & Hb & Hfb & Lb).
  simpl. exists da. rewrite La. split_and!; [done|done|lia|].
  exists db. rewrite Lb. split_and!; [done|done|lia|done].
Qed.

Lemma diskQueue_refines_Fifo_witness :
  exists q w q' w',
    newDiskQueue "d" (mk_os ∅ []) = (Ret q, w) /\
    do_ops example_ops (q, w) =
      (Ret [Fifo.ADone; Fifo.ALen 1 false; Fifo.ADone; Fifo.AEvent (Some event_a); Fifo.ADone;
            Fifo.AEvent (Some event_b); Fifo.AEvent None], (q', w')) /\
    holds_events q' w' [].
Proof. exact (diskQueue_refines_Fifo "d" example_ops example_ops_admissible). Defined.

(** The data file of a queue that holds [ps], with the offset of its first entry saved. *)
Definition queue_at (d : string) (ps : list (list byte)) (s : list fault) : diskQueue * os :=
  (mk (mk_handle (dataPath d) HOpen) (zlen (encode_frames ps)) 0 (Z.of_nat (length ps)) d,
   mk_os {[dataPath d := mk_file (encode_frames ps) 0]} s).

Lemma queue_at_layout d ps s :
  Forall fits ps -> zlen (encode_frames ps) < 2 ^ 63 ->
  layout (fst (queue_at d ps s)) (snd (queue_at d ps s)) [] ps [] [].
Proof.
  intros Hf Hb. split; try done; simpl; [|by rewrite Z.add_0_r].
  rewrite lookup_singleton_eq. simpl. by rewrite app_nil_r.
Qed.

Lemma queue_at_holds d ps s evs :
  Forall fits ps -> zlen (encode_frames ps) < 2 ^ 63 -> Forall2 decodes ps evs ->
  holds_events (fst (queue_at d ps s)) (snd (queue_at d ps s)) evs.
Proof.
  intros Hf Hb Hd. exists [], ps. split_and!; [by apply queue_at_layout|done| |].
  - simpl. by rewrite (Forall2_length _ _ _ Hd).
  - unfold saved_offset. simpl. rewrite lookup_singleton_ne by apply dataPath_offsetPath. done.
Qed.

(** [event_a]'s and [event_b]'s payloads. *)
Definition payload_of (e : IngestRequest) : list byte :=
  match proto_Marshal e with inr d => d | inl _ => [] end.

(** [event_a] is queued; the process dies nine bytes into the write of [event_b]. *)
Definition dying_queue : diskQueue * os :=
  queue_at "d" [payload_of event_a] (then_fault 0 (FCrash 9)).


Lemma Dequeue_fault_atomic_witness :
  let '(q, w) := queue_at "d" [payload_of event_a; payload_of event_b] (then_fault 1 (FErr 0)) in
  let '(r, (q', w')) := Dequeue (q, w) in
  r = Fail (ErrWrap "read entry data: " os_EIO) /\ q' = q /\
  layout q w' [] [payload_of event_a; payload_of event_b] [] [].
Proof.
  pose proof (Dequeue_fault_atomic
    (fst (queue_at "d" [payload_of event_a; payload_of event_b] (then_fault 1 (FErr 0))))
    (snd (queue_at "d" [payload_of event_a; payload_of event_b] (then_fault 1 (FErr 0))))
    [] [payload_of event_a; payload_of event_b] [] [event_a; event_b]) as H.
  destruct H as [H1 H2].
  - apply queue_at_layout; [repeat constructor|reflexivity].
  - repeat constructor.
  - vm_compute. intros [=].
  - split; [reflexivity|]. split; [reflexivity|exact H2].
Defined.

(** Nine bytes of [event_a]'s frame. *)
Definition torn_bytes : list byte := take 9 (frame (payload_of event_a)).

Lemma torn_tail_blocks_queue_witness :
  let w := mk_os {[dataPath "d" := mk_file torn_bytes 0]} [] in
  exists q err, newDiskQueue "d" w = (Ret q, w) /\ IsEmpty q = false /\
    Dequeue (q, w) = (Fail err, (q, w)).
Proof.
  apply (torn_tail_blocks_queue "d" _ [] torn_bytes (mk_file torn_bytes 0)).
  - reflexivity.
  - reflexivity.
  - reflexivity.
  - reflexivity.
  - exists (payload_of event_a), 9%nat. split; [reflexivity|].
    split; [vm_compute; lia|reflexivity].
  - vm_compute. intros [=].
  - reflexivity.
Defined.
