(* ===== verification/Buffer.v ===== *)
(** internal/buffer: channels, the channel buffer and the hybrid buffer.

    A Go channel of events is its capacity, its queue and whether it is closed.
    The hybrid buffer is written against [OverflowQueue], the methods it calls on
    its disk queue; DiskQueue.v's queue is the instance the program uses. The
    functions of this file are the program's, each run without interruption;
    Hybrid.v splits them into the steps that the goroutines interleave. *)
From stdpp Require Import base list strings gmap.
From Stdlib Require Import ZArith Lia.
From S2P Require Import Prelude Errors Go Bytes Os Proto DiskQueue.

(** ** Channels *)
Record chan := mk_chan { ch_cap : nat; ch_items : list IngestRequest; ch_closed : bool }.

(** [make(chan, size)] panics on a negative size. *)
Definition make_chan {S} (size : Z) : M S chan :=
  if decide (size < 0)%Z then panic "makechan: size out of range"
  else ret (mk_chan (Z.to_nat size) [] false).

Definition chan_full (c : chan) : bool := bool_decide (ch_cap c <= length (ch_items c)).

(** [select { case c <- e: ...; default: ... }]: whether the value was sent. *)
Definition chan_try_send (e : IngestRequest) : M chan bool := fun c =>
  if ch_closed c then (Panic "send on closed channel", c)
  else if chan_full c then (Ret false, c)
  else (Ret true, mk_chan (ch_cap c) (ch_items c ++ [e]) false).

Definition chan_close : M chan unit := fun c =>
  if ch_closed c then (Panic "close of closed channel", c)
  else (Ret tt, mk_chan (ch_cap c) (ch_items c) true).

(** What a receive finds. *)
Inductive received := Got (e : IngestRequest) | ChanClosed | WouldBlock.

Definition chan_recv (c : chan) : received * chan :=
  match ch_items c with
  | e :: l => (Got e, mk_chan (ch_cap c) l (ch_closed c))
  | [] => (if ch_closed c then ChanClosed else WouldBlock, c)
  end.

(** [len(c)] *)
Definition chan_len (c : chan) : Z := Z.of_nat (length (ch_items c)).

Definition ErrBufferFull : error := ErrSentinel "buffer.ErrBufferFull" "buffer is full".

(** buffer.go: the interface [Buffer]; [buf_Recv] is a receive on [Chan()]. *)
Class Buffer (B : Type) := {
  buf_Push : IngestRequest -> M B unit;
  buf_Recv : B -> received * B;
  buf_Close : M B unit;
  buf_Len : B -> Z
}.

(** ** channel.go *)
Module ChannelBuffer.

(** [closed_once]: [closeOnce] has run. *)
Record ChannelBuffer := mk { ch : chan; closed_once : bool }.

Definition NewChannelBuffer {S} (size : Z) : M S ChannelBuffer :=
  c <- make_chan size ;; ret (mk c false).

Definition on_ch {A} (m : M chan A) : M ChannelBuffer A := fun b =>
  let '(r, c) := m (ch b) in (r, mk c (closed_once b)).

Definition Push (event : IngestRequest) : M ChannelBuffer unit :=
  sent <- on_ch (chan_try_send event) ;;
  if sent : bool then ret tt else fail ErrBufferFull.

Definition Recv (b : ChannelBuffer) : received * ChannelBuffer :=
  let '(r, c) := chan_recv (ch b) in (r, mk c (closed_once b)).

Definition Close : M ChannelBuffer unit :=
  once <- gets closed_once ;;
  if once : bool then ret tt
  else modify (fun b => mk (ch b) true) ;; on_ch chan_close.

Definition Len (b : ChannelBuffer) : Z := chan_len (ch b).

#[global] Instance buffer : Buffer ChannelBuffer :=
  {| buf_Push := Push; buf_Recv := Recv; buf_Close := Close; buf_Len := Len |}.

End ChannelBuffer.

(** ** hybrid.go *)

(** The methods of [*diskQueue] that the hybrid buffer calls. *)
Class OverflowQueue (Q : Type) := {
  oq_Enqueue : IngestRequest -> M Q unit;
  oq_Dequeue : M Q (option IngestRequest);
  oq_IsEmpty : Q -> bool;
  oq_Len : Q -> Z;
  oq_Close : M Q unit
}.

#[export] Instance diskQueue_overflow `{C : Codec} : OverflowQueue (DiskQueue.diskQueue * os) :=
  {| oq_Enqueue := DiskQueue.Enqueue;
     oq_Dequeue := DiskQueue.Dequeue;
     oq_IsEmpty q := DiskQueue.IsEmpty (fst q);
     oq_Len q := DiskQueue.Len (fst q);
     oq_Close := DiskQueue.Close |}.

Module HybridBuffer.
Section HybridBuffer.
Context {Q : Type} `{OQ : OverflowQueue Q}.

(** [quit]: the channel [h.quit] is closed. *)
Record HybridBuffer := mk { ch : chan; dq : Q; quit : bool }.

Definition on_ch {A} (m : M chan A) : M HybridBuffer A := fun h =>
  let '(r, c) := m (ch h) in (r, mk c (dq h) (quit h)).
Definition on_dq {A} (m : M Q A) : M HybridBuffer A := fun h =>
  let '(r, q) := m (dq h) in (r, mk (ch h) q (quit h)).

Definition Push (event : IngestRequest) : M HybridBuffer unit :=
  empty <- gets (fun h => oq_IsEmpty (dq h)) ;;
  sent <- (if empty : bool then on_ch (chan_try_send event) else ret false) ;;
  if sent : bool then ret tt
  else wrapping "overflow disk full: " (on_dq (oq_Enqueue event)).

Definition Recv (h : HybridBuffer) : received * HybridBuffer :=
  let '(r, c) := chan_recv (ch h) in (r, mk c (dq h) (quit h)).

Definition Len (h : HybridBuffer) : Z := (chan_len (ch h) + oq_Len (dq h))%Z.

(** One run of the loop with nobody else at work: the room that the second test
    finds is still there for the send. *)
Fixpoint pump_loop (fuel : nat) : M HybridBuffer unit :=
  match fuel with
  | O => of_out NoFuel
  | S fuel =>
      h <- gets id ;;
      if oq_IsEmpty (dq h) then ret tt
      else if chan_full (ch h) then ret tt
      else
        r <- try (on_dq oq_Dequeue) ;;
        match r with
        | inl _ => ret tt
        | inr None => ret tt
        | inr (Some event) => on_ch (chan_try_send event) ;; pump_loop fuel
        end
  end.

(** Every round but the last puts an event into the channel. *)
Definition pumpBatch : M HybridBuffer unit :=
  h <- gets id ;; pump_loop (S (ch_cap (ch h) - length (ch_items (ch h)))).

(** The event that does not fit is logged and dropped. *)
Fixpoint drain_loop (fuel : nat) : M HybridBuffer unit :=
  match fuel with
  | O => of_out NoFuel
  | S fuel =>
      r <- try (on_dq oq_Dequeue) ;;
      match r with
      | inl _ => ret tt
      | inr None => ret tt
      | inr (Some event) =>
          sent <- on_ch (chan_try_send event) ;;
          if sent : bool then drain_loop fuel else ret tt
      end
  end.

Definition drainOverflow : M HybridBuffer unit :=
  h <- gets id ;; drain_loop (S (ch_cap (ch h) - length (ch_items (ch h)))).

(** [Close] with the pump waiting in its select: it takes the quit case, drains,
    closes the channel and ends, which [h.wg.Wait()] waits for. *)
Definition Close : M HybridBuffer unit :=
  q <- gets quit ;;
  if q : bool then panic "close of closed channel"
  else
    modify (fun h => mk (ch h) (dq h) true) ;;
    drainOverflow ;;
    on_ch chan_close ;;
    on_dq oq_Close.

#[global] Instance buffer : Buffer HybridBuffer :=
  {| buf_Push := Push; buf_Recv := Recv; buf_Close := Close; buf_Len := Len |}.

End HybridBuffer.
Arguments HybridBuffer : clear implicits.
Arguments mk {Q} _ _ _.
Arguments ch {Q} _.
Arguments dq {Q} _.
Arguments quit {Q} _.

(** [NewHybridBuffer(cfg, memSize)] with [cfg.Dir = dir]; the pump it starts is
    Hybrid.v's. *)
Definition NewHybridBuffer `{C : Codec} (dir : string) (memSize : Z) :
    M os (HybridBuffer DiskQueue.diskQueue) :=
  q <- wrapping "hybrid buffer disk queue: " (DiskQueue.newDiskQueue dir) ;;
  c <- make_chan memSize ;;
  ret (mk c q false).

(** The buffer with the file system its queue works on. *)
Definition with_os (h : HybridBuffer DiskQueue.diskQueue) (w : os) :
    HybridBuffer (DiskQueue.diskQueue * os) := mk (ch h) (dq h, w) (quit h).

End HybridBuffer.
