(* ===== verification/Hybrid.v ===== *)
(** The hybrid buffer: what its disk queue promises it, its methods one at a time,
    and the interleavings of its goroutines.

    [FifoLaws] is the contract between the buffer and its overflow queue; the
    buffer's theorems use nothing else, and DiskQueueTheorems.v discharges it. *)
From stdpp Require Import base list strings gmap.
From Stdlib Require Import ZArith Lia.
From S2P Require Import Prelude Errors Go Bytes GoStrings Os OsFaults Proto.
From S2P Require Import DiskQueue DiskQueueProofs DiskQueueRestart DiskQueueTheorems Buffer.

(** [oq_holds q l]: [q] works and holds [l], oldest first. [oq_room q e]: the
    machine integers of the format have room for [e]. *)
Class FifoLaws (Q : Type) `{OverflowQueue Q} := {
  oq_holds : Q -> list IngestRequest -> Prop;
  oq_room : Q -> IngestRequest -> Prop;
  oq_empty_law : forall q l, oq_holds q l -> oq_IsEmpty q = bool_decide (l = []);
  oq_len_law : forall q l, oq_holds q l -> oq_Len q = Z.of_nat (length l);
  oq_enqueue_law : forall q l e, oq_holds q l -> oq_room q e ->
    (exists err, oq_Enqueue e q = (Fail err, q)) \/
    (exists q', oq_Enqueue e q = (Ret tt, q') /\ oq_holds q' (l ++ [e]));
  oq_dequeue_law : forall q l, oq_holds q l ->
    exists q', oq_Dequeue q = (Ret (hd_error l), q') /\ oq_holds q' (tail l)
}.

#[export] Instance diskQueue_fifo `{C : Codec} `{!CodecLaws C} :
  FifoLaws (DiskQueue.diskQueue * os).
Proof.
  refine {|
    oq_holds qw l := calm (snd qw) /\ holds_events (fst qw) (snd qw) l;
    oq_room qw e := forall d, proto_Marshal e = inr d ->
      fits d /\ (DiskQueue.writeOffset (fst qw) + zlen (DiskQueue.frame d) < 2 ^ 63)%Z |}.
  - intros [q w] l [_ Hh]. by apply (Len_holds q w).
  - intros [q w] l [_ Hh]. by apply (Len_holds q w).
  - intros [q w] l e [Hc Hh] Hroom. simpl in *.
    destruct (proto_Marshal e) as [err|d] eqn:Hm.
    + left. unfold DiskQueue.Enqueue. rewrite Hm. by eexists.
    + right. destruct (Hroom d eq_refl) as [Hf Hb].
      destruct (Enqueue_holds e d q w l Hc Hh Hm Hf Hb) as (q' & w' & Hrun & Hc' & Hh' & _).
      by exists (q', w').
  - intros [q w] l [Hc Hh]. simpl in *.
    destruct (Dequeue_holds q w l Hc Hh) as (q' & w' & Hrun & Hc' & Hh' & _).
    by exists (q', w').
Defined.

Import HybridBuffer.

(** ** One method at a time *)
Section sequential.
Context {Q : Type} `{FL : FifoLaws Q}.
Implicit Types h : HybridBuffer Q.

(** The buffer is open and holds [l]: first the channel, then the queue. *)
Definition buffered h (l : list IngestRequest) : Prop :=
  ch_closed (ch h) = false /\ quit h = false /\ length (ch_items (ch h)) <= ch_cap (ch h) /\
  exists disk, oq_holds (dq h) disk /\ l = ch_items (ch h) ++ disk.

Lemma Push_buffered h l e :
  buffered h l -> oq_room (dq h) e ->
  (exists err, Push e h = (Fail err, h)) \/
  (exists h', Push e h = (Ret tt, h') /\ buffered h' (l ++ [e])).
Proof.
  intros (Hcl & Hq & Hlen & disk & Hd & ->) Hroom. destruct h as [c q qt]. simpl in *.
  unfold Push, on_ch, on_dq, chan_try_send, wrapping, gets, bind, ret. simpl.
  rewrite (oq_empty_law _ _ Hd).
  assert (forall q', oq_holds q' (disk ++ [e]) ->
    buffered (mk c q' qt) ((ch_items c ++ disk) ++ [e])) as Hdisk.
  { intros q' Hd'. split_and!; try done. exists (disk ++ [e]). split; [done|].
    by rewrite (assoc_L (++)). }
  case_bool_decide as Hn; [simpl; rewrite Hcl; unfold chan_full; case_bool_decide|]; simpl.
  2: { right. subst disk. eexists. split; [done|]. split_and!; try done; simpl.
       - rewrite length_app. simpl. lia.
       - exists []. split; [done|]. by rewrite !app_nil_r. }
  all: destruct (oq_enqueue_law _ _ e Hd Hroom) as [[err ->]|(q' & -> & Hd')];
    [left; by eexists|right; eauto].
Qed.

Lemma pump_loop_buffered fuel : forall h l,
  buffered h l -> ch_cap (ch h) - length (ch_items (ch h)) < fuel ->
  exists h', pump_loop fuel h = (Ret tt, h') /\ buffered h' l.
Proof.
  induction fuel as [|fuel IH]; intros h l Hb Hf; [lia|].
  pose proof Hb as (Hcl & Hq & Hlen & disk & Hd & ->). cbn [pump_loop].
  unfold bind at 1, gets at 1. cbv beta iota. unfold id.
  rewrite (oq_empty_law _ _ Hd). case_bool_decide as Hn; [by exists h|].
  unfold chan_full. case_bool_decide as Hc; [by exists h|].
  destruct (oq_dequeue_law _ _ Hd) as (q' & Hrun & Hd').
  destruct disk as [|e disk]; [done|]. simpl in Hrun, Hd'.
  unfold bind, try, on_dq, on_ch, chan_try_send. rewrite Hrun. simpl.
  rewrite Hcl. unfold chan_full. rewrite bool_decide_false by done.
  destruct (IH (mk (mk_chan (ch_cap (ch h)) (ch_items (ch h) ++ [e]) false) q' (quit h))
              (ch_items (ch h) ++ e :: disk)) as (h' & Hrun' & Hb').
  - split_and!; try done; simpl.
    + rewrite length_app. simpl. lia.
    + exists disk. split; [done|]. by rewrite <- (assoc_L (++)).
  - simpl. rewrite length_app. simpl. lia.
  - by exists h'.
Qed.

Lemma pumpBatch_buffered h l :
  buffered h l -> exists h', pumpBatch h = (Ret tt, h') /\ buffered h' l.
Proof.
  intros Hb. unfold pumpBatch, bind at 1, gets at 1. unfold id at 1 2.
  apply pump_loop_buffered; [done|lia].
Qed.

Lemma Len_buffered h l : buffered h l -> Len h = Z.of_nat (length l).
Proof.
  intros (_ & _ & _ & disk & Hd & ->). unfold Len, chan_len. rewrite (oq_len_law _ _ Hd), length_app.
  lia.
Qed.

Lemma Recv_buffered h l :
  buffered h l ->
  match Recv h with
  | (Got e, h') => exists l', l = e :: l' /\ buffered h' l'
  | (ChanClosed, _) => False
  | (WouldBlock, h') => h' = h
  end.
Proof.
  intros (Hcl & Hq & Hlen & disk & Hd & ->). destruct h as [[cap items cl] q qt].
  unfold Recv, chan_recv. simpl in *. subst. destruct items as [|e items]; [done|].
  simpl. exists (items ++ disk). split; [done|]. split_and!; try done; simpl in *; [lia|].
  by exists disk.
Qed.

(** [drainOverflow] fills the channel from the queue; the next event is taken out
    of the queue too. *)
Lemma drain_loop_run fuel : forall c q qt disk,
  oq_holds q disk -> ch_closed c = false ->
  let room := ch_cap c - length (ch_items c) in
  room < fuel ->
  exists q', drain_loop fuel (mk c q qt) =
      (Ret tt, mk (mk_chan (ch_cap c) (ch_items c ++ take room disk) false) q' qt) /\
    oq_holds q' (drop (S room) disk).
Proof.
  induction fuel as [|fuel IH]; intros c q qt disk Hd Hcl room Hf; [lia|].
  cbn [drain_loop]. unfold bind, try, on_dq, on_ch, chan_try_send.
  destruct (oq_dequeue_law _ _ Hd) as (q' & Hrun & Hd'). cbn [dq]. rewrite Hrun.
  destruct c as [cap items cl]. simpl in Hcl. subst cl. subst room.
  destruct disk as [|e disk]; simpl.
  - exists q'. rewrite take_nil, app_nil_r. split; [done|]. by simpl in Hd'.
  - unfold chan_full. simpl in *. case_bool_decide as Hfull; simpl.
    + replace (cap - length items) with 0 by lia. exists q'. simpl. rewrite app_nil_r.
      by rewrite drop_0.
    + destruct (IH (mk_chan cap (items ++ [e]) false) q' qt disk Hd' eq_refl) as (q2 & Hrun2 & Hd2).
      { simpl. rewrite length_app. simpl. lia. }
      cbn [ch_cap ch_items] in *. rewrite length_app in Hrun2, Hd2. simpl in Hrun2, Hd2.
      replace (cap - length items) with (S (cap - (length items + 1))) by lia.
      exists q2. cbn [take drop]. rewrite Hrun2. by rewrite <- (assoc_L (++)).
Qed.

End sequential.
