(* ===== verification/HybridTheorems.v ===== *)
(** The buffers: order, conservation, and what shutdown does. *)
From stdpp Require Import base list strings gmap.
From Stdlib Require Import ZArith Lia Permutation.
From S2P Require Import Prelude Errors Go Bytes GoStrings Os OsFaults Proto.
From S2P Require Import DiskQueue DiskQueueProofs DiskQueueRestart DiskQueueTheorems Buffer Hybrid.

Import HybridBuffer.

(** ** Sequences of whole calls *)
Module HybridRun.
Section run.
Context {Q : Type} `{OQ : OverflowQueue Q}.

Inductive op := HPush (e : IngestRequest) | HPump | HRecv.

(** What a sequence of calls accepted and what it delivered, in order. *)
Record trace := mk_trace { accepted : list IngestRequest; delivered : list IngestRequest }.

Definition do_op (o : op) (t : trace) : M (HybridBuffer Q) trace :=
  match o with
  | HPush e =>
      r <- try (Push e) ;;
      match r with
      | inl _ => ret t
      | inr _ => ret (mk_trace (accepted t ++ [e]) (delivered t))
      end
  | HPump => pumpBatch ;; ret t
  | HRecv => fun h =>
      match Recv h with
      | (Got e, h') => (Ret (mk_trace (accepted t) (delivered t ++ [e])), h')
      | (_, h') => (Ret t, h')
      end
  end.

Fixpoint do_ops (ops : list op) (t : trace) : M (HybridBuffer Q) trace :=
  match ops with
  | [] => ret t
  | o :: ops => t' <- do_op o t ;; do_ops ops t'
  end.

(** There is always room for the next event in the queue's integers. *)
Fixpoint roomy `{!FifoLaws Q} (ops : list op) (t : trace) (h : HybridBuffer Q) : Prop :=
  match ops with
  | [] => True
  | o :: ops =>
      (match o with HPush e => oq_room (dq h) e | _ => True end) /\
      match do_op o t h with
      | (Ret t', h') => roomy ops t' h'
      | _ => True
      end
  end.
End run.
End HybridRun.

Import HybridRun.

Section order.
Context {Q : Type} `{FL : FifoLaws Q}.

Lemma do_op_buffered o t h l :
  buffered h l -> (match o with HPush e => oq_room (dq h) e | _ => True end) ->
  exists t' h' l', do_op o t h = (Ret t', h') /\ buffered h' l' /\
    (accepted t = delivered t ++ l -> accepted t' = delivered t' ++ l').
Proof.
  intros Hb Hroom. destruct o as [e| |]; cbn [do_op].
  - destruct (Push_buffered h l e Hb Hroom) as [[err Herr]|(h' & Hrun & Hb')];
      unfold bind, try; [rewrite Herr|rewrite Hrun]; eexists _, _, _; split_and!; try done.
    intros Ha. simpl. by rewrite Ha, <- (assoc_L (++)).
  - destruct (pumpBatch_buffered h l Hb) as (h' & Hrun & Hb').
    rewrite (bind_run_Ret _ _ _ _ _ Hrun). by eexists _, _, _.
  - pose proof (Recv_buffered h l Hb) as Hr. destruct (Recv h) as [[e| |] h'].
    + destruct Hr as (l' & -> & Hb'). eexists _, _, _. split_and!; [done|done|].
      intros Ha. simpl. by rewrite Ha, <- (assoc_L (++)).
    + done.
    + subst. by eexists _, _, _.
Qed.

(** C21. Whatever the sequence of Push, pumpBatch and receive calls, and whichever events
    went through the file, the events come out in the order in which they were
    accepted: what was delivered and what the buffer still holds, put together, is
    exactly the accepted sequence, and Len counts what it holds. *)
Theorem hybrid_fifo (h : HybridBuffer Q) (ops : list op) :
  buffered h [] -> roomy ops (mk_trace [] []) h ->
  exists t h' l, do_ops ops (mk_trace [] []) h = (Ret t, h') /\
    buffered h' l /\ accepted t = delivered t ++ l /\ Len h' = Z.of_nat (length l).
Proof.
  intros Hb Hroom.
  assert (forall t l h, buffered h l -> roomy ops t h -> accepted t = delivered t ++ l ->
    exists t' h' l', do_ops ops t h = (Ret t', h') /\ buffered h' l' /\
      accepted t' = delivered t' ++ l') as Hgen.
  { clear. induction ops as [|o ops IH]; intros t l h Hb Hr Ha; [by eexists _, _, _|].
    cbn [roomy do_ops] in *. destruct Hr as [Hroom Hr].
    destruct (do_op_buffered o t h l Hb Hroom) as (t1 & h1 & l1 & Hrun & Hb1 & Ha1).
    rewrite Hrun in Hr. rewrite (bind_run_Ret _ _ _ _ _ Hrun).
    exact (IH t1 l1 h1 Hb1 Hr (Ha1 Ha)). }
  destruct (Hgen (mk_trace [] []) [] h Hb Hroom eq_refl) as (t & h' & l & Hrun & Hb' & Ha).
  exists t, h', l. split_and!; [done..|]. by apply Len_buffered.
Qed.

(** What Close does to the events on disk: with room for [room] more, the channel
    receives the first [room] of them and the queue keeps those from position
    [room + 1] on; the event at position [room] is in neither. *)
Theorem drainOverflow_drops_one (h : HybridBuffer Q) items disk :
  ch_items (ch h) = items -> ch_closed (ch h) = false -> oq_holds (dq h) disk ->
  let room := ch_cap (ch h) - length items in
  exists h', drainOverflow h = (Ret tt, h') /\
    ch_items (ch h') = items ++ take room disk /\
    oq_holds (dq h') (drop (S room) disk) /\
    (length disk <= room -> items ++ disk = ch_items (ch h')) /\
    (forall e, disk !! room = Some e ->
       items ++ disk = ch_items (ch h') ++ e :: drop (S room) disk).
Proof.
  intros <- Hcl Hd room. destruct h as [c q qt]. cbn [ch dq] in *.
  destruct (drain_loop_run (S room) c q qt disk Hd Hcl) as (q' & Hrun & Hd'); [lia|].
  eexists. split.
  { unfold drainOverflow, bind at 1, gets at 1. unfold id at 1 2. exact Hrun. }
  cbn [ch dq ch_items]. split_and!.
  - done.
  - done.
  - intros Hle. by rewrite take_ge.
  - intros e He. rewrite <- (assoc_L (++)). f_equal. by rewrite <- (take_drop_middle _ _ _ He) at 1.
Qed.
End order.

(** ** Interleavings *)

(** Push, the pump and the consumers run in different goroutines and share the
    channel and the queue; each call on one of those is atomic. [Steps] has one rule
    per such call, with the program counters of the goroutines between them. *)
Module Steps.
Section steps.
Context {Q : Type} `{OQ : OverflowQueue Q}.

(** A Push before its IsEmpty, before its send, before its Enqueue. *)
Inductive pusher := PCheck (e : IngestRequest) | PSend (e : IngestRequest) | PEnqueue (e : IngestRequest).

(** The pump: in its select; at the top of pumpBatch's loop; behind the first test;
    behind the second; holding an event it dequeued; the same in drainOverflow; gone. *)
Inductive pump_pc :=
  | Waiting | Looping | Nonempty | Roomy | Holding (e : IngestRequest)
  | Draining | DrainHolding (e : IngestRequest) | Stopped.

(** [lost]: events the pump dropped. *)
Record sys := mk_sys {
  hb : HybridBuffer Q;
  pushers : list pusher;
  pump : pump_pc;
  log_accepted : list IngestRequest;
  log_delivered : list IngestRequest;
  lost : list IngestRequest
}.

Definition set_pump (p : pump_pc) (s : sys) : sys :=
  mk_sys (hb s) (pushers s) p (log_accepted s) (log_delivered s) (lost s).
Definition set_hb (h : HybridBuffer Q) (s : sys) : sys :=
  mk_sys h (pushers s) (pump s) (log_accepted s) (log_delivered s) (lost s).
Definition set_pushers (l : list pusher) (s : sys) : sys :=
  mk_sys (hb s) l (pump s) (log_accepted s) (log_delivered s) (lost s).
Definition accept (e : IngestRequest) (s : sys) : sys :=
  mk_sys (hb s) (pushers s) (pump s) (log_accepted s ++ [e]) (log_delivered s) (lost s).
Definition deliver (e : IngestRequest) (s : sys) : sys :=
  mk_sys (hb s) (pushers s) (pump s) (log_accepted s) (log_delivered s ++ [e]) (lost s).
Definition lose (e : IngestRequest) (s : sys) : sys :=
  mk_sys (hb s) (pushers s) (pump s) (log_accepted s) (log_delivered s) (lost s ++ [e]).

(** One goroutine of a Push moves from [p] to [p']; [None] is its return. *)
Definition moves (s : sys) (p : pusher) (p' : option pusher) (s' : sys) : Prop :=
  exists l1 l2, pushers s = l1 ++ p :: l2 /\
    s' = set_pushers (l1 ++ option_list p' ++ l2) s.

Inductive step `{!FifoLaws Q} : sys -> sys -> Prop :=
  | s_call s e : step s (set_pushers (pushers s ++ [PCheck e]) s)
  | s_check s e s' :
      moves s (PCheck e)
        (Some (if oq_IsEmpty (dq (hb s)) then PSend e else PEnqueue e)) s' ->
      step s s'
  | s_send s e s' h :
      moves s (PSend e) None s' -> on_ch (chan_try_send e) (hb s) = (Ret true, h) ->
      step s (accept e (set_hb h s'))
  | s_send_full s e s' h :
      moves s (PSend e) (Some (PEnqueue e)) s' ->
      on_ch (chan_try_send e) (hb s) = (Ret false, h) ->
      step s s'
  | s_enqueue s e s' h :
      moves s (PEnqueue e) None s' -> oq_room (dq (hb s)) e ->
      on_dq (oq_Enqueue e) (hb s) = (Ret tt, h) ->
      step s (accept e (set_hb h s'))
  | s_enqueue_fails s e s' h err :
      moves s (PEnqueue e) None s' -> oq_room (dq (hb s)) e ->
      on_dq (oq_Enqueue e) (hb s) = (Fail err, h) ->
      step s (set_hb h s')
  | s_recv s e h : Recv (hb s) = (Got e, h) -> step s (deliver e (set_hb h s))
  | s_tick s : pump s = Waiting -> step s (set_pump Looping s)
  | s_loop s : pump s = Looping ->
      step s (set_pump (if oq_IsEmpty (dq (hb s)) then Waiting else Nonempty) s)
  | s_room s : pump s = Nonempty ->
      step s (set_pump (if chan_full (ch (hb s)) then Waiting else Roomy) s)
  | s_dequeue s h r : pump s = Roomy -> on_dq oq_Dequeue (hb s) = (Ret r, h) ->
      step s (set_pump (match r with Some e => Holding e | None => Waiting end) (set_hb h s))
  | s_pump_send s e h : pump s = Holding e ->
      on_ch (chan_try_send e) (hb s) = (Ret true, h) ->
      step s (set_pump Looping (set_hb h s))
  | s_pump_quit s e : pump s = Holding e -> quit (hb s) = true ->
      step s (set_pump Waiting (lose e s))
  | s_close s : quit (hb s) = false ->
      step s (set_hb (mk (ch (hb s)) (dq (hb s)) true) s)
  | s_quit s : pump s = Waiting -> quit (hb s) = true -> step s (set_pump Draining s)
  | s_drain s e h : pump s = Draining -> on_dq oq_Dequeue (hb s) = (Ret (Some e), h) ->
      step s (set_pump (DrainHolding e) (set_hb h s))
  | s_drain_end s h h' : pump s = Draining -> on_dq oq_Dequeue (hb s) = (Ret None, h) ->
      on_ch chan_close h = (Ret tt, h') ->
      step s (set_pump Stopped (set_hb h' s))
  | s_drain_send s e h : pump s = DrainHolding e ->
      on_ch (chan_try_send e) (hb s) = (Ret true, h) ->
      step s (set_pump Draining (set_hb h s))
  | s_drain_full s e h h' : pump s = DrainHolding e ->
      on_ch (chan_try_send e) (hb s) = (Ret false, h) -> on_ch chan_close h = (Ret tt, h') ->
      step s (set_pump Stopped (lose e (set_hb h' s))).

(** The event in the pump's hands. *)
Definition in_hand (p : pump_pc) : list IngestRequest :=
  match p with Holding e | DrainHolding e => [e] | _ => [] end.

Definition init (h : HybridBuffer Q) : sys := mk_sys h [] Waiting [] [] [].
End steps.
Arguments sys : clear implicits.
End Steps.

Import Steps.

Section conservation.
Context {Q : Type} `{FL : FifoLaws Q}.

(** Every accepted event is in exactly one place. *)
Definition conserved (s : sys Q) : Prop :=
  (exists disk, oq_holds (dq (hb s)) disk /\
     log_accepted s ≡ₚ
       log_delivered s ++ ch_items (ch (hb s)) ++ in_hand (pump s) ++ disk ++ lost s) /\
  (quit (hb s) = false -> lost s = []).

(** The pump drains only after Close. *)
Definition draining (p : pump_pc) : bool :=
  match p with Draining | DrainHolding _ | Stopped => true | _ => false end.

Definition quit_seen (s : sys Q) : Prop := draining (pump s) = true -> quit (hb s) = true.

Lemma try_send_true e (h h' : HybridBuffer Q) :
  on_ch (chan_try_send e) h = (Ret true, h') ->
  dq h' = dq h /\ quit h' = quit h /\ ch_items (ch h') = ch_items (ch h) ++ [e].
Proof.
  unfold on_ch, chan_try_send. destruct h as [[cap items cl] q qt]. simpl.
  destruct cl; [done|]. destruct (chan_full _); intros [= <-]; done.
Qed.

Lemma chan_close_inv (h h' : HybridBuffer Q) :
  on_ch chan_close h = (Ret tt, h') ->
  dq h' = dq h /\ quit h' = quit h /\ ch_items (ch h') = ch_items (ch h).
Proof.
  unfold on_ch, chan_close. destruct h as [[cap items cl] q qt]. simpl.
  destruct cl; intros [= <-]; done.
Qed.

Lemma try_send_false e (h h' : HybridBuffer Q) :
  on_ch (chan_try_send e) h = (Ret false, h') -> h' = h.
Proof.
  unfold on_ch, chan_try_send. destruct h as [[cap items cl] q qt]. simpl.
  destruct cl; [done|]. destruct (chan_full _); intros [= <-]; done.
Qed.

Lemma dequeue_inv (h h' : HybridBuffer Q) r disk :
  oq_holds (dq h) disk -> on_dq oq_Dequeue h = (Ret r, h') ->
  ch h' = ch h /\ quit h' = quit h /\
  match r with
  | Some e => exists disk', disk = e :: disk' /\ oq_holds (dq h') disk'
  | None => disk = [] /\ oq_holds (dq h') []
  end.
Proof.
  intros Hd. destruct (oq_dequeue_law _ _ Hd) as (q' & Hrun & Hd'). unfold on_dq. rewrite Hrun.
  intros [= <- <-]. destruct disk; simpl; split_and!; eauto.
Qed.

Lemma enqueue_inv (h h' : HybridBuffer Q) e disk :
  oq_holds (dq h) disk -> oq_room (dq h) e -> on_dq (oq_Enqueue e) h = (Ret tt, h') ->
  ch h' = ch h /\ quit h' = quit h /\ oq_holds (dq h') (disk ++ [e]).
Proof.
  intros Hd Hroom. unfold on_dq.
  destruct (oq_enqueue_law _ _ e Hd Hroom) as [[err ->]|(q' & -> & Hd')]; intros [= <-].
  by split_and!.
Qed.

Lemma enqueue_fail_inv (h h' : HybridBuffer Q) e err disk :
  oq_holds (dq h) disk -> oq_room (dq h) e -> on_dq (oq_Enqueue e) h = (Fail err, h') -> h' = h.
Proof.
  intros Hd Hroom. unfold on_dq. destruct h as [c q qt]. simpl in *.
  destruct (oq_enqueue_law _ _ e Hd Hroom) as [[x ->]|(q' & -> & _)]; by intros [= _ <-].
Qed.

Lemma recv_inv (h h' : HybridBuffer Q) e :
  Recv h = (Got e, h') ->
  dq h' = dq h /\ quit h' = quit h /\ ch_items (ch h) = e :: ch_items (ch h').
Proof.
  unfold Recv, chan_recv. destruct h as [[cap [|x items] cl] q qt]; simpl; [by destruct cl|].
  by intros [= -> <-].
Qed.

(** Splits the call a step made into what it did to the buffer. *)
Ltac split_call disk Hd :=
  match goal with
  | H : moves _ _ _ _ |- _ => destruct H as (? & ? & _ & ->)
  | H : on_ch (chan_try_send _) _ = (Ret true, _) |- _ =>
      apply try_send_true in H as (? & ? & ?)
  | H : on_ch (chan_try_send _) _ = (Ret false, _) |- _ => apply try_send_false in H as ->
  | H : Recv _ = _ |- _ => apply recv_inv in H as (? & ? & ?)
  | H : on_ch chan_close _ = _ |- _ => apply chan_close_inv in H as (? & ? & ?)
  | H : on_dq oq_Dequeue _ = _ |- _ => destruct (dequeue_inv _ _ _ disk Hd H) as (? & ? & ?); clear H
  | H : on_dq (oq_Enqueue _) _ = (Ret tt, _), Hr : oq_room _ _ |- _ =>
      destruct (enqueue_inv _ _ _ disk Hd Hr H) as (? & ? & ?); clear H
  | H : on_dq (oq_Enqueue _) _ = (Fail _, _), Hr : oq_room _ _ |- _ =>
      rewrite (enqueue_fail_inv _ _ _ _ disk Hd Hr H); clear H
  end.

Lemma on_ch_quit {A} (m : M chan A) (h h' : HybridBuffer Q) r :
  on_ch m h = (r, h') -> quit h' = quit h.
Proof. unfold on_ch. destruct (m (ch h)). by intros [= _ <-]. Qed.

Lemma on_dq_quit {A} (m : M Q A) (h h' : HybridBuffer Q) r :
  on_dq m h = (r, h') -> quit h' = quit h.
Proof. unfold on_dq. destruct (m (dq h)). by intros [= _ <-]. Qed.

Lemma recv_quit (h h' : HybridBuffer Q) r : Recv h = (r, h') -> quit h' = quit h.
Proof. unfold Recv. destruct (chan_recv (ch h)). by intros [= _ <-]. Qed.

(** Nothing is lost before Close, and the pump drains only after it. *)
Lemma step_quit (s s' : sys Q) :
  step s s' ->
  quit_seen s /\ (quit (hb s) = false -> lost s = []) ->
  quit_seen s' /\ (quit (hb s') = false -> lost s' = []).
Proof.
  unfold quit_seen. intros Hstep [Hs Hl].
  destruct Hstep; repeat match goal with
    | H : moves _ _ _ _ |- _ => destruct H as (? & ? & _ & ->)
    | H : on_ch _ _ = _ |- _ => apply on_ch_quit in H
    | H : on_dq _ _ = _ |- _ => apply on_dq_quit in H
    | H : Recv _ = _ |- _ => apply recv_quit in H
    | H : pump _ = _ |- _ => rewrite H in Hs; clear H
    | |- context [if ?b then _ else _] => destruct b
    | |- context [match ?r with Some _ => _ | None => _ end] => destruct r
    end; simpl in *; split; intros; first [done|congruence|apply Hl; congruence|
      rewrite Hs in * by done; congruence].
Qed.

Lemma step_permutation (s s' : sys Q) :
  step s s' ->
  (exists disk, oq_holds (dq (hb s)) disk /\
     log_accepted s ≡ₚ
       log_delivered s ++ ch_items (ch (hb s)) ++ in_hand (pump s) ++ disk ++ lost s) ->
  (exists disk, oq_holds (dq (hb s')) disk /\
     log_accepted s' ≡ₚ
       log_delivered s' ++ ch_items (ch (hb s')) ++ in_hand (pump s') ++ disk ++ lost s').
Proof.
  intros Hstep (disk & Hd & Hp).
  destruct Hstep; repeat split_call disk Hd; simpl in *.
  all: repeat match goal with
    | H : pump _ = _ |- _ => rewrite H in Hp; clear H
    | |- context [if ?b then _ else _] => destruct b
    | r : option _ |- _ => destruct r; simpl in *
    | H : exists _, _ |- _ => destruct H as (? & -> & ?)
    | H : _ = [] /\ oq_holds _ _ |- _ => destruct H as [-> ?]
    | H : dq ?h = _ |- context [dq ?h] => rewrite H; clear H
    | H : ch_items (ch ?h) = _ |- context [ch_items (ch ?h)] => rewrite H; clear H
    | H : ch_items (ch ?h) = _, H' : context [ch_items (ch ?h)] |- _ => rewrite H in H'; clear H
    | H : ch ?h = _ |- context [ch ?h] => rewrite H; clear H
    | H : ch ?h = _, H' : context [ch ?h] |- _ => rewrite H in H'; clear H
    end; eexists; (split; [eassumption|]); simpl in *; (rewrite Hp || rewrite (Permutation_app_tail _ Hp)); solve_Permutation.
Qed.

(** C6. Under every interleaving of any number of Push calls, the pump and the
    consumers, no accepted event is lost and none is duplicated: as multisets,
    accepted = delivered + in the channel + in the pump's hands + on disk, until
    Close is called; after that, what is missing is exactly what the pump dropped. *)
Theorem hybrid_conserves_events (h : HybridBuffer Q) (s : sys Q) :
  buffered h [] -> rtc step (init h) s -> conserved s.
Proof.
  intros Hb Hsteps.
  assert (conserved (init h) /\ quit_seen (init h)) as Hinit.
  { destruct Hb as (_ & _ & _ & disk & Hd & Heq). symmetry in Heq.
    apply app_eq_nil in Heq as [Hi ->]. split; [|done]. split; [|done].
    exists []. simpl. by rewrite Hi. }
  cut (conserved s /\ quit_seen s); [by intros []|].
  revert Hinit. induction Hsteps as [s|s s1 s2 Hstep _ IH]; [done|]. intros [[Hp Hl] Hs]. apply IH.
  destruct (step_quit _ _ Hstep (conj Hs Hl)) as [Hs' Hl'].
  split; [|done]. split; [|done]. exact (step_permutation _ _ Hstep Hp).
Qed.
End conservation.

(** ** Concrete runs *)
#[local] Existing Instance FrameCodec.codec.
#[local] Existing Instance FrameCodec.codec_laws.

Definition event_c : IngestRequest := mk_event "c" "src" "3" 9 "t".

(** A fresh buffer with room for one event in memory. *)
Definition small_buffer : HybridBuffer (DiskQueue.diskQueue * os) :=
  match NewHybridBuffer "d" 1 (mk_os ∅ []) with
  | (Ret h, w) => with_os h w
  | (_, w) => mk (mk_chan 0 [] true) (DiskQueue.mk (nil_handle (DiskQueue.dataPath "d")) 0 0 0 "d", w) true
  end.

(** The log line of drainOverflow says that the event which finds the channel full
    remains on disk for the next restart. It does not: with room for one event, three
    accepted, and Close, the first is in the closed channel, the third is what the next
    process finds on disk, and the second is nowhere. *)
Theorem drain_loses_the_event_it_reports_kept :
  let '(r, h) := (Push event_a ;; Push event_b ;; Push event_c ;; Close) small_buffer in
  let '(_, w) := dq h in
  match DiskQueue.newDiskQueue "d" (restarted w) with
  | (Ret q, w') =>
      r = Ret tt /\ ch_items (ch h) = [event_a] /\ ch_closed (ch h) = true /\
      DiskQueue.Len q = 1%Z /\ fst (FileFifo.dequeue_n 5 (q, w')) = Ret [event_c]
  | _ => False
  end.
Proof. vm_compute. repeat split. Qed.

Lemma small_buffer_empty : buffered small_buffer [].
Proof.
  split; [reflexivity|]. split; [reflexivity|]. split; [vm_compute; lia|].
  exists []. split; [|reflexivity]. split; [reflexivity|].
  exists [], []. split; [|split; [constructor|split; reflexivity]].
  split; try reflexivity; try (split; reflexivity). constructor.
Qed.

Definition example_run : list op :=
  [HPush event_a; HPush event_b; HPush event_c; HRecv; HPump; HRecv; HRecv; HPump; HRecv].

(** [roomy], decided. *)
Definition room_b (q : DiskQueue.diskQueue * os) (e : IngestRequest) : bool :=
  match proto_Marshal e with
  | inl _ => true
  | inr d => bool_decide (fits d) &&
             bool_decide (DiskQueue.writeOffset (fst q) + zlen (DiskQueue.frame d) < 2 ^ 63)%Z
  end.

Lemma room_b_spec q e : room_b q e = true -> oq_room q e.
Proof.
  unfold room_b. intros H d Hd. rewrite Hd in H. apply andb_true_iff in H as [H1 H2].
  split; [exact (bool_decide_eq_true_1 _ H1)|exact (bool_decide_eq_true_1 _ H2)].
Qed.

Fixpoint roomy_b (ops : list op) (t : trace) (h : HybridBuffer (DiskQueue.diskQueue * os)) : bool :=
  match ops with
  | [] => true
  | o :: ops =>
      (match o with HPush e => room_b (dq h) e | _ => true end) &&
      match do_op o t h with
      | (Ret t', h') => roomy_b ops t' h'
      | _ => true
      end
  end.

Lemma roomy_b_spec ops t h : roomy_b ops t h = true -> roomy ops t h.
Proof.
  revert t h. induction ops as [|o ops IH]; intros t h; cbn [roomy roomy_b]; [done|].
  intros [H1 H2]%andb_true_iff. split; [by destruct o; [apply room_b_spec|..]|].
  destruct (do_op o t h) as [[] h']; auto.
Qed.

Lemma hybrid_fifo_witness :
  exists t h' l, do_ops example_run (mk_trace [] []) small_buffer = (Ret t, h') /\
    buffered h' l /\ accepted t = delivered t ++ l /\ Len h' = Z.of_nat (length l).
Proof.
  apply (hybrid_fifo small_buffer example_run small_buffer_empty).
  apply roomy_b_spec. vm_compute. reflexivity.
Defined.

(** Three events on disk, room for one in the channel. *)
Definition backlog : HybridBuffer (DiskQueue.diskQueue * os) :=
  mk (mk_chan 1 [] false)
     (queue_at "d" [payload_of event_a; payload_of event_b; payload_of event_c] []) false.

Lemma drainOverflow_drops_one_witness :
  exists h', drainOverflow backlog = (Ret tt, h') /\
    ch_items (ch h') = [event_a] /\ oq_holds (dq h') [event_c] /\
    [event_a; event_b; event_c] = ch_items (ch h') ++ event_b :: [event_c].
Proof.
  destruct (drainOverflow_drops_one backlog [] [event_a; event_b; event_c])
    as (h' & H1 & H2 & H3 & _ & H5).
  - reflexivity.
  - reflexivity.
  - split; [reflexivity|]. apply queue_at_holds; [repeat constructor|reflexivity|repeat constructor].
  - exists h'. split; [exact H1|]. split; [exact H2|]. split; [exact H3|].
    exact (H5 event_b eq_refl).
Defined.

(** Two Push calls under way at once, the first of which has been let through. *)
Lemma hybrid_conserves_events_witness :
  exists s, rtc step (init small_buffer) s /\ pushers s <> [] /\ conserved s.
Proof.
  set (s1 := set_pushers [PCheck event_a] (init small_buffer)).
  set (s2 := set_pushers [PCheck event_a; PCheck event_b] s1).
  assert (rtc step (init small_buffer) s2) as Hs.
  { apply (rtc_l _ _ s1); [apply (s_call (init small_buffer))|].
    apply (rtc_l _ _ s2); [apply (s_call s1)|]. apply rtc_refl. }
  exists s2. split; [exact Hs|]. split; [discriminate|].
  exact (hybrid_conserves_events small_buffer s2 small_buffer_empty Hs).
Defined.
