(* ===== verification/Redis.v ===== *)
(** internal/buffer/redis.go: the buffer in a Redis list, and its poller.

    The client is a parameter: one member for each command the program sends, on the state
    [X] of the outside. [redis.Nil] of BRPOP is [None]. A call with a cancelled context
    fails with the context's error and sends nothing. *)
From stdpp Require Import base list strings gmap.
From Stdlib Require Import ZArith Lia.
From S2P Require Import Prelude Errors Go Bytes Config Proto Buffer.

Class RedisClient (X : Type) := {
  redis_Ping : M X unit;
  redis_LPush : string -> string -> M X unit;
  redis_BRPop : string -> M X (option string);
  redis_LLen : string -> M X Z;
  redis_Close : M X unit
}.

(** encoding/json on an event. *)
Class EventJson := {
  json_Marshal_event : IngestRequest -> error + string;
  json_Unmarshal_event : string -> error + IngestRequest
}.

Module RedisBuffer.
Section RedisBuffer.
Context {X : Type} `{RC : RedisClient X} `{J : EventJson}.

Record RedisBuffer := mk { client : X; key : string; ch : chan; cancelled : bool }.

Definition on_client {A} (m : M X A) : M RedisBuffer A := fun b =>
  let '(r, x) := m (client b) in (r, mk x (key b) (ch b) (cancelled b)).
Definition on_ch {A} (m : M chan A) : M RedisBuffer A := fun b =>
  let '(r, c) := m (ch b) in (r, mk (client b) (key b) c (cancelled b)).
Definition cancel : M RedisBuffer unit := modify (fun b => mk (client b) (key b) (ch b) true).

(** A command with the buffer's context. *)
Definition with_ctx {A} (m : M X A) : M RedisBuffer A :=
  b <- gets id ;;
  if cancelled b then fail context_Canceled else on_client m.

(** The buffer owns the client from here on. *)
Definition NewRedisBuffer (cfg : RedisBufferConfig) (chanSize : Z) : M X RedisBuffer :=
  wrapping "redis ping failed: " redis_Ping ;;
  let key := if decide (redis_Key cfg = ""%string) then "ingestor:buffer"%string else redis_Key cfg in
  c <- make_chan chanSize ;;
  gets (fun x => mk x key c false).

Definition Push (event : IngestRequest) : M RedisBuffer unit :=
  match json_Marshal_event event with
  | inl err => fail (ErrWrap "failed to marshal event: " err)
  | inr data => b <- gets id ;; with_ctx (redis_LPush (key b) data)
  end.

Definition Recv (b : RedisBuffer) : received * RedisBuffer :=
  let '(r, c) := chan_recv (ch b) in (r, mk (client b) (key b) c (cancelled b)).

Definition Len : M RedisBuffer Z :=
  b <- gets id ;;
  n <- try (with_ctx (redis_LLen (key b))) ;;
  match n with inl _ => ret 0%Z | inr n => ret n end.

(** One trip of poll from the top of its loop to the select that sends: the event to send, or
    [None] for [continue], on a timeout, an error, or a text that does not decode. *)
Definition poll_pop : M RedisBuffer (option IngestRequest) :=
  b <- gets id ;;
  r <- try (with_ctx (redis_BRPop (key b))) ;;
  match r with
  | inl _ => ret None
  | inr None => ret None
  | inr (Some text) =>
      match json_Unmarshal_event text with
      | inl _ => ret None
      | inr event => ret (Some event)
      end
  end.

(** The end of Close, after the poller has returned. *)
Definition close_after_poll : M RedisBuffer unit :=
  on_ch chan_close ;; on_client redis_Close.

(** [Close] with the poller between two events: it sees the cancellation and returns. *)
Definition Close : M RedisBuffer unit := cancel ;; close_after_poll.

#[global] Instance buffer : Buffer RedisBuffer := {|
  buf_Push := Push;
  buf_Recv := Recv;
  buf_Close := Close;
  buf_Len b := match fst (Len b) with Ret n => n | _ => 0%Z end
|}.

End RedisBuffer.
Arguments RedisBuffer : clear implicits.
End RedisBuffer.

(** ** Interleavings of clients, the poller, workers and Close *)
Module RedisSteps.
Section steps.
Context {X : Type} `{RC : RedisClient X} `{J : EventJson}.

(** The poller: at the top of its loop; in the select with an event; gone. *)
Inductive poll_pc := Polling | Holding (e : IngestRequest) | Exited.

Record sys := mk_sys {
  rb : RedisBuffer.RedisBuffer X;
  poller : poll_pc;
  accepted : list IngestRequest;
  delivered : list IngestRequest;
  lost : list IngestRequest
}.

Definition set_rb (b : RedisBuffer.RedisBuffer X) (s : sys) : sys :=
  mk_sys b (poller s) (accepted s) (delivered s) (lost s).
Definition set_poller (p : poll_pc) (s : sys) : sys :=
  mk_sys (rb s) p (accepted s) (delivered s) (lost s).

(** [events e]: encoding/json gives [e] back. *)
Definition json_ok (e : IngestRequest) : Prop :=
  exists text, json_Marshal_event e = inr text /\ json_Unmarshal_event text = inr e.

Inductive step : sys -> sys -> Prop :=
  | r_push s e b : json_ok e -> RedisBuffer.Push e (rb s) = (Ret tt, b) ->
      step s (mk_sys b (poller s) (accepted s ++ [e]) (delivered s) (lost s))
  | r_push_fails s e b err : json_ok e -> RedisBuffer.Push e (rb s) = (Fail err, b) ->
      step s (set_rb b s)
  | r_pop s b r : poller s = Polling -> RedisBuffer.cancelled (rb s) = false ->
      RedisBuffer.poll_pop (rb s) = (Ret r, b) ->
      step s (set_poller (match r with Some e => Holding e | None => Polling end) (set_rb b s))
  | r_done s : poller s = Polling -> RedisBuffer.cancelled (rb s) = true -> step s (set_poller Exited s)
  | r_send s e b : poller s = Holding e ->
      RedisBuffer.on_ch (chan_try_send e) (rb s) = (Ret true, b) ->
      step s (set_poller Polling (set_rb b s))
  | r_send_done s e : poller s = Holding e -> RedisBuffer.cancelled (rb s) = true ->
      step s (mk_sys (rb s) Exited (accepted s) (delivered s) (lost s ++ [e]))
  | r_recv s e b : RedisBuffer.Recv (rb s) = (Got e, b) ->
      step s (mk_sys b (poller s) (accepted s) (delivered s ++ [e]) (lost s))
  | r_cancel s b : RedisBuffer.cancel (rb s) = (Ret tt, b) -> step s (set_rb b s)
  | r_close s b r : poller s = Exited -> RedisBuffer.close_after_poll (rb s) = (r, b) ->
      step s (set_rb b s).

Definition init (b : RedisBuffer.RedisBuffer X) : sys := mk_sys b Polling [] [] [].

End steps.
Arguments sys : clear implicits.
End RedisSteps.
