(* ===== verification/RedisTheorems.v ===== *)
(** The Redis buffer: order, conservation, and the event a shutdown can lose. *)
From stdpp Require Import base list strings gmap.
From Stdlib Require Import ZArith Lia.
From S2P Require Import Prelude Errors Go Bytes Config Proto Buffer Redis.

Import RedisSteps.

(** What Redis promises of the commands on a list that no one else uses: LPUSH adds at one end
    and BRPOP takes from the other; a command that fails does nothing.
    [redis_list x k l]: the list at [k] is [l], oldest first. *)
Class RedisLaws (X : Type) `{RedisClient X} := {
  redis_list : X -> string -> list string -> Prop;
  lpush_law : forall x k l v, redis_list x k l ->
    (exists err, redis_LPush k v x = (Fail err, x)) \/
    (exists x', redis_LPush k v x = (Ret tt, x') /\ redis_list x' k (l ++ [v]));
  brpop_law : forall x k l, redis_list x k l ->
    (exists err, redis_BRPop k x = (Fail err, x)) \/
    match l with
    | [] => redis_BRPop k x = (Ret None, x)
    | v :: l => exists x', redis_BRPop k x = (Ret (Some v), x') /\ redis_list x' k l
    end;
  ping_law : forall x k l, redis_list x k l -> redis_list (snd (redis_Ping x)) k l;
  close_law : forall x k l, redis_list x k l -> redis_list (snd (redis_Close x)) k l
}.

Section order.
Context {X : Type} `{RC : RedisClient X} `{RL : !RedisLaws X} `{J : EventJson}.

Definition in_hand (p : poll_pc) : list IngestRequest :=
  match p with Holding e => [e] | _ => [] end.

(** The texts in Redis are those of the events [l], and each decodes to its event. *)
Definition holds_events (b : RedisBuffer.RedisBuffer X) (l : list IngestRequest) : Prop :=
  exists texts, redis_list (RedisBuffer.client b) (RedisBuffer.key b) texts /\
    Forall2 (fun e text => json_Unmarshal_event text = inr e) l texts.

(** Every accepted event is in one place, and the places are in the order of acceptance. *)
Definition in_order (s : sys X) : Prop :=
  exists l, holds_events (rb s) l /\
    accepted s = delivered s ++ ch_items (RedisBuffer.ch (rb s)) ++ in_hand (poller s) ++ lost s ++ l /\
    (RedisBuffer.cancelled (rb s) = false -> lost s = []) /\
    (lost s <> [] -> poller s = Exited) /\ length (lost s) <= 1.

Lemma Push_run b l e : holds_events b l -> json_ok e ->
  (exists err, RedisBuffer.Push e b = (Fail err, b)) \/
  (exists b', RedisBuffer.Push e b = (Ret tt, b') /\ holds_events b' (l ++ [e]) /\
     RedisBuffer.ch b' = RedisBuffer.ch b /\ RedisBuffer.cancelled b' = RedisBuffer.cancelled b).
Proof.
  intros (texts & Hl & Hf) (text & Hm & Hu). destruct b as [x k c [|]].
  { left. exists context_Canceled. unfold RedisBuffer.Push. rewrite Hm. reflexivity. }
  assert (RedisBuffer.Push e (RedisBuffer.mk x k c false) =
          RedisBuffer.on_client (redis_LPush k text) (RedisBuffer.mk x k c false)) as ->.
  { unfold RedisBuffer.Push. rewrite Hm. reflexivity. }
  unfold RedisBuffer.on_client. cbn [RedisBuffer.client RedisBuffer.key RedisBuffer.ch RedisBuffer.cancelled] in *.
  destruct (lpush_law x k texts text Hl) as [[err ->]|(x' & -> & Hl')]; [left; by eexists|right].
  eexists. split; [reflexivity|]. split_and!; [|done|done]. exists (texts ++ [text]). split; [done|].
  apply Forall2_app; [done|]. by repeat constructor.
Qed.

Lemma poll_pop_run b l : holds_events b l -> RedisBuffer.cancelled b = false ->
  exists r b', RedisBuffer.poll_pop b = (Ret r, b') /\ holds_events b' (match r with Some _ => tail l | None => l end) /\
    RedisBuffer.ch b' = RedisBuffer.ch b /\ RedisBuffer.cancelled b' = RedisBuffer.cancelled b /\
    (forall e, r = Some e -> exists l', l = e :: l').
Proof.
  intros (texts & Hl & Hf) Hc. destruct b as [x k c cl]. cbn [RedisBuffer.cancelled] in Hc. subst cl.
  unfold RedisBuffer.poll_pop, RedisBuffer.with_ctx, RedisBuffer.on_client, try, bind, gets, id, ret.
  cbn [RedisBuffer.client RedisBuffer.key RedisBuffer.ch RedisBuffer.cancelled] in *.
  assert (forall r, r = None -> exists r0 b', (Ret r, RedisBuffer.mk x k c false) = (Ret r0, b') /\
    holds_events b' (match r0 : option IngestRequest with Some _ => tail l | None => l end) /\
    RedisBuffer.ch b' = c /\ RedisBuffer.cancelled b' = false /\
    (forall e, r0 = Some e -> exists l', l = e :: l')) as Hnone.
  { intros r ->. eexists None, _. split; [done|]. split_and!; [by exists texts|done|done|done]. }
  destruct (brpop_law x k texts Hl) as [[err ->]|Hpop]; [by apply Hnone|].
  destruct texts as [|t texts]; [rewrite Hpop; by apply Hnone|].
  destruct Hpop as (x' & -> & Hl'). destruct l as [|e l]; [by apply Forall2_nil_cons_inv in Hf|].
  apply Forall2_cons in Hf as [Hu Hf]. rewrite Hu.
  eexists (Some e), _. split; [done|]. split_and!; [by exists texts|done|done|].
  intros e' [= <-]. by exists l.
Qed.

(** The invariant in terms of the parts. *)
Lemma in_order_intro b p acc del lo l :
  holds_events b l -> acc = del ++ ch_items (RedisBuffer.ch b) ++ in_hand p ++ lo ++ l ->
  (RedisBuffer.cancelled b = false -> lo = []) -> (lo <> [] -> p = Exited) -> length lo <= 1 ->
  in_order (mk_sys b p acc del lo).
Proof. intros. exists l. by split_and!. Qed.

Lemma close_run b l r b' : holds_events b l -> RedisBuffer.close_after_poll b = (r, b') ->
  holds_events b' l /\ ch_items (RedisBuffer.ch b') = ch_items (RedisBuffer.ch b) /\
  RedisBuffer.cancelled b' = RedisBuffer.cancelled b.
Proof.
  intros (texts & Ht & Hf). destruct b as [x k [cap items cld] ca].
  unfold RedisBuffer.close_after_poll, RedisBuffer.on_ch, RedisBuffer.on_client, bind, chan_close.
  cbn [RedisBuffer.ch ch_closed ch_cap ch_items RedisBuffer.client RedisBuffer.key RedisBuffer.cancelled] in *.
  pose proof (close_law x k texts Ht) as Hcl. destruct cld.
  - intros H. cbn in H. injection H as _ <-. split_and!; [by exists texts|done|done].
  - intros H. cbn in H. destruct (redis_Close x) as [r0 x0]. injection H as _ <-.
    split_and!; [by exists texts|done|done].
Qed.

Lemma step_keeps_order s s' : step s s' -> in_order s -> in_order s'.
Proof.
  intros Hstep (l & Hh & Ha & Hl & Hx & Hn).
  destruct Hstep as [s e b Hok Hrun|s e b err Hok Hrun|s b r Hp Hc Hrun|
    s Hp Hc|s e b Hp Hrun|s e Hp Hc|s e b Hrun|s b Hrun|s b r Hp Hrun];
    destruct s as [b0 p0 acc del lo]; unfold set_rb, set_poller;
    cbn [rb poller accepted delivered lost] in *; try subst p0; try subst acc; cbn [in_hand app] in *.
  - destruct (Push_run _ l e Hh Hok) as [[err H]|(b' & H & Hh' & Hch & Hca)]; rewrite Hrun in H; [done|].
    injection H as <-. apply (in_order_intro _ _ _ _ _ (l ++ [e])); rewrite ?Hch, ?Hca; try done.
    by rewrite <- !(assoc_L (++)).
  - destruct (Push_run _ l e Hh Hok) as [[err' H]|(b' & H & _)]; rewrite Hrun in H; [|done].
    injection H as _ <-. by apply (in_order_intro _ _ _ _ _ l).
  - destruct (poll_pop_run _ l Hh Hc) as (r' & b' & H & Hh' & Hch & Hca & Hr). rewrite Hrun in H.
    injection H as <- <-. specialize (Hl Hc). subst lo. cbn [app].
    apply (in_order_intro _ _ _ _ _ (match r with Some _ => tail l | None => l end));
      rewrite ?Hch, ?Hca; try done.
    destruct r as [e|]; [|done]. by destruct (Hr e eq_refl) as [l' ->].
  - apply (in_order_intro _ _ _ _ _ l); done.
  - destruct lo as [|e0 lo]; [|by discriminate Hx].
    unfold RedisBuffer.on_ch, chan_try_send in Hrun. destruct b0 as [x k [cap items cld] ca].
    cbn [RedisBuffer.ch ch_closed ch_cap ch_items] in *.
    destruct cld; [done|]. destruct (chan_full _); [done|]. injection Hrun as <-.
    apply (in_order_intro _ _ _ _ _ l); try done. cbn. by rewrite <- !(assoc_L (++)).
  - destruct lo as [|e0 lo]; [|by discriminate Hx].
    apply (in_order_intro _ _ _ _ _ l); try done. congruence.
  - unfold RedisBuffer.Recv, chan_recv in Hrun. destruct b0 as [x k [cap items cld] ca].
    cbn [RedisBuffer.ch ch_closed ch_cap ch_items] in *.
    destruct items as [|e' items]; [by destruct cld|]. injection Hrun as <- <-.
    apply (in_order_intro _ _ _ _ _ l); try done. cbn. by rewrite <- !(assoc_L (++)).
  - injection Hrun as <-. by apply (in_order_intro _ _ _ _ _ l).
  - destruct (close_run _ l _ _ Hh Hrun) as (Hh' & Hch & Hca).
    apply (in_order_intro _ _ _ _ _ l); rewrite ?Hch, ?Hca; done.
Qed.

End order.

(** ** A concrete server: one list, at whatever key *)
Module ListServer.

Notation server := (list string).

#[global] Instance client : RedisClient server := {|
  redis_Ping := ret tt;
  redis_LPush _ v := modify (fun x => x ++ [v]);
  redis_BRPop _ := fun x => match x with [] => (Ret None, x) | v :: l => (Ret (Some v), l) end;
  redis_LLen _ := gets (fun x => Z.of_nat (length x));
  redis_Close := ret tt
|}.

#[global] Instance laws : RedisLaws server.
Proof.
  refine {| redis_list x _ l := x = l |}.
  - intros x k l v <-. right. by exists (x ++ [v]).
  - intros x k l <-. right. destruct x as [|v l]; [done|]. by exists l.
  - by intros x k l <-.
  - by intros x k l <-.
Defined.

(** An encoding for events that have an id only. *)
#[global] Instance id_json : EventJson := {|
  json_Marshal_event e := inr (EventId e);
  json_Unmarshal_event t := inr (mk_event t "" "" 0 "")
|}.
End ListServer.

Definition redis_demo : RedisBuffer.RedisBuffer ListServer.server :=
  RedisBuffer.mk [] "ingestor:buffer" (mk_chan 2 [] false) false.

Definition only_id (id : string) : IngestRequest := mk_event id "" "" 0 "".

(** The poller takes "a" out of Redis, Close cancels it before it sends: "a" is lost. *)
Definition redis_lost : sys ListServer.server :=
  mk_sys (RedisBuffer.mk [] "ingestor:buffer" (mk_chan 2 [] false) true)
    Exited [only_id "a"] [] [only_id "a"].

