(* ===== verification/AnyBuffer.v ===== *)
(** internal/buffer/buffer.go: the choice of a buffer.

    A [Buffer] interface value that [New] made is one of three kinds; a call through the
    interface is a call on the kind it holds. A hybrid buffer comes with the file system
    its queue works on: nothing else in the program touches the queue's two files. *)
From Stdlib Require Import ZArith Lia Ascii String.
From stdpp Require Import base list strings gmap.
From S2P Require Import Prelude Errors Go Bytes Os Proto Config DiskQueue Buffer Redis.

Section AnyBuffer.
Context {X : Type} `{RC : RedisClient X} `{J : EventJson} `{C : Codec}.

Inductive AnyBuffer :=
  | ChannelB (b : ChannelBuffer.ChannelBuffer)
  | HybridB (h : HybridBuffer.HybridBuffer (DiskQueue.diskQueue * os))
  | RedisB (b : RedisBuffer.RedisBuffer X).

(** A method call on the kind that the interface holds. *)
Definition dispatch {A} (channel : M ChannelBuffer.ChannelBuffer A)
    (hybrid : M (HybridBuffer.HybridBuffer (DiskQueue.diskQueue * os)) A)
    (redis : M (RedisBuffer.RedisBuffer X) A) : M AnyBuffer A := fun b =>
  match b with
  | ChannelB b => let '(r, b) := channel b in (r, ChannelB b)
  | HybridB h => let '(r, h) := hybrid h in (r, HybridB h)
  | RedisB b => let '(r, b) := redis b in (r, RedisB b)
  end.

#[export] Instance any_buffer : Buffer AnyBuffer := {|
  buf_Push e := dispatch (buf_Push e) (buf_Push e) (buf_Push e);
  buf_Recv b :=
    match b with
    | ChannelB b => let '(r, b) := buf_Recv b in (r, ChannelB b)
    | HybridB h => let '(r, h) := buf_Recv h in (r, HybridB h)
    | RedisB b => let '(r, b) := buf_Recv b in (r, RedisB b)
    end;
  buf_Close := dispatch buf_Close buf_Close buf_Close;
  buf_Len b :=
    match b with
    | ChannelB b => buf_Len b
    | HybridB h => buf_Len h
    | RedisB b => buf_Len b
    end
|}.

(** [New(cfg, size)] *)
Definition New (cfg : BufferConfig) (size : Z) : M (os * X) AnyBuffer :=
  let type := buffer_Type cfg in
  if decide (type = ""%string \/ type = ChannelBufferType) then
    b <- ChannelBuffer.NewChannelBuffer size ;; ret (ChannelB b)
  else if decide (type = RedisBufferType) then
    b <- on_snd (RedisBuffer.NewRedisBuffer (buffer_Redis cfg) size) ;; ret (RedisB b)
  else if decide (type = HybridBufferType) then
    h <- on_fst (HybridBuffer.NewHybridBuffer (hybrid_Dir (buffer_Hybrid cfg)) size) ;;
    w <- gets fst ;;
    ret (HybridB (HybridBuffer.with_os h w))
  else fail (ErrNew ("unknown buffer type: " +:+ type)).

(** The kind that a configuration asks for. *)
Definition kind_matches (cfg : BufferConfig) (b : AnyBuffer) : Prop :=
  match b with
  | ChannelB _ => buffer_Type cfg = ""%string \/ buffer_Type cfg = ChannelBufferType
  | HybridB _ => buffer_Type cfg = HybridBufferType
  | RedisB _ => buffer_Type cfg = RedisBufferType
  end.

End AnyBuffer.
Arguments AnyBuffer : clear implicits.
