(* ===== verification/Tenant.v ===== *)
(** internal/tenant: the token bucket and the registry of tenants.

    Both are written over [Float64], the arithmetic of the bucket's float64 fields.
    [now] is what [b.now()] returns, in nanoseconds; a bucket's mutex makes [allow]
    one step. A nil pointer is [None]: the methods of a nil bucket and of a nil registry
    are called by the program. *)
From stdpp Require Import base list strings gmap.
From Stdlib Require Import ZArith Lia.
From S2P Require Import Prelude Errors Go Float Config.

Section tenant.
Context {F : Type} `{Float64 F}.

(** ** limiter.go *)
Record tokenBucket := mk_bucket { rate : F; burst : F; tokens : F; last : Z }.

(** [now.Sub(last)] saturates at the range of int64. *)
Definition time_Sub (t u : Z) : Z := (Z.max (- 2 ^ 63) (Z.min (2 ^ 63 - 1) (t - u)))%Z.

Definition newTokenBucket (now : Z) (ratePerSec : F) : tokenBucket :=
  let b := if f_ltb ratePerSec (f_of_int 1) then f_of_int 1 else ratePerSec in
  mk_bucket ratePerSec b b now.

(** The refill: nothing happens when the clock has not advanced. *)
Definition refill (now : Z) (b : tokenBucket) : tokenBucket :=
  let elapsed := Seconds (time_Sub now (last b)) in
  if f_ltb (f_of_int 0) elapsed then
    let t := f_add (tokens b) (f_mul elapsed (rate b)) in
    mk_bucket (rate b) (burst b) (if f_ltb (burst b) t then burst b else t) now
  else b.

Definition allow_bucket (now : Z) (b : tokenBucket) : bool * tokenBucket :=
  let b := refill now b in
  if f_leb (f_of_int 1) (tokens b)
  then (true, mk_bucket (rate b) (burst b) (f_sub (tokens b) (f_of_int 1)) (last b))
  else (false, b).

(** [b.allow()] on a pointer. *)
Definition allow (now : Z) (b : option tokenBucket) : bool * option tokenBucket :=
  match b with
  | None => (true, None)
  | Some b => let '(r, b) := allow_bucket now b in (r, Some b)
  end.

(** ** registry.go *)
Definition OtherLabel : string := "_other".
Definition SingleLabel : string := "_single".

Record Registry := mk_registry {
  enabled : bool;
  known : gset string;
  limiters : gmap string tokenBucket;
  defaultLim : option tokenBucket;
  topics : gmap string string
}.

(** The body of the loop over the configured tenants. *)
Definition add_tenant (now : Z) (cfg : TenancyConfig) (r : Registry) (t : TenantConfig) : Registry :=
  if is_empty (tenant_ID t) then r
  else
    let rt := if decide (tenant_RateLimit t = 0)%Z then tenancy_DefaultRateLimit cfg
              else tenant_RateLimit t in
    mk_registry (enabled r)
      ({[tenant_ID t]} ∪ known r)
      (if decide (0 < rt)%Z then <[tenant_ID t := newTokenBucket now (f_of_int rt)]> (limiters r)
       else limiters r)
      (defaultLim r)
      (if is_empty (tenant_KafkaTopic t) then topics r
       else <[tenant_ID t := tenant_KafkaTopic t]> (topics r)).

Definition NewRegistry (now : Z) (cfg : TenancyConfig) : Registry :=
  let d := if decide (0 < tenancy_DefaultRateLimit cfg)%Z
           then Some (newTokenBucket now (f_of_int (tenancy_DefaultRateLimit cfg))) else None in
  foldl (add_tenant now cfg) (mk_registry (tenancy_Enabled cfg) ∅ ∅ d ∅) (tenancy_Tenants cfg).

Definition Enabled (r : option Registry) : bool :=
  match r with None => false | Some r => enabled r end.

Definition set_limiter (id : string) (b : option tokenBucket) (r : Registry) : Registry :=
  mk_registry (enabled r) (known r) (partial_alter (fun _ => b) id (limiters r)) (defaultLim r) (topics r).
Definition set_default (b : option tokenBucket) (r : Registry) : Registry :=
  mk_registry (enabled r) (known r) (limiters r) b (topics r).

Definition Allow (now : Z) (tenantID : string) (r : option Registry) : bool * option Registry :=
  match r with
  | Some reg =>
      if negb (enabled reg) then (true, r)
      else if decide (tenantID ∈ known reg) then
        let '(ok, b) := allow now (limiters reg !! tenantID) in (ok, Some (set_limiter tenantID b reg))
      else
        let '(ok, b) := allow now (defaultLim reg) in (ok, Some (set_default b reg))
  | None => (true, r)
  end.

Definition MetricLabel (r : option Registry) (tenantID : string) : string :=
  match r with
  | Some reg => if negb (enabled reg) then SingleLabel
                else if decide (tenantID ∈ known reg) then tenantID else OtherLabel
  | None => SingleLabel
  end.

Definition KafkaTopic (r : option Registry) (tenantID defaultTopic : string) : string :=
  match r with
  | Some reg =>
      if negb (enabled reg) then defaultTopic
      else match topics reg !! tenantID with
           | Some t => if is_empty t then defaultTopic else t
           | None => defaultTopic
           end
  | None => defaultTopic
  end.
End tenant.

Arguments tokenBucket : clear implicits.
Arguments Registry : clear implicits.
