(* ===== verification/TenantTheorems.v ===== *)
(** Rate limiting and tenant isolation.

    The bounds are proved for the bucket over exact rational arithmetic, [exact]; the
    bucket of the program is the same function over [binary64], and is evaluated
    here on the scenarios of its unit tests. What depends on the registry only
    holds over any arithmetic. *)
From stdpp Require Import base list strings gmap sets.
From Stdlib Require Import ZArith Lia QArith Lqa SpecFloat.
From S2P Require Import Prelude Errors Go Float Config Tenant.

Local Open Scope Z_scope.

Definition exact : Float64 Q := {|
  f_of_int := inject_Z;
  f_add := Qplus;
  f_sub := Qminus;
  f_mul := Qmult;
  f_div := Qdiv;
  f_ltb a b := negb (Qle_bool b a);
  f_leb := Qle_bool
|}.

(** The answers of a bucket to calls at the given times. *)
Fixpoint allow_all {F} `{Float64 F} (times : list Z) (b : tokenBucket F) : list bool * tokenBucket F :=
  match times with
  | [] => ([], b)
  | t :: times =>
      let '(ok, b) := allow_bucket t b in
      let '(oks, b) := allow_all times b in (ok :: oks, b)
  end.

Definition admitted (oks : list bool) : Z := Z.of_nat (length (filter (fun b : bool => b = true) oks)).

Section exact_bucket.
#[local] Existing Instance exact.
Local Open Scope Q_scope.

Lemma ltb_exact (a b : Q) : f_ltb a b = true <-> a < b.
Proof. simpl. rewrite negb_true_iff, <- not_true_iff_false, Qle_bool_iff. split; [apply Qnot_le_lt|apply Qlt_not_le]. Qed.

Lemma ltb_exact_false (a b : Q) : f_ltb a b = false <-> b <= a.
Proof. simpl. by rewrite negb_false_iff, Qle_bool_iff. Qed.

Lemma leb_exact (a b : Q) : f_leb a b = true <-> a <= b.
Proof. apply Qle_bool_iff. Qed.

Lemma leb_exact_false (a b : Q) : f_leb a b = false <-> b < a.
Proof. rewrite <- not_true_iff_false, leb_exact. split; [apply Qnot_le_lt|apply Qlt_not_le]. Qed.

Lemma Seconds_exact (d : Z) : Seconds d == d # 1000000000.
Proof.
  unfold Seconds, f_add, f_div, f_of_int, exact.
  assert (inject_Z d == inject_Z (Z.quot d 1000000000) * inject_Z 1000000000
          + inject_Z (Z.rem d 1000000000)) as Hd.
  { rewrite <- inject_Z_mult, <- inject_Z_plus. f_equiv.
    rewrite Z.mul_comm. apply Z.quot_rem'. }
  transitivity (inject_Z d / inject_Z 1000000000).
  - rewrite Hd. field.
  - unfold Qdiv, Qmult, Qinv, inject_Z, Qeq. simpl. lia.
Qed.

(** A bucket in good order. *)
Definition bucket_ok (b : tokenBucket Q) : Prop :=
  0 <= tokens b /\ tokens b <= burst b /\ 1 <= burst b /\ 0 < rate b.

Lemma refill_spec now b :
  bucket_ok b ->
  let b' := refill now b in
  bucket_ok b' /\ rate b' = rate b /\ burst b' = burst b /\ tokens b <= tokens b' /\
  (last b <= last b')%Z /\ last b' = Z.max (last b) now /\
  tokens b' <= tokens b + rate b * (last b' - last b # 1000000000).
Proof.
  intros (H0 & Hb & H1 & Hr). unfold refill.
  destruct (f_ltb (f_of_int 0) (Seconds (time_Sub now (last b)))) eqn:He.
  - apply ltb_exact in He. rewrite Seconds_exact in He. simpl in He.
    set (d := time_Sub now (last b)) in *.
    assert (0 < d)%Z as Hd by (unfold Qlt in He; simpl in He; lia).
    assert (d <= now - last b)%Z as Hle by (unfold d, time_Sub in *; lia).
    assert (0 <= Seconds d * rate b) as Hpos.
    { apply Qmult_le_0_compat; [rewrite Seconds_exact; unfold Qle; simpl; lia|lra]. }
    assert (Seconds d * rate b <= rate b * (now - last b # 1000000000)) as Hup.
    { rewrite Qmult_comm. apply Qmult_le_l; [done|]. rewrite Seconds_exact. unfold Qle. simpl. lia. }
    cbv zeta. cbn [rate burst tokens last].
    change (f_add (tokens b) (f_mul (Seconds d) (rate b))) with (tokens b + Seconds d * rate b).
    destruct (f_ltb (burst b) _) eqn:Hc; [apply ltb_exact in Hc|apply ltb_exact_false in Hc].
    + unfold bucket_ok; cbn [rate burst tokens last]; split_and!; try done; try lia; lra.
    + unfold bucket_ok; cbn [rate burst tokens last]; split_and!; try done; try lia; lra.
  - apply ltb_exact_false in He. rewrite Seconds_exact in He. unfold Qle in He. simpl in He.
    assert (now <= last b)%Z as Hle by (unfold time_Sub in *; lia).
    cbv zeta. rewrite Z.max_l by lia. rewrite Z.sub_diag.
    assert (rate b * (0 # 1000000000) == 0) as Hz by (unfold Qeq; simpl; lia).
    split_and!; try done; try lra; try lia.
Qed.

Lemma allow_spec now b :
  bucket_ok b ->
  let '(ok, b') := allow_bucket now b in
  bucket_ok b' /\ rate b' = rate b /\ burst b' = burst b /\ last b' = Z.max (last b) now /\
  tokens b' + (if ok then 1 else 0) <= tokens b + rate b * (last b' - last b # 1000000000) /\
  (ok = true <-> 1 <= tokens (refill now b)).
Proof.
  intros Hok. destruct (refill_spec now b Hok) as (Hb' & Hr & Hbu & Hle & Hll & Hlast & Hup).
  unfold allow_bucket. set (b' := refill now b) in *. destruct Hb' as (K0 & K1 & K2 & K3).
  destruct (f_leb (f_of_int 1) (tokens b')) eqn:H1;
    [apply leb_exact in H1|apply leb_exact_false in H1];
    change (f_of_int 1) with 1 in *; unfold bucket_ok; cbn [rate burst tokens last];
    change (f_sub (tokens b') 1) with (tokens b' - 1).
  - split_and!; try done; lra.
  - split_and!; try done; lra.
Qed.

Lemma newTokenBucket_ok (t0 r : Z) :
  (0 < r)%Z ->
  let b := newTokenBucket t0 (f_of_int r) in
  bucket_ok b /\ rate b = inject_Z r /\ burst b = inject_Z r /\ tokens b = inject_Z r /\ last b = t0.
Proof.
  intros Hr. assert (1 <= inject_Z r) as H1 by (unfold Qle; simpl; lia).
  unfold newTokenBucket. destruct (f_ltb (f_of_int r) (f_of_int 1)) eqn:H.
  - apply ltb_exact in H. simpl in H. unfold Qlt in H. simpl in H. lia.
  - unfold bucket_ok. cbn [rate burst tokens last f_of_int exact]. split_and!; try done; lra.
Qed.

(** The latest time seen. *)
Definition latest (t0 : Z) (times : list Z) : Z := foldl Z.max t0 times.

Lemma allow_all_spec times : forall b,
  bucket_ok b ->
  let '(oks, b') := allow_all times b in
  bucket_ok b' /\ rate b' = rate b /\ last b' = latest (last b) times /\
  tokens b' + inject_Z (admitted oks) <= tokens b + rate b * (last b' - last b # 1000000000).
Proof.
  induction times as [|t times IH]; intros b Hok; cbn [allow_all].
  - split_and!; try done. change (inject_Z (admitted [])) with 0.
    assert (rate b * (last b - last b # 1000000000) == 0) as Hz.
    { rewrite Z.sub_diag. unfold Qeq. simpl. lia. }
    lra.
  - pose proof (allow_spec t b Hok) as Hs. destruct (allow_bucket t b) as [ok b1].
    destruct Hs as (Hok1 & Hr1 & _ & Hl1 & Hup1 & _). specialize (IH b1 Hok1).
    destruct (allow_all times b1) as [oks b2]. destruct IH as (Hok2 & Hr2 & Hl2 & Hup2).
    split_and!; [done|by rewrite Hr2| |].
    + rewrite Hl2, Hl1. reflexivity.
    + rewrite Hr1 in Hup2.
      assert (inject_Z (admitted (ok :: oks)) == (if ok then 1 else 0) + inject_Z (admitted oks)) as ->.
      { unfold admitted. rewrite filter_cons. destruct ok; case_decide; try done; simpl length.
        - rewrite Nat2Z.inj_succ, <- Z.add_1_l, inject_Z_plus. reflexivity.
        - lra. }
      assert (rate b * (last b2 - last b # 1000000000) ==
              rate b * (last b1 - last b # 1000000000) + rate b * (last b2 - last b1 # 1000000000)) as ->.
      { rewrite <- Qmult_plus_distr_r. f_equiv. unfold Qplus, Qeq. simpl. lia. }
      lra.
Qed.

(** One token's worth of time since the last call is enough. *)
Lemma refill_enough now b (r : Z) :
  bucket_ok b -> rate b = inject_Z r -> (1000000000 <= r * (now - last b))%Z ->
  (0 <= now - last b < 2 ^ 63)%Z -> 1 <= tokens (refill now b).
Proof.
  intros (H0 & H1 & H2 & H3) Hr Hgap Hrange.
  assert (time_Sub now (last b) = now - last b)%Z as Hsub by (unfold time_Sub; lia).
  assert (0 < now - last b)%Z as Hpos by (destruct (Z.eq_dec (now - last b) 0) as [E|]; [rewrite E in Hgap|]; lia).
  unfold refill. rewrite Hsub. replace (f_ltb _ _) with true.
  2: { symmetry. apply ltb_exact. rewrite Seconds_exact. unfold Qlt. simpl. lia. }
  cbv zeta. cbn [tokens].
  change (f_add (tokens b) (f_mul (Seconds (now - last b)) (rate b)))
    with (tokens b + Seconds (now - last b) * rate b).
  assert (1 <= Seconds (now - last b) * rate b) as Hone.
  { rewrite Seconds_exact, Hr. unfold Qle, Qmult, inject_Z. simpl. lia. }
  destruct (f_ltb (burst b) _); lra.
Qed.

(** Each call is at least [1/r] seconds after the one before. *)
Fixpoint paced (r prev : Z) (times : list Z) : Prop :=
  match times with
  | [] => True
  | t :: times =>
      (1000000000 <= r * (t - prev) /\ 0 <= t - prev < 2 ^ 63)%Z /\ paced r t times
  end.

Lemma paced_admitted times : forall b (r : Z),
  bucket_ok b -> rate b = inject_Z r -> paced r (last b) times ->
  Forall (fun ok => ok = true) (fst (allow_all times b)).
Proof.
  induction times as [|t times IH]; intros b r Hok Hr Hp; cbn [allow_all]; [constructor|].
  destruct Hp as [[Hgap Hrange] Hp].
  pose proof (refill_enough t b r Hok Hr Hgap Hrange) as Hone.
  pose proof (allow_spec t b Hok) as Hs. destruct (allow_bucket t b) as [ok b1].
  destruct Hs as (Hok1 & Hr1 & _ & Hl1 & _ & Hiff).
  rewrite Z.max_r in Hl1 by lia. rewrite <- Hl1 in Hp.
  specialize (IH b1 r Hok1 ltac:(congruence) Hp).
  destruct (allow_all times b1) as [oks b2]. simpl in *. constructor; [by apply Hiff|done].
Qed.
End exact_bucket.



(** ** The registry *)
Section isolation.
Context {F : Type} `{Float64 F}.

(** The answers to a sequence of calls, each with the clock and the tenant. *)
Fixpoint allow_calls (calls : list (Z * string)) (r : option (Registry F)) :
    list (string * bool) * option (Registry F) :=
  match calls with
  | [] => ([], r)
  | (now, id) :: calls =>
      let '(ok, r) := Allow now id r in
      let '(oks, r) := allow_calls calls r in ((id, ok) :: oks, r)
  end.

(** Two registries a tenant cannot tell apart. *)
Definition same_for (id : string) (r1 r2 : option (Registry F)) : Prop :=
  match r1, r2 with
  | Some r1, Some r2 =>
      enabled r1 = enabled r2 /\ known r1 = known r2 /\ limiters r1 !! id = limiters r2 !! id
  | None, None => True
  | _, _ => False
  end.

Definition knows (r : option (Registry F)) (id : string) : Prop :=
  match r with Some r => id ∈ known r | None => True end.

Lemma Allow_other now id other r1 r2 :
  same_for id r1 r2 -> knows r1 id -> other <> id -> same_for id (snd (Allow now other r1)) r2.
Proof.
  intros Hs Hk Hne. destruct r1 as [r1|], r2 as [r2|]; try done. destruct Hs as (He & Hkn & Hl).
  unfold Allow. destruct (enabled r1) eqn:En; simpl; [|by rewrite En].
  destruct (decide (other ∈ known r1)).
  - destruct (allow now (limiters r1 !! other)) as [ok b]. simpl. split_and!; try congruence.
    by rewrite lookup_partial_alter_ne.
  - destruct (allow now (defaultLim r1)) as [ok b]. simpl. by split_and!; try congruence.
Qed.

Lemma Allow_same now id r1 r2 :
  same_for id r1 r2 -> knows r1 id ->
  fst (Allow now id r1) = fst (Allow now id r2) /\
  same_for id (snd (Allow now id r1)) (snd (Allow now id r2)).
Proof.
  intros Hs Hk. destruct r1 as [r1|], r2 as [r2|]; try done. destruct Hs as (He & Hkn & Hl).
  unfold Allow. rewrite <- He. destruct (enabled r1) eqn:En; simpl; [|by rewrite En].
  simpl in Hk. rewrite decide_True by done. rewrite <- Hkn, decide_True by done. rewrite <- Hl.
  destruct (allow now (limiters r1 !! id)) as [ok b]. simpl. split; [done|].
  split_and!; try congruence. by rewrite !lookup_partial_alter_eq.
Qed.

Lemma Allow_knows now id other r : knows r id -> knows (snd (Allow now other r)) id.
Proof.
  destruct r as [r|]; [|done]. simpl. intros Hk. unfold Allow.
  destruct (enabled r); simpl; [|done].
  destruct (decide _); [destruct (allow now (limiters r !! other))|destruct (allow now (defaultLim r))];
    done.
Qed.

Lemma allow_calls_isolated id calls : forall r1 r2,
  same_for id r1 r2 -> knows r1 id ->
  filter (fun p => p.1 = id) (fst (allow_calls calls r1)) =
  fst (allow_calls (filter (fun c => c.2 = id) calls) r2).
Proof.
  induction calls as [|[now other] calls IH]; intros r1 r2 Hs Hk; [done|].
  cbn [allow_calls]. rewrite filter_cons. cbn [snd]. case_decide as Hid.
  - subst other. destruct (Allow_same now id r1 r2 Hs Hk) as [Hok Hs'].
    pose proof (Allow_knows now id id r1 Hk) as Hk'. cbn [allow_calls].
    destruct (Allow now id r1) as [ok r1'], (Allow now id r2) as [ok2 r2']. simpl in *. subst ok2.
    specialize (IH r1' r2' Hs' Hk').
    destruct (allow_calls calls r1') as [oks r1''], (allow_calls _ r2') as [oks2 r2''].
    simpl in *. rewrite filter_cons. simpl. rewrite decide_True by done. by rewrite IH.
  - pose proof (Allow_other now id other r1 r2 Hs Hk Hid) as Hs'.
    pose proof (Allow_knows now id other r1 Hk) as Hk'.
    destruct (Allow now other r1) as [ok r1']. simpl in *. specialize (IH r1' r2 Hs' Hk').
    destruct (allow_calls calls r1') as [oks r1'']. simpl in *. rewrite filter_cons. simpl.
    by rewrite decide_False.
Qed.
End isolation.

(** C31. Tenants do not share quotas: whatever other tenants send, and when, the answers
    a configured tenant gets are those it would get if it were alone. *)
Theorem tenants_are_isolated {F} `{Float64 F} (id : string) (calls : list (Z * string))
    (r : option (Registry F)) :
  knows r id ->
  filter (fun p => p.1 = id) (fst (allow_calls calls r)) =
  fst (allow_calls (filter (fun c => c.2 = id) calls) r).
Proof. intros Hk. apply allow_calls_isolated; [|done]. by destruct r. Qed.

(** ** Concrete runs *)

(** Six calls at once on a bucket of five, and one a second later. *)
Definition burst_times : list Z := [0; 0; 0; 0; 0; 0; 1000000000].



Definition two_tenants : TenancyConfig :=
  mk_tenancy true 1 [mk_tenant "acme" 2 "events.acme"; mk_tenant "globex" 0 ""].

Lemma tenants_are_isolated_witness :
  let r := Some (NewRegistry (F := spec_float) 0 two_tenants) in
  let calls := [(0, "acme"); (0, "globex"); (0, "globex"); (0, "nobody"); (0, "acme");
                (0, "nobody"); (0, "acme")]%string in
  filter (fun p => p.1 = "acme"%string) (fst (allow_calls calls r)) =
    [("acme", true); ("acme", true); ("acme", false)]%string /\
  filter (fun p => p.1 = "acme"%string) (fst (allow_calls calls r)) =
    fst (allow_calls (filter (fun c => c.2 = "acme"%string) calls) r).
Proof.
  split; [vm_compute; reflexivity|]. apply (tenants_are_isolated "acme").
  vm_compute. reflexivity.
Defined.

(** The unit tests of the bucket, over binary64. *)
Example binary64_burst_then_deny :
  fst (allow_all burst_times (newTokenBucket (F := spec_float) 0 (f_of_int 5))) =
    [true; true; true; true; true; false; true].
Proof. vm_compute. reflexivity. Qed.

Example binary64_refills :
  admitted (fst (allow_all (replicate 11 0 ++ replicate 6 500000000)
                   (newTokenBucket (F := spec_float) 0 (f_of_int 10)))) = 15.
Proof. vm_compute. reflexivity. Qed.

Example binary64_caps_at_burst :
  admitted (fst (allow_all (replicate 20 3600000000000)
                   (newTokenBucket (F := spec_float) 0 (f_of_int 4)))) = 4.
Proof. vm_compute. reflexivity. Qed.
