(* ===== verification/Metrics.v ===== *)
(** internal/metrics: the recorder interface and the in-memory recorder.

    Prometheus.v has the recorder that production uses. Counters are int64. *)
From stdpp Require Import base list strings gmap.
From Stdlib Require Import ZArith Lia.
From S2P Require Import Prelude.

Local Open Scope Z_scope.

(** recorder.go: the interface. The argument of [ObserveBatchFlush] is the duration
    whose seconds the program passes. *)
Class Recorder (R : Type) := {
  rec_IncEventsReceived : string -> R -> R;
  rec_IncEventsDropped : string -> R -> R;
  rec_ObserveBatchFlush : Z -> R -> R;
  rec_SetBufferSize : Z -> R -> R;
  rec_IncWorkerPanics : R -> R
}.

(** [if recorder != nil { ... }] *)
Definition with_recorder {R} (f : R -> R) (r : option R) : option R := f <$> r.

Module MockRecorder.

Record MockRecorder := mk {
  eventsReceived : Z;
  eventsDropped : Z;
  batchFlushCount : Z;
  bufferSize : Z;
  workerPanics : Z;
  receivedByTenant : gmap string Z;
  droppedByTenant : gmap string Z
}.

Definition NewMock : MockRecorder := mk 0 0 0 0 0 ∅ ∅.

(** [x.Add(1)], [m[k]++] *)
Definition int64_succ (x : Z) : Z := (x + 1 + 2 ^ 63) mod 2 ^ 64 - 2 ^ 63.
Definition bump (k : string) (m : gmap string Z) : gmap string Z :=
  <[k := int64_succ (default 0 (m !! k))]> m.

Lemma default_bump k m : default 0 (bump k m !! k) = int64_succ (default 0 (m !! k)).
Proof. unfold bump. by rewrite lookup_insert_eq. Qed.

Definition IncEventsReceived (tenant : string) (m : MockRecorder) : MockRecorder :=
  mk (int64_succ (eventsReceived m)) (eventsDropped m) (batchFlushCount m) (bufferSize m)
    (workerPanics m) (bump tenant (receivedByTenant m)) (droppedByTenant m).

Definition IncEventsDropped (tenant : string) (m : MockRecorder) : MockRecorder :=
  mk (eventsReceived m) (int64_succ (eventsDropped m)) (batchFlushCount m) (bufferSize m)
    (workerPanics m) (receivedByTenant m) (bump tenant (droppedByTenant m)).

Definition GetEventsReceived (m : MockRecorder) : Z := eventsReceived m.
Definition GetEventsDropped (m : MockRecorder) : Z := eventsDropped m.
Definition GetBatchFlushCount (m : MockRecorder) : Z := batchFlushCount m.
Definition GetBufferSize (m : MockRecorder) : Z := bufferSize m.
Definition GetWorkerPanicCount (m : MockRecorder) : Z := workerPanics m.
Definition GetEventsReceivedByTenant (tenant : string) (m : MockRecorder) : Z :=
  default 0 (receivedByTenant m !! tenant).
Definition GetEventsDroppedByTenant (tenant : string) (m : MockRecorder) : Z :=
  default 0 (droppedByTenant m !! tenant).

Definition ObserveBatchFlush (_ : Z) (m : MockRecorder) : MockRecorder :=
  mk (eventsReceived m) (eventsDropped m) (int64_succ (batchFlushCount m)) (bufferSize m)
    (workerPanics m) (receivedByTenant m) (droppedByTenant m).

Definition SetBufferSize (size : Z) (m : MockRecorder) : MockRecorder :=
  mk (eventsReceived m) (eventsDropped m) (batchFlushCount m) size
    (workerPanics m) (receivedByTenant m) (droppedByTenant m).

Definition IncWorkerPanics (m : MockRecorder) : MockRecorder :=
  mk (eventsReceived m) (eventsDropped m) (batchFlushCount m) (bufferSize m)
    (int64_succ (workerPanics m)) (receivedByTenant m) (droppedByTenant m).

Definition Reset (_ : MockRecorder) : MockRecorder := NewMock.

#[global] Instance recorder : Recorder MockRecorder := {|
  rec_IncEventsReceived := IncEventsReceived;
  rec_IncEventsDropped := IncEventsDropped;
  rec_ObserveBatchFlush := ObserveBatchFlush;
  rec_SetBufferSize := SetBufferSize;
  rec_IncWorkerPanics := IncWorkerPanics
|}.

Lemma int64_succ_id x : - 2 ^ 63 <= x < 2 ^ 63 - 1 -> int64_succ x = x + 1.
Proof. intros H. unfold int64_succ. rewrite Z.mod_small by lia. lia. Qed.

End MockRecorder.
