(* ===== verification/Prometheus.v ===== *)
(** internal/metrics/prometheus.go: the recorder that production uses.

    The client library is a parameter: its default registry, with one member for each
    call of the program. A collector is named by the descriptor the program gives it.
    [promOnce] and [promInstance] are the two package variables. *)
From stdpp Require Import base list strings gmap.
From Stdlib Require Import ZArith Lia.
From S2P Require Import Prelude Errors Go Metrics.

Local Open Scope Z_scope.

(** The options the program sets; buckets are the library's defaults. *)
Record Desc := mk_desc { desc_Name : string; desc_Help : string; desc_Labels : list string }.

#[export] Instance Desc_eq_dec : EqDecision Desc.
Proof. solve_decision. Defined.

(** [prom_Register] is [None] where MustRegister panics. *)
Class PromClient (C : Type) := {
  prom_Register : Desc -> C -> option C;
  prom_Inc : Desc -> list string -> C -> C;
  prom_Observe : Desc -> Z -> C -> C;
  prom_Set : Desc -> Z -> C -> C
}.

Module Prometheus.

Definition tenantLabel : string := "tenant".

Record prometheusRecorder := mk {
  eventsReceivedTotal : Desc;
  eventsDroppedTotal : Desc;
  batchFlushDurationSeconds : Desc;
  bufferCurrentSize : Desc;
  workerPanicsTotal : Desc
}.

(** The composite literal of newPrometheusRecorder. *)
Definition instance : prometheusRecorder := {|
  eventsReceivedTotal :=
    mk_desc "events_received_total" "Total number of events received by the ingestor." [tenantLabel];
  eventsDroppedTotal :=
    mk_desc "events_dropped_total" "Total number of events dropped (buffer full, invalid, quota, etc.)."
      [tenantLabel];
  batchFlushDurationSeconds :=
    mk_desc "batch_flush_duration_seconds" "Duration of batch flush operations in seconds." [];
  bufferCurrentSize := mk_desc "buffer_current_size" "Current number of events buffered in memory." [];
  workerPanicsTotal :=
    mk_desc "worker_panics_total" "Total number of worker goroutine panics recovered." []
|}.

(** The process: the package variables and the default registry. *)
Record process (C : Type) := mk_process {
  promInstance : option prometheusRecorder;
  promOnce : bool;
  default_registry : C
}.
Arguments mk_process {C} _ _ _.
Arguments promInstance {C} _.
Arguments promOnce {C} _.
Arguments default_registry {C} _.

Section Prometheus.
Context {C : Type} `{PC : PromClient C}.

(** [prometheus.MustRegister(cs...)]: panics at the first collector that is refused. *)
Fixpoint MustRegister (cs : list Desc) : M (process C) unit :=
  match cs with
  | [] => ret tt
  | d :: cs => fun p =>
      match prom_Register d (default_registry p) with
      | None => (Panic "duplicate metrics collector registration attempted", p)
      | Some c => MustRegister cs (mk_process (promInstance p) (promOnce p) c)
      end
  end.

(** [promOnce.Do(f)] runs [f] at most once, even when [f] panics. *)
Definition once_Do (f : M (process C) unit) : M (process C) unit :=
  p <- gets id ;;
  if promOnce p then ret tt
  else modify (fun p => mk_process (promInstance p) true (default_registry p)) ;; f.

Definition newPrometheusRecorder : M (process C) (option prometheusRecorder) :=
  once_Do (
    modify (fun p => mk_process (Some instance) (promOnce p) (default_registry p)) ;;
    MustRegister [eventsReceivedTotal instance; eventsDroppedTotal instance;
                  batchFlushDurationSeconds instance; bufferCurrentSize instance;
                  workerPanicsTotal instance]) ;;
  gets promInstance.

(** metrics.go *)
Definition New : M (process C) (option prometheusRecorder) := newPrometheusRecorder.

(** The methods, on a recorder and the collectors behind it. *)
Definition IncEventsReceived (tenant : string) (r : prometheusRecorder * C) : prometheusRecorder * C :=
  (r.1, prom_Inc (eventsReceivedTotal r.1) [tenant] r.2).
Definition IncEventsDropped (tenant : string) (r : prometheusRecorder * C) : prometheusRecorder * C :=
  (r.1, prom_Inc (eventsDroppedTotal r.1) [tenant] r.2).
Definition ObserveBatchFlush (d : Z) (r : prometheusRecorder * C) : prometheusRecorder * C :=
  (r.1, prom_Observe (batchFlushDurationSeconds r.1) d r.2).
Definition SetBufferSize (size : Z) (r : prometheusRecorder * C) : prometheusRecorder * C :=
  (r.1, prom_Set (bufferCurrentSize r.1) size r.2).
Definition IncWorkerPanics (r : prometheusRecorder * C) : prometheusRecorder * C :=
  (r.1, prom_Inc (workerPanicsTotal r.1) [] r.2).

#[global] Instance recorder : Recorder (prometheusRecorder * C) := {|
  rec_IncEventsReceived := IncEventsReceived;
  rec_IncEventsDropped := IncEventsDropped;
  rec_ObserveBatchFlush := ObserveBatchFlush;
  rec_SetBufferSize := SetBufferSize;
  rec_IncWorkerPanics := IncWorkerPanics
|}.

End Prometheus.
End Prometheus.

(** ** What the library documents *)

(** A collector can be registered when no registered one has its name; counters count their
    [Inc]s and a histogram its observations, per label values; a gauge has the value set last. *)
Class PromLaws (C : Type) `{PC : PromClient C} := {
  prom_names : C -> list string;
  prom_count : C -> Desc -> list string -> Z;
  prom_gauge : C -> Desc -> Z;
  prom_Register_fresh : forall d c, desc_Name d ∉ prom_names c ->
    exists c', prom_Register d c = Some c' /\ prom_names c' = prom_names c ++ [desc_Name d] /\
      prom_count c' = prom_count c /\ prom_gauge c' = prom_gauge c;
  prom_Inc_count : forall d ls c d' ls',
    prom_count (prom_Inc d ls c) d' ls' =
      prom_count c d' ls' + (if decide (d = d' /\ ls = ls') then 1 else 0);
  prom_Inc_gauge : forall d ls c, prom_gauge (prom_Inc d ls c) = prom_gauge c;
  prom_Observe_count : forall d v c d' ls',
    prom_count (prom_Observe d v c) d' ls' =
      prom_count c d' ls' + (if decide (d = d' /\ [] = ls') then 1 else 0);
  prom_Observe_gauge : forall d v c, prom_gauge (prom_Observe d v c) = prom_gauge c;
  prom_Set_count : forall d v c, prom_count (prom_Set d v c) = prom_count c;
  prom_Set_gauge : forall d v c d', prom_gauge (prom_Set d v c) d' =
    if decide (d = d') then v else prom_gauge c d'
}.

(** ** The recorder's contract, for any implementation *)

(** What the program does to a recorder. *)
Inductive rec_op :=
  | OpReceived (tenant : string)
  | OpDropped (tenant : string)
  | OpFlush (d : Z)
  | OpSize (n : Z)
  | OpPanic.

Definition rec_do {R} `{Recorder R} (o : rec_op) (r : R) : R :=
  match o with
  | OpReceived t => rec_IncEventsReceived t r
  | OpDropped t => rec_IncEventsDropped t r
  | OpFlush d => rec_ObserveBatchFlush d r
  | OpSize n => rec_SetBufferSize n r
  | OpPanic => rec_IncWorkerPanics r
  end.

Definition rec_run {R} `{Recorder R} (os : list rec_op) (r : R) : R := foldl (fun r o => rec_do o r) r os.



Section agreement.
Context {C : Type} `{PC : PromClient C} `{PL : !PromLaws C}.
Import Prometheus.

(** The readings of the two recorders are the same. *)
Definition agrees (m : MockRecorder.MockRecorder) (c : C) : Prop :=
  (forall t, MockRecorder.GetEventsReceivedByTenant t m = prom_count c (eventsReceivedTotal instance) [t]) /\
  (forall t, MockRecorder.GetEventsDroppedByTenant t m = prom_count c (eventsDroppedTotal instance) [t]) /\
  MockRecorder.batchFlushCount m = prom_count c (batchFlushDurationSeconds instance) [] /\
  MockRecorder.bufferSize m = prom_gauge c (bufferCurrentSize instance) /\
  MockRecorder.workerPanics m = prom_count c (workerPanicsTotal instance) [].

(** Every count is small enough to be counted once more. *)
Definition below (n : Z) (m : MockRecorder.MockRecorder) : Prop :=
  (forall t, 0 <= MockRecorder.GetEventsReceivedByTenant t m < n) /\
  (forall t, 0 <= MockRecorder.GetEventsDroppedByTenant t m < n) /\
  0 <= MockRecorder.batchFlushCount m < n /\ 0 <= MockRecorder.workerPanics m < n.

Lemma bump_lookup k t (m : gmap string Z) :
  default 0 (MockRecorder.bump k m !! t) =
    if decide (k = t) then MockRecorder.int64_succ (default 0 (m !! t)) else default 0 (m !! t).
Proof.
  destruct (decide (k = t)) as [->|Hn]; [apply MockRecorder.default_bump|].
  unfold MockRecorder.bump. by rewrite lookup_insert_ne.
Qed.

Lemma below_step n o m : n <= 2 ^ 62 -> below n m -> below (n + 1) (rec_do o m).
Proof.
  intros Hn (H1 & H2 & H3 & H4). unfold below, MockRecorder.GetEventsReceivedByTenant,
    MockRecorder.GetEventsDroppedByTenant in *.
  destruct o; simpl; split_and!; match goal with |- forall _ : string, _ => intros t | _ => idtac end; rewrite ?bump_lookup;
    try pose proof (H1 t); try pose proof (H2 t); try case_decide;
    rewrite ?MockRecorder.int64_succ_id by lia; lia.
Qed.

(** Case analysis on whether two metrics are the same. *)
Ltac metric_case :=
  match goal with
  | |- context [decide ?P] =>
      let Hd := fresh "Hd" in
      destruct (decide P) as [Hd|Hd];
      first
        [ exfalso; destruct Hd as [Hd _]; discriminate Hd
        | exfalso; destruct Hd as [_ Hd]; discriminate Hd
        | exfalso; apply Hd; subst; by repeat split
        | destruct Hd as [_ Hd]; injection Hd as ->
        | subst
        | idtac ]
  end.

Lemma agrees_step n o m c : n <= 2 ^ 62 -> below n m -> agrees m c ->
  agrees (rec_do o m) (rec_do o (instance, c)).2.
Proof.
  intros Hn (B1 & B2 & B3 & B4) (H1 & H2 & H3 & H4 & H5).
  unfold agrees, MockRecorder.GetEventsReceivedByTenant, MockRecorder.GetEventsDroppedByTenant in *.
  cbv [instance eventsReceivedTotal eventsDroppedTotal batchFlushDurationSeconds bufferCurrentSize
    workerPanicsTotal] in *.
  destruct o; simpl; split_and!; match goal with |- forall _ : string, _ => intros t | _ => idtac end;
    rewrite ?prom_Inc_count, ?prom_Inc_gauge, ?prom_Observe_count, ?prom_Observe_gauge,
      ?prom_Set_count, ?prom_Set_gauge, ?bump_lookup;
    try (pose proof (B1 t); pose proof (H1 t); pose proof (B2 t); pose proof (H2 t));
    repeat metric_case; rewrite ?MockRecorder.int64_succ_id by lia; first [done | lia]. 
Qed.

Lemma rec_do_instance o c : (rec_do o (instance, c)).1 = instance.
Proof. by destruct o. Qed.

Lemma agrees_run os : forall n m c, n + Z.of_nat (length os) <= 2 ^ 62 -> below n m -> agrees m c ->
  agrees (rec_run os m) (rec_run os (instance, c)).2.
Proof.
  induction os as [|o os IH]; intros n m c Hn Hb Ha; [done|]. cbn [rec_run foldl length] in *.
  pose proof (rec_do_instance o c) as Hi. destruct (rec_do o (instance, c)) as [i c'] eqn:Ho.
  cbn in Hi. subst i. apply (IH (n + 1)); [lia|apply below_step; [lia|done]|].
  replace c' with (rec_do o (instance, c)).2 by (by rewrite Ho).
  apply (agrees_step n); [lia|done|done].
Qed.

(** The names a fresh process registers are distinct. *)
Lemma MustRegister_fresh cs : forall p,
  NoDup (desc_Name <$> cs) -> Forall (fun d => desc_Name d ∉ prom_names (default_registry p)) cs ->
  exists c, MustRegister cs p = (Ret tt, mk_process (promInstance p) (promOnce p) c) /\
    prom_names c = prom_names (default_registry p) ++ (desc_Name <$> cs) /\
    prom_count c = prom_count (default_registry p) /\ prom_gauge c = prom_gauge (default_registry p).
Proof.
  induction cs as [|d cs IH]; intros p Hnd Hf.
  { exists (default_registry p). rewrite app_nil_r. by destruct p. }
  apply Forall_cons in Hf as [Hd Hf]. rewrite fmap_cons in *. apply NoDup_cons in Hnd as [Hnd1 Hnd2].
  destruct (prom_Register_fresh d _ Hd) as (c1 & Hc1 & Hn1 & Hk1 & Hg1).
  destruct (IH (mk_process (promInstance p) (promOnce p) c1) Hnd2) as (c & Hc & Hn & Hk & Hg).
  { simpl. rewrite Hn1. rewrite Forall_forall in *. intros x Hx. rewrite elem_of_app, list_elem_of_singleton.
    intros [?|Heq]; [by apply (Hf x)|]. apply Hnd1. rewrite <- Heq. by apply list_elem_of_fmap_2. }
  exists c. cbn [MustRegister]. rewrite Hc1. split_and!; [exact Hc| |by rewrite Hk|by rewrite Hg].
  rewrite Hn. simpl. rewrite Hn1, <- app_assoc. done.
Qed.
End agreement.

Lemma New_fresh {C : Type} `{PC : PromClient C} `{PL : !PromLaws C} (p : Prometheus.process C) :
  Prometheus.promOnce p = false -> prom_names (Prometheus.default_registry p) = [] ->
  exists c, Prometheus.New p =
      (Ret (Some Prometheus.instance), Prometheus.mk_process (Some Prometheus.instance) true c) /\
    prom_count c = prom_count (Prometheus.default_registry p) /\
    prom_gauge c = prom_gauge (Prometheus.default_registry p).
Proof.
  intros Honce Hn.
  destruct (MustRegister_fresh
    [Prometheus.eventsReceivedTotal Prometheus.instance; Prometheus.eventsDroppedTotal Prometheus.instance;
     Prometheus.batchFlushDurationSeconds Prometheus.instance; Prometheus.bufferCurrentSize Prometheus.instance;
     Prometheus.workerPanicsTotal Prometheus.instance]
    (Prometheus.mk_process (Some Prometheus.instance) true (Prometheus.default_registry p)))
    as (c & Hc & _ & Hk' & Hg').
  { vm_compute. repeat (apply NoDup_cons; split; [set_solver|]). apply NoDup_nil_2. }
  { simpl. rewrite Hn. repeat (apply Forall_cons; split; [set_solver|]). by apply Forall_nil. }
  exists c. split; [|done].
  unfold Prometheus.New, Prometheus.newPrometheusRecorder, Prometheus.once_Do, bind, gets, modify.
  cbn [id]. rewrite Honce. cbn [Prometheus.promInstance Prometheus.promOnce Prometheus.default_registry].
  by rewrite Hc.
Qed.


(** A client that remembers the calls. *)
Module LogClient.

Record log := mk { names : list string; incs : list (Desc * list string); sets : list (Desc * Z) }.

Definition occurrences (x : Desc * list string) (l : list (Desc * list string)) : Z :=
  Z.of_nat (length (filter (fun y => y = x) l)).

Definition gauge (l : log) (d : Desc) : Z :=
  match filter (fun x => x.1 = d) (sets l) with x :: _ => x.2 | [] => 0 end.

#[global] Instance client : PromClient log := {|
  prom_Register d l :=
    if decide (desc_Name d ∈ names l) then None
    else Some (mk (names l ++ [desc_Name d]) (incs l) (sets l));
  prom_Inc d ls l := mk (names l) ((d, ls) :: incs l) (sets l);
  prom_Observe d _ l := mk (names l) ((d, []) :: incs l) (sets l);
  prom_Set d v l := mk (names l) (incs l) ((d, v) :: sets l)
|}.

Lemma occurrences_cons d ls d' ls' l :
  occurrences (d', ls') ((d, ls) :: l) =
    occurrences (d', ls') l + (if decide (d = d' /\ ls = ls') then 1 else 0).
Proof.
  unfold occurrences. rewrite filter_cons. repeat case_decide; simplify_eq; cbn [length]; first [lia|naive_solver].
Qed.

#[global] Program Instance laws : PromLaws log := {|
  prom_names := names;
  prom_count l d ls := occurrences (d, ls) (incs l);
  prom_gauge := gauge
|}.
Next Obligation.
  intros d c Hd. simpl. rewrite decide_False by done. by eexists.
Qed.
Next Obligation. intros. apply occurrences_cons. Qed.
Next Obligation. done. Qed.
Next Obligation. intros. apply occurrences_cons. Qed.
Next Obligation. done. Qed.
Next Obligation. done. Qed.
Next Obligation.
  intros d v c d'. unfold gauge. simpl. rewrite filter_cons. simpl.
  by destruct (decide (d = d')).
Qed.

End LogClient.

