(* ===== verification/Service.v ===== *)
(** internal/ingestor/service.go: what happens to an event when it arrives.

    The service is written against the interfaces of its parts: the log, the buffer,
    the recorder. Each part carries its own state, the log and a disk-backed
    buffer the files of their own directory. [now] is the clock that the tenant's
    bucket reads. *)
From stdpp Require Import base list strings gmap.
From Stdlib Require Import ZArith Lia.
From S2P Require Import Prelude Errors Go Bytes Os Proto Float Config Wal Buffer Tenant Metrics.

Definition ErrTenantQuotaExceeded : error :=
  ErrSentinel "ingestor.ErrTenantQuotaExceeded" "tenant quota exceeded".

Module Service.
Section Service.
Context {B W R F : Type} `{BufferB : Buffer B} `{WALW : WAL W} `{RecorderR : Recorder R}
  `{FloatF : Float64 F}.

Record Service := mk {
  buf : B;
  recorder : option R;
  wal : W;
  tracker : SeqTracker.SeqTracker;
  tenants : option (Registry F)
}.

(** The registry that [NewService] and [SetTenants] fall back to. *)
Definition disabled_tenants : Registry F := NewRegistry 0 (mk_tenancy false 0 []).

Definition NewService (b : B) (r : option R) (w : W) : Service :=
  mk b r w SeqTracker.NewSeqTracker (Some disabled_tenants).

Definition SetTenants (r : option (Registry F)) (s : Service) : Service :=
  mk (buf s) (recorder s) (wal s) (tracker s)
    (match r with None => Some disabled_tenants | Some _ => r end).

(** The parts that the workers share. *)
Definition SeqTracker (s : Service) : SeqTracker.SeqTracker := tracker s.
Definition Buf (s : Service) : B := buf s.
Definition WAL (s : Service) : W := wal s.

Definition on_buf {A} (m : M B A) : M Service A := fun s =>
  let '(r, b) := m (buf s) in (r, mk b (recorder s) (wal s) (tracker s) (tenants s)).
Definition on_wal {A} (m : M W A) : M Service A := fun s =>
  let '(r, w) := m (wal s) in (r, mk (buf s) (recorder s) w (tracker s) (tenants s)).
Definition record (f : R -> R) : M Service unit :=
  modify (fun s => mk (buf s) (with_recorder f (recorder s)) (wal s) (tracker s) (tenants s)).
Definition track (f : SeqTracker.SeqTracker -> SeqTracker.SeqTracker) : M Service unit :=
  modify (fun s => mk (buf s) (recorder s) (wal s) (f (tracker s)) (tenants s)).
Definition allowed (now : Z) (id : string) : M Service bool := fun s =>
  let '(ok, t) := Allow now id (tenants s) in
  (Ret ok, mk (buf s) (recorder s) (wal s) (tracker s) t).

Definition Push (now : Z) (req : IngestRequest) : M Service unit :=
  label <- gets (fun s => MetricLabel (tenants s) (TenantId req)) ;;
  record (rec_IncEventsReceived label) ;;
  ok <- allowed now (TenantId req) ;;
  if negb ok then
    record (rec_IncEventsDropped label) ;; fail ErrTenantQuotaExceeded
  else
    r <- try (on_wal (wal_Append req)) ;;
    match r with
    | inl err => record (rec_IncEventsDropped label) ;; fail err
    | inr seqNum =>
        track (SeqTracker.Store (EventId req) seqNum) ;;
        p <- try (on_buf (buf_Push req)) ;;
        match p with
        | inl err =>
            track (fun t => snd (SeqTracker.LoadAndDelete (EventId req) t)) ;;
            record (rec_IncEventsDropped label) ;;
            fail err
        | inr _ =>
            size <- gets (fun s => buf_Len (buf s)) ;;
            record (rec_SetBufferSize size)
        end
    end.

Definition Close : M Service unit := on_buf buf_Close.

End Service.
Arguments Service : clear implicits.
End Service.
