(* ===== verification/I18n.v ===== *)
(** internal/i18n: message codes, translations and the choice of a language.

    A translation table is a finite map; texts are the UTF-8 bytes of the source. *)
From Stdlib Require Import ZArith Lia Ascii String.
From stdpp Require Import base list strings gmap sets.
From S2P Require Import Prelude GoStrings.

Module I18n.

(** ** codes.go *)
Definition MessageCode : Type := string.

Definition MsgAccepted : MessageCode := "ACCEPTED".
Definition MsgDropped : MessageCode := "DROPPED".
Definition MsgTenantQuota : MessageCode := "TENANT_QUOTA_EXCEEDED".
Definition MsgDisabled : MessageCode := "DISABLED".
Definition MsgInvalidJSON : MessageCode := "INVALID_JSON".
Definition MsgMissingEventID : MessageCode := "MISSING_EVENT_ID".
Definition MsgMissingTenantID : MessageCode := "MISSING_TENANT_ID".
Definition MsgMethodNotAllowed : MessageCode := "METHOD_NOT_ALLOWED".
Definition MsgNotConfigured : MessageCode := "NOT_CONFIGURED".
Definition MsgHealthOK : MessageCode := "HEALTH_OK".
Definition MsgReady : MessageCode := "READY".
Definition MsgNotReady : MessageCode := "NOT_READY".
Definition MsgDLQReplayOK : MessageCode := "DLQ_REPLAY_OK".
Definition MsgDLQReplayEmpty : MessageCode := "DLQ_REPLAY_EMPTY".
Definition MsgDLQReplayPartial : MessageCode := "DLQ_REPLAY_PARTIAL".
Definition MsgDLQReplayFailed : MessageCode := "DLQ_REPLAY_FAILED".
Definition MsgDLQStatsOK : MessageCode := "DLQ_STATS_OK".
Definition MsgDLQStatsFailed : MessageCode := "DLQ_STATS_FAILED".
Definition MsgDLQNotReplayable : MessageCode := "DLQ_NOT_REPLAYABLE".
Definition MsgDLQStatsUnsupported : MessageCode := "DLQ_STATS_UNSUPPORTED".
Definition MsgUnauthorized : MessageCode := "UNAUTHORIZED".
Definition MsgInternalError : MessageCode := "INTERNAL_ERROR".

(** ** i18n.go: the languages *)
Definition Lang : Type := string.
Definition LangEN : Lang := "en".
Definition LangFA : Lang := "fa".

(** ** en.go *)
Definition enMessages : gmap MessageCode string := list_to_map [
  (MsgAccepted, "Event accepted.");
  (MsgDropped, "Buffer is full. Event dropped.");
  (MsgTenantQuota, "Tenant rate limit exceeded. Event dropped.");
  (MsgDisabled, "Ingest is currently disabled.");
  (MsgInvalidJSON, "Invalid JSON in request body.");
  (MsgMissingEventID, "Field 'event_id' is required.");
  (MsgMissingTenantID, "Field 'tenant_id' is required.");
  (MsgMethodNotAllowed, "Method not allowed.");
  (MsgNotConfigured, "Ingestor is not configured.");
  (MsgHealthOK, "Service is healthy.");
  (MsgReady, "Service is ready.");
  (MsgNotReady, "Service is not ready.");
  (MsgDLQReplayOK, "DLQ replay completed.");
  (MsgDLQReplayEmpty, "DLQ is empty. Nothing to replay.");
  (MsgDLQReplayPartial, "DLQ replay completed with some failures.");
  (MsgDLQReplayFailed, "DLQ replay failed.");
  (MsgDLQStatsOK, "DLQ stats retrieved.");
  (MsgDLQStatsFailed, "Failed to retrieve DLQ stats.");
  (MsgDLQNotReplayable, "Configured DLQ backend does not support replay.");
  (MsgDLQStatsUnsupported, "Configured DLQ backend does not support stats.");
  (MsgUnauthorized, "Unauthorized.");
  (MsgInternalError, "Internal server error.")
].

(** ** fa.go *)
Definition faMessages : gmap MessageCode string := list_to_map [
  (MsgAccepted, "رویداد پذیرفته شد.");
  (MsgDropped, "بافر پر است. رویداد رها شد.");
  (MsgTenantQuota, "محدودیت نرخ مستأجر فراتر رفت. رویداد رها شد.");
  (MsgDisabled, "دریافت رویداد در حال حاضر غیرفعال است.");
  (MsgInvalidJSON, "ساختار JSON درخواست نامعتبر است.");
  (MsgMissingEventID, "فیلد 'event_id' الزامی است.");
  (MsgMissingTenantID, "فیلد 'tenant_id' الزامی است.");
  (MsgMethodNotAllowed, "این متد مجاز نیست.");
  (MsgNotConfigured, "سرویس دریافت‌کننده پیکربندی نشده است.");
  (MsgHealthOK, "سرویس سالم است.");
  (MsgReady, "سرویس آماده است.");
  (MsgNotReady, "سرویس آماده نیست.");
  (MsgDLQReplayOK, "بازپخش DLQ با موفقیت انجام شد.");
  (MsgDLQReplayEmpty, "DLQ خالی است. چیزی برای بازپخش وجود ندارد.");
  (MsgDLQReplayPartial, "بازپخش DLQ با برخی خطاها به پایان رسید.");
  (MsgDLQReplayFailed, "بازپخش DLQ ناموفق بود.");
  (MsgDLQStatsOK, "آمار DLQ با موفقیت دریافت شد.");
  (MsgDLQStatsFailed, "دریافت آمار DLQ ناموفق بود.");
  (MsgDLQNotReplayable, "بک‌اند DLQ پیکربندی‌شده از بازپخش پشتیبانی نمی‌کند.");
  (MsgDLQStatsUnsupported, "بک‌اند DLQ پیکربندی‌شده از آمار پشتیبانی نمی‌کند.");
  (MsgUnauthorized, "دسترسی غیرمجاز.");
  (MsgInternalError, "خطای داخلی سرور.")
].

(** ** i18n.go *)
Definition translations : gmap Lang (gmap MessageCode string) :=
  list_to_map [(LangEN, enMessages); (LangFA, faMessages)].

(** The three-step fallback: the language, English, the code itself. *)
Definition Translate (lang : Lang) (code : MessageCode) : string :=
  match translations !! lang ≫= (fun msgs => msgs !! code) with
  | Some msg => msg
  | None =>
      match translations !! LangEN ≫= (fun msgs => msgs !! code) with
      | Some msg => msg
      | None => code
      end
  end.

Definition comma : ascii := ",".
Definition semicolon : ascii := ";".
Definition dash : ascii := "-".

(** The primary subtag of one element of the header. *)
Definition primary_tag (part : string) : Lang :=
  ToLower (Split0 (Split0 (TrimSpace part) semicolon) dash).

Fixpoint first_supported (parts : list string) : Lang :=
  match parts with
  | [] => LangEN
  | part :: parts =>
      match translations !! primary_tag part with
      | Some _ => primary_tag part
      | None => first_supported parts
      end
  end.

Definition DetectLang (header : string) : Lang :=
  if decide (header = ""%string) then LangEN else first_supported (Split header comma).

(** Every code of codes.go. *)
Definition all_codes : list MessageCode :=
  [MsgAccepted; MsgDropped; MsgTenantQuota; MsgDisabled; MsgInvalidJSON; MsgMissingEventID;
   MsgMissingTenantID; MsgMethodNotAllowed; MsgNotConfigured; MsgHealthOK; MsgReady;
   MsgNotReady; MsgDLQReplayOK; MsgDLQReplayEmpty; MsgDLQReplayPartial; MsgDLQReplayFailed;
   MsgDLQStatsOK; MsgDLQStatsFailed; MsgDLQNotReplayable; MsgDLQStatsUnsupported;
   MsgUnauthorized; MsgInternalError].

End I18n.
