(* ===== verification/Response.v ===== *)
(** internal/response: the envelope of every HTTP answer.

    A request is what the handlers read of it; a [ResponseWriter] is the header map
    under construction and, once [WriteHeader] has run, the status and the headers that
    went out with it. The JSON text of a body is left to encoding/json: a body is the Go
    value that is encoded. *)
From Stdlib Require Import ZArith Lia Ascii String.
From stdpp Require Import base list strings gmap.
From S2P Require Import Prelude Errors Go Bytes GoStrings I18n.

(** net/http. Header names are in canonical form. *)
Record http_Request := mk_request {
  req_Method : string;
  req_Header : gmap string string;
  req_Body : list byte
}.

(** [r.Header.Get(name)]: the first value, empty when there is none. *)
Definition Header_Get (name : string) (r : http_Request) : string := default "" (req_Header r !! name).

Definition DetectLangFromRequest (r : http_Request) : I18n.Lang :=
  I18n.DetectLang (Header_Get "Accept-Language" r).

Definition StatusOK : Z := 200.
Definition StatusAccepted : Z := 202.
Definition StatusBadRequest : Z := 400.
Definition StatusUnauthorized : Z := 401.
Definition StatusMethodNotAllowed : Z := 405.
Definition StatusTooManyRequests : Z := 429.
Definition StatusInternalServerError : Z := 500.
Definition StatusNotImplemented : Z := 501.
Definition StatusServiceUnavailable : Z := 503.

Module Response.

Definition requestIDHeader : string := "X-Request-Id".

Record Meta := mk_meta {
  AppName : string;
  Version : string;
  RequestID : string;
  Timestamp : string;
  MessageCode : string;
  Message : string;
  Lang : string
}.

Record FieldError := mk_field { Field : string; FieldMessage : string }.

Record ErrorBody := mk_error { Code : string; Fields : list FieldError }.

(** [Envelope] and [ErrorEnvelope]; [D] is the type of the handlers' data. *)
Inductive body (D : Type) :=
  | Envelope (Data : D) (meta : Meta)
  | ErrorEnvelope (Error : ErrorBody) (meta : Meta).
Arguments Envelope {D} _ _.
Arguments ErrorEnvelope {D} _ _.

Definition meta_of {D} (b : body D) : Meta :=
  match b with Envelope _ m | ErrorEnvelope _ m => m end.

(** What [Init] set, and what [uuid.NewString] and the clock give during a request. *)
Record env := mk_env { appName : string; version : string; new_uuid : string; now : string }.

(** [sent]: what WriteHeader sent; a second call is ignored by net/http. *)
Record ResponseWriter (D : Type) := mk_writer {
  header : gmap string string;
  sent : option (Z * gmap string string);
  written : list (body D)
}.
Arguments mk_writer {D} _ _ _.
Arguments header {D} _.
Arguments sent {D} _.
Arguments written {D} _.

Definition fresh_writer {D} : ResponseWriter D := mk_writer ∅ None [].

Section response.
Context {D : Type}.

Definition Header_Set (name value : string) : M (ResponseWriter D) unit :=
  modify (fun w => mk_writer (<[name := value]> (header w)) (sent w) (written w)).

Definition WriteHeader (status : Z) : M (ResponseWriter D) unit :=
  modify (fun w => match sent w with
                   | Some _ => w
                   | None => mk_writer (header w) (Some (status, header w)) (written w)
                   end).

Definition newMeta (e : env) (r : http_Request) (code : I18n.MessageCode) : M (ResponseWriter D) Meta :=
  let lang := DetectLangFromRequest r in
  let got := Header_Get requestIDHeader r in
  let reqID := if decide (got = ""%string) then new_uuid e else got in
  Header_Set requestIDHeader reqID ;;
  ret (mk_meta (appName e) (version e) reqID (now e) code (I18n.Translate lang code) lang).

(** An encoding error is logged; the status has gone out by then. *)
Definition writeJSON (status : Z) (b : body D) : M (ResponseWriter D) unit :=
  Header_Set "Content-Type" "application/json" ;;
  WriteHeader status ;;
  modify (fun w => mk_writer (header w) (sent w) (written w ++ [b])).

Definition JSON (e : env) (r : http_Request) (status : Z) (data : D) (code : I18n.MessageCode) :
    M (ResponseWriter D) unit :=
  meta <- newMeta e r code ;;
  writeJSON status (Envelope data meta).

Definition Error (e : env) (r : http_Request) (status : Z) (code : I18n.MessageCode)
    (fields : list FieldError) : M (ResponseWriter D) unit :=
  meta <- newMeta e r code ;;
  writeJSON status (ErrorEnvelope (mk_error code fields) meta).

(** ** The whole answer *)

Definition request_id (e : env) (r : http_Request) : string :=
  let got := Header_Get requestIDHeader r in if decide (got = ""%string) then new_uuid e else got.

Definition meta_for (e : env) (r : http_Request) (code : I18n.MessageCode) : Meta :=
  mk_meta (appName e) (version e) (request_id e r) (now e) code
    (I18n.Translate (DetectLangFromRequest r) code) (DetectLangFromRequest r).

(** [answered e r status b w w']: from [w], nothing sent yet, exactly one answer went out. *)
Definition answered (e : env) (r : http_Request) (status : Z) (b : body D)
    (w w' : ResponseWriter D) : Prop :=
  exists h, sent w' = Some (status, h) /\
    h !! requestIDHeader = Some (request_id e r) /\
    h !! "Content-Type"%string = Some "application/json"%string /\
    written w' = written w ++ [b].

Lemma writeJSON_answered e r status b code w :
  sent w = None ->
  exists w', (newMeta e r code ;; writeJSON status b) w = (Ret tt, w') /\ answered e r status b w w'.
Proof.
  intros Hs. destruct w as [h s l]. simpl in Hs. subst s. eexists. split; [reflexivity|].
  eexists. split; [reflexivity|]. cbn [header written].
  split; [by rewrite lookup_insert_ne, lookup_insert_eq by done|].
  split; [apply lookup_insert_eq|reflexivity].
Qed.

Lemma JSON_answered e r status data code w : sent w = None ->
  exists w', JSON e r status data code w = (Ret tt, w') /\
    answered e r status (Envelope data (meta_for e r code)) w w'.
Proof. apply (writeJSON_answered e r status (Envelope data (meta_for e r code)) code). Qed.

Lemma Error_answered e r status code fields w : sent w = None ->
  exists w', Error e r status code fields w = (Ret tt, w') /\
    answered e r status (ErrorEnvelope (mk_error code fields) (meta_for e r code)) w w'.
Proof. apply (writeJSON_answered e r status (ErrorEnvelope _ (meta_for e r code)) code). Qed.

End response.
End Response.
