(* ===== verification/Sinks.v ===== *)
(** internal/sinks: where batches go.

    A sink acts on the state [X] of the outside world. [ctx] is what [ctx.Err()]
    returns while the call runs. The HTTP client and server, the Kafka writer, the JSON
    encoder and the circuit breaker (gobreaker) are outside the repository: classes with
    one member per call the program makes. *)
From stdpp Require Import base list strings gmap.
From Stdlib Require Import ZArith Lia.
From S2P Require Import Prelude Errors Go Bytes GoStrings Duration Float Config Proto Tenant.

(** A context as a call sees it: [None] while it is live. *)
Definition Ctx : Type := option error.

(** definitions.go: the interface [Sink]. *)
Record Sink (X : Type) := mk_sink {
  sink_Name : string;
  sink_Write : Ctx -> list IngestRequest -> M X unit;
  sink_Close : M X unit
}.
Arguments mk_sink {X} _ _ _.
Arguments sink_Name {X} _.
Arguments sink_Write {X} _ _ _.
Arguments sink_Close {X} _.

(** ** mock-sink.go *)
Module MockSink.

Record MockSink := mk {
  batches : list (list IngestRequest);
  writeErr : option error;
  closed : bool;
  callCount : Z
}.

Definition NewMockSink : MockSink := mk [] None false 0.

Definition Write (_ : Ctx) (batch : list IngestRequest) : M MockSink unit :=
  modify (fun m => mk (batches m) (writeErr m) (closed m) (callCount m + 1)) ;;
  e <- gets writeErr ;;
  match e with
  | Some err => fail err
  | None => modify (fun m => mk (batches m ++ [batch]) (writeErr m) (closed m) (callCount m))
  end.

Definition Close : M MockSink unit :=
  modify (fun m => mk (batches m) (writeErr m) true (callCount m)).

Definition SetError (err : option error) (m : MockSink) : MockSink :=
  mk (batches m) err (closed m) (callCount m).
Definition BatchCount (m : MockSink) : Z := Z.of_nat (length (batches m)).
Definition TotalEvents (m : MockSink) : Z :=
  foldl (fun count b => count + Z.of_nat (length b))%Z 0%Z (batches m).
(** The call count is kept. *)
Definition Reset (m : MockSink) : MockSink := mk [] None false (callCount m).

Definition GetBatches (m : MockSink) : list (list IngestRequest) := batches m.
Definition IsClosed (m : MockSink) : bool := closed m.
Definition CallCount (m : MockSink) : Z := callCount m.

Definition Name : string := "MockSink".

Definition sink : Sink MockSink := mk_sink Name Write Close.

End MockSink.

(** ** log-sink.go: the log line itself is not part of the state. *)
Module LogSink.

Definition Write {X} (ctx : Ctx) (batch : list IngestRequest) : M X unit :=
  match ctx with Some err => fail err | None => ret tt end.

Definition sink {X} : Sink X := mk_sink "LogSink" Write (ret tt).

End LogSink.

(** The JSON encoder, for what the sinks encode. *)
Class Json := {
  json_batch : list IngestRequest -> error + list byte;
  json_event : IngestRequest -> error + list byte
}.

(** ** http-sink.go *)

(** [http.NewRequestWithContext] and [client.Do]: the status of the answer. *)
Class HttpClient (X : Type) := {
  http_NewRequest : string -> option error;
  http_Do : Ctx -> Z -> string -> list byte -> M X Z
}.

Module HTTPSink.
Section HTTPSink.
Context {X : Type} `{J : Json} `{HC : HttpClient X}.

Record HTTPSink := mk { url : string; timeout : Z }.

Definition newHTTPSink (cfg : HTTPConfig) : error + HTTPSink :=
  if is_empty (http_URL cfg) then inl (ErrNew "http sink url not configured")
  else if is_empty (http_Timeout cfg) then inr (mk (http_URL cfg) 0)
  else match ParseDuration (http_Timeout cfg) with
       | inl err => inl (ErrWrap "invalid http timeout: " err)
       | inr d => inr (mk (http_URL cfg) d)
       end.

Definition Name : string := "HTTPSink".

Definition Write (hs : HTTPSink) (ctx : Ctx) (batch : list IngestRequest) : M X unit :=
  if decide (batch = []) then ret tt
  else
    match json_batch batch with
    | inl err => fail (AppErr.NewPermanent Name (ErrWrap "failed to marshal batch: " err))
    | inr payload =>
        match http_NewRequest (url hs) with
        | Some err => fail (AppErr.NewPermanent Name (ErrWrap "failed to create request: " err))
        | None =>
            r <- try (http_Do ctx (timeout hs) (url hs) payload) ;;
            match r with
            | inl err => fail (AppErr.NewTransient Name (ErrWrap "http request failed: " err))
            | inr status =>
                if decide (400 <= status)%Z
                then fail (ErrSink (AppErr.ClassifyHTTPStatus status) Name
                       (ErrNew ("http sink returned status " +:+ FormatInt status)))
                else ret tt
            end
        end
    end.

Definition sink (hs : HTTPSink) : Sink X := mk_sink Name (Write hs) (ret tt).

End HTTPSink.
End HTTPSink.

(** ** kafka-sink.go *)

(** definitions.go: the interface [TopicRouter], its one method: tenant and default topic to topic. *)
Definition TopicRouter : Type := string -> string -> string.

Record kafka_Message := mk_message { msg_Topic : string; msg_Key : string; msg_Value : list byte }.

Class KafkaWriter (X : Type) := {
  kafka_WriteMessages : list string -> Ctx -> list kafka_Message -> M X unit;
  kafka_Close : M X unit
}.

Module KafkaSink.
Section KafkaSink.
Context {X : Type} `{J : Json} `{KW : KafkaWriter X}.

(** [router]: the interface value [ks.router], nil unless BuildMultiSinks set it. *)
Record KafkaSink := mk { brokers : list string; topic : string; router : option TopicRouter }.

Definition newKafkaSink (cfg : KafkaConfig) : error + KafkaSink :=
  if decide (kafka_Brokers cfg = []) then inl (ErrNew "kafka brokers are not defined")
  else if is_empty (kafka_Topic cfg) then inl (ErrNew "kafka topic are not defined")
  else inr (mk (kafka_Brokers cfg) (kafka_Topic cfg) None).

Definition Name : string := "KafkaSink".

Definition topicFor (ks : KafkaSink) (tenantID : string) : string :=
  match router ks with Some r => r tenantID (topic ks) | None => topic ks end.

(** The loop that builds the messages stops at the first event that does not encode. *)
Fixpoint messages (ks : KafkaSink) (batch : list IngestRequest) : error + list kafka_Message :=
  match batch with
  | [] => inr []
  | e :: batch =>
      match json_event e with
      | inl err => inl (AppErr.NewPermanent Name
          (ErrWrap ("kafka marshal failed for event " +:+ EventId e +:+ ": ") err))
      | inr payload =>
          match messages ks batch with
          | inl err => inl err
          | inr l => inr (mk_message (topicFor ks (TenantId e)) (EventId e) payload :: l)
          end
      end
  end.

Definition Write (ks : KafkaSink) (ctx : Ctx) (batch : list IngestRequest) : M X unit :=
  if decide (batch = []) then ret tt
  else
    match messages ks batch with
    | inl err => fail err
    | inr msgs =>
        r <- try (kafka_WriteMessages (brokers ks) ctx msgs) ;;
        match r with
        | inl err => fail (AppErr.NewTransient Name (ErrWrap "kafka write failed: " err))
        | inr _ => ret tt
        end
    end.

Definition sink (ks : KafkaSink) : Sink X := mk_sink Name (Write ks) kafka_Close.

End KafkaSink.
End KafkaSink.

(** ** circuit-breaker.go *)

Definition gobreaker_ErrOpenState : error :=
  ErrSentinel "gobreaker.ErrOpenState" "circuit breaker is open".
Definition gobreaker_ErrTooManyRequests : error :=
  ErrSentinel "gobreaker.ErrTooManyRequests" "too many requests".

(** What the program sets of gobreaker's Settings. *)
Record Settings := mk_settings {
  MaxRequests : Z; Interval : Z; Timeout : Z; ReadyToTrip : Z -> bool }.

Definition breaker_settings : Settings :=
  mk_settings 1 (60 * Second) (30 * Second) (fun consecutiveFailures => bool_decide (5 <= consecutiveFailures)%Z).

(** A breaker in the world: before a call it admits or refuses it, after the call it
    is told whether the call succeeded. *)
Class GoBreaker (X : Type) := {
  cb_before : Settings -> string -> M X (option error);
  cb_after : Settings -> string -> bool -> M X unit
}.

Module CircuitBreakerSink.
Section CircuitBreakerSink.
Context {X : Type} `{CB : GoBreaker X}.

(** [cb.Execute(req)]: a panic of [req] counts as a failure and goes on. *)
Definition Execute (name : string) (req : M X unit) : M X unit := fun x =>
  match cb_before breaker_settings name x with
  | (Ret (Some err), x) => (Fail err, x)
  | (Ret None, x) =>
      match req x with
      | (Ret _, x) => cb_after breaker_settings name true x
      | (Fail err, x) => (cb_after breaker_settings name false ;; fail err) x
      | (Panic p, x) => (cb_after breaker_settings name false ;; panic p) x
      | (Crash, x) => (Crash, x)
      | (NoFuel, x) => (NoFuel, x)
      end
  | (Fail err, x) => (Fail err, x)
  | (Panic p, x) => (Panic p, x)
  | (Crash, x) => (Crash, x)
  | (NoFuel, x) => (NoFuel, x)
  end.

Definition Write (sk : Sink X) (ctx : Ctx) (batch : list IngestRequest) : M X unit :=
  r <- try (Execute (sink_Name sk) (sink_Write sk ctx batch)) ;;
  match r with
  | inl err =>
      if errors_Is err "gobreaker.ErrOpenState"
      then fail (ErrNew ("circuit breaker open for " +:+ sink_Name sk))
      else fail err
  | inr _ => ret tt
  end.

Definition newCircuitBreakerSink (sk : Sink X) : Sink X :=
  mk_sink (sink_Name sk) (Write sk) (sink_Close sk).

End CircuitBreakerSink.
End CircuitBreakerSink.

(** ** sink.go *)
Section build.
Context {X : Type} `{J : Json} `{HC : HttpClient X} `{KW : KafkaWriter X} `{CB : GoBreaker X}.

(** The sinks that can be built, before they are interface values. *)
Inductive built :=
  | BuiltLog
  | BuiltKafka (ks : KafkaSink.KafkaSink)
  | BuiltHTTP (hs : HTTPSink.HTTPSink).

Definition BuildSink (name : SinkType) (cfg : SinksConfig) : error + built :=
  if decide (name = SinkLog) then inr BuiltLog
  else if decide (name = SinkKafka) then
    match KafkaSink.newKafkaSink (sinks_Kafka cfg) with inl e => inl e | inr k => inr (BuiltKafka k) end
  else if decide (name = SinkHTTP) then
    match HTTPSink.newHTTPSink (sinks_HTTP cfg) with inl e => inl e | inr h => inr (BuiltHTTP h) end
  else inl (ErrNew ("unknown sink type: " +:+ name)).

(** A Kafka sink is given the router. *)
Definition set_router (router : option TopicRouter) (b : built) : built :=
  match b with
  | BuiltKafka ks => BuiltKafka (KafkaSink.mk (KafkaSink.brokers ks) (KafkaSink.topic ks) router)
  | _ => b
  end.

Definition sink_of (b : built) : Sink X :=
  match b with
  | BuiltLog => LogSink.sink
  | BuiltKafka ks => KafkaSink.sink ks
  | BuiltHTTP hs => HTTPSink.sink hs
  end.

Fixpoint build_all (names : list SinkType) (cfg : SinksConfig)
    (router : option TopicRouter) (result : list (Sink X)) : error + list (Sink X) :=
  match names with
  | [] => inr result
  | name :: names =>
      match BuildSink name cfg with
      | inl err => inl (ErrWrap ("failed to build sink " +:+ quoted name +:+ ": ") err)
      | inr b =>
          build_all names cfg router
            (result ++ [CircuitBreakerSink.newCircuitBreakerSink (sink_of (set_router router b))])
      end
  end.

Definition BuildMultiSinks (names : list SinkType) (cfg : SinksConfig)
    (router : option TopicRouter) : error + list (Sink X) :=
  match build_all names cfg router [] with
  | inl err => inl err
  | inr [] => inl (ErrNew "no sinks configured")
  | inr l => inr l
  end.
End build.
