(* ===== verification/Worker.v ===== *)
(** internal/worker/worker.go: batching, delivery with retries, dead letters, acks.

    A worker acts on a [world]: the outside state that sinks and the dead letter queue
    act on, the log and its tracker, the recorder, the clock, and the worker's context.
    [waits] decides the two-way selects between the context and a timer: an entry
    [Some err] cancels the context with [err] before the timer fires. *)
From stdpp Require Import base list strings gmap.
From Stdlib Require Import ZArith Lia.
From S2P Require Import Prelude Errors Go Bytes Proto Duration Wal Metrics Sinks.

(** dlq/definitions.go: the interface [DeadLetterQueue]. *)
Record DeadLetterQueue (X : Type) := mk_dlq_ops {
  dlq_Push : Ctx -> IngestRequest -> string -> error -> M X unit;
  dlq_Close : M X unit;
  dlq_Name : string
}.
Arguments mk_dlq_ops {X} _ _ _.
Arguments dlq_Push {X} _ _ _ _ _.
Arguments dlq_Close {X} _.
Arguments dlq_Name {X} _.

Module Worker.
Section Worker.
Context {X W R : Type} `{WALW : WAL W} `{RecorderR : Recorder R}.

Definition maxRetries : Z := 3.
Definition drainFlushTimeout : Z := (5 * Second)%Z.
Definition maxRestarts : nat := 5.
Definition restartCooldown : Z := (1 * Second)%Z.

Record Config := mk_cfg { NumWorkers : Z; BatchSize : Z; BatchTimeout : Z }.

Record Deps := mk_deps { deps_Sinks : list (Sink X); deps_DLQ : DeadLetterQueue X }.

Record world := mk_world {
  ext : X;
  wal : W;
  tracker : SeqTracker.SeqTracker;
  recorder : option R;
  clock : Z;
  ctx : Ctx;
  waits : list (option error)
}.

Definition on_ext {A} (m : M X A) : M world A := fun w =>
  let '(r, x) := m (ext w) in
  (r, mk_world x (wal w) (tracker w) (recorder w) (clock w) (ctx w) (waits w)).
Definition on_wal {A} (m : M W A) : M world A := fun w =>
  let '(r, l) := m (wal w) in
  (r, mk_world (ext w) l (tracker w) (recorder w) (clock w) (ctx w) (waits w)).
Definition set_ctx (c : Ctx) : M world unit :=
  modify (fun w => mk_world (ext w) (wal w) (tracker w) (recorder w) (clock w) c (waits w)).
Definition record (f : R -> R) : M world unit :=
  modify (fun w => mk_world (ext w) (wal w) (tracker w) (with_recorder f (recorder w)) (clock w)
                     (ctx w) (waits w)).

(** [LoadAndDelete] on the tracker. *)
Definition load_and_delete (id : string) : M world (Z * bool) := fun w =>
  let '(r, t) := SeqTracker.LoadAndDelete id (tracker w) in
  (Ret r, mk_world (ext w) (wal w) t (recorder w) (clock w) (ctx w) (waits w)).

(** [select { case <-ctx.Done(): ...; case <-time.After(d): ... }] for [d > 0]: the
    error of the context, or [None] when the timer fired. *)
Definition select_timer (d : Z) : M world (option error) := fun w =>
  match ctx w with
  | Some err => (Ret (Some err), w)
  | None =>
      match waits w with
      | Some err :: l =>
          (Ret (Some err), mk_world (ext w) (wal w) (tracker w) (recorder w) (clock w) (Some err) l)
      | None :: l =>
          (Ret None, mk_world (ext w) (wal w) (tracker w) (recorder w) (clock w + d) None l)
      | [] =>
          (Ret None, mk_world (ext w) (wal w) (tracker w) (recorder w) (clock w + d) None [])
      end
  end.

(** [attempt] counts up to [maxRetries]; [rounds] is how many remain. *)
Fixpoint retry_loop (rounds : nat) (attempt : Z) (lastErr : option error) (sk : Sink X)
    (batch : list IngestRequest) : M world unit :=
  match rounds with
  | O => match lastErr with None => ret tt | Some err => fail err end
  | S rounds =>
      c <- gets ctx ;;
      r <- try (on_ext (sink_Write sk c batch)) ;;
      match r with
      | inr _ => ret tt
      | inl err =>
          if AppErr.IsPermanent (Some err) then fail err
          else if decide (attempt < maxRetries)%Z then
            d <- select_timer (attempt * attempt * 100 * Millisecond)%Z ;;
            match d with
            | Some e => fail e
            | None => retry_loop rounds (attempt + 1) (Some err) sk batch
            end
          else retry_loop rounds (attempt + 1) (Some err) sk batch
      end
  end.

Definition writeWithRetry (sk : Sink X) (batch : list IngestRequest) : M world unit :=
  retry_loop (Z.to_nat maxRetries) 1 None sk batch.

(** Every event of the batch goes to the dead letter queue; its errors are logged. *)
Definition dead_letter (deps : Deps) (name : string) (err : error)
    (batch : list IngestRequest) : M world unit :=
  for_each (fun event =>
    c <- gets ctx ;;
    ignore (on_ext (dlq_Push (deps_DLQ deps) c event name err))) batch.

(** The loop over the sinks: whether all of them took the batch. *)
Fixpoint write_sinks (deps : Deps) (sks : list (Sink X)) (batch : list IngestRequest)
    (allSucceeded : bool) : M world bool :=
  match sks with
  | [] => ret allSucceeded
  | sk :: sks =>
      r <- try (writeWithRetry sk batch) ;;
      match r with
      | inl err => dead_letter deps (sink_Name sk) err batch ;; write_sinks deps sks batch false
      | inr _ => write_sinks deps sks batch allSucceeded
      end
  end.

Definition ack_batch (batch : list IngestRequest) : M world unit :=
  for_each (fun event =>
    r <- load_and_delete (EventId event) ;;
    let '(seqNum, ok) := r in
    if ok : bool then ignore (on_wal (wal_Acknowledge seqNum)) else ret tt) batch.

Definition flush (deps : Deps) (batch : list IngestRequest) : M world unit :=
  start <- gets clock ;;
  allSucceeded <- write_sinks deps (deps_Sinks deps) batch true ;;
  (if allSucceeded : bool then ack_batch batch else ret tt) ;;
  finish <- gets clock ;;
  record (rec_ObserveBatchFlush (finish - start)%Z).

(** A context of its own, live for [drainFlushTimeout]; the worker's is as before when
    it returns or panics. *)
Definition drainFlush (deps : Deps) (batch : list IngestRequest) : M world unit := fun w =>
  let '(r, w') := (set_ctx None ;; flush deps batch) w in
  (r, mk_world (ext w') (wal w') (tracker w') (recorder w') (clock w') (ctx w) (waits w')).

(** What the worker's select delivers next. *)
Inductive signal :=
  | SigDone
  | SigEvent (event : IngestRequest)
  | SigClosed
  | SigTick.

(** The loop over the signals of its select; a run that ends without [SigDone] or
    [SigClosed] is still waiting, with [batch] in hand. *)
Fixpoint worker_loop (cfg : Config) (deps : Deps) (signals : list signal)
    (batch : list IngestRequest) : M world (list IngestRequest) :=
  match signals with
  | [] => ret batch
  | SigDone :: _ | SigClosed :: _ =>
      (if decide (0 < length batch) then drainFlush deps batch else ret tt) ;; ret []
  | SigEvent event :: signals =>
      let batch := batch ++ [event] in
      if decide (BatchSize cfg <= Z.of_nat (length batch))%Z
      then flush deps batch ;; worker_loop cfg deps signals []
      else worker_loop cfg deps signals batch
  | SigTick :: signals =>
      if decide (0 < length batch)
      then flush deps batch ;; worker_loop cfg deps signals []
      else worker_loop cfg deps signals batch
  end.

(** [time.NewTicker] panics on a period that is not positive, [make] on a negative
    capacity. *)
Definition runWorker (cfg : Config) (deps : Deps) (signals : list signal) :
    M world (list IngestRequest) :=
  if decide (BatchSize cfg < 0)%Z then panic "makeslice: cap out of range"
  else if decide (BatchTimeout cfg <= 0)%Z then panic "non-positive interval for NewTicker"
  else worker_loop cfg deps signals [].

(** [recover()] turns a panic into a return with [exited = false]. *)
Definition runWorkerGuarded (cfg : Config) (deps : Deps) (signals : list signal) : M world bool :=
  fun w =>
    match runWorker cfg deps signals w with
    | (Ret _, w) => (Ret true, w)
    | (Panic _, w) => (Ret false, w)
    | (Fail err, w) => (Fail err, w)
    | (Crash, w) => (Crash, w)
    | (NoFuel, w) => (NoFuel, w)
    end.

(** [runs] gives each start of the worker the signals it will see. The result is the
    number of times the worker was started. *)
Fixpoint restart_loop (rounds : nat) (attempt : nat) (cfg : Config) (deps : Deps)
    (runs : nat -> list signal) : M world nat :=
  match rounds with
  | O => ret attempt
  | S rounds =>
      clean <- runWorkerGuarded cfg deps (runs attempt) ;;
      if clean : bool then ret (S attempt)
      else
        record rec_IncWorkerPanics ;;
        if decide (maxRestarts - attempt - 1 = 0) then ret (S attempt)
        else
          d <- select_timer restartCooldown ;;
          match d with
          | Some _ => ret (S attempt)
          | None => restart_loop rounds (S attempt) cfg deps runs
          end
  end.

Definition runWorkerWithRestart (cfg : Config) (deps : Deps) (runs : nat -> list signal) : M world nat :=
  restart_loop maxRestarts 0 cfg deps runs.

(** What Start spawns: [NumWorkers] goroutines, each supervising a worker. A nil log becomes
    [noop], a nil tracker a new one. *)
Definition Start (noop : W) (cfg : Config) (deps : Deps) (wal : option W)
    (tracker : option SeqTracker.SeqTracker) :
    W * SeqTracker.SeqTracker * list ((nat -> list signal) -> M world nat) :=
  (default noop wal, default SeqTracker.NewSeqTracker tracker,
   replicate (Z.to_nat (NumWorkers cfg)) (runWorkerWithRestart cfg deps)).

End Worker.
Arguments world : clear implicits.
Arguments Deps : clear implicits.
End Worker.
