(* ===== verification/WorkerTheorems.v ===== *)
(** Workers: retries, batching, dead letters and acknowledgements. *)
From stdpp Require Import base list strings gmap.
From Stdlib Require Import ZArith Lia.
From S2P Require Import Prelude Errors Go Bytes Proto Duration Wal Metrics Sinks Worker.

Import Worker.

(** ** Retries *)

(** An outside world in which every Write, of any sink, gets the next answer of a list
    of results, and a success once the list is used up. It records the attempts, the
    batches taken and the dead letters. Any run of the sinks is one such list. *)
Module Script.

Record script := mk {
  results : list (option error);
  calls : nat;
  taken : list (string * list IngestRequest);
  letters : list (string * error * IngestRequest)
}.

Definition Write (name : string) (_ : Ctx) (b : list IngestRequest) : M script unit := fun s =>
  match results s with
  | Some err :: rs => (Fail err, mk rs (S (calls s)) (taken s) (letters s))
  | l => (Ret tt, mk (tail l) (S (calls s)) (taken s ++ [(name, b)]) (letters s))
  end.

Definition sink (name : string) : Sink script := mk_sink name (Write name) (ret tt).

Definition Push (_ : Ctx) (e : IngestRequest) (name : string) (err : error) : M script unit :=
  modify (fun s => mk (results s) (calls s) (taken s) (letters s ++ [(name, err, e)])).

Definition deps (names : list string) : Deps script :=
  mk_deps (sink <$> names) (mk_dlq_ops Push (ret tt) "recorded").

(** The specification of a delivery with at most [n] attempts: its result and the
    number of attempts. A success or a permanent error decides at once. *)
Fixpoint outcome (n : nat) (rs : list (option error)) (lastErr : option error) : option error * nat :=
  match n with
  | O => (lastErr, O)
  | S n =>
      match rs with
      | Some err :: rs =>
          if AppErr.IsPermanent (Some err) then (Some err, 1)
          else let '(r, k) := outcome n rs (Some err) in (r, S k)
      | _ => (None, 1)
      end
  end.

(** The pauses before the second and the third attempt. *)
Definition backoff_total (attempts : nat) : Z :=
  match attempts with O | 1 => 0 | 2 => 100 * Millisecond | _ => 500 * Millisecond end.
End Script.

Arguments AppErr.IsPermanent : simpl never.

(** The outside after [k] attempts to deliver a batch to a sink, with result [r]. *)
Definition after_attempts (r : option error) (k : nat) (name : string) (batch : list IngestRequest)
    (s : Script.script) : Script.script :=
  Script.mk (drop k (Script.results s)) (Script.calls s + k)
    (Script.taken s ++ match r with None => [(name, batch)] | Some _ => [] end) (Script.letters s).

(** The end of a delivery: everything is computed. *)
Ltac attempt_done :=
  unfold after_attempts; cbn; unfold Millisecond;
  rewrite ?drop_0, ?app_nil_r; split; [do 2 f_equal; first [lia|f_equal; lia]|lia].

Lemma retry_outcome {W R : Type} `{WALW : WAL W} `{RecorderR : Recorder R}
    (w : world Script.script W R) (name : string) (batch : list IngestRequest) :
  ctx w = None -> waits w = [] ->
  let '(r, k) := Script.outcome 3 (Script.results (ext w)) None in
  writeWithRetry (Script.sink name) batch w =
    (match r with None => Ret tt | Some err => Fail err end,
     mk_world (after_attempts r k name batch (ext w)) (wal w) (tracker w) (recorder w)
       (clock w + Script.backoff_total k) None []) /\
  1 <= k <= 3.
Proof.
  destruct w as [[rs n tk ls] wl t rc ck c ws]. cbn [ctx waits]. intros -> ->.
  change (@writeWithRetry Script.script W R (Script.sink name) batch)
    with (@retry_loop Script.script W R 3 1 None (Script.sink name) batch).
  do 3 (destruct rs as [|[?|] rs]; cbn; try attempt_done;
        case (AppErr.IsPermanent (Some _)); cbn; try attempt_done;
        first [rewrite decide_True by (unfold maxRetries; lia)
              |rewrite decide_False by (unfold maxRetries; lia)]; cbn); attempt_done.
Qed.

(** C22. Delivery to one sink, whatever it answers: at most three attempts, no retry
    after a permanent error, success as soon as one attempt succeeds, otherwise the
    last error; 100 ms before the second attempt and 400 ms before the third; the
    log and the tracker are not touched. *)
Theorem writeWithRetry_spec {W R : Type} `{WALW : WAL W} `{RecorderR : Recorder R}
    (w : world Script.script W R) (name : string) (batch : list IngestRequest) :
  ctx w = None -> waits w = [] ->
  let '(r, k) := Script.outcome 3 (Script.results (ext w)) None in
  exists w', writeWithRetry (Script.sink name) batch w =
      (match r with None => Ret tt | Some err => Fail err end, w') /\
    1 <= k <= 3 /\
    Script.calls (ext w') = Script.calls (ext w) + k /\
    Script.taken (ext w') =
      Script.taken (ext w) ++ match r with None => [(name, batch)] | Some _ => [] end /\
    clock w' = (clock w + Script.backoff_total k)%Z /\
    wal w' = wal w /\ tracker w' = tracker w.
Proof.
  intros Hc Hw. pose proof (retry_outcome w name batch Hc Hw) as H.
  destruct (Script.outcome 3 _ None) as [r k]. destruct H as [H Hk].
  eexists. split; [exact H|]. by split_and!; try lia.
Qed.

(** Two refusals, then success: three attempts and half a second. *)
Definition flaky_world : world Script.script NoOpWAL.NoOpWAL MockRecorder.MockRecorder :=
  mk_world (Script.mk [Some (ErrNew "busy"); Some (ErrNew "busy"); None] 0 [] [])
    NoOpWAL.NewNoOpWAL SeqTracker.NewSeqTracker None 0 None [].

Lemma writeWithRetry_spec_witness :
  Script.outcome 3 (Script.results (ext flaky_world)) None = (None, 3) /\
  exists w', writeWithRetry (Script.sink "s") [] flaky_world = (Ret tt, w') /\
    Script.calls (ext w') = 3 /\ clock w' = (500 * Millisecond)%Z.
Proof.
  split; [reflexivity|].
  destruct (writeWithRetry_spec flaky_world "s" [] eq_refl eq_refl) as (w' & H1 & _ & H2 & _ & H3 & _).
  exists w'. split; [exact H1|]. split; [exact H2|exact H3].
Defined.

(** ** Batching *)

(** The flushes a worker performs on a sequence of signals, and the batch it is left
    with: [true] marks a flush on the way out. *)
Fixpoint plan (size : Z) (signals : list signal) (batch : list IngestRequest) :
    list (bool * list IngestRequest) * list IngestRequest :=
  match signals with
  | [] => ([], batch)
  | SigDone :: _ | SigClosed :: _ => (if decide (0 < length batch) then [(true, batch)] else [], [])
  | SigEvent e :: signals =>
      let batch := batch ++ [e] in
      if decide (size <= Z.of_nat (length batch))%Z
      then let '(l, rest) := plan size signals [] in ((false, batch) :: l, rest)
      else plan size signals batch
  | SigTick :: signals =>
      if decide (0 < length batch)
      then let '(l, rest) := plan size signals [] in ((false, batch) :: l, rest)
      else plan size signals batch
  end.

(** The events a worker receives before it is told to stop. *)
Fixpoint received_events (signals : list signal) : list IngestRequest :=
  match signals with
  | [] | SigDone :: _ | SigClosed :: _ => []
  | SigEvent e :: signals => e :: received_events signals
  | SigTick :: signals => received_events signals
  end.

Definition stops (signals : list signal) : bool :=
  existsb (fun s => match s with SigDone | SigClosed => true | _ => false end) signals.

Section batching.
Context {X W R : Type} `{WALW : WAL W} `{RecorderR : Recorder R}.

Definition run_plan (deps : Deps X) (l : list (bool * list IngestRequest)) : M (world X W R) unit :=
  for_each (fun p => if p.1 : bool then drainFlush deps p.2 else flush deps p.2) l.

Lemma bind_ext {S A B} (m : M S A) (k k' : A -> M S B) w :
  (forall a w', k a w' = k' a w') -> bind m k w = bind m k' w.
Proof. intros H. unfold bind. by destruct (m w) as [[] w']. Qed.

Lemma bind_assoc {S A B D} (m : M S A) (k : A -> M S B) (l : B -> M S D) w :
  bind (bind m k) l w = bind m (fun a => bind (k a) l) w.
Proof. unfold bind. by destruct (m w) as [[] w']. Qed.

Lemma worker_loop_plan cfg (deps : Deps X) signals : forall batch (w : world X W R),
  worker_loop cfg deps signals batch w =
    bind (run_plan deps (fst (plan (BatchSize cfg) signals batch)))
      (fun _ => ret (snd (plan (BatchSize cfg) signals batch))) w.
Proof.
  induction signals as [|[|e| |] signals IH]; intros batch w; cbn [worker_loop plan]; [done|..].
  - case_decide; [|done]. cbn [fst snd run_plan for_each]. rewrite bind_assoc. done.
  - case_decide; [|apply IH].
    pose proof (fun w => IH [] w) as IH0. destruct (plan (BatchSize cfg) signals []) as [l rest].
    cbn [fst snd run_plan for_each] in *. rewrite bind_assoc.
    apply bind_ext. intros [] w'. apply IH0.
  - case_decide; [|done]. cbn [fst snd run_plan for_each]. rewrite bind_assoc. done.
  - case_decide; [|apply IH].
    pose proof (fun w => IH [] w) as IH0. destruct (plan (BatchSize cfg) signals []) as [l rest].
    cbn [fst snd run_plan for_each] in *. rewrite bind_assoc.
    apply bind_ext. intros [] w'. apply IH0.
Qed.
End batching.

(** What [plan] guarantees, from any batch below the limit. *)
Lemma plan_spec size signals : (0 < size)%Z -> forall batch,
  (Z.of_nat (length batch) < size)%Z ->
  let '(l, rest) := plan size signals batch in
  (l.*2 ≫= id) ++ rest = batch ++ received_events signals /\
  Forall (fun p => 0 < length p.2 /\ (Z.of_nat (length p.2) <= size)%Z) l /\
  (Z.of_nat (length rest) < size)%Z /\
  (stops signals = true -> rest = []).
Proof.
  intros Hsize.
  assert (forall batch, (Z.of_nat (length batch) < size)%Z ->
    let '(l, rest) := ((if decide (0 < length batch) then [(true, batch)] else []), []) in
    (l.*2 ≫= id) ++ rest = batch ++ ([] : list IngestRequest) /\
    Forall (fun p : bool * list IngestRequest => 0 < length p.2 /\ (Z.of_nat (length p.2) <= size)%Z) l /\
    (Z.of_nat (length rest) < size)%Z /\ (rest : list IngestRequest) = []) as Hstop.
  { intros batch Hb. case_decide; simpl.
    - split_and!; [by rewrite !app_nil_r| |lia|done]. constructor; [simpl; lia|constructor].
    - assert (batch = []) as -> by (destruct batch; [done|simpl in *; lia]).
      split_and!; [done|constructor|lia|done]. }
  induction signals as [|[|e| |] signals IH]; intros batch Hb; cbn [plan received_events stops existsb].
  - split_and!; [by rewrite app_nil_r|constructor|done|done].
  - specialize (Hstop batch Hb). naive_solver.
  - case_decide as Hd.
    + specialize (IH [] ltac:(simpl; lia)). destruct (plan size signals []) as [l rest].
      destruct IH as (H1 & H2 & H3 & H4). split_and!; [|constructor; [|done]|done|done].
      * change (((false, batch ++ [e]) :: l).*2 ≫= id) with ((batch ++ [e]) ++ (l.*2 ≫= id)).
        rewrite <- (assoc_L (++)), H1. by rewrite <- (assoc_L (++)).
      * simpl. rewrite length_app in *. simpl in *. lia.
    + specialize (IH (batch ++ [e]) ltac:(lia)). destruct (plan size signals _) as [l rest].
      destruct IH as (H1 & H2 & H3 & H4). split_and!; [|done..].
      rewrite H1. by rewrite <- (assoc_L (++)).
  - specialize (Hstop batch Hb). naive_solver.
  - case_decide as Hd.
    + specialize (IH [] ltac:(simpl; lia)). destruct (plan size signals []) as [l rest].
      destruct IH as (H1 & H2 & H3 & H4). split_and!; [|constructor; [|done]|done|done].
      * change (((false, batch) :: l).*2 ≫= id) with (batch ++ (l.*2 ≫= id)).
        by rewrite <- (assoc_L (++)), H1.
      * simpl. lia.
    + specialize (IH batch Hb). destruct (plan size signals _) as [l rest]. done.
Qed.

(** C8. A worker neither loses, repeats nor reorders what it receives: on any sequence of
    events, ticks and stops its run is a sequence of flushes whose batches, with
    the batch in hand, are the received events in order; every batch has between one
    and BatchSize events; and once it was told to stop nothing is left in hand. *)
Theorem worker_flushes_partition_events {X W R : Type} `{WALW : WAL W} `{RecorderR : Recorder R}
    (cfg : Config) (deps : Deps X) (signals : list signal) (w : world X W R) :
  (0 < BatchSize cfg)%Z -> (0 < BatchTimeout cfg)%Z ->
  exists l rest,
    runWorker cfg deps signals w = bind (run_plan deps l) (fun _ => ret rest) w /\
    (l.*2 ≫= id) ++ rest = received_events signals /\
    Forall (fun p => 0 < length p.2 /\ (Z.of_nat (length p.2) <= BatchSize cfg)%Z) l /\
    (stops signals = true -> rest = []).
Proof.
  intros Hs Ht. pose proof (plan_spec (BatchSize cfg) signals Hs [] ltac:(simpl; lia)) as Hp.
  pose proof (worker_loop_plan cfg deps signals [] w) as Hrun.
  destruct (plan (BatchSize cfg) signals []) as [l rest]. exists l, rest.
  destruct Hp as (H1 & H2 & _ & H4). split_and!; [|done..].
  unfold runWorker. rewrite !decide_False by lia. exact Hrun.
Qed.

Definition tick_run : list signal :=
  let e i := mk_event i "" "" 0 "" in
  [SigEvent (e "a"); SigEvent (e "b"); SigEvent (e "c"); SigTick; SigTick; SigEvent (e "d"); SigDone].

Definition one_sink : Deps Script.script := Script.deps ["s"%string].

Lemma worker_flushes_partition_events_witness :
  exists l,
    runWorker (mk_cfg 1 2 Second) one_sink tick_run flaky_world =
      bind (run_plan one_sink l) (fun _ => ret []) flaky_world /\
    map EventId (l.*2 ≫= id) = ["a"; "b"; "c"; "d"]%string /\
    Forall (fun p => 0 < length p.2 /\ (Z.of_nat (length p.2) <= 2)%Z) l.
Proof.
  destruct (worker_flushes_partition_events (mk_cfg 1 2 Second) one_sink
    tick_run flaky_world ltac:(reflexivity) ltac:(reflexivity))
    as (l & rest & H1 & H2 & H3 & H4).
  specialize (H4 eq_refl). subst rest. exists l. split; [exact H1|]. split; [|exact H3].
  rewrite app_nil_r in H2. rewrite H2. reflexivity.
Defined.
