(* ===== verification/WorkerGuard.v ===== *)
(** Workers that panic: the bound on restarts, and where failed batches go. *)
From stdpp Require Import base list strings gmap.
From Stdlib Require Import ZArith Lia.
From S2P Require Import Prelude Errors Go Bytes Proto Duration Wal Metrics Sinks Worker WorkerTheorems.

Import Worker.

(** ** Calls that come back

    [comes_back fails I m]: from [I], the call returns or panics, or fails if [fails]
    allows it, and [I] holds again; it neither kills the process nor hangs. *)
Definition comes_back {S A} (fails : bool) (I : S -> Prop) (m : M S A) : Prop :=
  forall s, I s ->
    match m s with
    | (Ret _, s') | (Panic _, s') => I s'
    | (Fail _, s') => fails = true /\ I s'
    | (Crash, _) | (NoFuel, _) => False
    end.

Create HintDb comes_back.

Section rules.
Context {S : Type} (I : S -> Prop).

Lemma cb_bind {A B} b (m : M S A) (k : A -> M S B) :
  comes_back b I m -> (forall a, comes_back b I (k a)) -> comes_back b I (bind m k).
Proof.
  intros Hm Hk s Hs. specialize (Hm s Hs). unfold bind.
  destruct (m s) as [[] s']; try exact Hm. by apply Hk.
Qed.

Lemma cb_try {A} b (m : M S A) : comes_back true I m -> comes_back b I (try m).
Proof. intros Hm s Hs. specialize (Hm s Hs). unfold try. destruct (m s) as [[] s']; tauto. Qed.

Lemma cb_ignore {A} b (m : M S A) : comes_back true I m -> comes_back b I (ignore m).
Proof. intros Hm. apply cb_bind; [by apply cb_try|]. by intros ? ?. Qed.

Lemma cb_for_each {A} b (f : A -> M S unit) (l : list A) :
  (forall x, comes_back b I (f x)) -> comes_back b I (for_each f l).
Proof. intros Hf. induction l; [by intros ? ?|by apply cb_bind]. Qed.

Lemma cb_ret {A} b (a : A) : comes_back b I (ret a).
Proof. by intros s Hs. Qed.
Lemma cb_gets {A} b (f : S -> A) : comes_back b I (gets f).
Proof. by intros s Hs. Qed.
Lemma cb_fail {A} e : comes_back true I (fail e : M S A).
Proof. by intros s Hs. Qed.
Lemma cb_modify b f : (forall s, I s -> I (f s)) -> comes_back b I (modify f).
Proof. intros H s Hs. by apply H. Qed.
End rules.
#[export] Hint Resolve cb_bind cb_try cb_ignore cb_for_each cb_ret cb_gets cb_fail : comes_back.

(** What a worker needs of the outside: sinks, the dead letter queue and the log may
    fail and panic, but they come back. *)
Class Responsive {X W : Type} `{WALW : WAL W} (deps : Deps X) := {
  write_comes_back : forall sk c b, sk ∈ deps_Sinks deps ->
    comes_back true (fun _ => True) (sink_Write sk c b);
  letter_comes_back : forall c e n err,
    comes_back true (fun _ => True) (dlq_Push (deps_DLQ deps) c e n err);
  ack_comes_back : forall n, comes_back true (fun _ => True) (wal_Acknowledge (W := W) n)
}.

Section restart.
Context {X W : Type} `{WALW : WAL W} (deps : Deps X) `{RE : !Responsive deps}.

Notation wld := (world X W MockRecorder.MockRecorder).

(** The recorder has counted [p] panics. *)
Definition panics (p : Z) (w : wld) : Prop :=
  exists m, recorder w = Some m /\ MockRecorder.workerPanics m = p.

Lemma cb_on_ext {A} p (m : M X A) :
  comes_back true (fun _ => True) m -> comes_back true (panics p) (on_ext m : M wld A).
Proof.
  intros Hm w Hw. specialize (Hm (ext w) I). unfold on_ext.
  destruct (m (ext w)) as [[] x]; simpl; done.
Qed.

Lemma cb_on_wal {A} p (m : M W A) :
  comes_back true (fun _ => True) m -> comes_back true (panics p) (on_wal m : M wld A).
Proof.
  intros Hm w Hw. specialize (Hm (wal w) I). unfold on_wal.
  destruct (m (wal w)) as [[] x]; simpl; done.
Qed.

Lemma cb_select_timer b p d : comes_back b (panics p) (select_timer d : M wld _).
Proof.
  intros w Hw. unfold select_timer. destruct (ctx w); [done|].
  by destruct (waits w) as [|[err|] l].
Qed.

Lemma cb_load_and_delete b p id : comes_back b (panics p) (load_and_delete id : M wld _).
Proof. intros w Hw. unfold load_and_delete. by destruct (SeqTracker.LoadAndDelete id (tracker w)). Qed.

Lemma cb_retry_loop p sk batch : sk ∈ deps_Sinks deps -> forall rounds attempt lastErr,
  comes_back true (panics p) (retry_loop rounds attempt lastErr sk batch : M wld _).
Proof.
  intros Hsk. induction rounds as [|rounds IH]; intros attempt lastErr; simpl.
  { destruct lastErr; auto with comes_back. }
  apply cb_bind; [auto with comes_back|]. intros c.
  apply cb_bind; [apply cb_try, cb_on_ext; by apply write_comes_back|]. intros [err|[]]; [|auto with comes_back].
  destruct (AppErr.IsPermanent (Some err)); [auto with comes_back|].
  case_decide; [|apply IH].
  apply cb_bind; [apply cb_select_timer|]. intros [e|]; auto with comes_back.
Qed.

Lemma cb_write_sinks p batch sks : (forall sk, sk ∈ sks -> sk ∈ deps_Sinks deps) -> forall all,
  comes_back false (panics p) (write_sinks deps sks batch all : M wld _).
Proof.
  induction sks as [|sk sks IH]; intros Hin all; simpl; [auto with comes_back|].
  apply cb_bind; [apply cb_try, cb_retry_loop, Hin; by left|].
  intros [err|[]]; [|apply IH; intros; apply Hin; by right].
  apply cb_bind; [|intros []; apply IH; intros; apply Hin; by right].
  apply cb_for_each. intros e. apply cb_bind; [auto with comes_back|]. intros c.
  apply cb_ignore, cb_on_ext, letter_comes_back.
Qed.

Lemma cb_record b p f :
  (forall m : MockRecorder.MockRecorder, MockRecorder.workerPanics (f m) = MockRecorder.workerPanics m) ->
  comes_back b (panics p) (record f : M wld _).
Proof.
  intros Hf. apply cb_modify. intros w (m & Hm & Hp). exists (f m). simpl.
  rewrite Hm. simpl. split; [done|]. by rewrite Hf.
Qed.

Lemma cb_flush p batch : comes_back false (panics p) (flush deps batch : M wld _).
Proof.
  unfold flush. apply cb_bind; [auto with comes_back|]. intros start.
  apply cb_bind; [by apply cb_write_sinks|]. intros all.
  apply cb_bind; [|intros []; apply cb_bind; [auto with comes_back|]; intros finish; by apply cb_record].
  destruct all; [|auto with comes_back]. apply cb_for_each. intros e.
  apply cb_bind; [apply cb_load_and_delete|]. intros [n [|]]; [|auto with comes_back].
  apply cb_ignore, cb_on_wal, ack_comes_back.
Qed.

Lemma cb_drainFlush p batch : comes_back false (panics p) (drainFlush deps batch : M wld _).
Proof.
  intros w Hw. unfold drainFlush, set_ctx, bind at 1, modify. cbv beta iota.
  match goal with |- context [flush deps batch ?w0] => pose proof (cb_flush p batch w0 Hw) as H end.
  destruct (flush deps batch _) as [[] w']; done || (split; [by destruct H|]). all: exact H || apply H.
Qed.

Lemma cb_worker_loop cfg p signals : forall batch,
  comes_back false (panics p) (worker_loop cfg deps signals batch : M wld _).
Proof.
  induction signals as [|[|e| |] signals IH]; intros batch; simpl; [auto with comes_back|..].
  all: case_decide; try apply IH; apply cb_bind; intros;
    eauto using cb_flush, cb_drainFlush with comes_back.
Qed.

Lemma cb_runWorker cfg p signals : comes_back false (panics p) (runWorker cfg deps signals : M wld _).
Proof.
  unfold runWorker. repeat case_decide; try (by intros w Hw). apply cb_worker_loop.
Qed.

(** A guarded run always returns; it counts nothing itself. *)
Lemma runWorkerGuarded_returns cfg p signals (w : wld) : panics p w ->
  exists clean w', runWorkerGuarded cfg deps signals w = (Ret clean, w') /\ panics p w'.
Proof.
  intros Hw. pose proof (cb_runWorker cfg p signals w Hw) as H. unfold runWorkerGuarded.
  destruct (runWorker cfg deps signals w) as [[] w']; [eauto|by destruct H|eauto|done|done].
Qed.

(** The starts [n] of a worker, and the panics they counted: the last start ended
    cleanly, or it panicked and was the last allowed, or the context was done. *)
Definition starts_counted (attempt n : nat) (p : Z) (w : wld) : Prop :=
  panics (p + Z.of_nat (n - attempt) - 1) w \/
  panics (p + Z.of_nat (n - attempt)) w /\ (n = maxRestarts \/ ctx w <> None).

Lemma restart_loop_counts cfg runs rounds : forall attempt p (w : wld),
  rounds + attempt = maxRestarts -> 0 < rounds -> (0 <= p)%Z -> (p + Z.of_nat rounds < 2 ^ 63)%Z ->
  panics p w ->
  exists n w', restart_loop rounds attempt cfg deps runs w = (Ret n, w') /\
    attempt < n <= maxRestarts /\ starts_counted attempt n p w'.
Proof.
  induction rounds as [|rounds IH]; intros attempt p w Hr Hpos Hp Hp' Hw; [lia|]. cbn [restart_loop].
  destruct (runWorkerGuarded_returns cfg p (runs attempt) w Hw) as (clean & w1 & H1 & Hw1).
  rewrite (bind_run_Ret _ _ _ _ _ H1). destruct clean.
  { exists (S attempt), w1. split_and!; [done|lia|unfold maxRestarts in *; lia|left].
    by replace (p + Z.of_nat (S attempt - attempt) - 1)%Z with p by lia. }
  set (w2 := mk_world (ext w1) (wal w1) (tracker w1)
               (with_recorder rec_IncWorkerPanics (recorder w1)) (clock w1) (ctx w1) (waits w1)).
  rewrite (bind_run_Ret (record rec_IncWorkerPanics) _ w1 tt w2 eq_refl).
  assert (panics (p + 1) w2) as Hw2.
  { destruct Hw1 as (m & Hm & Hpm). exists (MockRecorder.IncWorkerPanics m). simpl. rewrite Hm.
    split; [done|]. simpl. rewrite Hpm. apply MockRecorder.int64_succ_id. lia. }
  assert (forall w3 : wld, panics (p + 1) w3 -> S attempt = maxRestarts \/ ctx w3 <> None ->
    starts_counted attempt (S attempt) p w3) as Hlast.
  { intros w3 H3 Hor. right. split; [|done].
    by replace (p + Z.of_nat (S attempt - attempt))%Z with (p + 1)%Z by lia. }
  case_decide as Hd.
  { exists (S attempt), w2. split_and!; [done|lia|lia|]. apply Hlast; [done|left; lia]. }
  pose proof (cb_select_timer true (p + 1) restartCooldown w2 Hw2) as Hs.
  unfold bind at 1. destruct (select_timer restartCooldown w2) as [r w3] eqn:Hsel.
  assert (exists d, r = Ret d /\ (d <> None -> ctx w3 <> None)) as (d & -> & Hctx).
  { clear -Hsel. unfold select_timer in Hsel. destruct (ctx w2) as [e|] eqn:Hc.
    - injection Hsel as <- <-. exists (Some e). rewrite Hc. done.
    - destruct (waits w2) as [|[e|] l]; injection Hsel as <- <-; eexists; by split. }
  destruct d as [e|].
  { exists (S attempt), w3. split_and!; [done|lia|lia|]. apply Hlast; [done|right; by apply Hctx]. }
  destruct (IH (S attempt) (p + 1)%Z w3 ltac:(lia) ltac:(lia) ltac:(lia) ltac:(lia) Hs)
    as (n & w4 & H4 & Hn & Hcount).
  exists n, w4. split_and!; [done|lia|lia|]. unfold starts_counted in *.
  by replace (p + Z.of_nat (n - attempt))%Z with (p + 1 + Z.of_nat (n - S attempt))%Z by lia.
Qed.
End restart.


(** A sink that panics on every batch, at a worker that gets one event per start. *)
Definition poison_sink : Sink unit := mk_sink "poison" (fun _ _ => panic "nil pointer") (ret tt).
Definition poison_deps : Deps unit :=
  mk_deps [poison_sink] (mk_dlq_ops (fun _ _ _ _ => ret tt) (ret tt) "discard").
Definition poison_world : world unit NoOpWAL.NoOpWAL MockRecorder.MockRecorder :=
  mk_world tt NoOpWAL.NewNoOpWAL SeqTracker.NewSeqTracker (Some MockRecorder.NewMock) 0 None [].

#[export] Instance poison_responsive : Responsive (W := NoOpWAL.NoOpWAL) poison_deps.
Proof.
  split.
  - intros sk c b Hsk. apply list_elem_of_singleton in Hsk as ->. by intros [] _.
  - by intros c e n err [] _.
  - by intros n s _.
Qed.


(** That worker: five starts, five panics, four pauses of a second. *)
Example poison_run :
  match runWorkerWithRestart (mk_cfg 1 1 Second) poison_deps
      (fun _ => [SigEvent (mk_event "a" "" "" 0 "")]) poison_world with
  | (Ret n, w') => n = 5 /\ clock w' = (4 * Second)%Z /\
      (MockRecorder.workerPanics <$> recorder w') = Some 5%Z
  | _ => False
  end.
Proof. vm_compute. repeat split. Qed.

(** ** Where the events of a batch go *)

(** A log that only remembers which numbers were acknowledged. *)
Module AckLog.
#[global] Instance wal : WAL (list Z) := {|
  wal_Append _ := ret 0%Z;
  wal_Acknowledge n := modify (fun l => l ++ [n]);
  wal_Recover := ret [];
  wal_Close := ret tt
|}.
End AckLog.

(** The sinks that refuse the batch, each with its error, those that take it, and the
    answers left. *)
Fixpoint route (names : list string) (rs : list (option error)) :
    list (string * error) * list string * list (option error) :=
  match names with
  | [] => ([], [], rs)
  | n :: names =>
      let '(r, k) := Script.outcome 3 rs None in
      let '(failed, took, rest) := route names (drop k rs) in
      match r with
      | Some err => ((n, err) :: failed, took, rest)
      | None => (failed, n :: took, rest)
      end
  end.

(** Every event of the batch, once for each sink that refused it. *)
Definition letters_of (batch : list IngestRequest) (failed : list (string * error)) :
    list (string * error * IngestRequest) :=
  failed ≫= (fun p => (fun e => (p, e)) <$> batch).

Section routing.
Context {R : Type} `{RecorderR : Recorder R}.

Notation wld := (world Script.script (list Z) R).

Definition same_but_outside (w w' : wld) : Prop :=
  wal w' = wal w /\ tracker w' = tracker w /\ ctx w' = None /\ waits w' = [].

Lemma dead_letter_run names name err batch : forall w : wld, ctx w = None -> waits w = [] ->
  exists w', dead_letter (Script.deps names) name err batch w = (Ret tt, w') /\
    same_but_outside w w' /\
    Script.results (ext w') = Script.results (ext w) /\
    Script.taken (ext w') = Script.taken (ext w) /\
    Script.letters (ext w') = Script.letters (ext w) ++ ((fun e => (name, err, e)) <$> batch).
Proof.
  unfold dead_letter. induction batch as [|e batch IH]; intros w Hc Hw.
  { exists w. split_and!; try done. by rewrite app_nil_r. }
  cbn [for_each].
  set (w1 := mk_world (Script.mk (Script.results (ext w)) (Script.calls (ext w)) (Script.taken (ext w))
               (Script.letters (ext w) ++ [(name, err, e)]))
               (wal w) (tracker w) (recorder w) (clock w) (ctx w) (waits w)).
  rewrite (bind_run_Ret _ _ w tt w1) by reflexivity.
  destruct (IH w1 Hc Hw) as (w' & H1 & H2 & H3 & H4 & H5).
  exists w'. split_and!; [exact H1|apply H2..|exact H3|exact H4|].
  rewrite H5. simpl. by rewrite <- (assoc_L (++)).
Qed.

Lemma write_sinks_route all batch names : forall w : wld, ctx w = None -> waits w = [] -> forall acc,
  let '(failed, took, rest) := route names (Script.results (ext w)) in
  exists w', write_sinks (Script.deps all) (Script.sink <$> names) batch acc w =
      (Ret (acc && bool_decide (failed = [])), w') /\
    same_but_outside w w' /\
    Script.results (ext w') = rest /\
    Script.taken (ext w') = Script.taken (ext w) ++ ((fun n => (n, batch)) <$> took) /\
    Script.letters (ext w') = Script.letters (ext w) ++ letters_of batch failed.
Proof.
  induction names as [|n names IH]; intros w Hc Hw acc; cbn [route write_sinks fmap list_fmap].
  { exists w. split_and!; try done; [|by rewrite app_nil_r..].
    by rewrite bool_decide_true, andb_true_r. }
  pose proof (retry_outcome w n batch Hc Hw) as H.
  destruct (Script.outcome 3 (Script.results (ext w)) None) as [r k]. destruct H as [H _].
  set (w1 := mk_world _ _ _ _ _ _ _) in H.
  unfold bind at 1, try. rewrite H. destruct r as [err|]; cbv beta iota.
  - destruct (dead_letter_run all n err batch w1 eq_refl eq_refl)
      as (w2 & H2 & (Hw2 & Ht2 & Hc2 & Hx2) & Hr2 & Hk2 & Hl2).
    cbn [sink_Name Script.sink]. rewrite (bind_run_Ret _ _ _ _ _ H2).
    specialize (IH w2 Hc2 Hx2 false). rewrite Hr2 in IH. cbn [Script.results ext w1 after_attempts] in IH.
    destruct (route names _) as [[failed took] rest].
    destruct IH as (w3 & H3 & (Hw3 & Ht3 & Hc3 & Hx3) & Hr3 & Hk3 & Hl3).
    exists w3. rewrite H3. split_and!; try done; [by rewrite andb_false_r|by unfold same_but_outside; rewrite Hw3, Ht3, Hw2, Ht2| |].
    + rewrite Hk3, Hk2. simpl. by rewrite app_nil_r.
    + rewrite Hl3, Hl2. simpl. by rewrite <- (assoc_L (++)).
  - specialize (IH w1 eq_refl eq_refl acc). cbn [Script.results ext w1 after_attempts] in IH.
    destruct (route names _) as [[failed took] rest].
    destruct IH as (w3 & H3 & (Hw3 & Ht3 & Hc3 & Hx3) & Hr3 & Hk3 & Hl3).
    exists w3. rewrite H3. split_and!; try done. rewrite Hk3. simpl. by rewrite <- (assoc_L (++)).
Qed.

(** The numbers the tracker has for the events of a batch. *)
Definition numbers (t : SeqTracker.SeqTracker) (batch : list IngestRequest) : list Z :=
  omap (fun e => SeqTracker.data t !! EventId e) batch.

Lemma ack_batch_run batch : NoDup (EventId <$> batch) -> forall w : wld,
  exists w', ack_batch batch w = (Ret tt, w') /\
    ext w' = ext w /\ wal w' = wal w ++ numbers (tracker w) batch /\
    (forall id, SeqTracker.data (tracker w') !! id =
       if decide (id ∈ EventId <$> batch) then None else SeqTracker.data (tracker w) !! id).
Proof.
  unfold ack_batch. induction batch as [|e batch IH]; intros Hnd w.
  { exists w. split_and!; [done|done|by rewrite app_nil_r|done]. }
  apply NoDup_cons in Hnd as [Hnin Hnd]. cbn [for_each].
  set (t1 := SeqTracker.mk (delete (EventId e) (SeqTracker.data (tracker w)))).
  set (w1 := mk_world (ext w) (wal w ++ numbers (tracker w) [e]) t1 (recorder w) (clock w) (ctx w) (waits w)).
  rewrite (bind_run_Ret _ _ w tt w1).
  2: { unfold bind at 1, load_and_delete, SeqTracker.LoadAndDelete, w1, t1, numbers. simpl.
       destruct (SeqTracker.data (tracker w) !! EventId e) as [n|] eqn:He; [done|].
       rewrite app_nil_r, delete_id by done. by destruct w as [? ? [] ? ? ? ?]. }
  destruct (IH Hnd w1) as (w' & H1 & H2 & H3 & H4).
  exists w'. split_and!; [exact H1|exact H2| |].
  - rewrite H3. cbn [wal w1]. rewrite <- (assoc_L (++)). f_equal.
    change (numbers (tracker w) (e :: batch)) with (numbers (tracker w) ([e] ++ batch)).
    unfold numbers at 3. rewrite omap_app. f_equal. apply list_omap_ext, Forall_Forall2_diag, Forall_forall.
    intros e' He'. simpl. rewrite lookup_delete_ne; [done|]. intros Heq. apply Hnin.
    rewrite Heq. by apply list_elem_of_fmap_2.
  - intros i. rewrite H4. cbn [tracker w1 t1 SeqTracker.data fmap list_fmap].
    destruct (decide (i = EventId e)) as [->|Hne].
    + rewrite decide_False by done. rewrite decide_True by (by left). apply lookup_delete_eq.
    + rewrite lookup_delete_ne by done. apply decide_ext. rewrite elem_of_cons. tauto.
Qed.
End routing.


(** Two sinks: the first refuses with a permanent error, the second takes the batch. *)
Definition split_world : world Script.script (list Z) MockRecorder.MockRecorder :=
  mk_world (Script.mk [Some (AppErr.NewPermanent "a" (ErrNew "400"))] 0 [] [])
    [] (SeqTracker.Store "x" 7 SeqTracker.NewSeqTracker) None 0 None [].

