(* ===== verification/WorkerDrain.v ===== *)
(** What becomes of the events a worker has received once it is told to stop. *)
From stdpp Require Import base list strings gmap.
From Stdlib Require Import ZArith Lia.
From S2P Require Import Prelude Errors Go Bytes Proto Duration Wal Metrics Sinks Worker WorkerTheorems.

Import Worker.

(** The sink [n] took [e] in a batch, or [e] is in the dead letter queue under its name. *)
Definition disposed (n : string) (e : IngestRequest) (x : Script.script) : Prop :=
  (exists b, (n, b) ∈ Script.taken x /\ e ∈ b) \/ (exists err, (n, err, e) ∈ Script.letters x).

(** Nothing is taken back. *)
Definition grows (x x' : Script.script) : Prop :=
  Script.taken x ⊆ Script.taken x' /\ Script.letters x ⊆ Script.letters x'.

#[export] Instance grows_preorder : PreOrder grows.
Proof. split; [by intros x|]. intros x y z [] []. split; by etrans. Qed.

Lemma disposed_grows n e x x' : grows x x' -> disposed n e x -> disposed n e x'.
Proof. intros [Ht Hl] [(b & Hb & He)|[err He]]; [left|right]; eauto. Qed.

(** The call comes back with a value or an error. *)
Definition comes_back {S A} (m : M S A) : Prop :=
  forall s, match fst (m s) with Ret _ | Fail _ => True | _ => False end.

Section drain.
Context {W R : Type} `{WALW : WAL W} `{RecorderR : Recorder R}.
Context (Hack : forall n, comes_back (wal_Acknowledge (W := W) n)) (names : list string).

Notation wld := (world Script.script W R).
Notation deps := (Script.deps names).

(** [m] returns, and what it returns and leaves outside is in [Q]; the outside only grows. *)
Definition leaves {A} (m : M wld A) (Q : A -> Script.script -> Prop) : Prop :=
  forall w, match m w with
            | (Ret a, w') => grows (ext w) (ext w') /\ Q a (ext w')
            | _ => False
            end.

Lemma leaves_bind {A B} (m : M wld A) (k : A -> M wld B) Q T :
  leaves m Q -> (forall a, leaves (k a) (fun b x => (forall x0, grows x0 x -> Q a x0 -> T b x))) ->
  leaves (bind m k) T.
Proof.
  intros Hm Hk w. specialize (Hm w). unfold bind. destruct (m w) as [[a| | | |] w1]; try done.
  destruct Hm as [Hg HQ]. specialize (Hk a w1). destruct (k a w1) as [[b| | | |] w2]; try done.
  destruct Hk as [Hg2 HT]. split; [by etrans|]. by apply (HT (ext w1)).
Qed.

Lemma leaves_conseq {A} (m : M wld A) (Q Q' : A -> Script.script -> Prop) :
  leaves m Q -> (forall a x, Q a x -> Q' a x) -> leaves m Q'.
Proof. intros Hm HQ w. specialize (Hm w). destruct (m w) as [[] w']; naive_solver. Qed.

(** A call that does not touch the outside. *)
Lemma leaves_quiet {A} (m : M wld A) :
  (forall w, exists a w', m w = (Ret a, w') /\ ext w' = ext w) -> leaves m (fun _ _ => True).
Proof. intros H w. destruct (H w) as (a & w' & -> & He). by rewrite He. Qed.

Lemma leaves_for_each {A} (f : A -> M wld unit) l : forall (P : A -> Script.script -> Prop),
  (forall a x x', grows x x' -> P a x -> P a x') ->
  (forall a, leaves (f a) (fun _ => P a)) ->
  leaves (for_each f l) (fun _ x => Forall (fun a => P a x) l).
Proof.
  intros P HP Hf. induction l as [|a l IH]; [by intros w|]. cbn [for_each].
  eapply leaves_bind; [apply Hf|]. intros []. eapply leaves_conseq; [exact IH|].
  intros [] x Hl x0 Hg Ha. constructor; [by eapply HP|done].
Qed.

(** ** One sink *)

Lemma select_timer_quiet d : leaves (select_timer d : M wld _) (fun _ _ => True).
Proof.
  apply leaves_quiet. intros w. unfold select_timer.
  destruct (ctx w) as [err|]; [by eexists _, _|]. destruct (waits w) as [|[err|] l]; by eexists _, _.
Qed.

Lemma retry_loop_leaves n batch : forall rounds attempt lastErr, rounds <> 0 \/ lastErr <> None ->
  leaves (try (retry_loop rounds attempt lastErr (Script.sink n) batch) : M wld _)
    (fun r x => match r with inr _ => (n, batch) ∈ Script.taken x | inl _ => True end).
Proof.
  induction rounds as [|rounds IH]; intros attempt lastErr Hne w; cbn [retry_loop].
  { destruct lastErr; [by split|naive_solver]. }
  unfold try. unfold bind at 1, gets at 1. unfold bind at 1, try, on_ext. cbn [sink_Write Script.sink].
  assert (Hrec : forall err (w0 : wld), grows (ext w) (ext w0) ->
    match try (retry_loop rounds (attempt + 1) (Some err) (Script.sink n) batch) w0 with
    | (Ret r, w') => grows (ext w) (ext w') /\
        match r with inr _ => (n, batch) ∈ Script.taken (ext w') | inl _ => True end
    | _ => False
    end).
  { intros err w0 Hg. specialize (IH (attempt + 1)%Z (Some err) ltac:(by right) w0).
    destruct (try _ w0) as [[r| | | |] w']; try done. destruct IH as [Hg' Hr]. split; [by etrans|done]. }
  assert (Htaken : forall tl, let x := Script.mk tl (S (Script.calls (ext w)))
      (Script.taken (ext w) ++ [(n, batch)]) (Script.letters (ext w)) in
    grows (ext w) x /\ (n, batch) ∈ Script.taken x).
  { intros tl. cbn. split; [split; cbn; [set_solver|done]|]. apply elem_of_app. right. by left. }
  unfold Script.Write. destruct (Script.results (ext w)) as [|[err|] rs]; cbv beta iota;
    [by apply Htaken| |by apply Htaken].
  destruct (AppErr.IsPermanent (Some err)); [by split|].
  set (w1 := mk_world _ _ _ _ _ _ _).
  assert (Hg1 : grows (ext w) (ext w1)) by done.
  case_decide; [|by apply (Hrec err w1)].
  pose proof (select_timer_quiet (attempt * attempt * 100 * Millisecond) w1) as Hs. unfold bind at 1.
  destruct (select_timer _ w1) as [[[e|]| | | |] w2]; try done; destruct Hs as [Hs _].
  apply (Hrec err w2). by etrans.
Qed.

Lemma dead_letter_leaves n err batch :
  leaves (dead_letter deps n err batch : M wld _)
    (fun _ x => Forall (fun e => (n, err, e) ∈ Script.letters x) batch).
Proof.
  apply (leaves_for_each _ _ (fun e x => (n, err, e) ∈ Script.letters x)); [by intros e x x' [_ Hl] He; apply Hl|].
  intros e w. cbn. split; [split; cbn; [done|set_solver]|]. apply elem_of_app. right. by left.
Qed.

(** ** One batch *)

Lemma write_sinks_leaves batch ns : forall all,
  leaves (write_sinks deps (Script.sink <$> ns) batch all : M wld _)
    (fun _ x => forall n e, n ∈ ns -> e ∈ batch -> disposed n e x).
Proof.
  induction ns as [|n ns IH]; intros all; cbn [fmap list_fmap write_sinks].
  { intros w. split; [done|]. intros n e Hn. by apply elem_of_nil in Hn. }
  eapply leaves_bind; [apply retry_loop_leaves; by left|]. intros [err|[]].
  - eapply leaves_bind; [apply dead_letter_leaves|]. intros []. eapply leaves_conseq; [apply IH|].
    intros ok x Hx x1 Hg1 Hd x0 Hg0 _ n' e [->|Hn]%elem_of_cons He; [|by apply Hx].
    apply (disposed_grows _ _ x1); [done|]. right. exists err. rewrite Forall_forall in Hd. by apply Hd.
  - eapply leaves_conseq; [apply IH|].
    intros ok x Hx x0 Hg Hb n' e [->|Hn]%elem_of_cons He; [|by apply Hx].
    apply (disposed_grows _ _ x0); [done|]. left. by exists batch.
Qed.

Lemma ack_batch_leaves batch : leaves (ack_batch batch : M wld _) (fun _ _ => True).
Proof.
  apply leaves_quiet. induction batch as [|e batch IH]; intros w; [by exists tt, w|].
  unfold ack_batch. cbn [for_each].
  assert (exists w', (r <- load_and_delete (EventId e) ;; let '(seqNum, ok) := r in
      if ok : bool then ignore (on_wal (wal_Acknowledge seqNum)) else ret tt) w = (Ret tt, w') /\
      ext w' = ext w) as (w1 & H1 & He).
  { unfold bind at 1, load_and_delete. destruct (SeqTracker.LoadAndDelete (EventId e) (tracker w)) as [[n [|]] t];
      cbv beta iota; [|by eexists].
    unfold ignore, bind, try, on_wal. cbn [wal]. specialize (Hack n (wal w)).
    destruct (wal_Acknowledge n (wal w)) as [[]?]; try done; by eexists. }
  unfold bind at 1. rewrite H1. destruct (IH w1) as ([] & w2 & H2 & He2). exists tt, w2.
  split; [exact H2|congruence].
Qed.

Lemma flush_leaves batch :
  leaves (flush deps batch : M wld _) (fun _ x => forall n e, n ∈ names -> e ∈ batch -> disposed n e x).
Proof.
  unfold flush. eapply leaves_bind; [apply leaves_quiet; intros ?; by eexists _, _|]. intros start.
  eapply leaves_bind; [apply write_sinks_leaves|]. intros all.
  eapply (leaves_bind _ _ (fun _ _ => True)).
  { destruct all; [apply ack_batch_leaves|apply leaves_quiet; intros ?; by eexists _, _]. }
  intros []. eapply leaves_bind; [apply leaves_quiet; intros ?; by eexists _, _|]. intros finish.
  eapply leaves_conseq; [apply leaves_quiet; intros ?; by eexists _, _|].
  intros [] x _ x3 H3 _ x2 H2 _ x1 H1 Hd x0 H0 _ n e Hn He.
  by apply (disposed_grows _ _ x1); [|apply Hd].
Qed.

Lemma drainFlush_leaves batch :
  leaves (drainFlush deps batch : M wld _) (fun _ x => forall n e, n ∈ names -> e ∈ batch -> disposed n e x).
Proof.
  intros w. unfold drainFlush, bind, set_ctx, modify. cbv beta iota.
  set (w1 := mk_world _ _ _ _ _ _ _). pose proof (flush_leaves batch w1) as H.
  destruct (flush deps batch w1) as [[[]| | | |] w2]; try done.
Qed.

(** ** A whole run *)

Lemma run_plan_leaves l :
  leaves (run_plan deps l : M wld _)
    (fun _ x => Forall (fun p => forall n e, n ∈ names -> e ∈ p.2 -> disposed n e x) l).
Proof.
  apply (leaves_for_each _ _ (fun p x => forall n e, n ∈ names -> e ∈ p.2 -> disposed n e x)).
  - intros p x x' Hg Hp n e Hn He. eapply disposed_grows; [exact Hg|by apply Hp].
  - intros [[|] batch]; [apply drainFlush_leaves|apply flush_leaves].
Qed.
End drain.


(** The first sink refuses everything, the context is cancelled during the second flush, and
    the buffer is closed with one event in hand. *)
Definition stopping_world : world Script.script NoOpWAL.NoOpWAL MockRecorder.MockRecorder :=
  mk_world (Script.mk [Some (ErrNew "down"); None; Some (ErrNew "down"); Some (ErrNew "down")] 0 [] [])
    NoOpWAL.NewNoOpWAL SeqTracker.NewSeqTracker None 0 None [None; Some context_Canceled].

Definition stopping_signals : list signal :=
  let e i := mk_event i "" "" 0 "" in
  [SigEvent (e "a"); SigEvent (e "b"); SigEvent (e "c"); SigTick; SigEvent (e "d"); SigClosed].

