(* ===== verification/Drain.v ===== *)
(** The drain at shutdown: the workers empty the buffer that Close has closed.

    Close comes before the wait for the workers (shutdown.go), so what is left to them is a
    closed channel. A step is one round of one worker's loop: it receives from the channel, or
    its ticker fires. The workers take rounds in any order. *)
From stdpp Require Import base list strings gmap.
From Stdlib Require Import ZArith Lia.
From S2P Require Import Prelude Errors Go Bytes Proto Duration Os DiskQueue Buffer Wal Metrics Sinks Worker WorkerTheorems WorkerDrain.

Import Worker.

Section drain.
Context {W R : Type} `{WALW : WAL W} `{RecorderR : Recorder R}.
Context (cfg : Config) (names : list string).
Context (Hack : forall n, comes_back (wal_Acknowledge (W := W) n)).

Notation wld := (world Script.script W R).
Notation deps := (Script.deps names).

(** A run of the loop is a sequence of rounds: the signals before a stop can be split off. *)
Lemma worker_loop_app s1 s2 : forall batch (w : wld), stops s1 = false ->
  worker_loop cfg deps (s1 ++ s2) batch w = (b <- worker_loop cfg deps s1 batch ;; worker_loop cfg deps s2 b) w.
Proof.
  induction s1 as [|sig s1 IH]; intros batch w Hs; [done|].
  destruct sig as [|e| |]; cbn [stops existsb orb] in Hs; try done; cbn [app worker_loop].
  1, 2: case_decide; [|by apply IH].
  all: unfold bind; destruct (flush deps _ w) as [[[]|err|p| |] w1]; try done; by apply IH.
Qed.

(** One round: what the worker received is in its hand or disposed of. *)
Definition round_event (sig : signal) : list IngestRequest :=
  match sig with SigEvent e => [e] | _ => [] end.

Lemma round_leaves sig batch :
  leaves (worker_loop cfg deps [sig] batch : M wld _)
    (fun batch' x => (forall e, e ∈ batch ++ round_event sig ->
        e ∈ batch' \/ forall n, n ∈ names -> disposed n e x) /\
      (stops [sig] = true -> batch' = [])).
Proof.
  assert (forall b, leaves (flush deps b ;; worker_loop cfg deps [] [] : M wld _)
    (fun batch' x => forall e, e ∈ b -> e ∈ batch' \/ forall n, n ∈ names -> disposed n e x)) as Hflush.
  { intros b. eapply leaves_bind; [by apply flush_leaves|]. intros []. 
    intros w. split; [done|]. intros x0 Hg Hd e He. right. intros n Hn.
    eapply disposed_grows; [exact Hg|]. by apply Hd. }
  destruct sig as [|e| |]; cbn [worker_loop round_event]; rewrite ?app_nil_r.
  1, 3: eapply (leaves_bind _ _ (fun _ x => forall n e, n ∈ names -> e ∈ batch -> disposed n e x));
    [case_decide as Hb; [by apply drainFlush_leaves|]; intros w; split; [done|];
     intros n e _ He; destruct batch; [by apply elem_of_nil in He|simpl in Hb; lia]
    |intros [] w; split; [done|]; intros x0 Hg Hd; split; [|done]; intros e He; right; intros n Hn;
     eapply disposed_grows; [exact Hg|by apply Hd]].
  all: case_decide as Hb; [eapply leaves_conseq; [apply Hflush|]; intros b' x Hd; by split|].
  all: intros w; split; [done|]; split; [|done]; intros e' He; by left.
Qed.

(** ** The system *)

(** The channel buffer, and each worker's hand; a worker that has returned has none. *)
Record state := mk {
  buf : ChannelBuffer.ChannelBuffer;
  hands : list (option (list IngestRequest));
  outside : Script.script;
  log : W;
  acks : SeqTracker.SeqTracker;
  metrics : option R
}.

Definition after (b : ChannelBuffer.ChannelBuffer) (hs : list (option (list IngestRequest))) (w : wld) : state :=
  mk b hs (ext w) (wal w) (tracker w) (recorder w).

(** The worker's own clock, context and timers are in any state. *)
Definition its_world (s : state) (ck : Z) (c : Ctx) (ws : list (option error)) : wld :=
  mk_world (outside s) (log s) (acks s) (metrics s) ck c ws.

(** What a receive from the channel makes the worker do; [None]: it waits. *)
Definition receives (b : ChannelBuffer.ChannelBuffer) : option (signal * ChannelBuffer.ChannelBuffer) :=
  match buf_Recv b with
  | (Got e, b) => Some (SigEvent e, b)
  | (ChanClosed, b) => Some (SigClosed, b)
  | (WouldBlock, _) => None
  end.

Inductive round : bool -> state -> state -> Prop :=
  | round_recv s i batch sig b ck c ws batch' w :
      hands s !! i = Some (Some batch) -> receives (buf s) = Some (sig, b) ->
      worker_loop cfg deps [sig] batch (its_world s ck c ws) = (Ret batch', w) ->
      round true s (after b (<[i := if stops [sig] then None else Some batch']> (hands s)) w)
  | round_tick s i batch ck c ws batch' w :
      hands s !! i = Some (Some batch) ->
      worker_loop cfg deps [SigTick] batch (its_world s ck c ws) = (Ret batch', w) ->
      round false s (after (buf s) (<[i := Some batch']> (hands s)) w).

(** [rounds k s s']: a run with [k] receives. *)
Inductive rounds : nat -> state -> state -> Prop :=
  | rounds_done s : rounds 0 s s
  | rounds_recv k s1 s2 s3 : round true s1 s2 -> rounds k s2 s3 -> rounds (S k) s1 s3
  | rounds_tick k s1 s2 s3 : round false s1 s2 -> rounds k s2 s3 -> rounds k s1 s3.

(** The events that are left, and the receives: one for each event in the channel, and one for
    each worker to find it closed. *)
Definition queued (s : state) : list IngestRequest := ch_items (ChannelBuffer.ch (buf s)).
Definition running (s : state) : nat := length (omap id (hands s)).
Definition left_over (s : state) (e : IngestRequest) : Prop :=
  e ∈ queued s \/ exists b, Some b ∈ hands s /\ e ∈ b.
Definition receives_left (s : state) : nat := length (queued s) + running s.

Definition done_with (s : state) (e : IngestRequest) : Prop :=
  forall n, n ∈ names -> disposed n e (outside s).

(** The channel is closed, and a worker has returned only when it was empty. *)
Record draining (s : state) : Prop := {
  drain_closed : ch_closed (ChannelBuffer.ch (buf s)) = true;
  drain_returned : None ∈ hands s -> queued s = []
}.

Lemma receives_spec (b : ChannelBuffer.ChannelBuffer) : ch_closed (ChannelBuffer.ch b) = true ->
  exists sig b', receives b = Some (sig, b') /\ ch_closed (ChannelBuffer.ch b') = true /\
    ch_items (ChannelBuffer.ch b) = round_event sig ++ ch_items (ChannelBuffer.ch b') /\
    (stops [sig] = true -> ch_items (ChannelBuffer.ch b) = []) /\
    length (round_event sig) = if stops [sig] then 0 else 1.
Proof.
  destruct b as [[cap items cl] once]. cbn. intros ->. unfold receives. cbn. unfold ChannelBuffer.Recv, chan_recv. cbn.
  destruct items as [|e items]; cbn; (eexists _, _; split_and!; [done|done|done|done|done]).
Qed.

Lemma running_insert hs i b o :
  hs !! i = Some (Some b) ->
  length (omap id hs) =
    length (omap id (<[i := o]> hs)) + (match o : option (list IngestRequest) with Some _ => 0 | None => 1 end).
Proof.
  revert i. induction hs as [|h hs IH]; intros [|i] Hi; try done.
  - injection Hi as ->. destruct o; cbn; lia.
  - specialize (IH i Hi). change (<[S i := o]> (h :: hs)) with (h :: <[i := o]> hs).
    destruct h as [h|]; cbn [omap list_omap id length]; rewrite IH; lia.
Qed.

(** A round keeps what it does not dispose of, and a receive brings the end nearer. *)
(** What a worker does with one signal keeps every event, or disposes of it. *)
Lemma handled sig batch i b (s : state) ck c ws batch' w :
  hands s !! i = Some (Some batch) -> queued s = round_event sig ++ ch_items (ChannelBuffer.ch b) ->
  worker_loop cfg deps [sig] batch (its_world s ck c ws) = (Ret batch', w) ->
  let s' := after b (<[i := if stops [sig] then None else Some batch']> (hands s)) w in
  grows (outside s) (outside s') /\ (forall e, left_over s e -> left_over s' e \/ done_with s' e).
Proof.
  intros Hi Hq Hrun s'.
  pose proof (round_leaves sig batch (its_world s ck c ws)) as H. rewrite Hrun in H.
  destruct H as (Hg & Hkeep & Hstop). split; [exact Hg|].
  pose proof (lookup_lt_Some _ _ _ Hi) as Hlt.
  assert (forall e, e ∈ batch ++ round_event sig -> left_over s' e \/ done_with s' e) as Hin.
  { intros e He. destruct (Hkeep e He) as [Hb|Hd]; [|by right].
    destruct (stops [sig]) eqn:Hs; [rewrite (Hstop eq_refl) in Hb; by apply elem_of_nil in Hb|].
    left. right. exists batch'. split; [|done]. subst s'. cbn [after hands].
    apply list_elem_of_lookup. exists i. by rewrite list_lookup_insert_eq. }
  intros e [He|(b' & Hb' & He)].
  - rewrite Hq in He. apply elem_of_app in He as [He|He]; [|by left; left].
    apply Hin, elem_of_app. by right.
  - apply list_elem_of_lookup in Hb' as [j Hj]. destruct (decide (j = i)) as [->|Hne].
    + rewrite Hi in Hj. injection Hj as <-. apply Hin, elem_of_app. by left.
    + left. right. exists b'. split; [|done]. subst s'. cbn [after hands].
      apply list_elem_of_lookup. exists j. by rewrite list_lookup_insert_ne by done.
Qed.

Lemma round_keeps k s s' : round k s s' -> draining s ->
  draining s' /\ grows (outside s) (outside s') /\
  (forall e, left_over s e -> left_over s' e \/ done_with s' e) /\
  receives_left s = receives_left s' + (if k then 1 else 0).
Proof.
  intros Hstep [Hcl Hret]. destruct Hstep as [s i batch sig b ck c ws batch' w Hi Hrecv Hrun|
    s i batch ck c ws batch' w Hi Hrun].
  - destruct (receives_spec (buf s) Hcl) as (sig' & b1 & Hr & Hcl' & Hq & Hst & Hlen).
    rewrite Hrecv in Hr. injection Hr as <- <-.
    destruct (handled sig batch i b s ck c ws batch' w Hi Hq Hrun) as [Hg Hkeep].
    split_and!; [|exact Hg|exact Hkeep|].
    + split; [done|]. cbn [after hands buf]. unfold queued. cbn [after buf]. intros Hn.
      destruct (stops [sig]) eqn:Hs.
      * specialize (Hst eq_refl). rewrite Hst in Hq. by apply eq_sym, app_eq_nil in Hq as [_ ?].
      * apply list_elem_of_lookup in Hn as [j Hj]. destruct (decide (j = i)) as [->|Hne].
        { rewrite list_lookup_insert_eq in Hj; [done|]. by eapply lookup_lt_Some. }
        rewrite list_lookup_insert_ne in Hj by done.
        assert (queued s = []) as Hq0 by (apply Hret; by eapply list_elem_of_lookup_2).
        unfold queued in Hq0. rewrite Hq0 in Hq. by apply eq_sym, app_eq_nil in Hq as [_ ?].
    + unfold receives_left, running, queued. cbn [after hands buf].
      rewrite Hq, length_app, Hlen.
      rewrite (running_insert (hands s) i batch (if stops [sig] then None else Some batch') Hi).
      destruct (stops [sig]); lia.
  - destruct (handled SigTick batch i (buf s) s ck c ws batch' w Hi eq_refl Hrun) as [Hg Hkeep].
    cbn [stops existsb orb] in Hkeep, Hg. split_and!; [|exact Hg|exact Hkeep|].
    + split; [done|]. intros Hn. apply Hret. cbn [after hands] in Hn.
      apply list_elem_of_lookup in Hn as [j Hj]. destruct (decide (j = i)) as [->|Hne].
      { rewrite list_lookup_insert_eq in Hj; [done|]. by eapply lookup_lt_Some. }
      rewrite list_lookup_insert_ne in Hj by done. by eapply list_elem_of_lookup_2.
    + unfold receives_left, running, queued. cbn [after hands buf].
      rewrite (running_insert (hands s) i batch (Some batch') Hi). lia.
Qed.

Lemma rounds_keep k s s' : rounds k s s' -> draining s ->
  draining s' /\ grows (outside s) (outside s') /\
  (forall e, left_over s e -> left_over s' e \/ done_with s' e) /\
  receives_left s = receives_left s' + k.
Proof.
  assert (forall b k s1 s2 s3, round b s1 s2 -> draining s1 ->
    (draining s2 -> draining s3 /\ grows (outside s2) (outside s3) /\
       (forall e, left_over s2 e -> left_over s3 e \/ done_with s3 e) /\ receives_left s2 = receives_left s3 + k) ->
    draining s3 /\ grows (outside s1) (outside s3) /\
    (forall e, left_over s1 e -> left_over s3 e \/ done_with s3 e) /\
    receives_left s1 = receives_left s3 + (if b : bool then S k else k)) as Hcons.
  { intros b k0 s1 s2 s3 H1 Hd IH. destruct (round_keeps _ _ _ H1 Hd) as (Hd2 & Hg & Hk & Hl).
    destruct (IH Hd2) as (Hd3 & Hg3 & Hk3 & Hl3). split_and!; [done|by etrans| |destruct b; lia].
    intros e He. destruct (Hk e He) as [H2|H2]; [by apply Hk3|]. right. intros n Hn.
    by eapply disposed_grows; [|apply H2]. }
  induction 1 as [s|k s1 s2 s3 H1 _ IH|k s1 s2 s3 H1 _ IH]; intros Hd.
  - split_and!; [done|done|by left|lia].
  - by apply (Hcons true k s1 s2 s3).
  - by apply (Hcons false k s1 s2 s3).
Qed.

(** A worker that is running always has a round to go: the receive does not block, and the
    round ends. *)
Lemma round_goes s i batch ck c ws : draining s -> hands s !! i = Some (Some batch) ->
  exists sig b batch' w, receives (buf s) = Some (sig, b) /\
    worker_loop cfg deps [sig] batch (its_world s ck c ws) = (Ret batch', w).
Proof.
  intros [Hcl _] Hi. destruct (receives_spec (buf s) Hcl) as (sig & b & Hr & _).
  pose proof (round_leaves sig batch (its_world s ck c ws)) as H.
  destruct (worker_loop _ _ _ _ _) as [[batch'| | | |] w] eqn:Hrun; try done.
  by exists sig, b, batch', w.
Qed.

(** Receives of the workers [l], in this order. *)
Fixpoint run_schedule (l : list nat) (s : state) : option state :=
  match l with
  | [] => Some s
  | i :: l =>
      match hands s !! i, receives (buf s) with
      | Some (Some batch), Some (sig, b) =>
          match worker_loop cfg deps [sig] batch (its_world s 0 None []) with
          | (Ret batch', w) =>
              run_schedule l (after b (<[i := if stops [sig] then None else Some batch']> (hands s)) w)
          | _ => None
          end
      | _, _ => None
      end
  end.

Lemma run_schedule_rounds l : forall s s', run_schedule l s = Some s' -> rounds (length l) s s'.
Proof.
  induction l as [|i l IH]; intros s s'; cbn [run_schedule length].
  { intros [= <-]. apply rounds_done. }
  destruct (hands s !! i) as [[batch|]|] eqn:Hi; try done.
  destruct (receives (buf s)) as [[sig b]|] eqn:Hr; [|done].
  destruct (worker_loop _ _ _ _ _) as [[batch'| | | |] w] eqn:Hrun; try done.
  intros H. eapply rounds_recv; [by eapply round_recv|by apply IH].
Qed.

Lemma rounds_length k s s' : rounds k s s' -> length (hands s') = length (hands s).
Proof.
  assert (forall b s s', round b s s' -> length (hands s') = length (hands s)) as H1.
  { intros ? ? ? []; cbn [after hands]; by rewrite length_insert. }
  induction 1 as [|k s1 s2 s3 H _ IH|k s1 s2 s3 H _ IH]; [done|..]; rewrite IH; by eapply H1.
Qed.

Lemma running_none s : running s = 0 <-> Forall (fun h => h = None) (hands s).
Proof.
  unfold running. induction (hands s) as [|[b|] l IH]; cbn [omap list_omap id length].
  - by split.
  - split; [lia|]. intros H. by apply Forall_cons in H as [? _].
  - rewrite IH, Forall_cons. naive_solver.
Qed.
End drain.
Arguments state : clear implicits.


(** Two workers, one with an event in hand, and two events in the channel; the second sink
    refuses its first batch. *)
Definition demo_event (i : string) : IngestRequest := mk_event i "" "" 0 "".
Definition demo_open : ChannelBuffer.ChannelBuffer :=
  ChannelBuffer.mk (mk_chan 8 [demo_event "a"; demo_event "b"] false) false.
Definition demo_closed : ChannelBuffer.ChannelBuffer :=
  ChannelBuffer.mk (mk_chan 8 [demo_event "a"; demo_event "b"] true) true.
Definition demo_script : Script.script :=
  Script.mk [None; Some (AppErr.NewPermanent "t" (ErrNew "refused"))] 0 [] [].
Definition demo_draining : state NoOpWAL.NoOpWAL MockRecorder.MockRecorder :=
  mk demo_closed [Some []; Some [demo_event "c"]] demo_script NoOpWAL.NewNoOpWAL SeqTracker.NewSeqTracker None.

