(* ===== verification/SinksTheorems.v ===== *)
(** Delivery to the HTTP and the Kafka sink: what goes out, and what is retried. *)
From stdpp Require Import base list strings gmap.
From Stdlib Require Import ZArith Lia.
From S2P Require Import Prelude Errors Go Bytes GoStrings Duration Float Config Proto Wal Tenant Metrics.
From S2P Require Import Sinks Worker WorkerTheorems.

Import Worker.

(** ** A web server behind a circuit breaker *)

(** Every POST gets the next answer of a list, a status or a transport error, and 200 once the
    list is used up. [tripped]: the breaker refuses calls. *)
Module Web.

Record web := mk { answers : list (string + Z); posts : list (string * list byte); tripped : bool }.

#[global] Instance client : HttpClient web := {|
  http_NewRequest _ := None;
  http_Do _ _ url payload w :=
    let w' := mk (tail (answers w)) (posts w ++ [(url, payload)]) (tripped w) in
    match answers w with
    | inl msg :: _ => (Fail (ErrNew msg), w')
    | inr status :: _ => (Ret status, w')
    | [] => (Ret 200%Z, w')
    end
|}.

#[global] Instance breaker : GoBreaker web := {|
  cb_before _ _ w := (Ret (if tripped w then Some gobreaker_ErrOpenState else None), w);
  cb_after _ _ _ := ret tt
|}.

(** What the sink makes of an answer. *)
Definition verdict (a : string + Z) : option error :=
  match a with
  | inl msg => Some (AppErr.NewTransient HTTPSink.Name (ErrWrap "http request failed: " (ErrNew msg)))
  | inr status =>
      if decide (400 <= status)%Z
      then Some (ErrSink (AppErr.ClassifyHTTPStatus status) HTTPSink.Name
             (ErrNew ("http sink returned status " +:+ FormatInt status)))
      else None
  end.

End Web.

(** A client error other than 429 is the only answer that is not worth a retry. *)
Lemma verdict_permanent a e : Web.verdict a = Some e ->
  AppErr.IsPermanent (Some e) = true <->
  exists status, a = inr status /\ (400 <= status < 500)%Z /\ status <> 429%Z.
Proof.
  destruct a as [msg|status]; cbn [Web.verdict].
  - intros [= <-]. split; [done|]. by intros (s & [=] & _).
  - destruct (decide (400 <= status)%Z) as [H4|]; [|done]. intros [= <-].
    unfold AppErr.IsPermanent, AppErr.IsTransient, AppErr.ClassifyHTTPStatus. cbn.
    destruct (decide (status = 429%Z)) as [->|H429].
    { split; [intros H; by vm_compute in H|]. by intros (s & [= <-] & _ & ?). }
    rewrite (bool_decide_false (status = 429%Z)) by done.
    destruct (decide (400 <= status < 500)%Z) as [H5|H5].
    + rewrite (bool_decide_true (400 <= status < 500)%Z) by done. split; [intros _; by exists status|by vm_compute].
    + rewrite (bool_decide_false (400 <= status < 500)%Z) by done. split; [intros H; by vm_compute in H|]. by intros (s & [= <-] & ? & _).
Qed.

Section http.
Context `{J : Json} {W R : Type} `{WALW : WAL W} `{RecorderR : Recorder R}.

Definition guarded (hs : HTTPSink.HTTPSink) : Sink Web.web :=
  CircuitBreakerSink.newCircuitBreakerSink (HTTPSink.sink hs).

(** One attempt with the breaker closed. *)
Lemma attempt_run hs c batch payload (x : Web.web) :
  batch <> [] -> json_batch batch = inr payload -> Web.tripped x = false ->
  sink_Write (guarded hs) c batch x =
    (match Web.answers x with
     | a :: _ => match Web.verdict a with None => Ret tt | Some e => Fail e end
     | [] => Ret tt
     end,
     Web.mk (tail (Web.answers x)) (Web.posts x ++ [(HTTPSink.url hs, payload)]) false).
Proof.
  intros Hb Hj Ho. destruct x as [as_ ps o]. cbn in Ho. subst o.
  unfold guarded. cbn [sink_Write CircuitBreakerSink.newCircuitBreakerSink].
  unfold CircuitBreakerSink.Write, bind at 1, try, CircuitBreakerSink.Execute. cbn.
  unfold HTTPSink.Write. rewrite decide_False by done. rewrite Hj.
  destruct as_ as [|[msg|status] as_]; cbn; [done|done|].
  case_decide; cbn; [|done]. done.
Qed.

(** The answer to the next POST. *)
Definition next_verdict (x : Web.web) : option error :=
  match Web.answers x with a :: _ => Web.verdict a | [] => None end.

Definition posted (hs : HTTPSink.HTTPSink) (payload : list byte) (x : Web.web) : Web.web :=
  Web.mk (tail (Web.answers x)) (Web.posts x ++ [(HTTPSink.url hs, payload)]) false.

Notation wld := (world Web.web W R).

(** The world after a POST and a pause. *)
Definition after_post (hs : HTTPSink.HTTPSink) (payload : list byte) (d : Z) (w : wld) : wld :=
  mk_world (posted hs payload (ext w)) (wal w) (tracker w) (recorder w) (clock w + d) None [].

(** One round of the retries. *)
Lemma retry_round hs batch payload rounds attempt lastErr (w : wld) :
  batch <> [] -> json_batch batch = inr payload ->
  Web.tripped (ext w) = false -> ctx w = None -> waits w = [] ->
  retry_loop (S rounds) attempt lastErr (guarded hs) batch w =
    match next_verdict (ext w) with
    | None => (Ret tt, after_post hs payload 0 w)
    | Some err =>
        if AppErr.IsPermanent (Some err) then (Fail err, after_post hs payload 0 w)
        else
          retry_loop rounds (attempt + 1) (Some err) (guarded hs) batch
            (after_post hs payload
               (if (attempt <? maxRetries)%Z then attempt * attempt * 100 * Millisecond else 0) w)
    end.
Proof.
  intros Hb Hj Ho Hc Hw. destruct w as [x wl t rc ck c ws]. cbn [ext ctx waits] in *. subst c ws.
  cbn [retry_loop]. unfold bind at 1, gets at 1. unfold bind at 1, try, on_ext. cbn [ext ctx wal tracker recorder clock waits].
  rewrite (attempt_run hs None batch payload x Hb Hj Ho). fold (posted hs payload x).
  unfold next_verdict. destruct (Web.answers x) as [|a l]; cbv beta iota.
  { unfold after_post. cbn. by rewrite Z.add_0_r. }
  destruct (Web.verdict a) as [err|]; cbv beta iota; [|unfold after_post; cbn; by rewrite Z.add_0_r].
  destruct (AppErr.IsPermanent (Some err)); [unfold after_post; cbn; by rewrite Z.add_0_r|].
  unfold after_post. cbn [ext wal tracker recorder clock].
  destruct (Z.ltb_spec attempt maxRetries); [by rewrite decide_True|].
  rewrite decide_False by lia. by rewrite Z.add_0_r.
Qed.

Ltac http_done :=
  unfold maxRetries, Millisecond;
  try change (1 <? 3)%Z with true; try change (1 + 1 <? 3)%Z with true;
  try change (1 + 1 + 1 <? 3)%Z with false;
  rewrite ?drop_0, <- ?(assoc_L (++)); split; [repeat match goal with |- @eq Z _ _ => lia | _ => reflexivity | _ => f_equal end|lia].

(** The whole delivery, round by round. *)
Lemma http_outcome hs batch payload (w : wld) :
  batch <> [] -> json_batch batch = inr payload ->
  Web.tripped (ext w) = false -> ctx w = None -> waits w = [] ->
  let '(r, k) := Script.outcome 3 (Web.verdict <$> Web.answers (ext w)) None in
  writeWithRetry (guarded hs) batch w =
    (match r with None => Ret tt | Some err => Fail err end,
     mk_world (Web.mk (drop k (Web.answers (ext w)))
                 (Web.posts (ext w) ++ replicate k (HTTPSink.url hs, payload)) false)
       (wal w) (tracker w) (recorder w) (clock w + Script.backoff_total k) None []) /\
  1 <= k <= 3.
Proof.
  intros Hb Hj Ho Hc Hw. unfold writeWithRetry. change (Z.to_nat maxRetries) with 3.
  destruct w as [[l ps o] wl t rc ck c ws]. cbn in Ho, Hc, Hw. subst o c ws.
  do 3 (rewrite (retry_round hs batch payload) by done; unfold next_verdict, after_post, posted;
    cbn [ext Web.answers Web.posts wal tracker recorder clock fmap list_fmap Script.outcome tail];
    destruct l as [|? l]; [cbn; http_done|]; cbn [fmap list_fmap Script.outcome];
    destruct (Web.verdict _) as [?|]; [|cbn; http_done];
    destruct (AppErr.IsPermanent (Some _)); [cbn; http_done|]; cbn [tail]).
  cbn. http_done.
Qed.

(** With the breaker open an attempt does not reach the server. *)
Lemma attempt_open hs c batch (x : Web.web) : Web.tripped x = true ->
  sink_Write (guarded hs) c batch x = (Fail (ErrNew "circuit breaker open for HTTPSink"), x).
Proof. destruct x as [l ps o]. cbn. by intros ->. Qed.

(** All the rounds with the breaker open. *)
Lemma open_outcome hs batch (w : wld) :
  Web.tripped (ext w) = true -> ctx w = None -> waits w = [] ->
  writeWithRetry (guarded hs) batch w =
    (Fail (ErrNew "circuit breaker open for HTTPSink"),
     mk_world (ext w) (wal w) (tracker w) (recorder w) (clock w + 500 * Millisecond) None []).
Proof.
  intros Ho Hc Hw. destruct w as [x wl t rc ck c ws]. cbn in Ho, Hc, Hw. subst c ws.
  unfold writeWithRetry. change (Z.to_nat maxRetries) with 3.
  assert (Hone : forall rounds attempt lastErr ck,
    retry_loop (S rounds) attempt lastErr (guarded hs) batch (mk_world x wl t rc ck None []) =
      retry_loop rounds (attempt + 1) (Some (ErrNew "circuit breaker open for HTTPSink")) (guarded hs) batch
        (mk_world x wl t rc
           (ck + (if (attempt <? maxRetries)%Z then attempt * attempt * 100 * Millisecond else 0)) None [])).
  { intros rounds attempt lastErr ck'. cbn [retry_loop]. unfold bind at 1, gets at 1. unfold bind at 1, try, on_ext.
    cbn [ext ctx wal tracker recorder clock waits]. rewrite (attempt_open hs None batch x Ho). cbv beta iota.
    change (AppErr.IsPermanent (Some (ErrNew "circuit breaker open for HTTPSink"))) with false. cbv iota.
    destruct (Z.ltb_spec attempt maxRetries); [by rewrite decide_True|].
    rewrite decide_False by lia. by rewrite Z.add_0_r. }
  rewrite !Hone. cbn. unfold maxRetries, Millisecond.
  change (1 <? 3)%Z with true. change (1 + 1 <? 3)%Z with true. change (1 + 1 + 1 <? 3)%Z with false.
  repeat match goal with |- @eq Z _ _ => lia | _ => reflexivity | _ => f_equal end.
Qed.
End http.

Lemma outcome_pos n rs lastErr : 1 <= snd (Script.outcome (S n) rs lastErr).
Proof.
  cbn [Script.outcome]. destruct rs as [|[err|] rs]; [done| |done].
  destruct (AppErr.IsPermanent (Some err)); [done|]. destruct (Script.outcome n rs (Some err)). cbn. lia.
Qed.

(** One attempt is enough after a success or a client error. *)
Lemma one_attempt answers lastErr :
  snd (Script.outcome 3 (Web.verdict <$> answers) lastErr) = 1 <->
  match answers with
  | inr status :: _ => (status < 500)%Z /\ status <> 429%Z
  | inl _ :: _ => False
  | [] => True
  end.
Proof.
  destruct answers as [|a answers]; [done|]. cbn [fmap list_fmap].
  pose proof (verdict_permanent a) as Hp. pose proof (fun e => outcome_pos 1 (Web.verdict <$> answers) (Some e)) as Hpos.
  change (Script.outcome 3 (Web.verdict a :: (Web.verdict <$> answers)) lastErr) with
    (match Web.verdict a with
     | Some err => if AppErr.IsPermanent (Some err) then (Some err, 1)
                   else let '(r, k) := Script.outcome 2 (Web.verdict <$> answers) (Some err) in (r, S k)
     | None => (None, 1)
     end).
  destruct (Web.verdict a) as [err|] eqn:Hv.
  - specialize (Hp err eq_refl). specialize (Hpos err).
    destruct (AppErr.IsPermanent (Some err)).
    + destruct (proj1 Hp eq_refl) as (status & -> & ? & ?). cbn. split; [intros _; split; [lia|done]|done].
    + destruct (Script.outcome 2 _ _) as [r k]. cbn [snd] in *. split; [lia|].
      destruct a as [msg|status]; [done|]. cbn [Web.verdict] in Hv. case_decide; [|done].
      intros [H5 H429]. discriminate (proj2 Hp (ex_intro _ status (conj eq_refl (conj (conj H H5) H429)))).
  - destruct a as [msg|status]; [done|]. cbn [Web.verdict] in Hv. case_decide; [done|]. cbn. split; [lia|done].
Qed.


(** A server that is busy once, then takes the batch. *)
Definition busy_world : world Web.web NoOpWAL.NoOpWAL MockRecorder.MockRecorder :=
  mk_world (Web.mk [inr 503%Z] [] false) NoOpWAL.NewNoOpWAL SeqTracker.NewSeqTracker None 0 None [].

