(* ===== verification/Delivery.v ===== *)
(** What the parts of the pipeline promise each other: [BufferLaws] of the buffer, [SinkLaws] of
    the sinks and the dead letter queue; what a delivery to the sinks does under them, and
    the outcomes of a Push on a log that keeps [DurableLog]. Interleaving.v puts the parts
    together. *)
From stdpp Require Import base list strings gmap sets.
From Stdlib Require Import ZArith Lia.
From S2P Require Import Prelude Errors Go Bytes Os OsFaults Proto Float Config.
From S2P Require Import Wal WalFormat WalProofs WalCrash WalSpec.
From S2P Require Import DiskQueue Buffer Hybrid Tenant Metrics Service Sinks Worker.

(** What a buffer promises: it holds the accepted events in order, through the calls and through
    [buf_moves], what its own goroutines do. *)
Class BufferLaws (B : Type) `{Buffer B} := {
  buf_holds : B -> list IngestRequest -> Prop;
  buf_room : B -> IngestRequest -> Prop;
  buf_push_law : forall b l e, buf_holds b l -> buf_room b e ->
    (exists err, buf_Push e b = (Fail err, b)) \/
    (exists b', buf_Push e b = (Ret tt, b') /\ buf_holds b' (l ++ [e]));
  buf_recv_law : forall b l, buf_holds b l ->
    match buf_Recv b with
    | (Got e, b') => exists l', l = e :: l' /\ buf_holds b' l'
    | (ChanClosed, _) => False
    | (WouldBlock, b') => b' = b
    end;
  buf_moves : B -> B -> Prop;
  buf_moves_law : forall b l b', buf_holds b l -> buf_moves b b' -> buf_holds b' l
}.

#[export] Instance channel_laws : BufferLaws ChannelBuffer.ChannelBuffer.
Proof.
  refine {|
    buf_holds b l := ch_closed (ChannelBuffer.ch b) = false /\ ch_items (ChannelBuffer.ch b) = l;
    buf_room _ _ := True;
    buf_moves _ _ := False |}.
  - intros [[cap items cl] once] l e [Hcl <-] _. simpl in *. subst cl.
    unfold ChannelBuffer.Push, ChannelBuffer.on_ch, chan_try_send, bind. simpl.
    destruct (chan_full _); [left; by eexists|right]. by eexists.
  - intros [[cap items cl] once] l [Hcl <-]. simpl in *. subst cl.
    unfold ChannelBuffer.Recv, chan_recv. simpl. destruct items as [|e items]; [done|].
    exists items. by split_and!.
  - done.
Defined.

#[export] Instance hybrid_laws {Q} `{FL : FifoLaws Q} : BufferLaws (HybridBuffer.HybridBuffer Q).
Proof.
  refine {| buf_holds := buffered; buf_room h e := oq_room (HybridBuffer.dq h) e;
            buf_moves h h' := HybridBuffer.pumpBatch h = (Ret tt, h') |}.
  - intros h l e. apply Push_buffered.
  - intros h l. apply Recv_buffered.
  - intros h l h' Hb Hp. destruct (pumpBatch_buffered h l Hb) as (h1 & H1 & Hb1). congruence.
Defined.

(** What the outside promises: a batch whose Write returned is in the sink, and what is
    in a sink stays there. [wrote i x e]: the [i]-th sink has [e]. *)
Class SinkLaws {X : Type} (deps : Worker.Deps X) := {
  wrote : nat -> X -> IngestRequest -> Prop;
  wrote_own : forall i sk c b x x' e, Worker.deps_Sinks deps !! i = Some sk ->
    sink_Write sk c b x = (Ret tt, x') -> e ∈ b -> wrote i x' e;
  wrote_stable : forall sk c b x r x' i e, sk ∈ Worker.deps_Sinks deps ->
    sink_Write sk c b x = (r, x') -> wrote i x e -> wrote i x' e;
  wrote_dlq : forall c ev n err x r x' i e,
    dlq_Push (Worker.deps_DLQ deps) c ev n err x = (r, x') -> wrote i x e -> wrote i x' e
}.

Section delivery.
Context {X B W R F : Type} `{BufB : Buffer B} `{BL : !BufferLaws B}
  `{WALW : WAL W} `{RSW : Restart W} `{DL : !DurableLog W} `{RecorderR : Recorder R}
  `{FloatF : Float64 F}.
Context (deps : Worker.Deps X) `{SL : SinkLaws X deps}.

Implicit Types w : Worker.world X W R.

(** Every sink has [e]. *)
Definition delivered (x : X) (e : IngestRequest) : Prop :=
  forall i, i < length (Worker.deps_Sinks deps) -> wrote i x e.

(** ** What a flush does, sink by sink *)

(** [w] differs from [w0] only outside the log and the tracker, and lost nothing there. *)
Definition only_writes (w0 w : Worker.world X W R) : Prop :=
  Worker.wal w = Worker.wal w0 /\ Worker.tracker w = Worker.tracker w0 /\
  forall i e, wrote i (Worker.ext w0) e -> wrote i (Worker.ext w) e.

Lemma only_writes_refl w : only_writes w w.
Proof. by split_and!. Qed.

Lemma only_writes_trans w1 w2 w3 : only_writes w1 w2 -> only_writes w2 w3 -> only_writes w1 w3.
Proof. intros (?&?&?) (?&?&?). split_and!; [congruence|congruence|auto]. Qed.

Lemma select_timer_writes d w : only_writes w (snd (Worker.select_timer d w)).
Proof.
  unfold Worker.select_timer. destruct (Worker.ctx w); [apply only_writes_refl|].
  destruct (Worker.waits w) as [|[err|] l]; by split_and!.
Qed.

(** Every outcome of a delivery to the [i]-th sink; on success the sink has the batch. *)
Lemma retry_loop_writes i sk batch : Worker.deps_Sinks deps !! i = Some sk ->
  forall rounds attempt lastErr w, rounds <> 0 \/ lastErr <> None ->
  let '(r, w') := Worker.retry_loop rounds attempt lastErr sk batch w in
  only_writes w w' /\ (r = Ret tt -> forall e, e ∈ batch -> wrote i (Worker.ext w') e).
Proof.
  intros Hi. pose proof (list_elem_of_lookup_2 _ _ _ Hi) as Hin.
  induction rounds as [|rounds IH]; intros attempt lastErr w Hne; cbn [Worker.retry_loop].
  { destruct lastErr; [by split; [apply only_writes_refl|]|naive_solver]. }
  unfold bind at 1, gets at 1. unfold bind at 1, try, Worker.on_ext.
  destruct (sink_Write sk (Worker.ctx w) batch (Worker.ext w)) as [r x] eqn:Hw.
  set (w1 := Worker.mk_world x _ _ _ _ _ _).
  assert (only_writes w w1) as H1.
  { split_and!; [done|done|]. intros j e. apply (wrote_stable _ _ _ _ _ _ _ _ Hin Hw). }
  destruct r as [[]|err|p| |]; cbv beta iota; try (by split).
  { split; [done|]. intros _ e He. exact (wrote_own _ _ _ _ _ _ _ Hi Hw He). }
  destruct (AppErr.IsPermanent (Some err)); [by split|].
  assert (forall w2, only_writes w w2 ->
    let '(r, w') := Worker.retry_loop rounds (attempt + 1) (Some err) sk batch w2 in
    only_writes w w' /\ (r = Ret tt -> forall e, e ∈ batch -> wrote i (Worker.ext w') e)) as Hrec.
  { intros w2 H2. pose proof (IH (attempt + 1)%Z (Some err) w2 ltac:(by right)) as H3.
    destruct (Worker.retry_loop _ _ _ _ _ w2) as [r w'].
    destruct H3 as [H3 H4]. split; [by eapply only_writes_trans|done]. }
  case_decide; [|by apply Hrec].
  pose proof (select_timer_writes (attempt * attempt * 100 * Duration.Millisecond) w1) as H2.
  unfold bind at 1. destruct (Worker.select_timer _ w1) as [r w2] eqn:Hs. simpl in H2.
  assert (only_writes w w2) as H12 by (by eapply only_writes_trans).
  destruct r as [[e|]| | | |]; try (by split). by apply Hrec.
Qed.

Lemma dead_letter_writes name err batch w :
  only_writes w (snd (Worker.dead_letter deps name err batch w)).
Proof.
  unfold Worker.dead_letter. revert w. induction batch as [|e batch IH]; intros w;
    [apply only_writes_refl|].
  cbn [for_each]. unfold bind at 1 2, gets at 1, ignore, bind at 1, try, Worker.on_ext.
  destruct (dlq_Push (Worker.deps_DLQ deps) (Worker.ctx w) e name err (Worker.ext w)) as [r x] eqn:Hp.
  set (w1 := Worker.mk_world x _ _ _ _ _ _).
  assert (only_writes w w1) as H1.
  { split_and!; [done|done|]. intros j ev. apply (wrote_dlq _ _ _ _ _ _ _ _ _ Hp). }
  destruct r; cbv beta iota; simpl; try done; (eapply only_writes_trans; [exact H1|]; apply IH).
Qed.

(** One sink of the loop, the [i]-th. *)
Lemma write_sink_writes i sk batch all w : Worker.deps_Sinks deps !! i = Some sk ->
  let '(r, w') := Worker.write_sinks deps [sk] batch all w in
  only_writes w w' /\
  (forall all', r = Ret all' -> all' = true -> all = true /\ forall e, e ∈ batch -> wrote i (Worker.ext w') e).
Proof.
  intros Hsk. cbn [Worker.write_sinks]. unfold bind at 1, try, Worker.writeWithRetry.
  pose proof (retry_loop_writes i sk batch Hsk (Z.to_nat Worker.maxRetries) 1 None w) as Hr.
  destruct (Worker.retry_loop _ _ _ _ _ w) as [r w1]. destruct Hr as [H1 Hown]; [by left|].
  destruct r as [[]|err|p| |]; cbv beta iota; try (by split).
  - unfold ret. split; [done|]. intros all' [= <-] Hall. split; [done|]. by apply Hown.
  - unfold bind at 1. pose proof (dead_letter_writes (sink_Name sk) err batch w1) as H2.
    destruct (Worker.dead_letter deps (sink_Name sk) err batch w1) as [r w2]. simpl in H2.
    assert (only_writes w w2) as H12 by (by eapply only_writes_trans).
    destruct r as [[]|e|p| |]; cbv beta iota; try (by split). unfold ret. split; [done|].
    by intros all' [= <-].
Qed.

Lemma write_sinks_cons sk sks batch all w :
  Worker.write_sinks deps (sk :: sks) batch all w =
    (all' <- Worker.write_sinks deps [sk] batch all ;; Worker.write_sinks deps sks batch all') w.
Proof.
  cbn [Worker.write_sinks]. unfold bind, try. destruct (Worker.writeWithRetry sk batch w) as [[|err|p| |] w1]; try done.
  by destruct (Worker.dead_letter deps (sink_Name sk) err batch w1) as [[[]|e|p| |] w2].
Qed.

(** [sks] is what is left of the sinks from position [k] on. *)
Lemma write_sinks_writes batch sks : forall k all w,
  drop k (Worker.deps_Sinks deps) = sks ->
  let '(r, w') := Worker.write_sinks deps sks batch all w in
  only_writes w w' /\
  (r = Ret true -> all = true /\
     forall i e, k <= i < length (Worker.deps_Sinks deps) -> e ∈ batch -> wrote i (Worker.ext w') e).
Proof.
  induction sks as [|sk sks IH]; intros k all w Hk.
  { split; [apply only_writes_refl|]. intros [= ->]. split; [done|].
    intros i e Hi. apply (f_equal length) in Hk. rewrite length_drop in Hk. simpl in Hk. lia. }
  assert (Worker.deps_Sinks deps !! k = Some sk) as Hsk.
  { rewrite <- (Nat.add_0_r k), <- lookup_drop, Hk. done. }
  assert (drop (S k) (Worker.deps_Sinks deps) = sks) as Hk'.
  { rewrite <- Nat.add_1_r, <- drop_drop, Hk. done. }
  rewrite write_sinks_cons. unfold bind. pose proof (write_sink_writes k sk batch all w Hsk) as H1.
  destruct (Worker.write_sinks deps [sk] batch all w) as [r w1]. destruct H1 as [H1 Hown].
  destruct r as [all'|err|p| |]; try (by split).
  specialize (IH (S k) all' w1 Hk'). destruct (Worker.write_sinks deps sks batch all' w1) as [r w2].
  destruct IH as [H2 H3]. split; [by eapply only_writes_trans|].
  intros Hr. destruct (H3 Hr) as [Hall H4]. destruct (Hown all' eq_refl Hall) as [Hall0 Hw]. split; [done|].
  intros i e Hi He. destruct (decide (i = k)) as [->|]; [|apply H4; [lia|done]].
  apply H2. by apply Hw.
Qed.

(** ** Accepting *)

(** The four ways a Push ends. *)
Inductive push_case (req : IngestRequest) (s s' : Service.Service B W R F) (p : list Entry)
    (l : list IngestRequest) : out unit -> Prop :=
  | push_quota :
      Service.wal s' = Service.wal s -> Service.buf s' = Service.buf s ->
      Service.tracker s' = Service.tracker s ->
      push_case req s s' p l (Fail ErrTenantQuotaExceeded)
  | push_wal_error err :
      Service.wal s' = Service.wal s -> Service.buf s' = Service.buf s ->
      Service.tracker s' = Service.tracker s ->
      push_case req s s' p l (Fail err)
  | push_buffer_error err seqNum :
      wal_holds (Service.wal s') (p ++ [mk_entry seqNum req]) ->
      ~ wal_issued (Service.wal s) seqNum -> wal_issued (Service.wal s') seqNum ->
      (forall n, wal_issued (Service.wal s) n -> wal_issued (Service.wal s') n) ->
      (forall lg, wal_logged (Service.wal s) lg -> wal_logged (Service.wal s') (lg ++ [mk_entry seqNum req])) ->
      Service.buf s' = Service.buf s ->
      SeqTracker.data (Service.tracker s') = delete (EventId req) (SeqTracker.data (Service.tracker s)) ->
      push_case req s s' p l (Fail err)
  | push_accepted seqNum :
      wal_holds (Service.wal s') (p ++ [mk_entry seqNum req]) ->
      ~ wal_issued (Service.wal s) seqNum -> wal_issued (Service.wal s') seqNum ->
      (forall n, wal_issued (Service.wal s) n -> wal_issued (Service.wal s') n) ->
      (forall lg, wal_logged (Service.wal s) lg -> wal_logged (Service.wal s') (lg ++ [mk_entry seqNum req])) ->
      buf_holds (Service.buf s') (l ++ [req]) ->
      SeqTracker.data (Service.tracker s') =
        <[EventId req := seqNum]> (SeqTracker.data (Service.tracker s)) ->
      push_case req s s' p l (Ret tt).

Lemma Push_cases now req (s : Service.Service B W R F) p l :
  wal_holds (Service.wal s) p -> wal_room (Service.wal s) req ->
  buf_holds (Service.buf s) l -> buf_room (Service.buf s) req ->
  exists r s', Service.Push now req s = (r, s') /\ push_case req s s' p l r.
Proof.
  intros Hp Hwr Hl Hbr. destruct s as [b rc lg t tn]. cbn [Service.wal Service.buf] in *.
  unfold Service.Push, bind at 1, gets at 1, bind at 1, Service.record at 1, modify at 1.
  cbv beta iota. unfold bind at 1, Service.allowed. cbn [Service.tenants].
  destruct (Allow now (TenantId req) tn) as [[] tn']; cbv beta iota; cbn [negb].
  2: { unfold bind, Service.record, modify, fail. eexists _, _. split; [done|]. by apply push_quota. }
  unfold bind at 1, try, Service.on_wal. cbn [Service.wal].
  destruct (append_law lg p req Hp Hwr) as [[err ->]|(n & lg' & -> & Hp' & Hni & Hi & Hmono & Hlg)].
  { cbv beta iota. unfold bind, Service.record, modify, fail. eexists _, _. split; [done|].
    by apply push_wal_error. }
  cbv beta iota. unfold bind at 1, Service.track at 1, modify at 1. cbv beta iota.
  unfold bind at 1, try, Service.on_buf. cbn [Service.buf].
  destruct (buf_push_law b l req Hl Hbr) as [[err ->]|(b' & -> & Hl')]; cbv beta iota.
  - unfold bind, Service.track, Service.record, modify, fail. cbv beta iota.
    cbn [Service.buf Service.recorder Service.wal Service.tracker Service.tenants].
    eexists _, _. split; [done|]. apply (push_buffer_error _ _ _ _ _ err n); try done.
    cbn [Service.tracker]. unfold SeqTracker.LoadAndDelete, SeqTracker.Store. cbn [SeqTracker.data].
    rewrite lookup_insert_eq. cbn [snd SeqTracker.data]. apply delete_insert_eq.
  - unfold bind, gets, Service.record, modify. cbv beta iota. eexists _, _. split; [done|].
    by apply (push_accepted _ _ _ _ _ n).
Qed.

(** Push touches the buffer and the log only through their own methods. *)
Lemma Push_parts now req (s s' : Service.Service B W R F) r :
  Service.Push now req s = (r, s') ->
  (Service.wal s' = Service.wal s \/ Service.wal s' = snd (wal_Append req (Service.wal s))) /\
  (Service.buf s' = Service.buf s \/ Service.buf s' = snd (buf_Push req (Service.buf s))).
Proof.
  destruct s as [b rc lg t tn]. cbn [Service.wal Service.buf].
  unfold Service.Push, bind at 1, gets at 1, bind at 1, Service.record at 1, modify at 1.
  cbv beta iota. unfold bind at 1, Service.allowed. cbn [Service.tenants].
  destruct (Allow now (TenantId req) tn) as [[] tn']; cbv beta iota; cbn [negb].
  2: { intros [= <- <-]. auto. }
  unfold bind at 1, try, Service.on_wal. cbn [Service.wal Service.buf].
  destruct (wal_Append req lg) as [[n|err|msg| |] lg']; cbv beta iota; try (intros [= <- <-]; by auto).
  unfold bind at 1, Service.track at 1, modify at 1. cbv beta iota.
  unfold bind at 1, try, Service.on_buf. cbn [Service.buf].
  destruct (buf_Push req b) as [[[]|err|msg| |] b']; intros [= <- <-]; by auto.
Qed.
End delivery.
