(* ===== verification/Interleaving.v ===== *)
(** The pipeline: requests, workers and crashes, one call at a time.

    A request is carried through Push in steps, one for each call on a part that requests and
    workers share: the quota, the log, the tracker, the buffer; a flush is carried out sink by
    sink, and then event by event: the number is taken from the tracker, then acknowledged. Any
    number of requests and workers take these steps in any order, and the machine may go down
    between any two of them. Without interference the steps are Push and flush
    ([Push_complete], [flush_complete]). The state is safe at every moment: [reachable_delivers]. *)
From stdpp Require Import base list strings gmap sets.
From Stdlib Require Import ZArith Lia.
From S2P Require Import Prelude Errors Go Bytes Os OsFaults Proto Float Config.
From S2P Require Import Wal WalFormat WalProofs WalCrash WalSpec.
From S2P Require Import DiskQueue Buffer Hybrid Tenant Metrics Service Sinks Worker Delivery.

(** Where a request stands in Push; the metric label is taken at the beginning. *)
Inductive call :=
  | Begin (req : IngestRequest)
  | Allowed (label : string) (req : IngestRequest)
  | Appended (label : string) (req : IngestRequest) (seqNum : Z)
  | Tracked (label : string) (req : IngestRequest)
  | Refused (label : string) (req : IngestRequest) (err : error)
  | Accepted (req : IngestRequest)
  | Finished (req : IngestRequest) (r : out unit).

Section steps.
Context {X B W R F : Type} `{BufB : Buffer B} `{WALW : WAL W} `{RecorderR : Recorder R} `{FloatF : Float64 F}.
Context (deps : Worker.Deps X).

Notation Svc := (Service.Service B W R F).
Notation world := (Worker.world X W R).

(** The next call of a request. *)
Definition call_step (now : Z) (c : call) : M Svc call :=
  match c with
  | Begin req =>
      label <- gets (fun s => MetricLabel (Service.tenants s) (TenantId req)) ;;
      Service.record (rec_IncEventsReceived label) ;;
      ok <- Service.allowed now (TenantId req) ;;
      if negb ok then Service.record (rec_IncEventsDropped label) ;; ret (Finished req (Fail ErrTenantQuotaExceeded))
      else ret (Allowed label req)
  | Allowed label req =>
      r <- try (Service.on_wal (wal_Append req)) ;;
      match r with
      | inl err => Service.record (rec_IncEventsDropped label) ;; ret (Finished req (Fail err))
      | inr seqNum => ret (Appended label req seqNum)
      end
  | Appended label req seqNum =>
      Service.track (SeqTracker.Store (EventId req) seqNum) ;; ret (Tracked label req)
  | Tracked label req =>
      p <- try (Service.on_buf (buf_Push req)) ;;
      match p with
      | inl err => ret (Refused label req err)
      | inr _ => ret (Accepted req)
      end
  | Refused label req err =>
      Service.track (fun t => snd (SeqTracker.LoadAndDelete (EventId req) t)) ;;
      Service.record (rec_IncEventsDropped label) ;; ret (Finished req (Fail err))
  | Accepted req =>
      size <- gets (fun s => buf_Len (Service.buf s)) ;;
      Service.record (rec_SetBufferSize size) ;; ret (Finished req (Ret tt))
  | Finished req r => ret (Finished req r)
  end.

Fixpoint complete (fuel : nat) (now : Z) (c : call) : M Svc unit :=
  match c with
  | Finished _ r => fun s => (r, s)
  | _ => match fuel with
         | O => fun s => (NoFuel, s)
         | S fuel => c <- call_step now c ;; complete fuel now c
         end
  end.

Lemma complete_next fuel now c c' (s s' : Svc) : (forall req r, c <> Finished req r) ->
  call_step now c s = (Ret c', s') -> complete (S fuel) now c s = complete fuel now c' s'.
Proof. intros Hc H. destruct c; cbn [complete]; try (by apply bind_run_Ret). by destruct (Hc req r). Qed.

Ltac fields := cbn [Service.buf Service.recorder Service.wal Service.tracker Service.tenants].

(** Push is its calls, one after the other. *)
Lemma Push_complete now req (s : Svc) : Service.Push now req s = complete 5 now (Begin req) s.
Proof.
  destruct s as [b rc lg t tn].
  unfold Service.Push, bind at 1, gets at 1, bind at 1, Service.record at 1, modify at 1.
  cbv beta iota. unfold bind at 1, Service.allowed. fields.
  set (label := MetricLabel tn (TenantId req)).
  destruct (Allow now (TenantId req) tn) as [ok tn'] eqn:Ha. cbv beta iota.
  set (rc1 := with_recorder (rec_IncEventsReceived label) rc).
  assert (call_step now (Begin req) (Service.mk b rc lg t tn) =
    (if negb ok then Service.record (rec_IncEventsDropped label) ;; ret (Finished req (Fail ErrTenantQuotaExceeded))
      else ret (Allowed label req)) (Service.mk b rc1 lg t tn')) as H1.
  { unfold call_step. unfold bind at 1, gets at 1, bind at 1, Service.record at 1, modify at 1.
    cbv beta iota. unfold bind at 1, Service.allowed. fields. by rewrite Ha. }
  destruct ok; cbn [negb] in *; erewrite complete_next by (done || exact H1); [|reflexivity].
  clear H1 Ha. unfold bind at 1, try, Service.on_wal. fields.
  destruct (wal_Append req lg) as [[n|err|p| |] lg'] eqn:Hw; cbv beta iota.
  2-5: cbn [complete call_step]; unfold bind, try, Service.on_wal; fields; by rewrite Hw.
  erewrite (complete_next _ _ (Allowed label req) (Appended label req n) _ (Service.mk b rc1 lg' t tn')); [|done|].
  2: { unfold call_step, bind, try, Service.on_wal. fields. by rewrite Hw. }
  set (t1 := SeqTracker.Store (EventId req) n t).
  erewrite (complete_next _ _ (Appended label req n) (Tracked label req) _ (Service.mk b rc1 lg' t1 tn'));
    [|done|reflexivity].
  unfold bind at 1, Service.track at 1, modify at 1. fields.
  unfold bind at 1, try, Service.on_buf. fields.
  destruct (buf_Push req b) as [[[]|err|p| |] b'] eqn:Hb; cbv beta iota.
  3-5: cbn [complete call_step]; unfold bind, try, Service.on_buf; fields; by rewrite Hb.
  - erewrite (complete_next _ _ (Tracked label req) (Accepted req) _ (Service.mk b' rc1 lg' t1 tn')); [reflexivity|done|].
    unfold call_step, bind, try, Service.on_buf. fields. by rewrite Hb.
  - erewrite (complete_next _ _ (Tracked label req) (Refused label req err) _ (Service.mk b' rc1 lg' t1 tn'));
      [reflexivity|done|].
    unfold call_step, bind, try, Service.on_buf. fields. by rewrite Hb.
Qed.

(** Where a worker stands: it collects a batch, writes it to the sinks that are left, or goes
    through the acknowledgements. *)
Inductive hand :=
  | Collecting (batch : list IngestRequest)
  | Writing (start : Z) (sks : list (Sink X)) (batch : list IngestRequest) (all : bool)
  | Acking (start : Z) (batch : list IngestRequest)
  | Acknowledging (start : Z) (seqNum : Z) (batch : list IngestRequest).

Definition work_step (h : hand) : M world hand :=
  match h with
  | Collecting batch => ret (Collecting batch)
  | Writing start (sk :: sks) batch all =>
      all <- Worker.write_sinks deps [sk] batch all ;; ret (Writing start sks batch all)
  | Writing start [] batch all => ret (Acking start (if all then batch else []))
  | Acking start (event :: batch) =>
      r <- Worker.load_and_delete (EventId event) ;;
      let '(seqNum, ok) := r in
      ret (if ok : bool then Acknowledging start seqNum batch else Acking start batch)
  | Acknowledging start seqNum batch =>
      ignore (Worker.on_wal (wal_Acknowledge seqNum)) ;; ret (Acking start batch)
  | Acking start [] =>
      finish <- gets Worker.clock ;;
      Worker.record (rec_ObserveBatchFlush (finish - start)%Z) ;; ret (Collecting [])
  end.

Fixpoint work (fuel : nat) (h : hand) : M world unit :=
  match h with
  | Collecting _ => ret tt
  | _ => match fuel with
         | O => fun w => (NoFuel, w)
         | S fuel => h <- work_step h ;; work fuel h
         end
  end.

Lemma ack_batch_cons e batch n ok t (w : world) :
  SeqTracker.LoadAndDelete (EventId e) (Worker.tracker w) = ((n, ok), t) ->
  let w1 := Worker.mk_world (Worker.ext w) (Worker.wal w) t (Worker.recorder w) (Worker.clock w) (Worker.ctx w) (Worker.waits w) in
  (forall start, work_step (Acking start (e :: batch)) w =
     (Ret (if ok : bool then Acknowledging start n batch else Acking start batch), w1)) /\
  Worker.ack_batch (e :: batch) w =
    ((if ok then ignore (Worker.on_wal (wal_Acknowledge n)) else ret tt) ;; Worker.ack_batch batch) w1.
Proof.
  intros Hl w1.
  assert (Worker.load_and_delete (EventId e) w = (Ret (n, ok), w1)) as Hlad.
  { unfold Worker.load_and_delete. by rewrite Hl. }
  split.
  - intros start. cbn [work_step]. by rewrite (bind_run_Ret _ _ _ _ _ Hlad).
  - unfold Worker.ack_batch. cbn [for_each]. unfold bind at 1 2. rewrite Hlad. reflexivity.
Qed.

Lemma work_acks start batch : forall fuel (w : world), 2 * length batch < fuel ->
  work fuel (Acking start batch) w =
    (Worker.ack_batch batch ;;
     finish <- gets Worker.clock ;; Worker.record (rec_ObserveBatchFlush (finish - start)%Z)) w.
Proof.
  induction batch as [|e batch IH]; intros [|fuel] w Hf; cbn [length] in Hf; try lia.
  { cbn [work work_step]. unfold Worker.ack_batch. cbn [for_each]. unfold bind, gets, ret, Worker.record, modify.
    by destruct fuel. }
  destruct (SeqTracker.LoadAndDelete (EventId e) (Worker.tracker w)) as [[n ok] t] eqn:Hl.
  destruct (ack_batch_cons e batch n ok t w Hl) as [H1 H2].
  cbn [work]. rewrite (bind_run_Ret _ _ _ _ _ (H1 start)). unfold bind at 1. rewrite H2.
  clear H1 H2. set (w1 := Worker.mk_world _ _ _ _ _ _ _).
  destruct ok.
  - destruct fuel as [|fuel]; [lia|]. cbn [work work_step]. unfold bind at 2. unfold bind at 2. unfold bind at 1.
    destruct (ignore (Worker.on_wal (wal_Acknowledge n)) w1) as [[[]|err|p| |] w2]; try reflexivity.
    unfold ret at 1. cbv beta iota. rewrite IH by lia. reflexivity.
  - unfold bind at 1, ret at 1. rewrite IH by lia. reflexivity.
Qed.

Lemma work_writes start batch sks : forall fuel all (w : world), length sks + 2 * length batch + 1 < fuel ->
  work fuel (Writing start sks batch all) w =
    (all <- Worker.write_sinks deps sks batch all ;;
     (if all : bool then Worker.ack_batch batch else ret tt) ;;
     finish <- gets Worker.clock ;; Worker.record (rec_ObserveBatchFlush (finish - start)%Z)) w.
Proof.
  induction sks as [|sk sks IH]; intros [|fuel] all w Hf; cbn [length] in Hf; try lia; cbn [work work_step].
  - unfold bind at 1, ret at 1. cbn [Worker.write_sinks]. rewrite work_acks by (destruct all; cbn [length]; lia).
    unfold bind at 2, ret at 1. by destruct all.
  - destruct (Worker.write_sinks deps [sk] batch all w) as [r w1] eqn:H1.
    pose proof (write_sinks_cons deps sk sks batch all w) as H2. destruct r as [all'|err|p| |].
    1: { rewrite (bind_run_Ret _ _ _ _ _ H1) in H2. rewrite (bind_run_Ret _ _ w (Writing start sks batch all') w1).
         - rewrite IH by lia. unfold bind at 1. rewrite <- H2. reflexivity.
         - by rewrite (bind_run_Ret _ _ _ _ _ H1). }
    all: unfold bind in H2; rewrite H1 in H2; unfold bind; rewrite H1, H2; reflexivity.
Qed.

(** A flush is its steps, one after the other. *)
Lemma flush_complete batch (w : world) fuel : length (Worker.deps_Sinks deps) + 2 * length batch + 1 < fuel ->
  Worker.flush deps batch w =
    work fuel (Writing (Worker.clock w) (Worker.deps_Sinks deps) batch true) w.
Proof. intros Hf. rewrite work_writes by done. reflexivity. Qed.
End steps.
Arguments hand : clear implicits.

(** ** The system *)

Section system.
Context {X B W R F : Type} `{BufB : Buffer B} `{BL : !BufferLaws B}
  `{WALW : WAL W} `{RSW : Restart W} `{DL : !DurableLog W} `{RecorderR : Recorder R}
  `{FloatF : Float64 F}.
Context (deps : Worker.Deps X) `{SL : !SinkLaws deps}.

Notation Svc := (Service.Service B W R F).
Notation world := (Worker.world X W R).

(** [sent]: the events that were handed to Push, by id. [accepted]: those for which it returned
    nil. *)
Record system := mk_system {
  svc : Svc;
  outside : X;
  hands : list (hand X);
  calls : list call;
  sent : gmap string IngestRequest;
  accepted : list IngestRequest
}.

(** The world of a worker: its own clock, context and timers, everything else shared. *)
Definition worker_world (s : system) (ck : Z) (c : Ctx) (ws : list (option error)) : world :=
  Worker.mk_world (outside s) (Service.wal (svc s)) (Service.tracker (svc s))
    (Service.recorder (svc s)) ck c ws.

Definition after_work (s : system) (w : world) (hs : list (hand X)) : system :=
  mk_system
    (Service.mk (Service.buf (svc s)) (Worker.recorder w) (Worker.wal w) (Worker.tracker w)
       (Service.tenants (svc s)))
    (Worker.ext w) hs (calls s) (sent s) (accepted s).

(** An id names one event: the same event may be pushed again, by a client that retries or by the
    replay at start-up. *)
Definition id_agrees (m : gmap string IngestRequest) (e : IngestRequest) : Prop :=
  m !! EventId e = None \/ m !! EventId e = Some e.

(** The log and the buffer can take the event when its turn comes. *)
Definition has_room (s : system) (c : call) : Prop :=
  match c with
  | Allowed _ req => wal_room (Service.wal (svc s)) req
  | Tracked _ req => buf_room (Service.buf (svc s)) req
  | _ => True
  end.

(** [step_work]: a panic costs the worker its batch; it starts again with none.
    [step_crash]: the machine goes down, losing unsynced bytes, and a new process opens the log
    on what is left. Its tracker is empty, its workers hold nothing, no request is under way,
    and its buffer holds what it found on disk, if it has one there. The outside keeps what was
    written to it. [wal_whole] leaves out a crash that tears an acknowledgement in two. *)
Inductive sys_step : system -> system -> Prop :=
  | step_arrive s req :
      id_agrees (sent s) req ->
      sys_step s (mk_system (svc s) (outside s) (hands s) (calls s ++ [Begin req])
                    (<[EventId req := req]> (sent s)) (accepted s))
  | step_call s i now c c' svc' :
      calls s !! i = Some c -> has_room s c -> call_step now c (svc s) = (Ret c', svc') ->
      sys_step s (mk_system svc' (outside s) (hands s) (<[i := c']> (calls s)) (sent s)
                    (match c with Accepted req => accepted s ++ [req] | _ => accepted s end))
  | step_take s i batch e b :
      hands s !! i = Some (Collecting batch) -> buf_Recv (Service.buf (svc s)) = (Got e, b) ->
      sys_step s (mk_system
        (Service.mk b (Service.recorder (svc s)) (Service.wal (svc s)) (Service.tracker (svc s))
           (Service.tenants (svc s)))
        (outside s) (<[i := Collecting (batch ++ [e])]> (hands s)) (calls s) (sent s) (accepted s))
  | step_buffer s b :
      buf_moves (Service.buf (svc s)) b ->
      sys_step s (mk_system
        (Service.mk b (Service.recorder (svc s)) (Service.wal (svc s)) (Service.tracker (svc s))
           (Service.tenants (svc s)))
        (outside s) (hands s) (calls s) (sent s) (accepted s))
  | step_flush s i batch ck :
      hands s !! i = Some (Collecting batch) -> batch <> [] ->
      sys_step s (mk_system (svc s) (outside s)
        (<[i := Writing ck (Worker.deps_Sinks deps) batch true]> (hands s)) (calls s) (sent s) (accepted s))
  | step_work s i h ck c ws r w :
      hands s !! i = Some h -> work_step deps h (worker_world s ck c ws) = (r, w) ->
      sys_step s (after_work s w (<[i := match r with Ret h' => h' | _ => Collecting [] end]> (hands s)))
  | step_crash s keep lg b l rc tn x hs :
      wal_whole keep (Service.wal (svc s)) -> restart keep (Service.wal (svc s)) = Ret lg ->
      buf_holds b l -> (forall e, e ∈ l -> sent s !! EventId e = Some e) ->
      (forall i e, wrote i (outside s) e -> wrote i x e) -> Forall (fun h => h = Collecting []) hs ->
      sys_step s (mk_system (Service.mk b rc lg SeqTracker.NewSeqTracker tn) x hs [] (sent s) (accepted s)).

(** The process as it starts: nothing in hand, no request under way. The buffer may hold events of
    earlier lives that it found on disk ([l]), the log entries of earlier lives, pending ([p]) or
    not ([lg]), and of the events those accepted, the ones not yet delivered are among the
    pending. *)
Definition starts (s : system) : Prop :=
  exists p lg l, wal_holds (Service.wal (svc s)) p /\ wal_logged (Service.wal (svc s)) lg /\
  buf_holds (Service.buf (svc s)) l /\ (forall e, e ∈ l -> sent s !! EventId e = Some e) /\
  SeqTracker.data (Service.tracker (svc s)) = ∅ /\ Forall (fun h => h = Collecting []) (hands s) /\
  calls s = [] /\ p ⊆ lg /\ (forall en, en ∈ lg -> sent s !! EventId (Event en) = Some (Event en)) /\
  Forall (fun e => delivered deps (outside s) e \/ exists n, mk_entry n e ∈ p) (accepted s).

(** ** What holds at every moment *)

(** [e] is with every sink, or pending in the log. *)
Definition secured (s : system) (p : list Entry) (e : IngestRequest) : Prop :=
  delivered deps (outside s) e \/ exists n, mk_entry n e ∈ p.

Definition is_sent (s : system) (e : IngestRequest) : Prop := sent s !! EventId e = Some e.

(** The tracker points at issued numbers, each of them the number of the event with that id. *)
Definition tracked (t : SeqTracker.SeqTracker) (l : W) (p : list Entry) : Prop :=
  forall id s, SeqTracker.data t !! id = Some s ->
    wal_issued l s /\ forall en, en ∈ p -> SeqNum en = s -> EventId (Event en) = id.

Definition call_ok (s : system) (p : list Entry) (c : call) : Prop :=
  match c with
  | Begin req | Allowed _ req | Refused _ req _ => is_sent s req
  | Appended _ req n => is_sent s req /\ secured s p req /\ wal_issued (Service.wal (svc s)) n /\
      forall en, en ∈ p -> SeqNum en = n -> Event en = req
  | Tracked _ req | Accepted req => is_sent s req /\ secured s p req
  | Finished _ _ => True
  end.

Definition hand_ok (s : system) (p : list Entry) (h : hand X) : Prop :=
  match h with
  | Collecting batch => forall e, e ∈ batch -> is_sent s e
  | Writing _ sks batch all => (forall e, e ∈ batch -> is_sent s e) /\
      exists k, drop k (Worker.deps_Sinks deps) = sks /\
        (all = true -> forall i e, i < k -> i < length (Worker.deps_Sinks deps) -> e ∈ batch -> wrote i (outside s) e)
  | Acking _ batch => forall e, e ∈ batch -> is_sent s e /\ delivered deps (outside s) e
  | Acknowledging _ n batch => (forall e, e ∈ batch -> is_sent s e /\ delivered deps (outside s) e) /\
      wal_issued (Service.wal (svc s)) n /\
      forall en, en ∈ p -> SeqNum en = n -> delivered deps (outside s) (Event en)
  end.

Record sys_ok (s : system) (p : list Entry) (l : list IngestRequest) : Prop := {
  ok_wal : wal_holds (Service.wal (svc s)) p;
  ok_logged : exists lg, wal_logged (Service.wal (svc s)) lg /\ forall en, en ∈ lg -> is_sent s (Event en);
  ok_buf : buf_holds (Service.buf (svc s)) l;
  ok_tracked : tracked (Service.tracker (svc s)) (Service.wal (svc s)) p;
  ok_accepted : forall e, e ∈ accepted s -> secured s p e;
  ok_pending : forall en, en ∈ p -> is_sent s (Event en);
  ok_buffered : forall e, e ∈ l -> is_sent s e;
  ok_calls : forall c, c ∈ calls s -> call_ok s p c;
  ok_hands : forall h, h ∈ hands s -> hand_ok s p h
}.

(** What a step of the running process may change: events are added to the ones sent, writes to
    the outside, entries with fresh numbers to the log; what leaves the log is delivered. *)
Record advances (s : system) (p : list Entry) (s' : system) (p' : list Entry) : Prop := {
  adv_sent : forall e, is_sent s e -> is_sent s' e;
  adv_outside : forall i e, wrote i (outside s) e -> wrote i (outside s') e;
  adv_issued : forall n, wal_issued (Service.wal (svc s)) n -> wal_issued (Service.wal (svc s')) n;
  adv_new : forall en, en ∈ p' -> en ∈ p \/ ~ wal_issued (Service.wal (svc s)) (SeqNum en);
  adv_gone : forall en, en ∈ p -> en ∈ p' \/ delivered deps (outside s') (Event en)
}.

Section advance.
Context (s : system) (p : list Entry) (s' : system) (p' : list Entry) (A : advances s p s' p').

Lemma delivered_advances e : delivered deps (outside s) e -> delivered deps (outside s') e.
Proof. intros H i Hi. apply A, H, Hi. Qed.

Lemma secured_advances e : secured s p e -> secured s' p' e.
Proof.
  intros [H|[n H]]; [left; by apply delivered_advances|].
  destruct (adv_gone _ _ _ _ A _ H) as [H'|H']; [right; by exists n|by left].
Qed.

Lemma numbered_advances n en : wal_issued (Service.wal (svc s)) n -> en ∈ p' -> SeqNum en = n -> en ∈ p.
Proof. intros Hi Hin <-. by destruct (adv_new _ _ _ _ A _ Hin). Qed.

Lemma call_ok_advances c : call_ok s p c -> call_ok s' p' c.
Proof.
  pose proof (adv_sent _ _ _ _ A) as Hs. pose proof secured_advances as Hsec.
  destruct c; cbn [call_ok]; [auto..| | |auto| |auto]; try (intros [H1 H2]; by auto).
  intros (H1 & H2 & H3 & H4). split_and!; [auto|auto|by apply A|].
  intros en Hen Hn. apply H4; [|done]. by eapply numbered_advances.
Qed.

Lemma hand_ok_advances h : hand_ok s p h -> hand_ok s' p' h.
Proof.
  pose proof (adv_sent _ _ _ _ A) as Hs. pose proof delivered_advances as Hd.
  destruct h as [batch|start sks batch all|start batch|start n batch]; cbn [hand_ok].
  - auto.
  - intros [H1 (k & Hk & H2)]. split; [auto|]. exists k. split; [done|]. intros Ha i e Hi Hl He. apply A. by apply H2.
  - intros H e He. destruct (H e He). auto.
  - intros (H1 & H2 & H3). split_and!; [|by apply A|].
    + intros e He. destruct (H1 e He). auto.
    + intros en Hen Hn. apply Hd, H3; [|done]. by eapply numbered_advances.
Qed.

Lemma tracked_advances t : tracked t (Service.wal (svc s)) p -> tracked t (Service.wal (svc s')) p'.
Proof.
  intros H id n Hn. destruct (H id n Hn) as [H1 H2]. split; [by apply A|].
  intros en Hen Heq. apply H2; [|done]. by eapply numbered_advances.
Qed.

(** A step that keeps the parts in order, and leaves one request or one worker at a new place. *)
Lemma sys_ok_advances l l' :
  sys_ok s p l ->
  wal_holds (Service.wal (svc s')) p' ->
  (exists lg, wal_logged (Service.wal (svc s')) lg /\ forall en, en ∈ lg -> is_sent s' (Event en)) ->
  buf_holds (Service.buf (svc s')) l' ->
  tracked (Service.tracker (svc s')) (Service.wal (svc s')) p' ->
  (forall e, e ∈ accepted s' -> e ∈ accepted s \/ secured s' p' e) ->
  (forall en, en ∈ p' -> en ∈ p \/ is_sent s' (Event en)) ->
  (forall e, e ∈ l' -> e ∈ l \/ is_sent s' e) ->
  (forall c, c ∈ calls s' -> c ∈ calls s \/ call_ok s' p' c) ->
  (forall h, h ∈ hands s' -> h ∈ hands s \/ hand_ok s' p' h) ->
  sys_ok s' p' l'.
Proof.
  intros Hok Hw Hlg Hb Ht Ha Hp Hl Hc Hh. split; try done.
  - intros e He. destruct (Ha e He) as [H|H]; [|done]. by apply secured_advances, (ok_accepted _ _ _ Hok).
  - intros en He. destruct (Hp en He) as [H|H]; [|done]. by apply A, (ok_pending _ _ _ Hok).
  - intros e He. destruct (Hl e He) as [H|H]; [|done]. by apply A, (ok_buffered _ _ _ Hok).
  - intros c Hin. destruct (Hc c Hin) as [H|H]; [|done]. by apply call_ok_advances, (ok_calls _ _ _ Hok).
  - intros h Hin. destruct (Hh h Hin) as [H|H]; [|done]. by apply hand_ok_advances, (ok_hands _ _ _ Hok).
Qed.
End advance.

Lemma elem_of_insert {A} (l : list A) i x y : y ∈ <[i := x]> l -> y = x \/ y ∈ l.
Proof.
  intros [j Hj]%list_elem_of_lookup. destruct (decide (j = i)) as [->|Hne].
  - destruct (decide (i < length l)).
    + rewrite list_lookup_insert_eq in Hj by done. left. congruence.
    + rewrite list_insert_ge in Hj by lia. right. by eapply list_elem_of_lookup_2.
  - rewrite list_lookup_insert_ne in Hj by done. right. by eapply list_elem_of_lookup_2.
Qed.

(** Nothing has changed that [advances] speaks of. *)
Lemma advances_refl s s' p : sent s' = sent s -> outside s' = outside s ->
  Service.wal (svc s') = Service.wal (svc s) -> advances s p s' p.
Proof.
  intros Hs Ho Hw. split; unfold is_sent; rewrite ?Hs, ?Ho, ?Hw; auto.
Qed.

Lemma is_sent_insert s req e : id_agrees (sent s) req -> is_sent s e ->
  <[EventId req := req]> (sent s) !! EventId e = Some e.
Proof.
  intros Hnew He. apply lookup_insert_Some. destruct (decide (EventId req = EventId e)) as [Heq|]; [left|by right].
  split; [done|]. unfold id_agrees in Hnew. unfold is_sent in He. rewrite Heq, He in Hnew. naive_solver.
Qed.

Lemma arrive_keeps s req p l : sys_ok s p l -> id_agrees (sent s) req ->
  sys_ok (mk_system (svc s) (outside s) (hands s) (calls s ++ [Begin req])
            (<[EventId req := req]> (sent s)) (accepted s)) p l.
Proof.
  intros Hok Hnew. assert (advances s p (mk_system (svc s) (outside s) (hands s) (calls s ++ [Begin req])
            (<[EventId req := req]> (sent s)) (accepted s)) p) as A.
  { split; cbn; auto. intros e He. by apply is_sent_insert. }
  destruct (ok_logged _ _ _ Hok) as (lg & Hlg & Hse).
  eapply (sys_ok_advances s p _ p A l l Hok); try apply Hok; cbn [calls hands accepted svc]; auto.
  - exists lg. split; [done|]. intros en Hen. by apply A, Hse.
  - intros c [Hc|Hc]%elem_of_app; [by left|right]. apply list_elem_of_singleton in Hc as ->.
    unfold call_ok, is_sent. cbn [sent]. by rewrite lookup_insert_eq.
Qed.

(** A request's call that leaves the log and the buffer alone. *)
Lemma quiet_call_keeps s i c c' rc t tn acc p l :
  sys_ok s p l -> calls s !! i = Some c ->
  let svc' := Service.mk (Service.buf (svc s)) rc (Service.wal (svc s)) t tn in
  let s' := mk_system svc' (outside s) (hands s) (<[i := c']> (calls s)) (sent s) acc in
  tracked t (Service.wal (svc s)) p -> call_ok s' p c' ->
  (forall e, e ∈ acc -> e ∈ accepted s \/ secured s p e) ->
  sys_ok s' p l.
Proof.
  intros Hok Hi svc' s' Ht Hc Ha.
  assert (advances s p s' p) as A by (by apply advances_refl).
  eapply (sys_ok_advances s p s' p A l l Hok); try apply Hok; cbn [s' svc' calls hands accepted svc]; auto.
  intros c0 [->|Hc0]%elem_of_insert; [by right|by left].
Qed.

Lemma tracked_delete t lg p id : tracked t lg p ->
  tracked (snd (SeqTracker.LoadAndDelete id t)) lg p.
Proof.
  intros H id' n. unfold SeqTracker.LoadAndDelete. destruct (SeqTracker.data t !! id) eqn:Hd; cbn; [|apply H].
  rewrite lookup_delete_Some. intros [_ Hn]. by apply H.
Qed.

(** The append, under a fresh number. *)
Lemma append_keeps s i label req n lg' p l :
  sys_ok s p l -> calls s !! i = Some (Allowed label req) -> is_sent s req ->
  wal_holds lg' (p ++ [mk_entry n req]) -> ~ wal_issued (Service.wal (svc s)) n -> wal_issued lg' n ->
  (forall k, wal_issued (Service.wal (svc s)) k -> wal_issued lg' k) ->
  (forall lg, wal_logged (Service.wal (svc s)) lg -> wal_logged lg' (lg ++ [mk_entry n req])) ->
  sys_ok (mk_system
    (Service.mk (Service.buf (svc s)) (Service.recorder (svc s)) lg' (Service.tracker (svc s)) (Service.tenants (svc s)))
    (outside s) (hands s) (<[i := Appended label req n]> (calls s)) (sent s) (accepted s)) (p ++ [mk_entry n req]) l.
Proof.
  intros Hok Hi Hsent Hp Hni Hiss Hmono Hlog. set (s' := mk_system _ _ _ _ _ _).
  assert (forall en, en ∈ p ++ [mk_entry n req] -> en ∈ p \/ en = mk_entry n req) as Hin.
  { intros en [H|H]%elem_of_app; [by left|right]. by apply list_elem_of_singleton in H. }
  assert (advances s p s' (p ++ [mk_entry n req])) as A.
  { split; cbn; auto.
    - intros en [H| ->]%Hin; [by left|by right].
    - intros en H. left. apply elem_of_app. by left. }
  destruct (ok_logged _ _ _ Hok) as (lg & Hlg & Hse).
  assert (forall en, en ∈ p -> SeqNum en <> n) as Hfresh.
  { intros en Hen <-. apply Hni. eapply holds_issued; [|exact Hen]. apply Hok. }
  eapply (sys_ok_advances s p s' _ A l l Hok); cbn [s' calls hands accepted svc Service.wal Service.buf Service.tracker];
    [done| |apply Hok| | | |auto| |auto]; auto.
  - exists (lg ++ [mk_entry n req]). split; [by apply Hlog|]. intros en [H|H]%elem_of_app; [by apply Hse|].
    by apply list_elem_of_singleton in H as ->.
  - apply (tracked_advances s p s' _ A), Hok.
  - intros en [H| ->]%Hin; [by left|by right].
  - intros c [->|Hc]%elem_of_insert; [right|by left]. cbn [call_ok]. split_and!; [done| |done|].
    + right. exists n. apply elem_of_app. right. by left.
    + intros en [H| ->]%Hin Hn; [|done]. by destruct (Hfresh en H).
Qed.

Lemma call_keeps s i now c p l : sys_ok s p l -> calls s !! i = Some c -> has_room s c ->
  exists c' svc' p' l', call_step now c (svc s) = (Ret c', svc') /\
    sys_ok (mk_system svc' (outside s) (hands s) (<[i := c']> (calls s)) (sent s)
              (match c with Accepted req => accepted s ++ [req] | _ => accepted s end)) p' l'.
Proof.
  intros Hok Hi Hroom. pose proof (ok_calls _ _ _ Hok c ltac:(by eapply list_elem_of_lookup_2)) as Hc.
  destruct s as [[b rc lg t tn] x hs cs m acc]. cbn [svc] in *.
  destruct c as [req|label req|label req n|label req|label req err|req|r]; cbn [call_ok has_room] in Hc, Hroom.
  - (* the quota *)
    unfold call_step. unfold bind at 1, gets at 1, bind at 1, Service.record at 1, modify at 1.
    cbv beta iota. unfold bind at 1, Service.allowed. cbn [Service.tenants].
    destruct (Allow now (TenantId req) tn) as [[] tn']; cbv beta iota; cbn [negb];
      (eexists _, _, p, l; split; [reflexivity|]);
      apply (quiet_call_keeps _ _ _ _ _ t _ _ p l Hok Hi); try done; [apply Hok|auto|apply Hok|auto].
  - (* the log *)
    unfold call_step, bind, try, Service.on_wal. cbn [Service.wal svc] in *.
    destruct (append_law lg p req (ok_wal _ _ _ Hok) Hroom) as [[err ->]|(n & lg' & -> & Hp' & Hni & Hiss & Hmono & Hlog)].
    + eexists _, _, p, l. split; [reflexivity|].
      apply (quiet_call_keeps _ _ _ _ _ t _ _ p l Hok Hi); try done; [apply Hok|auto].
    + eexists _, _, _, l. split; [reflexivity|].
      by apply (append_keeps _ _ _ _ _ _ _ _ Hok Hi).
  - (* the tracker *)
    eexists _, _, p, l. split; [reflexivity|].
    apply (quiet_call_keeps _ _ _ _ _ _ _ _ p l Hok Hi); try done; [|naive_solver|auto].
    destruct Hc as (_ & _ & Hiss & Hnum). cbn. intros id k. cbn. rewrite lookup_insert_Some.
    intros [[<- <-]|[_ Hk]]; [|by apply (ok_tracked _ _ _ Hok)]. split; [done|].
    intros en Hen Hn. by rewrite (Hnum en Hen Hn).
  - (* the buffer *)
    unfold call_step, bind, try, Service.on_buf. cbn [Service.buf svc] in *.
    destruct (buf_push_law b l req (ok_buf _ _ _ Hok) Hroom) as [[err ->]|(b' & -> & Hb')].
    + eexists _, _, p, l. split; [reflexivity|].
      apply (quiet_call_keeps _ _ _ _ _ t _ _ p l Hok Hi); try done; [apply Hok|by destruct Hc|auto].
    + eexists _, _, p, (l ++ [req]). split; [reflexivity|]. set (s' := mk_system _ _ _ _ _ _).
      set (s0 := mk_system _ _ _ _ _ _) in Hok.
      assert (advances s0 p s' p) as A by (by apply advances_refl).
      eapply (sys_ok_advances s0 p s' p A l _ Hok); try apply Hok; cbn [s' s0 calls hands accepted svc Service.buf]; auto.
      * intros e [He|He]%elem_of_app; [by left|right]. apply list_elem_of_singleton in He as ->. by destruct Hc.
      * intros c [->|Hc0]%elem_of_insert; [by right|by left].
  - (* the number is taken back *)
    eexists _, _, p, l. split; [reflexivity|].
    apply (quiet_call_keeps _ _ _ _ _ _ _ _ p l Hok Hi); try done; [|auto]. apply tracked_delete, Hok.
  - (* the answer *)
    eexists _, _, p, l. split; [reflexivity|].
    apply (quiet_call_keeps _ _ _ _ _ t _ _ p l Hok Hi); try done; [apply Hok|].
    intros e [He|He]%elem_of_app; [by left|right]. apply list_elem_of_singleton in He as ->. by destruct Hc.
  - eexists _, _, p, l. split; [reflexivity|].
    apply (quiet_call_keeps _ _ _ _ _ t _ _ p l Hok Hi); try done; [apply Hok|auto].
Qed.

(** A worker's step that leaves the log alone: it only writes to the outside. *)
Lemma quiet_work_keeps s i h (w : world) t p l :
  sys_ok s p l ->
  Worker.wal w = Service.wal (svc s) -> Worker.tracker w = t -> tracked t (Service.wal (svc s)) p ->
  (forall i e, wrote i (outside s) e -> wrote i (Worker.ext w) e) ->
  let s' := after_work s w (<[i := h]> (hands s)) in
  hand_ok s' p h -> sys_ok s' p l.
Proof.
  intros Hok Hw Ht Htr Hx s' Hh.
  assert (advances s p s' p) as A by (split; cbn; rewrite ?Hw; auto).
  eapply (sys_ok_advances s p s' p A l l Hok); cbn [s' after_work calls hands accepted svc Service.wal Service.buf Service.tracker];
    rewrite ?Hw, ?Ht; try apply Hok; auto.
  intros h0 [->|Hin]%elem_of_insert; [by right|by left].
Qed.

Lemma Collecting_ok s p : hand_ok s p (Collecting []).
Proof. intros e He. by apply elem_of_nil in He. Qed.

Definition next_hand (r : out (hand X)) : hand X := match r with Ret h => h | _ => Collecting [] end.

(** One sink is offered the batch. *)
Lemma write_keeps s i start sk sks batch all ck c ws r w p l :
  sys_ok s p l -> hand_ok s p (Writing start (sk :: sks) batch all) ->
  work_step deps (Writing start (sk :: sks) batch all) (worker_world s ck c ws) = (r, w) ->
  sys_ok (after_work s w (<[i := next_hand r]> (hands s))) p l.
Proof.
  intros Hok (Hs & k & Hk & Hw) Hrun. cbn [work_step] in Hrun.
  assert (Worker.deps_Sinks deps !! k = Some sk) as Hsk.
  { rewrite <- (Nat.add_0_r k), <- lookup_drop, Hk. done. }
  pose proof (write_sink_writes deps k sk batch all (worker_world s ck c ws) Hsk) as H1.
  unfold bind in Hrun. destruct (Worker.write_sinks deps [sk] batch all (worker_world s ck c ws)) as [r1 w1].
  destruct H1 as [(Hwal & Htr & Hx) Hown]. cbn [worker_world Worker.wal Worker.tracker Worker.ext] in *.
  assert (w = w1) as -> by (by destruct r1; injection Hrun).
  apply (quiet_work_keeps s i _ w1 (Service.tracker (svc s))); [done|done|done|apply Hok|done|].
  destruct r1 as [all'|err|msg| |]; injection Hrun as <-; try apply Collecting_ok.
  split; [exact Hs|]. exists (S k). split; [by rewrite <- Nat.add_1_r, <- drop_drop, Hk|].
  intros Ha j e Hj Hl He. destruct (Hown all' eq_refl Ha) as [Hall Hnow].
  destruct (decide (j = k)) as [->|]; [by apply Hnow|]. apply Hx, Hw; [done|lia|done|done].
Qed.

(** The number of a delivered event is taken from the tracker. *)
Lemma load_keeps s i start e batch ck c ws r w p l :
  sys_ok s p l -> hand_ok s p (Acking start (e :: batch)) ->
  work_step deps (Acking start (e :: batch)) (worker_world s ck c ws) = (r, w) ->
  sys_ok (after_work s w (<[i := next_hand r]> (hands s))) p l.
Proof.
  intros Hok Hh Hrun. cbn [work_step hand_ok] in Hrun, Hh.
  unfold bind, Worker.load_and_delete in Hrun. cbn [worker_world Worker.tracker] in Hrun.
  unfold SeqTracker.LoadAndDelete in Hrun.
  destruct (SeqTracker.data (Service.tracker (svc s)) !! EventId e) as [n|] eqn:Hn; cbv beta iota in Hrun;
    injection Hrun as <- <-.
  - eapply quiet_work_keeps; [done|done|done| |done|].
    + intros id k. cbn. rewrite lookup_delete_Some. intros [_ Hk]. by apply (ok_tracked _ _ _ Hok).
    + destruct (ok_tracked _ _ _ Hok _ _ Hn) as [Hiss Hid]. split; [intros e' He'; apply Hh; by right|].
      split; [done|]. intros en Hen Heq. cbn [after_work outside Worker.ext].
      destruct (Hh e ltac:(by left)) as [Hse Hde].
      pose proof (ok_pending _ _ _ Hok en Hen) as Hp. unfold is_sent in Hp, Hse.
      rewrite (Hid en Hen Heq), Hse in Hp. injection Hp as <-. exact Hde.
  - eapply quiet_work_keeps; [done|done|done|apply Hok|done|]. intros e' He'. apply Hh. by right.
Qed.

(** The number of delivered events is acknowledged. *)
Lemma acknowledge_keeps s i start n batch ck c ws r w p l :
  sys_ok s p l -> hand_ok s p (Acknowledging start n batch) ->
  work_step deps (Acknowledging start n batch) (worker_world s ck c ws) = (r, w) ->
  sys_ok (after_work s w (<[i := next_hand r]> (hands s))) (filter (fun en => SeqNum en <> n) p) l.
Proof.
  intros Hok (Hb & Hiss & Hdel) Hrun. cbn [work_step] in Hrun.
  destruct (ack_law _ p n (ok_wal _ _ _ Hok) Hiss) as (lg' & Hack & Hp' & Hmono & Hlog).
  assert (Worker.on_wal (wal_Acknowledge n) (worker_world s ck c ws) =
    (Ret tt, Worker.mk_world (outside s) lg' (Service.tracker (svc s)) (Service.recorder (svc s)) ck c ws)) as Hrun'.
  { unfold Worker.on_wal. cbn [worker_world Worker.wal]. by rewrite Hack. }
  rewrite (bind_run_Ret _ _ _ _ _ (ignore_run_Ret _ _ _ _ Hrun')) in Hrun. injection Hrun as <- <-.
  set (s' := after_work _ _ _).
  assert (advances s p s' (filter (fun en => SeqNum en <> n) p)) as A.
  { split; cbn [s' after_work svc outside Service.wal Worker.ext Worker.wal]; auto.
    - intros en [_ H]%list_elem_of_filter. by left.
    - intros en H. destruct (decide (SeqNum en = n)) as [Hn|Hn]; [right; by apply Hdel|left].
      by apply list_elem_of_filter. }
  destruct (ok_logged _ _ _ Hok) as (lg & Hlg & Hse).
  eapply (sys_ok_advances s p s' _ A l l Hok);
    cbn [s' after_work calls hands accepted svc Service.wal Service.buf Service.tracker Worker.wal Worker.tracker]; auto.
  + exists lg. split; [by apply Hlog|]. intros en Hen. by apply Hse.
  + apply Hok.
  + apply (tracked_advances s p s' _ A), Hok.
  + intros en [_ H]%list_elem_of_filter. by left.
  + intros h [->|Hin]%elem_of_insert; [right|by left]. exact Hb.
Qed.

Lemma work_keeps s i h ck c ws r w p l : sys_ok s p l -> hands s !! i = Some h ->
  work_step deps h (worker_world s ck c ws) = (r, w) ->
  exists p', sys_ok (after_work s w (<[i := next_hand r]> (hands s))) p' l.
Proof.
  intros Hok Hi Hrun. pose proof (ok_hands _ _ _ Hok h ltac:(by eapply list_elem_of_lookup_2)) as Hh.
  destruct h as [batch|start [|sk sks] batch all|start [|e batch]|start n batch].
  - injection Hrun as <- <-. exists p. by eapply quiet_work_keeps; [..|apply Hok| |].
  - injection Hrun as <- <-. exists p. eapply quiet_work_keeps; [done..|apply Hok|done|]. cbn [hand_ok].
    destruct Hh as (Hs & k & Hk & Hw). destruct all; [|intros e He; by apply elem_of_nil in He].
    intros e He. split; [by apply Hs|]. intros j Hj. apply Hw; [done| |done|done].
    apply (f_equal length) in Hk. rewrite length_drop in Hk. simpl in Hk. lia.
  - exists p. by eapply write_keeps.
  - injection Hrun as <- <-. exists p. eapply quiet_work_keeps; [done..|apply Hok|done|apply Collecting_ok].
  - exists p. by eapply load_keeps.
  - eexists. by eapply acknowledge_keeps.
Qed.

Lemma take_keeps s i batch e b p l : sys_ok s p l -> hands s !! i = Some (Collecting batch) ->
  buf_Recv (Service.buf (svc s)) = (Got e, b) ->
  exists l', sys_ok (mk_system
    (Service.mk b (Service.recorder (svc s)) (Service.wal (svc s)) (Service.tracker (svc s)) (Service.tenants (svc s)))
    (outside s) (<[i := Collecting (batch ++ [e])]> (hands s)) (calls s) (sent s) (accepted s)) p l'.
Proof.
  intros Hok Hi Hrecv. pose proof (buf_recv_law _ _ (ok_buf _ _ _ Hok)) as Hr. rewrite Hrecv in Hr.
  destruct Hr as (l' & -> & Hl'). exists l'. set (s' := mk_system _ _ _ _ _ _).
  assert (advances s p s' p) as A by (by apply advances_refl).
  eapply (sys_ok_advances s p s' p A _ _ Hok); try apply Hok; cbn [s' calls hands accepted svc Service.buf]; auto.
  - intros e' He'. left. by right.
  - intros h [->|Hin]%elem_of_insert; [right|by left]. cbn [hand_ok]. intros e' [He'|He']%elem_of_app.
    + by apply (ok_hands _ _ _ Hok (Collecting batch) ltac:(by eapply list_elem_of_lookup_2)).
    + apply list_elem_of_singleton in He' as ->. apply (ok_buffered _ _ _ Hok). by left.
Qed.

Lemma buffer_keeps s b p l : sys_ok s p l -> buf_moves (Service.buf (svc s)) b ->
  sys_ok (mk_system
    (Service.mk b (Service.recorder (svc s)) (Service.wal (svc s)) (Service.tracker (svc s)) (Service.tenants (svc s)))
    (outside s) (hands s) (calls s) (sent s) (accepted s)) p l.
Proof.
  intros Hok Hb. set (s' := mk_system _ _ _ _ _ _).
  assert (advances s p s' p) as A by (by apply advances_refl).
  eapply (sys_ok_advances s p s' p A _ _ Hok); try apply Hok; cbn [s' calls hands accepted svc Service.buf]; auto.
  by eapply buf_moves_law, Hb; apply Hok.
Qed.

Lemma flush_keeps s i batch ck p l : sys_ok s p l -> hands s !! i = Some (Collecting batch) ->
  sys_ok (mk_system (svc s) (outside s) (<[i := Writing ck (Worker.deps_Sinks deps) batch true]> (hands s))
            (calls s) (sent s) (accepted s)) p l.
Proof.
  intros Hok Hi. set (s' := mk_system _ _ _ _ _ _).
  assert (advances s p s' p) as A by (by apply advances_refl).
  eapply (sys_ok_advances s p s' p A _ _ Hok); try apply Hok; cbn [s' calls hands accepted svc]; auto.
  intros h [->|Hin]%elem_of_insert; [right|by left]. split.
  - apply (ok_hands _ _ _ Hok (Collecting batch)). by eapply list_elem_of_lookup_2.
  - exists 0. split; [done|]. intros _ j e Hj. lia.
Qed.

Lemma crash_keeps s keep lg b l' rc tn x hs p l : sys_ok s p l ->
  wal_whole keep (Service.wal (svc s)) -> restart keep (Service.wal (svc s)) = Ret lg ->
  buf_holds b l' -> (forall e, e ∈ l' -> sent s !! EventId e = Some e) ->
  (forall i e, wrote i (outside s) e -> wrote i x e) -> Forall (fun h => h = Collecting []) hs ->
  exists p', sys_ok (mk_system (Service.mk b rc lg SeqTracker.NewSeqTracker tn) x hs [] (sent s) (accepted s)) p' l'.
Proof.
  intros Hok Hwhole Hre Hb Hbs Hx Hhs. destruct (ok_logged _ _ _ Hok) as (lg0 & Hlg & Hse).
  destruct (restart_law _ _ _ _ (ok_wal _ _ _ Hok) Hlg Hwhole) as (lg' & p' & Hre' & Hp' & Hlg' & Hpp & Hpl).
  rewrite Hre in Hre'. injection Hre' as <-.
  exists p'. split; cbn [svc outside hands calls sent accepted Service.wal Service.buf Service.tracker]; try done.
  - by exists lg0.
  - intros e He. destruct (ok_accepted _ _ _ Hok e He) as [Hd|[n Hn]]; [left|right].
    + intros j Hj. by apply Hx, Hd.
    + exists n. by eapply elem_of_submseteq, sublist_submseteq.
  - intros en Hen. apply Hse. by eapply elem_of_submseteq, sublist_submseteq.
  - intros c Hc. by apply elem_of_nil in Hc.
  - intros h Hh. rewrite Forall_forall in Hhs. rewrite (Hhs h Hh). apply Collecting_ok.
Qed.

Lemma sys_step_keeps s s' p l : sys_step s s' -> sys_ok s p l -> exists p' l', sys_ok s' p' l'.
Proof.
  intros Hstep Hok. destruct Hstep as [s req Hnew|s i now c c' svc' Hi Hroom Hrun|s i batch e b Hi Hrecv|s b Hb|
    s i batch ck Hi Hne|s i h ck c ws r w Hi Hrun|s keep lg b l' rc tn x hs Hwhole Hre Hb Hbs Hx Hhs].
  - exists p, l. by apply arrive_keeps.
  - destruct (call_keeps s i now c p l Hok Hi Hroom) as (c1 & svc1 & p' & l' & Hrun' & Hok').
    rewrite Hrun in Hrun'. injection Hrun' as <- <-. by exists p', l'.
  - exists p. by eapply take_keeps.
  - exists p, l. by apply buffer_keeps.
  - exists p, l. by apply flush_keeps.
  - destruct (work_keeps s i h ck c ws r w p l Hok Hi Hrun) as [p' Hok']. by exists p', l.
  - destruct (crash_keeps s keep lg b l' rc tn x hs p l Hok Hwhole Hre Hb Hbs Hx Hhs) as [p' Hok']. by exists p', l'.
Qed.

(** ** A request that is left alone *)

(** The log and the buffer can take the event of a request that nobody disturbs. *)
Definition rooms (s : Svc) (c : call) : Prop :=
  match c with
  | Begin req | Allowed _ req => wal_room (Service.wal s) req /\ buf_room (Service.buf s) req
  | Appended _ req _ | Tracked _ req => buf_room (Service.buf s) req
  | Refused _ _ _ | Accepted _ | Finished _ _ => True
  end.

Definition remaining (c : call) : nat :=
  match c with
  | Begin _ => 5 | Allowed _ _ => 4 | Appended _ _ _ => 3 | Tracked _ _ => 2
  | Refused _ _ _ | Accepted _ => 1 | Finished _ _ => 0
  end.

(** The event of a request. *)
Definition event_of_call (c : call) : IngestRequest :=
  match c with
  | Begin req | Allowed _ req | Appended _ req _ | Tracked _ req | Refused _ req _ | Accepted req | Finished req _ => req
  end.

(** The answers that a request can still get. *)
Definition can_end (c : call) (r : out unit) : Prop :=
  match c with
  | Refused _ _ err => r = Fail err
  | Accepted _ => r = Ret tt
  | Finished _ r' => r = r'
  | _ => True
  end.

(** What the answer [r] adds to the accepted events. *)
Definition gained (c : call) (r : out unit) : list IngestRequest :=
  match r, c with
  | Ret _, (Begin req | Allowed _ req | Appended _ req _ | Tracked _ req | Accepted req) => [req]
  | _, _ => []
  end.

Lemma call_step_next now c c' (s s' : Svc) :
  call_step now c s = (Ret c', s') -> rooms s c -> remaining c <> 0 ->
  rooms s' c' /\ remaining c' < remaining c /\ event_of_call c' = event_of_call c /\
  forall r, can_end c' r -> can_end c r /\
    gained c r = match c with Accepted req => [req] | _ => gained c' r end.
Proof.
  destruct s as [b rc lg t tn]. intros Hs Hr Hn.
  destruct c as [req|label req|label req n|label req|label req err|req|r]; cbn [rooms remaining] in *; [..|done];
    unfold call_step, Service.allowed, Service.on_wal, Service.on_buf, Service.record, Service.track, modify, gets,
      try, bind, ret in Hs;
    cbn [Service.tenants Service.wal Service.buf] in Hs.
  - destruct (Allow now (TenantId req) tn) as [[] tn']; cbn [negb] in Hs; injection Hs as <- <-;
      (split_and!; [done|simpl; lia|done|]); cbn; naive_solver.
  - destruct (wal_Append req lg) as [[n|err|p| |] lg']; try done; injection Hs as <- <-;
      (split_and!; [by try apply Hr|simpl; lia|done|]); cbn; naive_solver.
  - injection Hs as <- <-. split_and!; [done|simpl; lia|done|done].
  - destruct (buf_Push req b) as [[[]|err|p| |] b']; try done; injection Hs as <- <-;
      (split_and!; [done|simpl; lia|done|]); cbn; naive_solver.
  - injection Hs as <- <-. split_and!; [done|simpl; lia|done|]. cbn. naive_solver.
  - injection Hs as <- <-. split_and!; [done|simpl; lia|done|]. cbn. naive_solver.
Qed.

(** A step that no request is added or lost in. *)
Definition own_step (s s' : system) : Prop := sys_step s s' /\ length (calls s') = length (calls s).

Lemma complete_steps now c : forall fuel s p l i,
  sys_ok s p l -> calls s !! i = Some c -> rooms (svc s) c -> remaining c <= fuel ->
  exists r svc' p' l', complete fuel now c (svc s) = (r, svc') /\ can_end c r /\
    let s' := mk_system svc' (outside s) (hands s) (<[i := Finished (event_of_call c) r]> (calls s)) (sent s)
                (accepted s ++ gained c r) in
    rtc own_step s s' /\ sys_ok s' p' l'.
Proof.
  induction c as [c IH] using (well_founded_induction (well_founded_ltof _ remaining)).
  intros fuel s p l i Hok Hi Hr Hf.
  destruct (decide (remaining c = 0)) as [H0|H0].
  { destruct c as [| | | | | |req r]; try done. exists r, (svc s), p, l. split; [by destruct fuel|].
    assert (gained (Finished req r) r = []) as -> by (by destruct r). rewrite app_nil_r, list_insert_id by done.
    destruct s. by split_and!. }
  destruct fuel as [|fuel]; [lia|].
  destruct (call_keeps s i now c p l Hok Hi) as (c' & svc1 & p1 & l1 & Hrun & Hok1).
  { destruct c; cbn in *; naive_solver. }
  destruct (call_step_next now c c' (svc s) svc1 Hrun Hr H0) as (Hr1 & Hlt & Hev & Hfits).
  pose proof (step_call s i now c c' svc1 Hi ltac:(destruct c; cbn in *; naive_solver) Hrun) as Hstep.
  rewrite (complete_next fuel now c c' _ _ ltac:(by intros ? r ->) Hrun).
  destruct (IH c' Hlt fuel _ p1 l1 i Hok1) as (r & svc' & p' & l' & Hc & Hfit & Hsteps & Hok').
  { cbn [calls]. by apply list_lookup_insert_eq, (lookup_lt_Some _ _ _ Hi). }
  { done. }
  { lia. }
  cbn [svc outside hands calls sent accepted] in *. rewrite list_insert_insert_eq in *. rewrite Hev in Hsteps, Hok'.
  destruct (Hfits r Hfit) as [Hfit' Hg]. exists r, svc', p', l'.
  assert ((match c with Accepted req => accepted s ++ [req] | _ => accepted s end) ++ gained c' r =
          accepted s ++ gained c r) as Ha.
  { rewrite Hg. destruct c; try done. rewrite <- (assoc_L (++)). f_equal. destruct c'; cbn in *; try lia.
    by destruct r. }
  rewrite Ha in *. split_and!; [done|done| |done]. eapply rtc_l; [|done].
  split; [done|]. cbn [calls]. by rewrite length_insert.
Qed.

(** Push is a series of steps. *)
Lemma Push_steps now req s p l :
  sys_ok s p l -> id_agrees (sent s) req -> wal_room (Service.wal (svc s)) req -> buf_room (Service.buf (svc s)) req ->
  exists r svc' p' l', Service.Push now req (svc s) = (r, svc') /\
    let s' := mk_system svc' (outside s) (hands s) (calls s ++ [Finished req r]) (<[EventId req := req]> (sent s))
                (accepted s ++ gained (Begin req) r) in
    rtc sys_step s s' /\ sys_ok s' p' l'.
Proof.
  intros Hok Hid Hw Hb.
  destruct (complete_steps now (Begin req) 5 _ p l (length (calls s)) (arrive_keeps s req p l Hok Hid))
    as (r & svc' & p' & l' & Hc & _ & Hsteps & Hok'); [|done|done|].
  { cbn [calls]. by rewrite lookup_app_r, Nat.sub_diag by lia. }
  cbn [svc outside hands calls sent accepted] in *. rewrite insert_app_r_alt, Nat.sub_diag in * by lia.
  exists r, svc', p', l'. rewrite Push_complete. split; [done|]. split; [|done].
  eapply rtc_l; [by apply step_arrive|]. eapply rtc_subrel; [|exact Hsteps]. by intros ? ? [? _].
Qed.

Lemma starts_ok s : starts s -> exists p l, sys_ok s p l.
Proof.
  intros (p & lg & l & Hw & Hlg & Hb & Hl & Ht & Hh & Hc & Hpl & Hs & Ha). exists p, l. split; auto.
  - by exists lg.
  - intros id n. by rewrite Ht, lookup_empty.
  - intros e He. rewrite Forall_forall in Ha. by apply Ha.
  - intros en Hen. by apply Hs, Hpl.
  - rewrite Hc. intros c He. by apply elem_of_nil in He.
  - intros h He. rewrite Forall_forall in Hh. rewrite (Hh h He). apply Collecting_ok.
Qed.

Lemma reachable_ok s0 s : starts s0 -> rtc sys_step s0 s -> exists p l, sys_ok s p l.
Proof.
  intros (p0 & l0 & Hinit)%starts_ok Hsteps.
  assert (exists p l, sys_ok s0 p l) as Hok by eauto. clear -Hok Hsteps.
  induction Hsteps as [s|s s1 s2 Hstep _ IH]; [done|].
  apply IH. destruct Hok as (p & l & Hok). by eapply sys_step_keeps.
Qed.

(** Every accepted event is delivered, or a restart recovers it. *)
Lemma reachable_delivers s0 s : starts s0 -> rtc sys_step s0 s ->
  forall e, e ∈ accepted s -> delivered deps (outside s) e \/
    forall keep, exists out, restart_recover keep (Service.wal (svc s)) = Ret out /\ e ∈ Event <$> out.
Proof.
  intros Hs Hsteps e He. destruct (reachable_ok s0 s Hs Hsteps) as (p & l & Hok).
  destruct (ok_accepted _ _ _ Hok e He) as [?|[n Hn]]; [by left|right]. intros keep.
  destruct (crash_law _ p keep (ok_wal _ _ _ Hok)) as (out & Hout & Hsub).
  exists out. split; [done|]. apply list_elem_of_fmap. exists (mk_entry n e). split; [done|].
  by eapply elem_of_submseteq, sublist_submseteq.
Qed.
End system.
