(* ===== verification/Dlq.v ===== *)
(** internal/dlq: dead letters.

    [FileDLQ] acts on its open file and the file system. The wall clock enters as two
    strings: [today], the date in a new file's name, and [stamp], the time stamp of an
    entry. The JSON encoding of an entry is a parameter, [EntryJson]. *)
From Stdlib Require Import ZArith Lia Ascii String.
From stdpp Require Import base list strings gmap sorting.
From S2P Require Import Prelude Errors Go Bytes GoStrings Config Os Proto Sinks Worker.

(** ** definitions.go *)

(** [Event] is a pointer: a decoded entry may have none. *)
Record DLQEntry := mk_dlq_entry {
  entry_Timestamp : string;
  entry_SinkName : string;
  entry_Error : string;
  entry_Event : option IngestRequest
}.

Record DLQFileInfo := mk_info { info_Name : string; info_SizeBytes : Z; info_Entries : Z }.
Record DLQStats := mk_stats { stats_Files : list DLQFileInfo; stats_TotalEntries : Z; stats_TotalBytes : Z }.

(** definitions.go: the interface [Replayable]. *)
Record Replayable (X : Type) := mk_replayable {
  r_DrainEntries : M X (list DLQEntry);
  r_Stats : M X DLQStats
}.
Arguments mk_replayable {X} _ _.
Arguments r_DrainEntries {X} _.
Arguments r_Stats {X} _.

Class EntryJson := {
  json_Marshal_entry : DLQEntry -> error + string;
  json_Unmarshal_entry : string -> error + DLQEntry
}.

Definition newline : ascii := Ascii.ascii_of_nat 10.

(** What encoding/json guarantees of the text it writes for a struct: it is an object on
    one line. *)
Class EntryJsonLaws (J : EntryJson) := {
  entry_one_line : forall e s, json_Marshal_entry e = inr s -> Split s newline = [s];
  entry_object : forall e s, json_Marshal_entry e = inr s -> exists body, s = "{" +:+ body +:+ "}"
}.

(** ** noop-dlq.go *)
Module NoOpDLQ.
Definition Push {X} (_ : Ctx) (_ : IngestRequest) (_ : string) (_ : error) : M X unit := ret tt.
Definition Close {X} : M X unit := ret tt.
Definition dlq {X} : DeadLetterQueue X := mk_dlq_ops Push Close "NoOpDLQ".
End NoOpDLQ.

(** ** dlq-file.go *)
Module FileDLQ.
Section FileDLQ.
Context `{J : EntryJson}.

Record FileDLQ := mk { dir : string; file : handle }.

(** The queue, the file system, and what the clock shows. *)
Record world := mk_w { d : FileDLQ; fs : os; today : string; stamp : string }.

Definition on_fs {A} (m : M os A) : M world A := fun w =>
  let '(r, o) := m (fs w) in (r, mk_w (d w) o (today w) (stamp w)).
Definition set_file (h : handle) : M world unit :=
  modify (fun w => mk_w (mk (dir (d w)) h) (fs w) (today w) (stamp w)).

Definition file_name (today : string) : string := "dlq-" +:+ today +:+ ".jsonl".

Definition newFileDLQ (today dir : string) : M os FileDLQ :=
  wrapping "failed to create DLQ directory: " (os_MkdirAll dir) ;;
  h <- wrapping "failed to open DLQ file: " (os_OpenCreate (filepath_Join dir (file_name today))) ;;
  ret (mk dir h).

Definition Push (ctx : Ctx) (event : IngestRequest) (sinkName : string) (err : error) : M world unit :=
  match ctx with
  | Some e => fail e
  | None =>
      w <- gets id ;;
      match json_Marshal_entry (mk_dlq_entry (stamp w) sinkName (error_string err) (Some event)) with
      | inl jsonErr => fail (ErrWrap "failed to marshal DLQ entry: " jsonErr)
      | inr data =>
          wrapping "failed to write to DLQ: "
            (on_fs (os_Write (file (d w)) (to_bytes data ++ [Byte.x0a])))
      end
  end.

Definition Close : M world unit :=
  w <- gets id ;;
  e <- try (on_fs (os_Close (file (d w)))) ;;
  set_file (closed (file (d w))) ;;
  match e with inl err => fail err | inr _ => ret tt end.

Definition maxLine : nat := N.to_nat (2 * 1024 * 1024).

Definition bufio_ErrTooLong : error :=
  ErrSentinel "bufio.ErrTooLong" "bufio.Scanner: token too long".

(** [bufio.ScanLines]: the text up to each newline, without a carriage return; a rest
    that has no newline is a line too, unless it is empty. *)
Definition drop_cr (s : string) : string :=
  let n := String.length s in
  if bool_decide (String.get (n - 1) s = Some (Ascii.ascii_of_nat 13))
  then String.substring 0 (n - 1) s else s.

Definition scan_lines (b : list byte) : list string :=
  let l := Split (of_bytes b) newline in
  if bool_decide (List.last l ""%string = ""%string) then removelast l else l.

(** The loop over the lines; it ends with an error at a line that does not fit. *)
Fixpoint read_lines (lines : list string) (entries : list DLQEntry) : error + list DLQEntry :=
  match lines with
  | [] => inr entries
  | text :: lines =>
      if decide (maxLine <= String.length text) then inl bufio_ErrTooLong
      else
        let line := TrimSpace (drop_cr text) in
        if is_empty line then read_lines lines entries
        else match json_Unmarshal_entry line with
             | inl _ => read_lines lines entries
             | inr entry => read_lines lines (entries ++ [entry])
             end
  end.

Definition readDLQFile (p : path) : M os (list DLQEntry) :=
  r <- os_Open p ;;
  match read_lines (scan_lines (rd_data r)) [] with
  | inl err => fail err
  | inr entries => if rd_bad r then fail os_EIO else ret entries
  end.

(** [filepath.Glob(dir/dlq-*.jsonl)]: the matching names in lexical order. The directory's
    own name has no wildcard in it. *)
Definition matches (name : string) : bool :=
  String.prefix "dlq-" name &&
  Nat.leb 10 (String.length name) &&
  bool_decide (String.substring (String.length name - 6) 6 name = ".jsonl").

Definition Glob (dir : string) : M os (list path) := fun w =>
  let names := omap (fun p : path * Os.file =>
                 if decide (p.1.1 = dir) then if matches p.1.2 then Some p.1.2 else None else None)
                 (map_to_list (files w)) in
  (Ret (filepath_Join dir <$> merge_sort strings.String.le names), w).

Fixpoint read_all (files : list path) (entries : list DLQEntry) : M world (list DLQEntry) :=
  match files with
  | [] => ret entries
  | f :: files =>
      fe <- wrapping ("dlq drain: read " +:+ f.1 +:+ "/" +:+ f.2 +:+ ": ") (on_fs (readDLQFile f)) ;;
      read_all files (entries ++ fe)
  end.

Definition archive_name (f : path) : path := filepath_Join f.1 (f.2 +:+ ".replayed").

Definition DrainEntries : M world (list DLQEntry) :=
  w <- gets id ;;
  wrapping "dlq drain: sync: " (on_fs (os_Sync (file (d w)))) ;;
  files <- wrapping "dlq drain: glob: " (on_fs (Glob (dir (d w)))) ;;
  entries <- read_all files [] ;;
  c <- try (on_fs (os_Close (file (d w)))) ;;
  set_file (closed (file (d w))) ;;
  match c with
  | inl err => fail (ErrWrap "dlq drain: close before archive: " err)
  | inr _ =>
      for_each (fun f => ignore (on_fs (os_Rename f (archive_name f)))) files ;;
      h <- wrapping "dlq drain: reopen after archive: "
             (on_fs (os_OpenCreate (filepath_Join (dir (d w)) (file_name (today w))))) ;;
      set_file h ;;
      ret entries
  end.

(** A file that cannot be read is left out. *)
Fixpoint stat_all (l : list path) (stats : DLQStats) : M world DLQStats :=
  match l with
  | [] => ret stats
  | f :: l =>
      info <- try (on_fs (syscall (fun w =>
                match files w !! f with
                | Some x => (Ret (Z.of_nat (length (data x))), w)
                | None => (Fail os_ErrNotExist, w)
                end))) ;;
      match info with
      | inl _ => stat_all l stats
      | inr size =>
          entries <- try (on_fs (readDLQFile f)) ;;
          match entries with
          | inl _ => stat_all l stats
          | inr entries =>
              let n := Z.of_nat (length entries) in
              stat_all l (mk_stats (stats_Files stats ++ [mk_info f.2 size n])
                            (stats_TotalEntries stats + n) (stats_TotalBytes stats + size))
          end
      end
  end.

Definition Stats : M world DLQStats :=
  w <- gets id ;;
  wrapping "dlq stats: sync: " (on_fs (os_Sync (file (d w)))) ;;
  files <- wrapping "dlq stats: glob: " (on_fs (Glob (dir (d w)))) ;;
  stat_all files (mk_stats [] 0 0).

Definition dlq : DeadLetterQueue world := mk_dlq_ops Push Close "FileDLQ".
Definition replayable : Replayable world := mk_replayable DrainEntries Stats.

End FileDLQ.
End FileDLQ.

(** ** kafka-dlq.go *)
Module KafkaDLQ.
Section KafkaDLQ.
Context {X : Type} `{J : EntryJson} `{KW : KafkaWriter X}.

Record KafkaDLQ := mk { brokers : list string; topic : string }.

Definition NewKafkaDLQ (cfg : KafkaDLQConfig) : error + KafkaDLQ :=
  if decide (kafkadlq_Brokers cfg = []) then inl (ErrNew "kafka DLQ brokers not configured")
  else if is_empty (kafkadlq_Topic cfg) then inl (ErrNew "kafka DLQ topic not configured")
  else inr (mk (kafkadlq_Brokers cfg) (kafkadlq_Topic cfg)).

Definition Push (q : KafkaDLQ) (stamp : string) (ctx : Ctx) (event : IngestRequest)
    (sinkName : string) (sinkErr : error) : M X unit :=
  match json_Marshal_entry (mk_dlq_entry stamp sinkName (error_string sinkErr) (Some event)) with
  | inl err => fail (ErrWrap "failed to marshal DLQ entry: " err)
  | inr data =>
      wrapping "kafka DLQ write failed: "
        (kafka_WriteMessages (brokers q) ctx [mk_message (topic q) (EventId event) (to_bytes data)])
  end.

Definition Close : M X unit := kafka_Close.

Definition Name : string := "KafkaDLQ".

End KafkaDLQ.
End KafkaDLQ.

(** ** dlq.go *)
Inductive DLQKind :=
  | UseNoOp
  | UseFile (q : FileDLQ.FileDLQ)
  | UseKafka (q : KafkaDLQ.KafkaDLQ).

Definition NewDLQ (today : string) (cfg : DLQConfig) : M os DLQKind :=
  if negb (dlq_Enabled cfg) then ret UseNoOp
  else if decide (dlq_Type cfg = DLQTypeFile) then
    q <- FileDLQ.newFileDLQ today (filedlq_Dir (dlq_File cfg)) ;; ret (UseFile q)
  else if decide (dlq_Type cfg = DLQTypeKafka) then
    match KafkaDLQ.NewKafkaDLQ (dlq_Kafka cfg) with
    | inl err => fail err
    | inr q => ret (UseKafka q)
    end
  else fail (ErrNew ("unknown DLQ type: " +:+ dlq_Type cfg)).

(** ** A queue behind the interface

    The outside of the workers and of the admin endpoints: the queue that NewDLQ made, the
    files and the clock it works with, and the rest [X] of the outside. A call through the
    interface is a call on the kind it holds. *)
Module AnyDLQ.
Section AnyDLQ.
Context {X : Type} `{J : EntryJson} `{KW : KafkaWriter X}.

Record world := mk_w { kind : DLQKind; fs : os; today : string; stamp : string; ext : X }.

Definition on_ext {A} (m : M X A) : M world A := fun w =>
  let '(r, x) := m (ext w) in (r, mk_w (kind w) (fs w) (today w) (stamp w) x).

Definition on_file {A} (q : FileDLQ.FileDLQ) (m : M FileDLQ.world A) : M world A := fun w =>
  let '(r, f) := m (FileDLQ.mk_w q (fs w) (today w) (stamp w)) in
  (r, mk_w (UseFile (FileDLQ.d f)) (FileDLQ.fs f) (today w) (stamp w) (ext w)).

Definition Push (ctx : Ctx) (event : IngestRequest) (sinkName : string) (err : error) : M world unit :=
  w <- gets id ;;
  match kind w with
  | UseNoOp => NoOpDLQ.Push ctx event sinkName err
  | UseFile q => on_file q (FileDLQ.Push ctx event sinkName err)
  | UseKafka q => on_ext (KafkaDLQ.Push q (stamp w) ctx event sinkName err)
  end.

Definition Close : M world unit :=
  w <- gets id ;;
  match kind w with
  | UseNoOp => NoOpDLQ.Close
  | UseFile q => on_file q FileDLQ.Close
  | UseKafka _ => on_ext KafkaDLQ.Close
  end.

Definition Name (k : DLQKind) : string :=
  match k with UseNoOp => "NoOpDLQ" | UseFile _ => "FileDLQ" | UseKafka _ => KafkaDLQ.Name end.

Definition dlq (k : DLQKind) : DeadLetterQueue world := mk_dlq_ops Push Close (Name k).

(** A method of the file queue; its receiver is the file queue of the world. *)
Definition on_replayable {A} (m : M FileDLQ.world A) : M world A := fun w =>
  match kind w with
  | UseFile q => on_file q m w
  | _ => (Panic "nil pointer dereference", w)
  end.

(** [d.(dlq.Replayable)]: only the file queue has the methods. *)
Definition as_replayable (k : DLQKind) : option (Replayable world) :=
  match k with
  | UseFile _ => Some (mk_replayable (on_replayable FileDLQ.DrainEntries) (on_replayable FileDLQ.Stats))
  | _ => None
  end.

End AnyDLQ.
Arguments world : clear implicits.
End AnyDLQ.

(** A sink, from where the workers stand. *)
Definition lift_sink {X} (sk : Sink X) : Sink (AnyDLQ.world X) :=
  mk_sink (sink_Name sk) (fun ctx batch => AnyDLQ.on_ext (sink_Write sk ctx batch))
    (AnyDLQ.on_ext (sink_Close sk)).
