(* ===== verification/SinkDelivery.v ===== *)
(** What the configured sinks promise the workers.

    A sink that [BuildMultiSinks] made, behind its breaker, has delivered a batch when its Write
    returns nil, provided that the services it talks to keep what they acknowledge: [Keeps]
    says so of Kafka and of the HTTP receiver. [built_sink_laws] discharges the workers'
    [SinkLaws] from it, for any list of configured sinks and any dead letter queue. *)
From stdpp Require Import base list strings gmap.
From Stdlib Require Import ZArith Lia.
From S2P Require Import Prelude Errors Go Bytes GoStrings Duration Float Os Config Proto Tenant Sinks Worker Delivery Dlq.

(** What Kafka and the receiver of the POSTs document. [has_message x brokers m]: the cluster
    has [m]; [has_post x url body]: the receiver has taken [body] with a status below 400.
    No call that the program makes takes anything back. *)
Class Keeps (X : Type) `{HC : HttpClient X} `{KW : KafkaWriter X} `{CB : GoBreaker X} := {
  has_message : X -> list string -> kafka_Message -> Prop;
  has_post : X -> string -> list byte -> Prop;
  keeps x x' := (forall b m, has_message x b m -> has_message x' b m) /\
                (forall u p, has_post x u p -> has_post x' u p);
  message_law : forall b c ms x x' m,
    kafka_WriteMessages b c ms x = (Ret tt, x') -> m ∈ ms -> has_message x' b m;
  post_law : forall c t u p x x' status,
    http_Do c t u p x = (Ret status, x') -> (status < 400)%Z -> has_post x' u p;
  kafka_keeps : forall b c ms x, keeps x (snd (kafka_WriteMessages b c ms x));
  http_keeps : forall c t u p x, keeps x (snd (http_Do c t u p x));
  before_keeps : forall st n x, keeps x (snd (cb_before st n x));
  after_keeps : forall st n ok x, keeps x (snd (cb_after st n ok x))
}.

Section keeps.
Context {X : Type} `{HC : HttpClient X} `{KW : KafkaWriter X} `{CB : GoBreaker X} `{J : Json}
  `{K : !Keeps X}.

#[export] Instance keeps_preorder : PreOrder keeps.
Proof.
  split; [by intros x|]. intros x y z [H1 H2] [H3 H4]. split; auto.
Qed.

(** A call that takes nothing back. *)
Definition kept {A} (m : M X A) : Prop := forall x, keeps x (snd (m x)).

Lemma kept_ret {A} (a : A) : kept (ret a).
Proof. by intros x. Qed.
Lemma kept_fail {A} e : kept (fail e : M X A).
Proof. by intros x. Qed.
Lemma kept_panic {A} p : kept (panic p : M X A).
Proof. by intros x. Qed.
Lemma kept_bind {A B} (m : M X A) (k : A -> M X B) : kept m -> (forall a, kept (k a)) -> kept (bind m k).
Proof.
  intros Hm Hk x. specialize (Hm x). unfold bind. destruct (m x) as [[a|e|p| |] x']; try done.
  cbn [snd] in Hm. etrans; [exact Hm|apply Hk].
Qed.
Lemma kept_try {A} (m : M X A) : kept m -> kept (try m).
Proof. intros Hm x. specialize (Hm x). unfold try. by destruct (m x) as [[] x']. Qed.
Lemma kept_wrapping {A} p (m : M X A) : kept m -> kept (wrapping p m).
Proof. intros Hm x. specialize (Hm x). unfold wrapping. by destruct (m x) as [[] x']. Qed.
Lemma kept_kafka b c ms : kept (kafka_WriteMessages b c ms).
Proof. intros x. apply kafka_keeps. Qed.
Lemma kept_http c t u p : kept (http_Do c t u p).
Proof. intros x. apply http_keeps. Qed.
Lemma kept_before st n : kept (cb_before st n).
Proof. intros x. apply before_keeps. Qed.
Lemma kept_after st n ok : kept (cb_after st n ok).
Proof. intros x. apply after_keeps. Qed.

Create HintDb kept discriminated.
#[local] Hint Resolve kept_ret kept_fail kept_panic kept_try kept_wrapping kept_kafka kept_http
  kept_before kept_after : kept.

(** ** What is written where *)

(** The message that the sink makes of [e]. *)
Definition message_of (ks : KafkaSink.KafkaSink) (e : IngestRequest) (payload : list byte) : kafka_Message :=
  mk_message (KafkaSink.topicFor ks (TenantId e)) (EventId e) payload.

(** The service behind the sink has [e]. Of a log line nothing is kept. *)
Definition written (b : built) (x : X) (e : IngestRequest) : Prop :=
  match b with
  | BuiltLog => True
  | BuiltKafka ks => exists payload, json_event e = inr payload /\
      has_message x (KafkaSink.brokers ks) (message_of ks e payload)
  | BuiltHTTP hs => exists batch payload, e ∈ batch /\ json_batch batch = inr payload /\
      has_post x (HTTPSink.url hs) payload
  end.

Lemma written_keeps b x x' e : keeps x x' -> written b x e -> written b x' e.
Proof. intros [H1 H2]. destruct b; [done|naive_solver|]. intros (ba & p & ? & ? & ?). exists ba, p. auto. Qed.

(** Either every event of the batch encodes, and the messages are those of its events in order;
    or the first one that does not gives a permanent error. *)
Lemma messages_spec ks batch :
  match KafkaSink.messages ks batch with
  | inr ms => Forall2 (fun e m => exists payload, json_event e = inr payload /\ m = message_of ks e payload) batch ms
  | inl err => AppErr.IsPermanent (Some err) = true /\ exists before e after cause,
      batch = before ++ e :: after /\ json_event e = inl cause /\
      Forall (fun e => exists payload, json_event e = inr payload) before
  end.
Proof.
  induction batch as [|e batch IH]; cbn [KafkaSink.messages]; [constructor|].
  destruct (json_event e) as [cause|payload] eqn:He.
  { split; [reflexivity|]. by exists [], e, batch, cause. }
  destruct (KafkaSink.messages ks batch) as [err|ms].
  - destruct IH as (Hp & before & e' & after & cause & -> & He' & Hb). split; [done|].
    exists (e :: before), e', after, cause. split_and!; [done|done|]. constructor; [by eexists|done].
  - constructor; [by exists payload|done].
Qed.

Lemma kept_sink_Write b c batch : kept (sink_Write (sink_of b) c batch).
Proof.
  destruct b as [|ks|hs]; cbn [sink_of sink_Write LogSink.sink KafkaSink.sink HTTPSink.sink].
  - unfold LogSink.Write. destruct c; auto with kept.
  - unfold KafkaSink.Write. case_decide; [auto with kept|].
    destruct (KafkaSink.messages ks batch); [auto with kept|].
    apply kept_bind; [auto with kept|]. intros []; auto with kept.
  - unfold HTTPSink.Write. case_decide; [auto with kept|].
    destruct (json_batch batch); [auto with kept|]. destruct (http_NewRequest _); [auto with kept|].
    apply kept_bind; [auto with kept|]. intros []; [auto with kept|]. case_decide; auto with kept.
Qed.

(** A Write that returned nil has delivered the batch. *)
Lemma sink_Write_written b c batch x x' e :
  sink_Write (sink_of b) c batch x = (Ret tt, x') -> e ∈ batch -> written b x' e.
Proof.
  intros Hw He. assert (batch <> []) as Hne by (intros ->; by apply elem_of_nil in He).
  destruct b as [|ks|hs]; [done|..]; cbn [sink_of sink_Write KafkaSink.sink HTTPSink.sink] in Hw.
  - unfold KafkaSink.Write in Hw. rewrite decide_False in Hw by done.
    pose proof (messages_spec ks batch) as Hm. destruct (KafkaSink.messages ks batch) as [err|ms]; [done|].
    unfold bind, try in Hw. destruct (kafka_WriteMessages _ c ms x) as [[[]|err|p| |] x1] eqn:Hk; try done.
    injection Hw as <-. apply list_elem_of_lookup in He as [i Hi].
    destruct (Forall2_lookup_l _ _ _ _ _ Hm Hi) as (m & Hmi & payload & Hp & ->).
    exists payload. split; [done|]. eapply message_law; [exact Hk|]. by eapply list_elem_of_lookup_2.
  - unfold HTTPSink.Write in Hw. rewrite decide_False in Hw by done.
    destruct (json_batch batch) as [err|payload] eqn:Hp; [done|].
    destruct (http_NewRequest _); [done|]. unfold bind, try in Hw.
    destruct (http_Do c _ _ payload x) as [[status|err|p| |] x1] eqn:Hk; try done.
    case_decide as Hs; [done|]. injection Hw as <-. exists batch, payload. split_and!; [done|done|].
    eapply post_law; [exact Hk|lia].
Qed.

(** ** Behind the breaker *)

Definition guarded (b : built) : Sink X := CircuitBreakerSink.newCircuitBreakerSink (sink_of b).

Lemma kept_Execute name req : kept req -> kept (CircuitBreakerSink.Execute name req).
Proof.
  intros Hr x. unfold CircuitBreakerSink.Execute. pose proof (kept_before breaker_settings name x) as H1.
  destruct (cb_before breaker_settings name x) as [[[err|]|e|p| |] x1]; try done. cbn [snd] in H1.
  specialize (Hr x1). destruct (req x1) as [[[]|err|p| |] x2]; cbn [snd] in Hr; try (by etrans).
  - do 2 (etrans; [eassumption|]). apply kept_after.
  - do 2 (etrans; [eassumption|]). apply kept_bind; [apply kept_after|]. intros []. apply kept_fail.
  - do 2 (etrans; [eassumption|]). apply kept_bind; [apply kept_after|]. intros []. apply kept_panic.
Qed.

Lemma kept_guarded b c batch : kept (sink_Write (guarded b) c batch).
Proof.
  cbn [guarded sink_Write CircuitBreakerSink.newCircuitBreakerSink]. unfold CircuitBreakerSink.Write.
  apply kept_bind; [apply kept_try, kept_Execute, kept_sink_Write|].
  intros [err|[]]; [|auto with kept]. destruct (errors_Is _ _); auto with kept.
Qed.

Lemma Execute_ok name req x x' : CircuitBreakerSink.Execute name req x = (Ret tt, x') ->
  exists x1 x2, req x1 = (Ret tt, x2) /\ keeps x2 x'.
Proof.
  unfold CircuitBreakerSink.Execute, bind.
  destruct (cb_before breaker_settings name x) as [[[err|]|err|p| |] x1]; try done.
  destruct (req x1) as [[[]|err|p| |] x2] eqn:Hr; try done.
  - intros Ha. exists x1, x2. split; [done|].
    pose proof (kept_after breaker_settings name true x2) as Hk. by rewrite Ha in Hk.
  - by destruct (cb_after _ _ false x2) as [[] ?].
  - by destruct (cb_after _ _ false x2) as [[] ?].
Qed.

Lemma guarded_written b c batch x x' e :
  sink_Write (guarded b) c batch x = (Ret tt, x') -> e ∈ batch -> written b x' e.
Proof.
  cbn [guarded sink_Write CircuitBreakerSink.newCircuitBreakerSink]. unfold CircuitBreakerSink.Write.
  unfold bind, try. intros Hw He.
  destruct (CircuitBreakerSink.Execute _ _ x) as [[[]|err|p| |] x3] eqn:Hx; try done.
  - injection Hw as <-. apply Execute_ok in Hx as (x1 & x2 & Hs & Hk).
    eapply written_keeps; [exact Hk|]. by eapply sink_Write_written.
  - by destruct (errors_Is _ _).
Qed.

(** ** The workers' outside *)

Context `{EJ : EntryJson}.
Notation Outside := (AnyDLQ.world X).

Definition deps_of (bs : list built) (k : DLQKind) : Worker.Deps Outside :=
  Worker.mk_deps (lift_sink <$> (guarded <$> bs)) (AnyDLQ.dlq k).

Lemma dlq_Push_keeps c ev n err (w : Outside) :
  keeps (AnyDLQ.ext w) (AnyDLQ.ext (snd (AnyDLQ.Push c ev n err w))).
Proof.
  unfold AnyDLQ.Push, bind, gets, id. destruct (AnyDLQ.kind w) as [|q|q].
  - done.
  - unfold AnyDLQ.on_file. by destruct (FileDLQ.Push _ _ _ _ _).
  - unfold AnyDLQ.on_ext.
    assert (kept (KafkaDLQ.Push q (AnyDLQ.stamp w) c ev n err : M X unit)) as H.
    { unfold KafkaDLQ.Push. destruct (json_Marshal_entry _); auto with kept. }
    specialize (H (AnyDLQ.ext w)). by destruct (KafkaDLQ.Push _ _ _ _ _ _ _).
Qed.

#[export] Instance built_sink_laws bs k : SinkLaws (deps_of bs k).
Proof.
  refine {| wrote i w e := exists b, bs !! i = Some b /\ written b (AnyDLQ.ext w) e |};
    cbn [deps_of Worker.deps_Sinks Worker.deps_DLQ].
  - intros i sk c batch w w' e Hi Hw He. rewrite !list_lookup_fmap in Hi.
    destruct (bs !! i) as [b|]; [|done]. injection Hi as <-. exists b. split; [done|].
    cbn [sink_Write lift_sink] in Hw. unfold AnyDLQ.on_ext in Hw.
    destruct (sink_Write (guarded b) c batch (AnyDLQ.ext w)) as [r x] eqn:Hs.
    injection Hw as -> <-. by eapply guarded_written.
  - intros sk c batch w r w' i e Hsk Hw (b & Hb & He). exists b. split; [done|].
    apply list_elem_of_fmap in Hsk as (sk' & -> & Hsk). apply list_elem_of_fmap in Hsk as (b' & -> & _).
    cbn [sink_Write lift_sink] in Hw. unfold AnyDLQ.on_ext in Hw.
    pose proof (kept_guarded b' c batch (AnyDLQ.ext w)) as Hk.
    destruct (sink_Write (guarded b') c batch (AnyDLQ.ext w)) as [r' x]. injection Hw as _ <-.
    by eapply written_keeps.
  - intros c ev n err w r w' i e Hw (b & Hb & He). exists b. split; [done|].
    cbn [dlq_Push AnyDLQ.dlq] in Hw. pose proof (dlq_Push_keeps c ev n err w) as Hk.
    rewrite Hw in Hk. by eapply written_keeps.
Defined.

(** [delivered], sink by sink. *)
Lemma delivered_written bs k (w : Outside) e :
  delivered (deps_of bs k) w e <-> Forall (fun b => written b (AnyDLQ.ext w) e) bs.
Proof.
  unfold delivered. cbn [deps_of Worker.deps_Sinks]. rewrite !length_fmap, Forall_lookup. split.
  - intros H i b Hb. destruct (H i ltac:(by eapply lookup_lt_Some)) as (b' & Hb' & Hw). congruence.
  - intros H i Hi. destruct (lookup_lt_is_Some_2 bs i Hi) as [b Hb]. exists b. eauto.
Qed.
End keeps.

(** C24. A Kafka sink writes a batch whole or not at all. When every event encodes, it makes one
    call with one message for each event, in order, with the event's id as key, on the topic
    that the router gives for its tenant, or the sink's own without a router; the batch is
    delivered when the call succeeds, and an error of the call is transient, so that the batch
    is tried again. When some event does not encode, nothing is sent and the error is permanent:
    no retry, the whole batch goes to the dead letters. *)
Theorem kafka_writes_whole_batches {X : Type} `{J : Json} `{KW : KafkaWriter X}
    (ks : KafkaSink.KafkaSink) (ctx : Ctx) (batch : list IngestRequest) (x : X) :
  (batch = [] /\ KafkaSink.Write ks ctx batch x = (Ret tt, x)) \/
  (exists payloads, batch <> [] /\ Forall2 (fun e p => json_event e = inr p) batch payloads /\
     KafkaSink.Write ks ctx batch x =
       let '(r, x') := kafka_WriteMessages (KafkaSink.brokers ks) ctx
         (zip_with (fun e p => mk_message
            (match KafkaSink.router ks with Some r => r (TenantId e) (KafkaSink.topic ks) | None => KafkaSink.topic ks end)
            (EventId e) p) batch payloads) x in
       (match r with
        | Fail err => Fail (AppErr.NewTransient KafkaSink.Name (ErrWrap "kafka write failed: " err))
        | _ => r
        end, x')) \/
  (exists e err, e ∈ batch /\ (forall p, json_event e <> inr p) /\ AppErr.IsPermanent (Some err) = true /\
     KafkaSink.Write ks ctx batch x = (Fail err, x)).
Proof.
  unfold KafkaSink.Write. case_decide as Hne; [by left|right].
  pose proof (messages_spec ks batch) as Hm. destruct (KafkaSink.messages ks batch) as [err|ms].
  - right. destruct Hm as (Hp & before & e & after & cause & -> & He & _). exists e, err.
    split_and!; [apply elem_of_app; right; by left|by rewrite He|done|done].
  - left. assert (exists payloads, Forall2 (fun e p => json_event e = inr p) batch payloads /\
      ms = zip_with (fun e p => message_of ks e p) batch payloads) as (payloads & Hps & ->).
    { clear Hne. induction Hm as [|e m batch ms (p & Hp & ->) _ IH]; [by exists []|].
      destruct IH as (ps & Hps & ->). exists (p :: ps). split; [by constructor|done]. }
    exists payloads. split_and!; [done|done|]. unfold bind, try.
    change (zip_with (fun e p => mk_message _ (EventId e) p) batch payloads)
      with (zip_with (fun e p => message_of ks e p) batch payloads).
    by destruct (kafka_WriteMessages _ ctx _ x) as [[[]|err|p| |] x'].
Qed.
