(* ===== verification/Server.v ===== *)
(** internal/server: the HTTP handlers and the gRPC method.

    A handler runs on a [conn]: the server's flags, the service it feeds, the state its
    dead letter queue acts on, and the response writer of the request. A handler runs
    from its first line to its last without the requests beside it; the service's and the
    queue's own locks make each call on them one step. The JSON decoder of the request body is a
    parameter. *)
From Stdlib Require Import ZArith Lia Ascii String.
From stdpp Require Import base list strings gmap.
From S2P Require Import Prelude Errors Go Bytes GoStrings Float Os Proto Config Wal Buffer Tenant.
From S2P Require Import Metrics Service Sinks Worker Dlq I18n Response.

(** http.go *)
Record httpIngestRequest := mk_ingest_body {
  body_EventID : string;
  body_Source : string;
  body_Payload : string;
  body_Timestamp : Z;
  body_TenantID : string
}.

(** The payloads of the answers. *)
Inductive answer_data :=
  | healthData (Status : string)
  | readyData (Ready : bool)
  | httpIngestResponse (EventID : string)
  | dlqReplayData (Replayed Failed Total : Z)
  | statsData (stats : DLQStats).

(** The listeners: package net, net/http's server and google.golang.org/grpc's, by address.
    [Serve] and [ListenAndServe] run in a goroutine of their own; here they only start. *)
Class NetServers (N : Type) := {
  net_Listen : string -> M N unit;
  http_ListenAndServe : string -> N -> N;
  http_Shutdown : string -> Ctx -> M N unit;
  grpc_Serve : string -> N -> N;
  grpc_GracefulStop : string -> N -> N
}.

(** encoding/json's decoder with DisallowUnknownFields on the first bytes of a body; the
    flag says that reading behind them fails. *)
Class IngestJson := json_Decode_ingest : list byte -> bool -> error + httpIngestRequest.

Module Server.

Definition maxBody : nat := N.to_nat (2 ^ 20).

(** [http.MaxBytesReader(w, r.Body, 1<<20)] in front of the decoder. *)
Definition decode_body `{IngestJson} (r : http_Request) : error + httpIngestRequest :=
  json_Decode_ingest (take maxBody (req_Body r)) (bool_decide (maxBody < length (req_Body r))).

Section http.
Context {X B W R F : Type} `{BufB : Buffer B} `{WALW : WAL W} `{RecorderR : Recorder R}
  `{FloatF : Float64 F} `{IJ : IngestJson}.

(** [ingestor] may be nil; [dlq] is the result of the type assertion to Replayable. *)
Record HttpServer := mk_http {
  addr : string;
  ready : bool;
  ingestEnabled : bool;
  requireTenant : bool;
  dlq : option (Replayable X);
  adminToken : string
}.

Definition NewHttpServer (port : Z) (ingestEnabled : bool) : HttpServer :=
  mk_http (":" +:+ FormatInt port) false ingestEnabled false None "".

Definition SetIngestEnabled (enabled : bool) (s : HttpServer) : HttpServer :=
  mk_http (addr s) (ready s) enabled (requireTenant s) (dlq s) (adminToken s).
Definition SetTenancyRequired (required : bool) (s : HttpServer) : HttpServer :=
  mk_http (addr s) (ready s) (ingestEnabled s) required (dlq s) (adminToken s).
Definition SetDLQ (d : option (Replayable X)) (s : HttpServer) : HttpServer :=
  mk_http (addr s) (ready s) (ingestEnabled s) (requireTenant s) d (adminToken s).
Definition SetAdminToken (token : string) (s : HttpServer) : HttpServer :=
  mk_http (addr s) (ready s) (ingestEnabled s) (requireTenant s) (dlq s) token.
Definition SetReady (r : bool) (s : HttpServer) : HttpServer :=
  mk_http (addr s) r (ingestEnabled s) (requireTenant s) (dlq s) (adminToken s).

Definition Addr (s : HttpServer) : string := addr s.
(** An error of ListenAndServe is logged by its goroutine; Start returns nil. *)
Definition Start {N : Type} `{NetServers N} (s : HttpServer) : M N unit := modify (http_ListenAndServe (addr s)).
Definition Stop {N : Type} `{NetServers N} (s : HttpServer) (ctx : Ctx) : M N unit := http_Shutdown (addr s) ctx.

Record conn := mk_conn {
  http : HttpServer;
  ingestor : option (Service.Service B W R F);
  ext : X;
  writer : Response.ResponseWriter answer_data
}.

Definition on_writer {A} (m : M (Response.ResponseWriter answer_data) A) : M conn A := fun c =>
  let '(r, w) := m (writer c) in (r, mk_conn (http c) (ingestor c) (ext c) w).
Definition on_ext {A} (m : M X A) : M conn A := fun c =>
  let '(r, x) := m (ext c) in (r, mk_conn (http c) (ingestor c) x (writer c)).

(** A method call on the service: a nil pointer panics in it. *)
Definition on_service {A} (m : M (Service.Service B W R F) A) : M conn A := fun c =>
  match ingestor c with
  | None => (Panic "nil pointer dereference", c)
  | Some s => let '(r, s) := m s in (r, mk_conn (http c) (Some s) (ext c) (writer c))
  end.

(** The clock of the service's token buckets during the request, and what response needs. *)
Context (now : Z) (e : Response.env).

Definition JSON (r : http_Request) (status : Z) (data : answer_data) (code : I18n.MessageCode) :
    M conn unit := on_writer (Response.JSON e r status data code).
Definition Error (r : http_Request) (status : Z) (code : I18n.MessageCode)
    (fields : list Response.FieldError) : M conn unit :=
  on_writer (Response.Error e r status code fields).

(** ** http-handlers.go *)

Definition method_not_allowed (r : http_Request) (allow : string) : M conn unit :=
  on_writer (Response.Header_Set "Allow" allow) ;;
  Error r StatusMethodNotAllowed I18n.MsgMethodNotAllowed [].

(** [subtle.ConstantTimeCompare(...) == 1]: the bytes are equal. *)
Definition authorizeAdmin (r : http_Request) : M conn bool :=
  token <- gets (fun c => adminToken (http c)) ;;
  if decide (token = ""%string) then ret true
  else
    let got := TrimPrefix (Header_Get "Authorization" r) "Bearer " in
    if decide (got = token) then ret true
    else Error r StatusUnauthorized I18n.MsgUnauthorized [] ;; ret false.

Definition missing_field (r : http_Request) (field : string) (code : I18n.MessageCode) : M conn unit :=
  Error r StatusBadRequest code
    [Response.mk_field field (I18n.Translate (DetectLangFromRequest r) code)].

Definition event_of (body : httpIngestRequest) : IngestRequest :=
  mk_event (body_EventID body) (body_Source body) (body_Payload body) (body_Timestamp body)
    (body_TenantID body).

Definition handleIngest (r : http_Request) : M conn unit :=
  c <- gets id ;;
  if decide (req_Method r <> "POST"%string) then method_not_allowed r "POST"
  else if negb (ingestEnabled (http c)) then
    Error r StatusServiceUnavailable I18n.MsgDisabled []
  else match ingestor c with
  | None => Error r StatusInternalServerError I18n.MsgNotConfigured []
  | Some _ =>
      match decode_body r with
      | inl _ => Error r StatusBadRequest I18n.MsgInvalidJSON []
      | inr body =>
          if decide (body_EventID body = ""%string) then
            missing_field r "event_id" I18n.MsgMissingEventID
          else if requireTenant (http c) && bool_decide (body_TenantID body = ""%string) then
            missing_field r "tenant_id" I18n.MsgMissingTenantID
          else
            p <- try (on_service (Service.Push now (event_of body))) ;;
            match p with
            | inl err =>
                if errors_Is err "ingestor.ErrTenantQuotaExceeded"
                then Error r StatusTooManyRequests I18n.MsgTenantQuota []
                else Error r StatusServiceUnavailable I18n.MsgDropped []
            | inr _ => JSON r StatusAccepted (httpIngestResponse (body_EventID body)) I18n.MsgAccepted
            end
      end
  end.

Definition handleHealth (r : http_Request) : M conn unit :=
  JSON r StatusOK (healthData "ok") I18n.MsgHealthOK.

Definition handleReady (r : http_Request) : M conn unit :=
  rd <- gets (fun c => ready (http c)) ;;
  if rd : bool then JSON r StatusOK (readyData true) I18n.MsgReady
  else JSON r StatusServiceUnavailable (readyData false) I18n.MsgNotReady.

(** The loop over the entries: [replayed] and [failed]. An entry without an event
    makes Push dereference nil. *)
Fixpoint push_entries (entries : list DLQEntry) (replayed failed : Z) : M conn (Z * Z) :=
  match entries with
  | [] => ret (replayed, failed)
  | entry :: entries =>
      p <- try (match entry_Event entry with
                | Some event => on_service (Service.Push now event)
                | None => panic "nil pointer dereference"
                end) ;;
      match p with
      | inl _ => push_entries entries replayed (failed + 1)
      | inr _ => push_entries entries (replayed + 1) failed
      end
  end.

Definition handleDLQReplay (r : http_Request) : M conn unit :=
  if decide (req_Method r <> "POST"%string) then method_not_allowed r "POST"
  else
    ok <- authorizeAdmin r ;;
    if negb ok then ret tt
    else
      d <- gets (fun c => dlq (http c)) ;;
      match d with
      | None => Error r StatusNotImplemented I18n.MsgDLQNotReplayable []
      | Some replayable =>
          es <- try (on_ext (r_DrainEntries replayable)) ;;
          match es with
          | inl _ => Error r StatusInternalServerError I18n.MsgDLQReplayFailed []
          | inr [] => JSON r StatusOK (dlqReplayData 0 0 0) I18n.MsgDLQReplayEmpty
          | inr entries =>
              n <- push_entries entries 0 0 ;;
              let '(replayed, failed) := n in
              JSON r StatusOK (dlqReplayData replayed failed (Z.of_nat (length entries)))
                (if decide (0 < failed)%Z then I18n.MsgDLQReplayPartial else I18n.MsgDLQReplayOK)
          end
      end.

Definition handleDLQStats (r : http_Request) : M conn unit :=
  if decide (req_Method r <> "GET"%string) then method_not_allowed r "GET"
  else
    ok <- authorizeAdmin r ;;
    if negb ok then ret tt
    else
      d <- gets (fun c => dlq (http c)) ;;
      match d with
      | None => Error r StatusNotImplemented I18n.MsgDLQStatsUnsupported []
      | Some replayable =>
          st <- try (on_ext (r_Stats replayable)) ;;
          match st with
          | inl _ => Error r StatusInternalServerError I18n.MsgDLQStatsFailed []
          | inr stats => JSON r StatusOK (statsData stats) I18n.MsgDLQStatsOK
          end
      end.

(** The routes of NewHttpServer, except /metrics. *)
Definition handler_for (path : string) : option (http_Request -> M conn unit) :=
  if decide (path = "/health"%string) then Some handleHealth
  else if decide (path = "/ready"%string) then Some handleReady
  else if decide (path = "/ingest"%string) then Some handleIngest
  else if decide (path = "/admin/dlq/replay"%string) then Some handleDLQReplay
  else if decide (path = "/admin/dlq/stats"%string) then Some handleDLQStats
  else None.

End http.
Arguments HttpServer : clear implicits.
Arguments conn : clear implicits.

(** ** grpc.go *)

Record IngestResponse := mk_reply {
  reply_Status : string;
  reply_Error : string;
  reply_MessageCode : string;
  reply_Message : string;
  reply_Lang : string
}.

(** The values of the incoming metadata's accept-language; [None]: no metadata. *)
Definition grpc_Context : Type := option (list string).

Definition langFromContext (ctx : grpc_Context) : I18n.Lang :=
  match ctx with
  | None => I18n.DetectLang ""
  | Some [] => I18n.DetectLang ""
  | Some (v :: _) => I18n.DetectLang v
  end.

Definition reply (lang : I18n.Lang) (status legacyErr : string) (code : I18n.MessageCode) : IngestResponse :=
  mk_reply status legacyErr code (I18n.Translate lang code) lang.

(** The listener is the one on [grpc_addr]. *)
Record GrpcServer := mk_grpc {
  grpc_addr : string;
  grpc_ingestEnabled : bool;
  grpc_requireTenant : bool
}.

Definition NewGrpcServer {N : Type} `{NetServers N} (port : Z) (ingestEnabled : bool) : M N GrpcServer :=
  let addr := ":" +:+ FormatInt port in
  wrapping ("failed to listen on " +:+ addr +:+ ": ") (net_Listen addr) ;;
  ret (mk_grpc addr ingestEnabled false).

Definition grpc_SetIngestEnabled (enabled : bool) (s : GrpcServer) : GrpcServer :=
  mk_grpc (grpc_addr s) enabled (grpc_requireTenant s).
Definition grpc_SetTenancyRequired (required : bool) (s : GrpcServer) : GrpcServer :=
  mk_grpc (grpc_addr s) (grpc_ingestEnabled s) required.

Definition grpc_Addr (s : GrpcServer) : string := grpc_addr s.
Definition grpc_Start {N : Type} `{NetServers N} (s : GrpcServer) : M N unit := modify (grpc_Serve (grpc_addr s)).
Definition grpc_Stop {N : Type} `{NetServers N} (s : GrpcServer) : M N unit :=
  modify (grpc_GracefulStop (grpc_addr s)).

Section grpc.
Context {B W R F : Type} `{BufB : Buffer B} `{WALW : WAL W} `{RecorderR : Recorder R}
  `{FloatF : Float64 F}.

(** The error result is always nil. *)
Definition Ingest (now : Z) (s : GrpcServer) (ctx : grpc_Context) (req : IngestRequest) :
    M (Service.Service B W R F) IngestResponse :=
  let lang := langFromContext ctx in
  if negb (grpc_ingestEnabled s) then ret (reply lang "DISABLED" "ingest disabled" I18n.MsgDisabled)
  else if decide (EventId req = ""%string) then
    ret (reply lang "ERROR" "missing event_id" I18n.MsgMissingEventID)
  else if grpc_requireTenant s && bool_decide (TenantId req = ""%string) then
    ret (reply lang "ERROR" "missing tenant_id" I18n.MsgMissingTenantID)
  else
    p <- try (Service.Push now req) ;;
    match p with
    | inl err =>
        if errors_Is err "ingestor.ErrTenantQuotaExceeded"
        then ret (reply lang "DROPPED" "tenant quota exceeded" I18n.MsgTenantQuota)
        else ret (reply lang "DROPPED" "buffer full" I18n.MsgDropped)
    | inr _ => ret (reply lang "OK" "" I18n.MsgAccepted)
    end.
End grpc.

End Server.
