(* ===== verification/ServerTheorems.v ===== *)
(** The servers: what each answer says of what was done. *)
From Stdlib Require Import ZArith Lia Ascii String SpecFloat.
From stdpp Require Import base list strings gmap.
From S2P Require Import Prelude Errors Go Bytes GoStrings Float Os Proto Config Wal Buffer Tenant.
From S2P Require Import Metrics Service Sinks Worker Dlq I18n Response Server.

Import Server.

Arguments I18n.Translate : simpl never.

(** ** Languages *)

(** Every message code has an English and a Persian text, and no two codes share a text;
    an unknown language falls back to English and an unknown code to itself. *)
Theorem translations_complete :
  (forall code, code ∈ I18n.all_codes ->
     is_Some (I18n.enMessages !! code) /\ is_Some (I18n.faMessages !! code)) /\
  NoDup (I18n.Translate I18n.LangEN <$> I18n.all_codes) /\
  NoDup (I18n.Translate I18n.LangFA <$> I18n.all_codes) /\
  (forall lang code, I18n.translations !! lang = None ->
     I18n.Translate lang code = I18n.Translate I18n.LangEN code) /\
  (forall lang code, code ∉ I18n.all_codes -> I18n.Translate lang code = code).
Proof.
  assert (forall m : gmap I18n.MessageCode string,
    forallb (fun c => bool_decide (is_Some (m !! c))) I18n.all_codes = true ->
    forall code, code ∈ I18n.all_codes -> is_Some (m !! code)) as Hall.
  { intros m H code Hc. apply list_elem_of_In in Hc. rewrite forallb_forall in H.
    specialize (H code Hc). by apply bool_decide_eq_true in H. }
  assert (forall (m : gmap I18n.MessageCode string) code,
    forallb (fun kv : string * string => bool_decide (kv.1 ∈ I18n.all_codes)) (map_to_list m) = true ->
    code ∉ I18n.all_codes -> m !! code = None) as Hnone.
  { intros m code H Hc. apply eq_None_not_Some. intros [x Hx]. apply elem_of_map_to_list in Hx.
    apply list_elem_of_In in Hx. rewrite forallb_forall in H. specialize (H _ Hx).
    by apply bool_decide_eq_true in H. }
  split_and!.
  - intros code Hc. split; apply Hall; done || (vm_compute; reflexivity).
  - apply (bool_decide_eq_true _). vm_compute. reflexivity.
  - apply (bool_decide_eq_true _). vm_compute. reflexivity.
  - intros lang code Hl. unfold I18n.Translate. rewrite Hl. cbn [mbind option_bind].
    by destruct (I18n.translations !! I18n.LangEN ≫= _).
  - intros lang code Hc. unfold I18n.Translate.
    pose proof (Hnone I18n.enMessages code ltac:(vm_compute; reflexivity) Hc) as He.
    pose proof (Hnone I18n.faMessages code ltac:(vm_compute; reflexivity) Hc) as Hf.
    assert (forall l ms, I18n.translations !! l = Some ms -> ms = I18n.enMessages \/ ms = I18n.faMessages)
      as Htr.
    { intros l ms Hl. apply elem_of_list_to_map_2 in Hl.
      apply elem_of_cons in Hl as [[= _ <-]|Hl]; [by left|].
      apply list_elem_of_singleton in Hl as [= _ <-]. by right. }
    assert (forall l, I18n.translations !! l ≫= (fun ms => ms !! code) = None) as Hz.
    { intros l. destruct (I18n.translations !! l) as [ms|] eqn:Hl; [|done]. simpl.
      by destruct (Htr l ms Hl) as [->| ->]. }
    by rewrite !Hz.
Qed.

Lemma supported_spec l : is_Some (I18n.translations !! l) <-> l = I18n.LangEN \/ l = I18n.LangFA.
Proof.
  unfold I18n.translations. simpl. rewrite lookup_insert_is_Some, lookup_insert_is_Some, lookup_empty.
  rewrite is_Some_alt. destruct (decide (I18n.LangEN = l)), (decide (I18n.LangFA = l)); naive_solver.
Qed.

(** The language of an answer is the primary subtag of the first element of the header that
    names a supported language, whatever its quality value, and English if none does. *)
Theorem DetectLang_first_supported (header : string) :
  let tags := I18n.primary_tag <$> Split header I18n.comma in
  (I18n.DetectLang header = I18n.LangEN \/ I18n.DetectLang header = I18n.LangFA) /\
  match list_find (fun t => t = I18n.LangEN \/ t = I18n.LangFA) tags with
  | Some (_, t) => I18n.DetectLang header = t
  | None => I18n.DetectLang header = I18n.LangEN
  end.
Proof.
  cbv zeta. unfold I18n.DetectLang. case_decide as Hh.
  { subst header. split; [by left|]. vm_compute. reflexivity. }
  clear Hh. induction (Split header I18n.comma) as [|part parts IH]; [by split; [left|]|].
  cbn [I18n.first_supported fmap list_fmap list_find].
  pose proof (supported_spec (I18n.primary_tag part)) as Hs.
  destruct (I18n.translations !! I18n.primary_tag part) as [ms|] eqn:Ht.
  - assert (I18n.primary_tag part = I18n.LangEN \/ I18n.primary_tag part = I18n.LangFA) as Hsup
      by (apply Hs; eauto).
    rewrite decide_True by done. by split.
  - rewrite decide_False by (intros H%Hs; by destruct H).
    destruct IH as [IH1 IH2]. split; [exact IH1|].
    destruct (list_find _ (I18n.primary_tag <$> parts)) as [[i t]|]; exact IH2.
Qed.

(** ** Ingest *)

Section answers.
Context {X B W R F : Type} `{BufB : Buffer B} `{WALW : WAL W} `{RecorderR : Recorder R}
  `{FloatF : Float64 F} `{IJ : IngestJson}.

Notation cn := (conn X B W R F).

(** Exactly one answer went out during the handler, and it left everything but the writer
    and perhaps the service and the queue's state as it was. *)
Definition answered_once (e : Response.env) (r : http_Request) (status : Z)
    (b : Response.body answer_data) (c c' : cn) : Prop :=
  Response.answered e r status b (Response.mk_writer ∅ (Response.sent (writer c)) (Response.written (writer c)))
    (writer c') /\ http c' = http c.

Lemma answered_header {D} e r status b (w w0 w' : Response.ResponseWriter D) :
  Response.answered e r status b w w' -> Response.written w = Response.written w0 ->
  Response.answered e r status b w0 w'.
Proof. intros (h & H1 & H2 & H3 & H4) Hw. exists h. rewrite <- Hw. by split_and!. Qed.

Lemma Error_once e r status code fields (c : cn) : Response.sent (writer c) = None ->
  exists c', Error e r status code fields c = (Ret tt, c') /\ ingestor c' = ingestor c /\ ext c' = ext c /\
    answered_once e r status
      (Response.ErrorEnvelope (Response.mk_error code fields) (Response.meta_for e r code)) c c'.
Proof.
  intros Hs. destruct (Response.Error_answered e r status code fields (writer c) Hs) as (w' & Hw & Ha).
  unfold Error, on_writer. rewrite Hw. eexists. split_and!; [done..|].
  split; [|done]. by eapply answered_header.
Qed.

Lemma JSON_once e r status data code (c : cn) : Response.sent (writer c) = None ->
  exists c', JSON e r status data code c = (Ret tt, c') /\ ingestor c' = ingestor c /\ ext c' = ext c /\
    answered_once e r status (Response.Envelope data (Response.meta_for e r code)) c c'.
Proof.
  intros Hs. destruct (Response.JSON_answered e r status data code (writer c) Hs) as (w' & Hw & Ha).
  unfold JSON, on_writer. rewrite Hw. eexists. split_and!; [done..|].
  split; [|done]. by eapply answered_header.
Qed.

Lemma method_not_allowed_once e r allow (c : cn) : Response.sent (writer c) = None ->
  exists c', method_not_allowed e r allow c = (Ret tt, c') /\ ingestor c' = ingestor c /\ ext c' = ext c /\
    answered_once e r StatusMethodNotAllowed
      (Response.ErrorEnvelope (Response.mk_error I18n.MsgMethodNotAllowed [])
         (Response.meta_for e r I18n.MsgMethodNotAllowed)) c c'.
Proof.
  intros Hs. unfold method_not_allowed.
  set (c1 := mk_conn (http c) (ingestor c) (ext c)
    (Response.mk_writer (<["Allow"%string:=allow]> (Response.header (writer c))) (Response.sent (writer c))
       (Response.written (writer c)))).
  rewrite (bind_run_Ret (on_writer (Response.Header_Set "Allow" allow)) _ c tt c1 eq_refl).
  destruct (Error_once e r StatusMethodNotAllowed I18n.MsgMethodNotAllowed [] c1 Hs)
    as (c' & H1 & H2 & H3 & H4).
  exists c'. split_and!; [exact H1|exact H2|exact H3|exact H4].
Qed.

(** The request asks for an event to be accepted, and nothing but the service can
    refuse it. *)
Definition well_formed_ingest (r : http_Request) (c : cn) (body : httpIngestRequest) : Prop :=
  req_Method r = "POST"%string /\ ingestEnabled (http c) = true /\ decode_body r = inr body /\
  body_EventID body <> ""%string /\
  (requireTenant (http c) = true -> body_TenantID body <> ""%string).

(** The service does not panic on the event of the request. *)
Definition push_returns (now : Z) (r : http_Request) (s : Service.Service B W R F) : Prop :=
  forall body, decode_body r = inr body ->
    exists s', Service.Push now (event_of body) s = (Ret tt, s') \/
      exists err, Service.Push now (event_of body) s = (Fail err, s').

(** How an ingest request ends: accepted by the service, refused by it, or rejected
    before it. *)
Inductive ingest_case (now : Z) (r : http_Request) (c : cn) (s : Service.Service B W R F) (c' : cn) :
    Z -> Response.body answer_data -> Prop :=
  | ingest_accepted body s' m :
      well_formed_ingest r c body -> Service.Push now (event_of body) s = (Ret tt, s') ->
      ingestor c' = Some s' ->
      ingest_case now r c s c' StatusAccepted
        (Response.Envelope (httpIngestResponse (body_EventID body)) m)
  | ingest_refused body err s' b :
      well_formed_ingest r c body -> Service.Push now (event_of body) s = (Fail err, s') ->
      ingestor c' = Some s' ->
      ingest_case now r c s c'
        (if errors_Is err "ingestor.ErrTenantQuotaExceeded" then StatusTooManyRequests
         else StatusServiceUnavailable) b
  | ingest_rejected status b :
      (forall body, ~ well_formed_ingest r c body) -> ingestor c' = Some s ->
      status = StatusMethodNotAllowed \/ status = StatusServiceUnavailable \/ status = StatusBadRequest ->
      ingest_case now r c s c' status b.

(** The handler ran to its end: one answer, and the case that explains it. *)
Definition ingest_ends (now : Z) (e : Response.env) (r : http_Request) (c : cn)
    (s : Service.Service B W R F) (o : out unit * cn) : Prop :=
  exists c' status b, o = (Ret tt, c') /\ answered_once e r status b c c' /\ ext c' = ext c /\
    ingest_case now r c s c' status b.

(** The answer that reports a refusal of the service. *)
Lemma refused_ends now e r c s s1 body err status code : Response.sent (writer c) = None ->
  well_formed_ingest r c body -> Service.Push now (event_of body) s = (Fail err, s1) ->
  status = (if errors_Is err "ingestor.ErrTenantQuotaExceeded" then StatusTooManyRequests
            else StatusServiceUnavailable) ->
  ingest_ends now e r c s
    (Error e r status code [] (mk_conn (http c) (Some s1) (ext c) (writer c))).
Proof.
  intros Hs Hwf Hp ->.
  destruct (Error_once e r (if errors_Is err "ingestor.ErrTenantQuotaExceeded"
    then StatusTooManyRequests else StatusServiceUnavailable) code []
    (mk_conn (http c) (Some s1) (ext c) (writer c)) Hs) as (c' & H1 & H2 & H3 & H4).
  eexists c', _, _. split; [exact H1|]. split; [exact H4|]. split; [exact H3|].
  by eapply ingest_refused.
Qed.

(** The answer to a request that is not well formed. *)
Lemma rejected_ends now e r c s (m : M cn unit) status b :
  (exists c', m c = (Ret tt, c') /\ ingestor c' = ingestor c /\ ext c' = ext c /\
     answered_once e r status b c c') ->
  ingestor c = Some s -> (forall body, ~ well_formed_ingest r c body) ->
  status = StatusMethodNotAllowed \/ status = StatusServiceUnavailable \/ status = StatusBadRequest ->
  ingest_ends now e r c s (m c).
Proof.
  intros (c' & H1 & H2 & H3 & H4) Hi Hnw Hst. exists c', status, b.
  split; [exact H1|]. split; [exact H4|]. split; [exact H3|]. apply ingest_rejected; [done|congruence|done].
Qed.
End answers.

Ltac not_well_formed :=
  intros ? (?&?&?&?&Htenant); try specialize (Htenant ltac:(assumption)); congruence.

(** C13. Every ingest request gets exactly one answer, with the caller's request id or a
    fresh one. The answer is 202 exactly when the request is a well-formed POST, ingest is
    enabled, and Push returned nil for the event in the body; it is 429 or 503 when Push refused
    the event; and a request that is not well formed does not reach the service. *)
Theorem handleIngest_accepted_iff {X B W R F : Type} `{BufB : Buffer B} `{WALW : WAL W}
    `{RecorderR : Recorder R} `{FloatF : Float64 F} `{IJ : IngestJson}
    (now : Z) (e : Response.env) (r : http_Request) (c : conn X B W R F) (s : Service.Service B W R F) :
  Response.sent (writer c) = None -> ingestor c = Some s -> push_returns now r s ->
  exists c' status b, handleIngest now e r c = (Ret tt, c') /\ answered_once e r status b c c' /\
    ext c' = ext c /\ ingest_case now r c s c' status b.
Proof.
  intros Hs Hi Hret. fold (ingest_ends now e r c s (handleIngest now e r c)).
  unfold handleIngest. rewrite (bind_run_Ret (gets id) _ c c c eq_refl).
  case_decide as Hm.
  { eapply rejected_ends; [by apply method_not_allowed_once|done|not_well_formed|auto]. }
  destruct (ingestEnabled (http c)) eqn:Hen; cbn [negb];
    [|eapply rejected_ends; [by apply Error_once|done|not_well_formed|auto]].
  rewrite Hi. destruct (decode_body r) as [err|body] eqn:Hd;
    [eapply rejected_ends; [by apply Error_once|done|not_well_formed|auto]|].
  case_decide as Hid; [eapply rejected_ends; [by apply Error_once|done|not_well_formed|auto]|].
  destruct (requireTenant (http c) && bool_decide (body_TenantID body = ""%string)) eqn:Ht.
  { apply andb_true_iff in Ht as [Ht1 Ht2%bool_decide_eq_true].
    eapply rejected_ends; [by apply Error_once|done|not_well_formed|auto]. }
  assert (well_formed_ingest r c body) as Hwf.
  { unfold well_formed_ingest. split_and!; [done|done|done|done|].
    intros Hrt. rewrite Hrt in Ht. by apply bool_decide_eq_false in Ht. }
  destruct (Hret body Hd) as (s' & Hpush).
  assert (forall p, Service.Push now (event_of body) s = (p, s') ->
    on_service (Service.Push now (event_of body)) c = (p, mk_conn (http c) (Some s') (ext c) (writer c)))
    as Hon by (intros p Hp; unfold on_service; by rewrite Hi, Hp).
  unfold bind at 1, try. destruct Hpush as [Hp|[err Hp]]; rewrite (Hon _ Hp); cbv beta iota.
  - destruct (JSON_once e r StatusAccepted (httpIngestResponse (body_EventID body)) I18n.MsgAccepted
      (mk_conn (http c) (Some s') (ext c) (writer c)) Hs) as (c' & H1 & H2 & H3 & H4).
    eexists c', _, _. split; [exact H1|]. split; [exact H4|]. split; [exact H3|].
    by eapply ingest_accepted.
  - destruct (errors_Is err _) eqn:Hq; eapply refused_ends; try done; by rewrite Hq.
Qed.

(** A server with the default flags, in front of the service [s]. *)
Definition plain_server {X} : HttpServer X := SetIngestEnabled true (NewHttpServer 8080 true).

(** A body that is its own event id, for any bytes. *)
Definition id_body : IngestJson := fun b _ => inr (mk_ingest_body (of_bytes b) "web" "" 0 "").

Definition demo_env : Response.env := Response.mk_env "ingestor" "dev" "uuid-1" "now".
Definition post (b : list byte) : http_Request := mk_request "POST" ∅ b.

Definition small_service : Service.Service ChannelBuffer.ChannelBuffer NoOpWAL.NoOpWAL
    MockRecorder.MockRecorder spec_float :=
  Service.NewService (ChannelBuffer.mk (mk_chan 1 [] false) false) None NoOpWAL.NewNoOpWAL.

Definition demo_conn : conn unit ChannelBuffer.ChannelBuffer NoOpWAL.NoOpWAL
    MockRecorder.MockRecorder spec_float :=
  mk_conn plain_server (Some small_service) tt Response.fresh_writer.

Lemma demo_status :
  fst <$> Response.sent (writer (snd
    (handleIngest (IJ := id_body) 0 demo_env (post [Byte.x61]) demo_conn))) = Some StatusAccepted.
Proof. vm_compute. reflexivity. Qed.

Lemma handleIngest_accepted_iff_witness :
  exists c' b, handleIngest (IJ := id_body) 0 demo_env (post [Byte.x61]) demo_conn = (Ret tt, c') /\
    answered_once demo_env (post [Byte.x61]) StatusAccepted b demo_conn c'.
Proof.
  destruct (handleIngest_accepted_iff (IJ := id_body) 0 demo_env (post [Byte.x61]) demo_conn small_service)
    as (c' & status & b & H1 & H2 & _); [reflexivity|reflexivity| |].
  { intros body Hb. injection Hb as <-. eexists. left. vm_compute. reflexivity. }
  exists c', b. split; [exact H1|].
  pose proof demo_status as Hst. rewrite H1 in Hst. destruct H2 as [(h & Hsent & H2) H3].
  cbn [snd] in Hst. rewrite Hsent in Hst. cbn in Hst. injection Hst as ->.
  split; [exists h; split; [exact Hsent|exact H2]|exact H3].
Defined.

(** ** HTTP and gRPC *)

(** The context of a call whose metadata says what the HTTP header says. *)
Definition grpc_context (r : http_Request) : grpc_Context :=
  match req_Header r !! "Accept-Language"%string with Some v => Some [v] | None => None end.

(** What an HTTP answer says in the terms of a gRPC reply. *)
Definition says (b : Response.body answer_data) (rep : IngestResponse) : Prop :=
  Response.MessageCode (Response.meta_of b) = reply_MessageCode rep /\
  Response.Message (Response.meta_of b) = reply_Message rep /\
  Response.Lang (Response.meta_of b) = reply_Lang rep.

Lemma langFromContext_header r : langFromContext (grpc_context r) = DetectLangFromRequest r.
Proof.
  unfold grpc_context, DetectLangFromRequest, Header_Get.
  by destruct (req_Header r !! "Accept-Language"%string).
Qed.

Lemma says_meta {A} (m : M A unit) e r code status legacy (b : Response.body answer_data) :
  Response.meta_of b = Response.meta_for e r code ->
  says b (reply (langFromContext (grpc_context r)) status legacy code).
Proof. intros H. unfold says. rewrite H, langFromContext_header. done. Qed.

(** How the answer [o] of the handler relates to the reply [o'] of the method. *)
Definition agree {X B W R F} (e : Response.env) (r : http_Request) (c : conn X B W R F)
    (o : out unit * conn X B W R F) (o' : out IngestResponse * Service.Service B W R F) : Prop :=
  ingestor o.2 = Some o'.2 /\
  match o'.1 with
  | Ret rep => o.1 = Ret tt /\ exists status b, answered_once e r status b c o.2 /\ says b rep /\
      (status = StatusAccepted <-> reply_Status rep = "OK"%string)
  | Panic p => o.1 = Panic p
  | Fail _ => False
  | Crash => o.1 = Crash
  | NoFuel => o.1 = NoFuel
  end.

Section agreement.
Context {X B W R F : Type} `{BufB : Buffer B} `{WALW : WAL W} `{RecorderR : Recorder R}
  `{FloatF : Float64 F} `{IJ : IngestJson}.

Lemma Error_agrees e r status code fields (c c1 : conn X B W R F) s gs legacy :
  Response.sent (writer c1) = None -> writer c1 = writer c -> http c1 = http c -> ingestor c1 = Some s ->
  status <> StatusAccepted -> gs <> "OK"%string ->
  agree e r c (Error e r status code fields c1)
    (Ret (reply (langFromContext (grpc_context r)) gs legacy code), s).
Proof.
  intros Hs Hw Hh Hi Hst Hgs.
  destruct (Error_once e r status code fields c1 Hs) as (c' & H1 & H2 & H3 & H4). rewrite H1.
  split; [cbn [fst snd]; by rewrite H2|]. split; [done|]. eexists status, _. split; [|split; [|done]].
  - unfold answered_once in *. rewrite Hw in H4. by rewrite <- Hh.
  - by eapply (says_meta (ret tt : M unit unit)).
Qed.

Lemma JSON_agrees e r data code (c c1 : conn X B W R F) s legacy :
  Response.sent (writer c1) = None -> writer c1 = writer c -> http c1 = http c -> ingestor c1 = Some s ->
  agree e r c (JSON e r StatusAccepted data code c1)
    (Ret (reply (langFromContext (grpc_context r)) "OK" legacy code), s).
Proof.
  intros Hs Hw Hh Hi.
  destruct (JSON_once e r StatusAccepted data code c1 Hs) as (c' & H1 & H2 & H3 & H4). rewrite H1.
  split; [cbn [fst snd]; by rewrite H2|]. split; [done|]. eexists StatusAccepted, _. split; [|split; [|done]].
  - unfold answered_once in *. rewrite Hw in H4. by rewrite <- Hh.
  - by eapply (says_meta (ret tt : M unit unit)).
Qed.
End agreement.

(** C15. The two ways in are equivalent. For the same event, with the same flags and the same
    accept-language, the HTTP handler and the gRPC method make the same call on the
    service and leave it in the same state; they answer with the same message code, text and
    language; the HTTP status is 202 exactly when the gRPC status is OK; and a panic of the
    service is a panic of both. *)
Theorem http_and_grpc_agree {X B W R F : Type} `{BufB : Buffer B} `{WALW : WAL W}
    `{RecorderR : Recorder R} `{FloatF : Float64 F} `{IJ : IngestJson}
    (now : Z) (e : Response.env) (r : http_Request) (c : conn X B W R F) (s : Service.Service B W R F)
    (g : GrpcServer) (body : httpIngestRequest) :
  Response.sent (writer c) = None -> ingestor c = Some s ->
  grpc_ingestEnabled g = ingestEnabled (http c) -> grpc_requireTenant g = requireTenant (http c) ->
  req_Method r = "POST"%string -> decode_body r = inr body ->
  agree e r c (handleIngest now e r c) (Ingest now g (grpc_context r) (event_of body) s).
Proof.
  intros Hs Hi Hge Hgt Hm Hd. unfold handleIngest. rewrite (bind_run_Ret (gets id) _ c c c eq_refl).
  unfold Ingest. rewrite Hge, Hgt.
  rewrite decide_False by (by intros H).
  destruct (ingestEnabled (http c)); cbn [negb]; [|by apply Error_agrees].
  rewrite Hi, Hd. cbn [event_of EventId TenantId].
  case_decide; [by apply Error_agrees|].
  destruct (requireTenant (http c) && _); [by apply Error_agrees|].
  unfold bind, try, on_service. rewrite Hi. fold (event_of body).
  destruct (Service.Push now (event_of body) s) as [[[]|err|p| |] s'] eqn:Hp; cbv beta iota.
  - by apply JSON_agrees.
  - destruct (errors_Is err _); by apply Error_agrees.
  - by split.
  - by split.
  - by split.
Qed.

Lemma http_and_grpc_agree_witness :
  let body := mk_ingest_body "a" "web" "" 0 "" in
  let r := post [Byte.x61] in
  agree demo_env r demo_conn (handleIngest (IJ := id_body) 0 demo_env r demo_conn)
    (Ingest 0 (mk_grpc ":9090" true false) None (event_of body) small_service).
Proof.
  exact (http_and_grpc_agree (IJ := id_body) 0 demo_env (post [Byte.x61]) demo_conn small_service
    (mk_grpc ":9090" true false) (mk_ingest_body "a" "web" "" 0 "")
    eq_refl eq_refl eq_refl eq_refl eq_refl eq_refl).
Defined.

(** ** The admin endpoints *)

(** C32. With an admin token configured, a request that does not carry it gets one answer, 401 (or
    405 for the wrong method), and neither drains nor reads the dead letter queue, nor
    touches the service. *)
Theorem admin_requires_token {X B W R F : Type} `{BufB : Buffer B} `{WALW : WAL W}
    `{RecorderR : Recorder R} `{FloatF : Float64 F}
    (now : Z) (e : Response.env) (r : http_Request) (c : conn X B W R F)
    (h : http_Request -> M (conn X B W R F) unit) :
  h = handleDLQReplay now e \/ h = handleDLQStats e ->
  Response.sent (writer c) = None -> adminToken (http c) <> ""%string ->
  TrimPrefix (Header_Get "Authorization" r) "Bearer " <> adminToken (http c) ->
  exists c' status b, h r c = (Ret tt, c') /\ answered_once e r status b c c' /\
    ingestor c' = ingestor c /\ ext c' = ext c /\
    (status = StatusUnauthorized \/ status = StatusMethodNotAllowed).
Proof.
  intros Hh Hs Htok Hne.
  assert (forall k : bool -> M (conn X B W R F) unit, (forall c', k false c' = (Ret tt, c')) ->
    exists c' status b, (ok <- authorizeAdmin e r ;; k ok) c = (Ret tt, c') /\
      answered_once e r status b c c' /\ ingestor c' = ingestor c /\ ext c' = ext c /\
      (status = StatusUnauthorized \/ status = StatusMethodNotAllowed)) as Hauth.
  { intros k Hk. destruct (Error_once e r StatusUnauthorized I18n.MsgUnauthorized [] c Hs)
      as (c' & H1 & H2 & H3 & H4).
    exists c', StatusUnauthorized. eexists. split; [|split; [exact H4|split; [exact H2|split; [exact H3|by left]]]].
    unfold authorizeAdmin. unfold bind at 1 2, gets at 1. rewrite !decide_False by done.
    unfold bind at 1. rewrite H1. apply Hk. }
  assert (forall allow, exists c' status b, method_not_allowed e r allow c = (Ret tt, c') /\
      answered_once e r status b c c' /\ ingestor c' = ingestor c /\ ext c' = ext c /\
      (status = StatusUnauthorized \/ status = StatusMethodNotAllowed)) as Hmethod.
  { intros allow. destruct (method_not_allowed_once e r allow c Hs) as (c' & H1 & H2 & H3 & H4).
    exists c', StatusMethodNotAllowed. eexists. split; [exact H1|]. split; [exact H4|]. auto. }
  destruct Hh as [-> | ->]; [unfold handleDLQReplay|unfold handleDLQStats];
    (case_decide; [apply Hmethod|by apply Hauth]).
Qed.

(** A server whose token is "secret", and a request without it. *)
Definition guarded_conn : conn unit ChannelBuffer.ChannelBuffer NoOpWAL.NoOpWAL
    MockRecorder.MockRecorder spec_float :=
  mk_conn (SetAdminToken "secret" plain_server) (Some small_service) tt Response.fresh_writer.

Lemma admin_requires_token_witness :
  exists c' status b, handleDLQReplay 0 demo_env (post []) guarded_conn = (Ret tt, c') /\
    answered_once demo_env (post []) status b guarded_conn c' /\
    (status = StatusUnauthorized \/ status = StatusMethodNotAllowed).
Proof.
  destruct (admin_requires_token 0 demo_env (post []) guarded_conn (handleDLQReplay 0 demo_env))
    as (c' & status & b & H1 & H2 & _ & _ & H3);
    [by left|reflexivity|discriminate|discriminate|].
  exists c', status, b. split; [exact H1|]. split; [exact H2|exact H3].
Defined.

(** The pushes of a replay, in order, while none of them panics: which were accepted, and
    the service after them. *)
Fixpoint push_results {B W R F : Type} `{Buffer B} `{WAL W} `{Recorder R} `{Float64 F}
    (now : Z) (es : list IngestRequest) (s : Service.Service B W R F) :
    option (list bool * Service.Service B W R F) :=
  match es with
  | [] => Some ([], s)
  | e :: es =>
      match Service.Push now e s with
      | (Ret _, s) => prod_map (cons true) id <$> push_results now es s
      | (Fail _, s) => prod_map (cons false) id <$> push_results now es s
      | _ => None
      end
  end.

(** How many of a list of answers are [b]. *)
Definition how_many (b : bool) (l : list bool) : Z := Z.of_nat (length (filter (fun x => x = b) l)).

Lemma how_many_total l : (how_many true l + how_many false l)%Z = Z.of_nat (length l).
Proof.
  unfold how_many. induction l as [|[|] l IH]; [done|..].
  - rewrite filter_cons_True, filter_cons_False by done. simpl. lia.
  - rewrite filter_cons_False, filter_cons_True by done. simpl. lia.
Qed.

Lemma push_results_length {B W R F : Type} `{Buffer B} `{WAL W} `{Recorder R} `{Float64 F} now es :
  forall (s : Service.Service B W R F) l s', push_results now es s = Some (l, s') -> length l = length es.
Proof.
  induction es as [|e es IH]; intros s l s' Hp; cbn [push_results] in Hp; [by injection Hp as <- <-|].
  destruct (Service.Push now e s) as [[]?]; try done;
    destruct (push_results now es _) as [[l0 ?]|] eqn:Hr; try done;
    injection Hp as <- <-; cbn [length]; f_equal; by eapply IH.
Qed.

Lemma push_entries_run {X B W R F : Type} `{BufB : Buffer B} `{WALW : WAL W} `{RecorderR : Recorder R}
    `{FloatF : Float64 F} now es : forall entries (c : conn X B W R F) s l s' a b,
  ingestor c = Some s -> entry_Event <$> entries = Some <$> es ->
  push_results now es s = Some (l, s') ->
  push_entries now entries a b c =
    (Ret (a + how_many true l, b + how_many false l)%Z, mk_conn (http c) (Some s') (ext c) (writer c)).
Proof.
  induction es as [|e es IH]; intros [|en entries] c s l s' a b Hi He Hp; try done.
  { injection Hp as <- <-. cbn [push_entries]. unfold ret, how_many. cbn.
    rewrite !Z.add_0_r. f_equal. rewrite <- Hi. by destruct c. }
  cbn [fmap list_fmap] in He. injection He as He Hes. cbn [push_results push_entries] in *. rewrite He.
  unfold bind at 1, try, on_service. rewrite Hi.
  destruct (Service.Push now e s) as [[]s1]; try done;
    destruct (push_results now es s1) as [[l0 s2]|] eqn:Hr; try done; injection Hp as <- <-; cbv beta iota.
  all: rewrite (IH entries _ s1 l0 s2) by done; cbn [http ext writer prod_map fst snd id]; f_equal; f_equal.
  all: unfold how_many; rewrite ?(filter_cons_True (fun x : bool => x = _) _ l0 eq_refl),
         ?(filter_cons_False (fun x : bool => x = _) _ l0) by done; cbn [length]; f_equal; lia.
Qed.

(** C26. A replay of the dead letter queue pushes every drained event once, in order, whatever
    the service answers, and its answer accounts for all of them: replayed and failed add
    up to the number drained, and the code is PARTIAL exactly when some push failed. *)
Theorem handleDLQReplay_accounts {X B W R F : Type} `{BufB : Buffer B} `{WALW : WAL W}
    `{RecorderR : Recorder R} `{FloatF : Float64 F}
    (now : Z) (e : Response.env) (r : http_Request) (c : conn X B W R F) (s : Service.Service B W R F)
    (d : Replayable X) (entries : list DLQEntry) (es : list IngestRequest) (x : X)
    (l : list bool) (s' : Service.Service B W R F) :
  Response.sent (writer c) = None -> ingestor c = Some s -> req_Method r = "POST"%string ->
  adminToken (http c) = ""%string \/
    TrimPrefix (Header_Get "Authorization" r) "Bearer " = adminToken (http c) ->
  dlq (http c) = Some d -> r_DrainEntries d (ext c) = (Ret entries, x) -> entries <> [] ->
  entry_Event <$> entries = Some <$> es -> push_results now es s = Some (l, s') ->
  exists c' replayed failed code, handleDLQReplay now e r c = (Ret tt, c') /\
    answered_once e r StatusOK
      (Response.Envelope (dlqReplayData replayed failed (Z.of_nat (length es)))
         (Response.meta_for e r code)) c c' /\
    ingestor c' = Some s' /\ ext c' = x /\
    replayed = how_many true l /\ (replayed + failed)%Z = Z.of_nat (length es) /\
    (code = I18n.MsgDLQReplayPartial <-> (0 < failed)%Z).
Proof.
  intros Hs Hi Hm Htok Hd Hdr Hne Hes Hl. unfold handleDLQReplay. rewrite decide_False by (by intros H).
  assert (authorizeAdmin e r c = (Ret true, c)) as Ha.
  { unfold authorizeAdmin, bind, gets. case_decide; [done|]. by rewrite decide_True by (by destruct Htok). }
  rewrite (bind_run_Ret _ _ _ _ _ Ha). cbn [negb]. unfold bind at 1, gets at 1. rewrite Hd.
  set (c1 := mk_conn (http c) (ingestor c) x (writer c)).
  assert (try (on_ext (r_DrainEntries d)) c = (Ret (inr entries), c1)) as Ht.
  { unfold try, on_ext. by rewrite Hdr. }
  rewrite (bind_run_Ret _ _ _ _ _ Ht). destruct entries as [|en entries]; [done|].
  rewrite (bind_run_Ret _ _ _ _ _ (push_entries_run now es (en :: entries) c1 s l s' 0 0 Hi Hes Hl)).
  set (code := if decide (0 < 0 + how_many false l)%Z then _ else _).
  assert (length (en :: entries) = length es) as Hlen.
  { rewrite <- (length_fmap entry_Event), Hes. apply length_fmap. }
  destruct (JSON_once e r StatusOK (dlqReplayData (0 + how_many true l) (0 + how_many false l)
    (Z.of_nat (length (en :: entries)))) code (mk_conn (http c1) (Some s') (ext c1) (writer c1)) Hs)
    as (c' & H1 & H2 & H3 & H4).
  exists c', (how_many true l), (how_many false l), code. rewrite Hlen in *.
  split; [exact H1|]. split; [exact H4|]. split; [exact H2|]. split; [exact H3|]. split; [done|]. split.
  - rewrite how_many_total. f_equal. by eapply push_results_length.
  - unfold code. case_decide; split; intros; try done; lia.
Qed.

(** A queue that is a list of entries in memory. *)
Definition listed : Replayable (list DLQEntry) :=
  mk_replayable (fun l => (Ret l, [])) (ret (mk_stats [] 0 0)).

Definition dead (id : string) : DLQEntry := mk_dlq_entry "" "s" "boom" (Some (mk_event id "" "" 0 "")).

(** Two dead letters, and room for one event in the buffer. *)
Definition replay_conn : conn (list DLQEntry) ChannelBuffer.ChannelBuffer NoOpWAL.NoOpWAL
    MockRecorder.MockRecorder spec_float :=
  mk_conn (SetDLQ (Some listed) plain_server) (Some small_service) [dead "a"; dead "b"]
    Response.fresh_writer.

Lemma handleDLQReplay_accounts_witness :
  exists c' code, handleDLQReplay 0 demo_env (post []) replay_conn = (Ret tt, c') /\
    answered_once demo_env (post []) StatusOK
      (Response.Envelope (dlqReplayData 1 1 2) (Response.meta_for demo_env (post []) code)) replay_conn c' /\
    code = I18n.MsgDLQReplayPartial.
Proof.
  destruct (push_results 0 [mk_event "a" "" "" 0 ""; mk_event "b" "" "" 0 ""] small_service)
    as [[l s']|] eqn:Hp; [|vm_compute in Hp; discriminate Hp].
  destruct (handleDLQReplay_accounts 0 demo_env (post []) replay_conn small_service listed
    [dead "a"; dead "b"] [mk_event "a" "" "" 0 ""; mk_event "b" "" "" 0 ""] [] l s'
    eq_refl eq_refl eq_refl (or_introl eq_refl) eq_refl eq_refl ltac:(discriminate) eq_refl Hp)
    as (c' & replayed & failed & code & H1 & H2 & _ & _ & H5 & H6 & H7).
  assert (how_many true l = 1%Z) as Hl by (vm_compute in Hp; injection Hp as <- _; reflexivity).
  rewrite Hl in H5. subst replayed. assert (failed = 1%Z) as -> by (cbn in H6; lia).
  exists c', code. split; [exact H1|]. split; [exact H2|]. apply H7. lia.
Defined.
