(* ===== verification/ServerTypes.v ===== *)
(** The type of every HTTP answer: which statuses, codes and bodies each endpoint can send. *)
From Stdlib Require Import ZArith Lia Ascii String.
From stdpp Require Import base list strings gmap.
From S2P Require Import Prelude Errors Go Bytes GoStrings Float Os Proto Config Wal Buffer Tenant.
From S2P Require Import Metrics Service Sinks Worker Dlq I18n Response Server ServerTheorems.

Import Server.

(** ** The contract of the endpoints *)

(** The data of a success. *)
Inductive data_for : string -> answer_data -> Prop :=
  | health_data : data_for "/health" (healthData "ok")
  | ready_data b : data_for "/ready" (readyData b)
  | ingest_data id : data_for "/ingest" (httpIngestResponse id)
  | replay_data n f t : data_for "/admin/dlq/replay" (dlqReplayData n f t)
  | stats_data st : data_for "/admin/dlq/stats" (statsData st).

(** The envelopes: status and message code. *)
Definition successes (path : string) : list (Z * I18n.MessageCode) :=
  if decide (path = "/health") then [(200%Z, I18n.MsgHealthOK)]
  else if decide (path = "/ready") then [(200%Z, I18n.MsgReady); (503%Z, I18n.MsgNotReady)]
  else if decide (path = "/ingest") then [(202%Z, I18n.MsgAccepted)]
  else if decide (path = "/admin/dlq/replay") then
    [(200%Z, I18n.MsgDLQReplayOK); (200%Z, I18n.MsgDLQReplayEmpty); (200%Z, I18n.MsgDLQReplayPartial)]
  else if decide (path = "/admin/dlq/stats") then [(200%Z, I18n.MsgDLQStatsOK)]
  else [].

(** The error envelopes. *)
Definition failures (path : string) : list (Z * I18n.MessageCode) :=
  if decide (path = "/ingest") then
    [(405%Z, I18n.MsgMethodNotAllowed); (503%Z, I18n.MsgDisabled); (500%Z, I18n.MsgNotConfigured);
     (400%Z, I18n.MsgInvalidJSON); (400%Z, I18n.MsgMissingEventID); (400%Z, I18n.MsgMissingTenantID);
     (429%Z, I18n.MsgTenantQuota); (503%Z, I18n.MsgDropped)]
  else if decide (path = "/admin/dlq/replay") then
    [(405%Z, I18n.MsgMethodNotAllowed); (401%Z, I18n.MsgUnauthorized);
     (501%Z, I18n.MsgDLQNotReplayable); (500%Z, I18n.MsgDLQReplayFailed)]
  else if decide (path = "/admin/dlq/stats") then
    [(405%Z, I18n.MsgMethodNotAllowed); (401%Z, I18n.MsgUnauthorized);
     (501%Z, I18n.MsgDLQStatsUnsupported); (500%Z, I18n.MsgDLQStatsFailed)]
  else [].

(** A message in a supported language: the translation of a known code, and not empty. *)
Definition typed_meta (m : Response.Meta) : Prop :=
  Response.MessageCode m ∈ I18n.all_codes /\
  (Response.Lang m = I18n.LangEN \/ Response.Lang m = I18n.LangFA) /\
  Response.Message m = I18n.Translate (Response.Lang m) (Response.MessageCode m) /\
  Response.Message m <> "".

Definition typed (path : string) (status : Z) (b : Response.body answer_data) : Prop :=
  typed_meta (Response.meta_of b) /\
  match b with
  | Response.Envelope d m => data_for path d /\ (status, Response.MessageCode m) ∈ successes path
  | Response.ErrorEnvelope er m =>
      Response.Code er = Response.MessageCode m /\ (status, Response.Code er) ∈ failures path
  end.

(** ** Languages *)

Lemma first_supported_en_fa parts :
  I18n.first_supported parts = I18n.LangEN \/ I18n.first_supported parts = I18n.LangFA.
Proof.
  induction parts as [|part parts IH]; [by left|]. cbn [I18n.first_supported].
  pose proof (supported_spec (I18n.primary_tag part)) as Hs.
  destruct (I18n.translations !! I18n.primary_tag part); [|exact IH]. apply Hs. eauto.
Qed.

Lemma DetectLang_en_fa header :
  I18n.DetectLang header = I18n.LangEN \/ I18n.DetectLang header = I18n.LangFA.
Proof. unfold I18n.DetectLang. case_decide; [by left|apply first_supported_en_fa]. Qed.

Lemma translation_not_empty lang code :
  lang = I18n.LangEN \/ lang = I18n.LangFA -> code ∈ I18n.all_codes -> I18n.Translate lang code <> "".
Proof.
  assert (forall l, forallb (fun c => negb (bool_decide (I18n.Translate l c = ""))) I18n.all_codes = true ->
    code ∈ I18n.all_codes -> I18n.Translate l code <> "") as H.
  { intros l Hl Hc. apply list_elem_of_In in Hc. rewrite forallb_forall in Hl.
    specialize (Hl _ Hc). apply negb_true_iff, bool_decide_eq_false in Hl. exact Hl. }
  intros [-> | ->]; apply H; vm_compute; reflexivity.
Qed.

Lemma meta_for_typed e r code : code ∈ I18n.all_codes -> typed_meta (Response.meta_for e r code).
Proof.
  intros Hc. pose proof (DetectLang_en_fa (Header_Get "Accept-Language" r)) as Hl.
  unfold typed_meta. split_and!; [exact Hc|exact Hl|done|]. by apply translation_not_empty.
Qed.

Lemma successes_known path x : x ∈ successes path -> x.2 ∈ I18n.all_codes.
Proof.
  intros H. unfold successes in H. repeat case_decide; [..|by apply elem_of_nil in H].
  all: apply (bool_decide_unpack _); repeat (apply elem_of_cons in H as [->|H]; [vm_compute; exact I|]).
  all: by apply elem_of_nil in H.
Qed.

Lemma failures_known path x : x ∈ failures path -> x.2 ∈ I18n.all_codes.
Proof.
  intros H. unfold failures in H. repeat case_decide; [..|by apply elem_of_nil in H].
  all: apply (bool_decide_unpack _); repeat (apply elem_of_cons in H as [->|H]; [vm_compute; exact I|]).
  all: by apply elem_of_nil in H.
Qed.

(** ** What a handler does with its writer *)

Section handlers.
Context {X B W R F : Type} `{BufB : Buffer B} `{WALW : WAL W} `{RecorderR : Recorder R}
  `{FloatF : Float64 F} `{IJ : IngestJson}.
Context (e : Response.env) (r : http_Request) (path : string).

Notation cn := (conn X B W R F).

(** The call never fails, and leaves the writer and the server alone. *)
Definition quiet {A} (m : M cn A) : Prop := forall c,
  match m c with
  | (Fail _, _) => False
  | (_, c') => writer c' = writer c /\ http c' = http c
  end.

(** From a writer that has sent nothing: one typed answer when the call returns, and still
    nothing when it does not. *)
Definition answers_typed (m : M cn unit) : Prop := forall c, Response.sent (writer c) = None ->
  match m c with
  | (Ret _, c') => exists status b, answered_once e r status b c c' /\ typed path status b
  | (Fail _, _) => False
  | (_, c') => writer c' = writer c
  end.

Lemma quiet_gets {A} (f : cn -> A) : quiet (gets f).
Proof. by intros c. Qed.
Lemma quiet_try_service {A} (m : M (Service.Service B W R F) A) : quiet (try (on_service m)).
Proof.
  intros c. unfold try, on_service. destruct (ingestor c) as [s|]; [|done].
  by destruct (m s) as [[] s'].
Qed.
Lemma quiet_try_ext {A} (m : M X A) : quiet (try (on_ext m)).
Proof. intros c. unfold try, on_ext. by destruct (m (ext c)) as [[] x]. Qed.

Lemma quiet_bind {A A'} (m : M cn A) (k : A -> M cn A') :
  quiet m -> (forall a, quiet (k a)) -> quiet (bind m k).
Proof.
  intros Hm Hk c. specialize (Hm c). unfold bind. destruct (m c) as [[] c']; try done.
  destruct Hm as [Hw Hh]. specialize (Hk a c'). destruct (k a c') as [[] c'']; try done;
    rewrite <- Hw, <- Hh; exact Hk.
Qed.

Lemma answers_bind {A} (m : M cn A) k : quiet m -> (forall a, answers_typed (k a)) -> answers_typed (bind m k).
Proof.
  intros Hm Hk c Hs. specialize (Hm c). unfold bind. destruct (m c) as [[] c']; try done;
    [|by destruct Hm|by destruct Hm|by destruct Hm].
  destruct Hm as [Hw Hh]. rewrite <- Hw in Hs. specialize (Hk a c' Hs).
  destruct (k a c') as [[] c'']; try done; [|congruence..].
  destruct Hk as (status & b & [Ha1 Ha2] & Ht). exists status, b. split; [|exact Ht].
  split; [by rewrite <- Hw|congruence].
Qed.

Lemma answers_Error status code fields : (status, code) ∈ failures path ->
  answers_typed (Error e r status code fields).
Proof.
  intros Hin c Hs. destruct (Error_once e r status code fields c Hs) as (c' & -> & _ & _ & Ha).
  eexists _, _. split; [exact Ha|]. split; [|by split].
  by apply meta_for_typed, (failures_known path (status, code)).
Qed.

Lemma answers_JSON status data code : (status, code) ∈ successes path -> data_for path data ->
  answers_typed (JSON e r status data code).
Proof.
  intros Hin Hd c Hs. destruct (JSON_once e r status data code c Hs) as (c' & -> & _ & _ & Ha).
  eexists _, _. split; [exact Ha|]. split; [|by split].
  by apply meta_for_typed, (successes_known path (status, code)).
Qed.

Lemma answers_method allow : (405%Z, I18n.MsgMethodNotAllowed) ∈ failures path ->
  answers_typed (method_not_allowed e r allow).
Proof.
  intros Hin c Hs. destruct (method_not_allowed_once e r allow c Hs) as (c' & -> & _ & _ & Ha).
  eexists _, _. split; [exact Ha|]. split; [|by split].
  by apply meta_for_typed, (failures_known path (405%Z, I18n.MsgMethodNotAllowed)).
Qed.

(** Behind the token check. *)
Lemma answers_authorized (k : M cn unit) : (401%Z, I18n.MsgUnauthorized) ∈ failures path ->
  answers_typed k ->
  answers_typed (ok <- authorizeAdmin e r ;; if negb ok then ret tt else k).
Proof.
  intros Hin Hk c Hs. unfold authorizeAdmin. unfold bind at 1 2, gets at 1.
  case_decide; [by apply Hk|]. cbv zeta. case_decide; [by apply Hk|].
  pose proof (answers_Error 401 I18n.MsgUnauthorized [] Hin c Hs) as He. unfold bind at 1.
  change StatusUnauthorized with 401%Z.
  by destruct (Error e r 401 I18n.MsgUnauthorized [] c) as [[] c'].
Qed.

Lemma push_entries_quiet now entries : forall a b, quiet (push_entries now entries a b).
Proof.
  induction entries as [|en entries IH]; intros a b; [by intros c|]. cbn [push_entries].
  apply quiet_bind; [|intros [|]; apply IH].
  destruct (entry_Event en); [apply quiet_try_service|by intros c].
Qed.
End handlers.

Create HintDb answers.
#[export] Hint Resolve quiet_gets quiet_try_service quiet_try_ext push_entries_quiet answers_bind
  answers_method answers_authorized : answers.

(** The endpoint's table has the answer. *)
Ltac in_table := apply (bool_decide_unpack _); vm_compute; exact I.

Ltac answer :=
  lazymatch goal with
  | |- answers_typed _ _ _ (Error _ _ _ _ _) => apply answers_Error; in_table
  | |- answers_typed _ _ _ (JSON _ _ _ _ _) => apply answers_JSON; [in_table|constructor]
  | |- answers_typed _ _ _ (method_not_allowed _ _ _) => apply answers_method; in_table
  end.

(** C17. Every answer of every endpoint has the type the endpoint promises. Whatever the request
    and the state of the parts, a handler that returns has sent exactly one JSON answer: a
    success envelope with the endpoint's data, or an error envelope whose code is the one in
    its metadata, with a status and a code of the endpoint's table, and with the non-empty
    text of that code in English or Persian. A handler whose call on a part panics has sent
    nothing. *)
Theorem http_answers_are_typed {X B W R F : Type} `{BufB : Buffer B} `{WALW : WAL W}
    `{RecorderR : Recorder R} `{FloatF : Float64 F} `{IJ : IngestJson}
    (now : Z) (e : Response.env) (path : string) (h : http_Request -> M (conn X B W R F) unit)
    (r : http_Request) (c : conn X B W R F) :
  handler_for now e path = Some h -> Response.sent (writer c) = None ->
  match h r c with
  | (Ret _, c') => exists status b, answered_once e r status b c c' /\ typed path status b
  | (Fail _, _) => False
  | (_, c') => writer c' = writer c
  end.
Proof.
  intros Hh. revert c. change (answers_typed e r path (h r)). revert Hh. unfold handler_for.
  repeat case_decide; subst; intros [= <-].
  - unfold handleHealth. answer.
  - apply answers_bind; [auto with answers|]. intros []; answer.
  - unfold handleIngest. apply answers_bind; [auto with answers|]. intros c.
    case_decide; [answer|]. destruct (negb _); [answer|]. destruct (ingestor c); [|answer].
    destruct (decode_body r) as [|body]; [answer|]. case_decide; [unfold missing_field; answer|].
    destruct (_ && _); [unfold missing_field; answer|].
    apply answers_bind; [auto with answers|]. intros [err|]; [|answer]. destruct (errors_Is _ _); answer.
  - unfold handleDLQReplay. case_decide; [answer|]. apply answers_authorized; [in_table|].
    apply answers_bind; [auto with answers|]. intros [d|]; [|answer].
    apply answers_bind; [auto with answers|]. intros [err|[|en entries]]; [answer|answer|].
    apply answers_bind; [auto with answers|]. intros [replayed failed]. case_decide; answer.
  - unfold handleDLQStats. case_decide; [answer|]. apply answers_authorized; [in_table|].
    apply answers_bind; [auto with answers|]. intros [d|]; [|answer].
    apply answers_bind; [auto with answers|]. intros [err|st]; answer.
Qed.

Lemma http_answers_are_typed_witness :
  exists c' status b,
    handleIngest (IJ := id_body) 0 demo_env (post [Byte.x61]) demo_conn = (Ret tt, c') /\
    answered_once demo_env (post [Byte.x61]) status b demo_conn c' /\ typed "/ingest" status b.
Proof.
  pose proof (http_answers_are_typed (IJ := id_body) 0 demo_env "/ingest"
    (handleIngest (IJ := id_body) 0 demo_env) (post [Byte.x61]) demo_conn eq_refl eq_refl) as H.
  pose proof demo_status as Hst.
  destruct (handleIngest (IJ := id_body) 0 demo_env (post [Byte.x61]) demo_conn) as [o c'].
  destruct o as [[]|err|p| |].
  - destruct H as (status & b & H). exists c', status, b. split; [reflexivity|exact H].
  - destruct H.
  - cbn [snd] in Hst. rewrite H in Hst. discriminate Hst.
  - cbn [snd] in Hst. rewrite H in Hst. discriminate Hst.
  - cbn [snd] in Hst. rewrite H in Hst. discriminate Hst.
Defined.
