(* ===== verification/DlqTheorems.v ===== *)
(** Dead letters: what is pushed is what is drained, and what a drain cannot keep. *)
From Stdlib Require Import ZArith Lia Ascii String SpecFloat.
From stdpp Require Import base list strings gmap sorting.
From S2P Require Import Prelude Errors Go Bytes GoStrings Float Config Os Proto.
From S2P Require Import Wal Buffer Tenant Metrics Service Sinks Worker Dlq I18n Response Server.

Import FileDLQ.

(** ** File names *)

Lemma substring_tail a b n : String.length b = n ->
  String.substring (String.length (a +:+ b) - n) n (a +:+ b) = b.
Proof.
  intros <-. rewrite string_length_app.
  replace (String.length a + String.length b - String.length b) with (String.length a) by lia.
  apply substring_app_tail.
Qed.

Lemma string_app_assoc a b c : a +:+ (b +:+ c) = (a +:+ b) +:+ c.
Proof. induction a as [|x a IH]; [reflexivity|]. exact (f_equal (String x) IH). Qed.

Lemma matches_file_name day : matches (file_name day) = true.
Proof.
  unfold matches, file_name. rewrite string_app_assoc. rewrite substring_tail by done.
  rewrite bool_decide_true by done.
  assert (Nat.leb 10 (String.length (("dlq-" +:+ day) +:+ ".jsonl")) = true) as ->.
  { apply Nat.leb_le. rewrite !string_length_app. simpl. lia. }
  rewrite !andb_true_r, <- string_app_assoc. by destruct (day +:+ ".jsonl").
Qed.

(** An archived file is not drained again. *)
Lemma matches_archived name : matches (name +:+ ".replayed") = false.
Proof.
  unfold matches. change ".replayed"%string with (".re" +:+ "played"). rewrite string_app_assoc.
  rewrite substring_tail by done. rewrite bool_decide_false by done. apply andb_false_r.
Qed.

(** ** Lines *)
Section dlq.
Context `{J : EntryJson} `{JL : !EntryJsonLaws J}.

(** A file of dead letters: one line for each entry. *)
Definition file_bytes (lines : list string) : list byte :=
  concat ((fun s => to_bytes s ++ [Byte.x0a]) <$> lines).

(** The line of an entry that can be read back: its text is decoded to the same value (as
    encoding/json does when every string is valid UTF-8) and is short enough. *)
Definition encodes (e : DLQEntry) (s : string) : Prop :=
  json_Marshal_entry e = inr s /\ json_Unmarshal_entry s = inr e /\ String.length s < maxLine.

Lemma scan_file_bytes es lines : Forall2 encodes es lines -> scan_lines (file_bytes lines) = lines.
Proof.
  intros H. unfold scan_lines.
  assert (Split (of_bytes (file_bytes lines)) newline = lines ++ [""%string]) as ->.
  { induction H as [|e s es lines (Hs & _) _ IH]; [done|]. unfold file_bytes. cbn [fmap list_fmap concat].
    rewrite <- (assoc_L (++)). rewrite of_bytes_app, of_to_bytes.
    change (of_bytes ([Byte.x0a] ++ _)) with (String newline (of_bytes (file_bytes lines))).
    rewrite Split_line by (by eapply entry_one_line). rewrite IH. done. }
  rewrite last_last, bool_decide_true by done. apply removelast_last.
Qed.

Lemma entry_text e s : json_Marshal_entry e = inr s ->
  drop_cr s = s /\ TrimSpace s = s /\ is_empty s = false.
Proof.
  intros Hs. destruct (entry_object e s Hs) as [body Hb].
  assert (s = ("{" +:+ body) +:+ String "}" "") as H2 by (rewrite Hb; apply string_app_assoc).
  assert (s = String "{" (body +:+ "}")) as H1 by (rewrite Hb; reflexivity).
  split_and!.
  - rewrite H2. unfold drop_cr. cbv zeta. rewrite bool_decide_false; [done|]. by rewrite get_last.
  - eapply TrimSpace_id; [exact H1|exact H2|..]; apply starts_apart_spec; vm_compute; reflexivity.
  - unfold is_empty. rewrite H1. by rewrite bool_decide_false.
Qed.

Lemma read_lines_entries es lines : Forall2 encodes es lines -> forall acc,
  read_lines lines acc = inr (acc ++ es).
Proof.
  induction 1 as [|e s es lines (Hs & Hu & Hl) _ IH]; intros acc; cbn [read_lines]; [by rewrite app_nil_r|].
  rewrite decide_False by lia. destruct (entry_text e s Hs) as (-> & -> & ->).
  rewrite Hu, IH. by rewrite <- (assoc_L (++)).
Qed.

Lemma readDLQFile_run w p f es lines :
  calm w -> files w !! p = Some f -> data f = file_bytes lines -> Forall2 encodes es lines ->
  readDLQFile p w = (Ret es, w).
Proof.
  intros Hc Hf Hd He. unfold readDLQFile. rewrite (bind_run_Ret _ _ _ _ _ (os_Open_calm p f w Hc Hf)).
  cbn [rd_data rd_bad]. rewrite Hd, (scan_file_bytes es lines He), (read_lines_entries es lines He []).
  done.
Qed.

(** ** The pending entries

    [store w l]: the files of dead letters in the directory are [l], by name, each with its
    entries; the open file is one of them or is still to be found by its name. *)
Definition stored (w : os) (dir : string) (p : string * list DLQEntry) : Prop :=
  exists f lines, files w !! filepath_Join dir p.1 = Some f /\ data f = file_bytes lines /\
    Forall2 encodes p.2 lines.

Record store (w : world) (l : list (string * list DLQEntry)) : Prop := {
  store_calm : calm (fs w);
  store_open : exists name, open_at (file (d w)) (filepath_Join (dir (d w)) name) /\ name ∈ l.*1;
  store_files : Forall (stored (fs w) (dir (d w))) l;
  store_names : Forall (fun p => matches p.1 = true) l;
  store_all : forall p : path, is_Some (files (fs w) !! p) -> p.1 = dir (d w) -> matches p.2 = true -> p.2 ∈ l.*1;
  store_nodup : NoDup l.*1;
  store_sorted : Sorted strings.String.le l.*1
}.

(** The name of a file of dead letters in [dir]. *)
Definition glob_name (dir : string) (p : path * Os.file) : option string :=
  if decide (p.1.1 = dir) then if matches p.1.2 then Some p.1.2 else None else None.

Lemma glob_name_Some dir p n : glob_name dir p = Some n <-> p.1 = (dir, n) /\ matches n = true.
Proof.
  unfold glob_name. destruct p as [[dr n'] f]. simpl. case_decide as Hd.
  - subst dr. destruct (matches n') eqn:Hm; split.
    + by intros [= <-].
    + by intros [[= <-] _].
    + done.
    + intros [[= <-] Hn]. congruence.
  - split; [done|]. by intros [[= -> _] _].
Qed.

Lemma NoDup_names dir (ls : list (path * Os.file)) : NoDup ls.*1 -> NoDup (omap (glob_name dir) ls).
Proof.
  induction ls as [|p ls IH]; cbn [fmap list_fmap]; intros Hnd; [constructor|].
  apply NoDup_cons in Hnd as [Hnin Hnd]. cbn [omap list_omap].
  destruct (glob_name dir p) as [n|] eqn:Hn; [|by apply IH].
  constructor; [|by apply IH]. rewrite list_elem_of_omap. intros (q & Hq & Hqn). apply Hnin.
  apply glob_name_Some in Hn as [Hn _]. apply glob_name_Some in Hqn as [Hqn _].
  rewrite Hn, <- Hqn. by apply list_elem_of_fmap_2.
Qed.

Lemma Glob_store w l : store w l ->
  Glob (dir (d w)) (fs w) = (Ret (filepath_Join (dir (d w)) <$> l.*1), fs w).
Proof.
  intros [_ _ Hf Hm Hall Hnd Hs]. unfold Glob.
  change (omap _ (map_to_list (files (fs w)))) with (omap (glob_name (dir (d w))) (map_to_list (files (fs w)))).
  do 2 f_equal. set (names := omap _ _). f_equal.
  assert (names ≡ₚ l.*1) as Hp.
  { apply NoDup_Permutation; [apply NoDup_names, NoDup_fst_map_to_list|done|].
    intros n. unfold names. rewrite list_elem_of_omap. split.
    - intros (p & Hin & [Hp Hmt]%glob_name_Some). destruct p as [p f]. apply elem_of_map_to_list in Hin.
      simpl in Hp. subst p. apply (Hall (dir (d w), n)); [eauto|done|done].
    - intros Hin. apply list_elem_of_fmap in Hin as ([n' es] & -> & Hin). rewrite Forall_forall in Hf, Hm.
      destruct (Hf _ Hin) as (f & lines & Hlk & _). exists (filepath_Join (dir (d w)) n', f).
      split; [by apply elem_of_map_to_list|]. apply glob_name_Some. split; [done|]. apply (Hm _ Hin). }
  eapply (Sorted_unique strings.String.le); [apply Sorted_merge_sort; apply _|done|].
  by rewrite merge_sort_Permutation.
Qed.

Lemma on_fs_run {A} (m : M os A) w r o :
  m (fs w) = (r, o) -> on_fs m w = (r, mk_w (d w) o (today w) (stamp w)).
Proof. unfold on_fs. by intros ->. Qed.

Lemma on_fs_pure {A} (m : M os A) w r : m (fs w) = (r, fs w) -> on_fs m w = (r, w).
Proof. intros H. rewrite (on_fs_run m w r _ H). by destruct w. Qed.

Lemma read_all_store w l : calm (fs w) -> Forall (stored (fs w) (dir (d w))) l -> forall acc,
  read_all (filepath_Join (dir (d w)) <$> l.*1) acc w = (Ret (acc ++ (l.*2 ≫= id)), w).
Proof.
  intros Hc Hl. induction Hl as [|[n es] l (f & lines & Hf & Hd & He) _ IH]; intros acc.
  { cbn. by rewrite app_nil_r. }
  cbn [fmap list_fmap read_all fst snd].
  rewrite (bind_run_Ret _ _ _ _ _ (wrapping_run_Ret _ _ _ _ _
    (on_fs_pure _ w _ (readDLQFile_run (fs w) _ f es lines Hc Hf Hd He)))).
  rewrite IH. cbn. by rewrite <- (assoc_L (++)).
Qed.

(** Archiving: the named files leave the directory's dead letters, nothing else does. *)
Lemma archive_run dr names : forall w, calm (fs w) -> NoDup names ->
  Forall (fun n => matches n = true) names ->
  Forall (fun n => is_Some (files (fs w) !! filepath_Join dr n)) names ->
  exists o, for_each (fun f => ignore (on_fs (os_Rename f (archive_name f)))) (filepath_Join dr <$> names) w
      = (Ret tt, mk_w (d w) o (today w) (stamp w)) /\ calm o /\
    forall n, matches n = true ->
      files o !! filepath_Join dr n = if decide (n ∈ names) then None else files (fs w) !! filepath_Join dr n.
Proof.
  induction names as [|n names IH]; intros w Hc Hnd Hm Hex.
  { exists (fs w). split_and!; [by destruct w|done|]. intros n _. by rewrite decide_False by (by intros ?%not_elem_of_nil). }
  apply NoDup_cons in Hnd as [Hnin Hnd]. apply Forall_cons in Hm as [Hmn Hm].
  apply Forall_cons in Hex as [[f Hf] Hex]. cbn [fmap list_fmap for_each].
  pose proof (os_Rename_calm _ (archive_name (filepath_Join dr n)) f (fs w) Hc Hf) as Hren.
  set (o1 := set_files _ _) in Hren.
  rewrite (bind_run_Ret _ _ _ _ _ (ignore_run_Ret _ _ _ _ (on_fs_run _ w _ _ Hren))).
  set (w1 := mk_w (d w) o1 (today w) (stamp w)).
  assert (forall n', matches n' = true -> n' <> n ->
    files o1 !! filepath_Join dr n' = files (fs w) !! filepath_Join dr n') as Hkeep.
  { intros n' Hm' Hne. unfold o1, set_files, archive_name, filepath_Join. cbn [files fst snd].
    rewrite lookup_insert_ne, lookup_delete_ne; [done|congruence|].
    intros [= Heq]. rewrite <- Heq, matches_archived in Hm'. done. }
  destruct (IH w1 Hc Hnd Hm) as (o & Hrun & Hco & Hlk).
  { rewrite Forall_forall in Hm, Hex |- *. intros n' Hn'. cbn [fs w1].
    rewrite Hkeep; [by apply Hex|by apply Hm|]. intros ->. by apply Hnin. }
  exists o. split; [exact Hrun|]. split; [exact Hco|]. intros n' Hm'. rewrite (Hlk n' Hm'). cbn [fs w1].
  destruct (decide (n' = n)) as [->|Hne].
  - rewrite (decide_True (P := n ∈ n :: names)) by (by left). case_decide; [done|].
    unfold o1, set_files, archive_name, filepath_Join. cbn [files fst snd].
    rewrite lookup_insert_ne; [apply lookup_delete_eq|].
    intros [= Heq]. rewrite <- Heq, matches_archived in Hmn. done.
  - rewrite (Hkeep n' Hm' Hne). apply decide_ext. rewrite elem_of_cons. tauto.
Qed.

(** A drain returns every pending entry, file after file, and leaves one empty file. *)
(** What is in the files does not depend on how much of it is synced. *)
Lemma store_same_data w l o :
  store w l -> calm o -> (forall p, data <$> files o !! p = data <$> files (fs w) !! p) ->
  store (mk_w (d w) o (today w) (stamp w)) l.
Proof.
  intros [_ Ho Hf Hm Hall Hnd Hs] Hc Hdata. split; try done; cbn [fs d].
  - eapply Forall_impl; [exact Hf|]. intros q (f & lines & Hq & Hd & He).
    pose proof (Hdata (filepath_Join (dir (d w)) q.1)) as Hdq. rewrite Hq in Hdq.
    destruct (files o !! _) as [g|] eqn:Hg; [|done]. injection Hdq as Hdq. exists g, lines.
    split_and!; [done|congruence|done].
  - intros p [g Hg] Hp1 Hp2. apply (Hall p); [|done|done]. pose proof (Hdata p) as Hdp. rewrite Hg in Hdp.
    destruct (files (fs w) !! p); [eauto|done].
Qed.

(** A queue without entries, on the file of the day. *)
Lemma store_reopened w o :
  calm o -> (forall n, matches n = true -> files o !! filepath_Join (dir (d w)) n = None) ->
  store (mk_w (mk (dir (d w)) (mk_handle (filepath_Join (dir (d w)) (file_name (today w))) HOpen))
           (set_files (partial_alter (fun o => Some (default empty_file o)) (filepath_Join (dir (d w)) (file_name (today w)))) o)
           (today w) (stamp w)) [(file_name (today w), [])].
Proof.
  intros Hc Hgone. split; cbn [fs d dir file].
  - done.
  - exists (file_name (today w)). by split; [|left].
  - constructor; [|constructor]. exists empty_file, []. split_and!; [|done|constructor].
    unfold set_files. cbn [files]. rewrite lookup_partial_alter_eq, (Hgone _ (matches_file_name _)). done.
  - constructor; [apply matches_file_name|constructor].
  - intros [dr n] Hp. simpl. intros -> Hn. apply list_elem_of_singleton.
    destruct (decide (n = file_name (today w))) as [|Hne]; [done|]. exfalso.
    unfold set_files in Hp. cbn [files] in Hp. rewrite lookup_partial_alter_ne in Hp by (intros [= Heq]; congruence).
    change (dir (d w), n) with (filepath_Join (dir (d w)) n) in Hp. rewrite (Hgone n Hn) in Hp.
    by apply is_Some_None in Hp.
  - apply NoDup_singleton.
  - repeat constructor.
Qed.

Lemma DrainEntries_store w l : store w l ->
  exists w', DrainEntries w = (Ret (l.*2 ≫= id), w') /\ store w' [(file_name (today w), [])].
Proof.
  intros Hst. pose proof Hst as [Hc (name & Ho & Hname) Hf Hm Hall Hnd Hs]. unfold DrainEntries.
  rewrite (bind_run_Ret (gets id) _ w w w eq_refl).
  pose proof (os_Sync_calm _ _ (fs w) Hc Ho) as Hsync.
  set (o1 := set_files (alter sync_bytes (filepath_Join (dir (d w)) name)) (fs w)) in Hsync.
  rewrite (bind_run_Ret _ _ _ _ _ (wrapping_run_Ret _ _ _ _ _ (on_fs_run _ w _ _ Hsync))).
  assert (store (mk_w (d w) o1 (today w) (stamp w)) l) as Hst1.
  { apply store_same_data; [done|done|]. intros p. unfold o1, set_files. cbn [files].
    destruct (decide (p = filepath_Join (dir (d w)) name)) as [->|].
    - rewrite lookup_alter_eq. by destruct (files (fs w) !! _).
    - by rewrite lookup_alter_ne. }
  set (w1 := mk_w (d w) o1 (today w) (stamp w)) in *.
  rewrite (bind_run_Ret _ _ _ _ _ (wrapping_run_Ret _ _ _ _ _ (on_fs_pure _ w1 _ (Glob_store w1 l Hst1)))).
  rewrite (bind_run_Ret _ _ _ _ _ (read_all_store w1 l Hc (store_files _ _ Hst1) [])). cbn [app].
  pose proof (os_Close_calm _ _ o1 Hc Ho) as Hclose.
  rewrite (bind_run_Ret _ _ _ _ _ (try_run_Ret _ _ _ _ (on_fs_pure _ w1 _ Hclose))).
  set (w2 := mk_w (mk (dir (d w)) (closed (file (d w)))) o1 (today w) (stamp w)).
  rewrite (bind_run_Ret (set_file (closed (file (d w)))) _ w1 tt w2 eq_refl).
  destruct (archive_run (dir (d w)) l.*1 w2 Hc Hnd) as (o3 & Hren & Hc3 & Hlk3).
  { by apply Forall_fmap. }
  { apply Forall_fmap. eapply Forall_impl; [exact (store_files _ _ Hst1)|].
    intros q (f & lines & Hq & _). cbn in Hq |- *. rewrite Hq. eauto. }
  rewrite (bind_run_Ret _ _ _ _ _ Hren). cbn [d today stamp w2].
  set (w3 := mk_w _ o3 _ _).
  pose proof (os_OpenCreate_calm (filepath_Join (dir (d w)) (file_name (today w))) o3 Hc3) as Hopen.
  set (o4 := set_files _ o3) in Hopen.
  rewrite (bind_run_Ret _ _ _ _ _ (wrapping_run_Ret _ _ _ _ _ (on_fs_run _ w3 _ _ Hopen))).
  eexists. split; [reflexivity|]. apply (store_reopened w); [done|].
  intros n Hn. rewrite (Hlk3 n Hn). case_decide as Hin; [done|]. apply eq_None_not_Some. intros Hs'.
  apply Hin. by apply (store_all _ _ Hst1 (filepath_Join (dir (d w)) n)).
Qed.

(** [l] with [new] behind the entries of the file [name]. *)
Definition extended (name : string) (new : list DLQEntry) (l : list (string * list DLQEntry)) :
    list (string * list DLQEntry) :=
  (fun p => (p.1, if decide (p.1 = name) then p.2 ++ new else p.2)) <$> l.

Lemma extended_names name new l : (extended name new l).*1 = l.*1.
Proof. unfold extended. rewrite <- list_fmap_compose. by apply list_fmap_ext. Qed.

Lemma extended_nil name l : extended name [] l = l.
Proof.
  unfold extended. transitivity (id <$> l); [|apply list_fmap_id]. apply list_fmap_ext. intros i [n es] _.
  simpl. by case_decide; rewrite ?app_nil_r.
Qed.

Lemma extended_extended name new1 new2 l :
  extended name new2 (extended name new1 l) = extended name (new1 ++ new2) l.
Proof.
  unfold extended. rewrite <- list_fmap_compose. apply list_fmap_ext. intros i [n es] _.
  simpl. case_decide; [by rewrite <- (assoc_L (++))|done].
Qed.

(** The entry that Push records. *)
Definition entry_of (w : world) (p : IngestRequest * string * error) : DLQEntry :=
  mk_dlq_entry (stamp w) p.1.2 (error_string p.2) (Some p.1.1).

Lemma Push_store w l name p text :
  store w l -> open_at (file (d w)) (filepath_Join (dir (d w)) name) ->
  encodes (entry_of w p) text ->
  exists w', Push None p.1.1 p.1.2 p.2 w = (Ret tt, w') /\ d w' = d w /\ today w' = today w /\
    stamp w' = stamp w /\ store w' (extended name [entry_of w p] l).
Proof.
  intros [Hc (name' & Ho' & Hname) Hf Hm Hall Hnd Hs] Ho (Hj & Hun & Hlen).
  assert (name' = name) as ->.
  { destruct Ho as [H1 _], Ho' as [H2 _]. rewrite H1 in H2. by injection H2. }
  unfold Push. rewrite (bind_run_Ret (gets id) _ w w w eq_refl). unfold id.
  change (mk_dlq_entry (stamp w) p.1.2 (error_string p.2) (Some p.1.1)) with (entry_of w p).
  rewrite Hj.
  pose proof (os_Write_calm _ _ (to_bytes text ++ [Byte.x0a]) (fs w) Hc Ho) as Hw.
  eexists. split; [apply wrapping_run_Ret, (on_fs_run _ w _ _ Hw)|]. cbn [d today stamp].
  split_and!; [done..|]. split; cbn [fs d].
  - done.
  - exists name. by rewrite extended_names.
  - apply Forall_fmap. eapply Forall_impl; [exact Hf|]. intros [n es] (f & lines & Hq & Hd & He).
    cbn [fst snd] in Hq, He. unfold stored, set_files. cbn [compose fst snd files].
    destruct (decide (n = name)) as [->|Hne].
    + exists (append_bytes (to_bytes text ++ [Byte.x0a]) f), (lines ++ [text]). cbn [fst snd].
      rewrite lookup_alter_eq, Hq. split_and!; [done| |].
      * unfold append_bytes, file_bytes. cbn [data]. rewrite Hd, fmap_app, concat_app. cbn. by rewrite app_nil_r.
      * apply Forall2_app; [done|]. constructor; [by split_and!|constructor].
    + exists f, lines. cbn [fst snd]. rewrite lookup_alter_ne; [by split_and!|]. intros [= Heq]. congruence.
  - apply Forall_fmap. eapply Forall_impl; [exact Hm|]. done.
  - intros q Hq Hq1 Hq2. rewrite extended_names. apply (Hall q); [|done|done].
    unfold set_files in Hq. cbn [files] in Hq.
    destruct (decide (q = filepath_Join (dir (d w)) name)) as [->|Hne].
    + rewrite lookup_alter_eq in Hq. by apply fmap_is_Some in Hq.
    + by rewrite lookup_alter_ne in Hq.
  - by rewrite extended_names.
  - by rewrite extended_names.
Qed.

(** Pushes with a live context, one after the other. *)
Definition push_dead (ps : list (IngestRequest * string * error)) : M world unit :=
  for_each (fun p => Push None p.1.1 p.1.2 p.2) ps.

Lemma push_dead_store ps name : forall w l,
  store w l -> open_at (file (d w)) (filepath_Join (dir (d w)) name) ->
  Forall (fun p => exists text, encodes (entry_of w p) text) ps ->
  exists w', push_dead ps w = (Ret tt, w') /\ today w' = today w /\ store w' (extended name (entry_of w <$> ps) l).
Proof.
  induction ps as [|p ps IH]; intros w l Hst Ho Hps.
  { exists w. split_and!; [done|done|]. by rewrite extended_nil. }
  apply Forall_cons in Hps as [[text Ht] Hps]. unfold push_dead. cbn [for_each].
  destruct (Push_store w l name p text Hst Ho Ht) as (w1 & H1 & Hd & Htd & Hstamp & Hst1).
  rewrite (bind_run_Ret _ _ _ _ _ H1).
  assert (forall q, entry_of w1 q = entry_of w q) as Hent by (intros q; unfold entry_of; by rewrite Hstamp).
  destruct (IH w1 _ Hst1) as (w2 & H2 & Htd2 & Hst2).
  { by rewrite Hd. }
  { eapply Forall_impl; [exact Hps|]. intros q Hq. by rewrite Hent. }
  exists w2. split; [exact H2|]. split; [congruence|].
  rewrite extended_extended in Hst2.
  by rewrite (list_fmap_ext (entry_of w1) (entry_of w) ps (fun _ q _ => Hent q)) in Hst2.
Qed.
End dlq.


(** ** A concrete queue *)

(** A JSON encoding for the entries of a table: the text is the position in the table,
    in braces. *)
Module TableJson.
Section table.
Context (table : list DLQEntry).

#[local] Instance entry_eq_dec : EqDecision DLQEntry.
Proof. solve_decision. Defined.

Definition text (i : nat) : string := "{" +:+ String (Ascii.ascii_of_nat (65 + i)) "}".

Definition marshal_entry (e : DLQEntry) : error + string :=
  match list_find (fun x => x = e) (take 26 table) with
  | Some (i, _) => inr (text i)
  | None => inl (ErrNew "json: unsupported value")
  end.

Definition unmarshal_entry (s : string) : error + DLQEntry :=
  match s with
  | String _ (String c _) =>
      match table !! (Ascii.nat_of_ascii c - 65) with
      | Some e => inr e
      | None => inl (ErrNew "invalid character")
      end
  | _ => inl (ErrNew "unexpected end of JSON input")
  end.

#[global] Instance json : EntryJson :=
  {| json_Marshal_entry := marshal_entry; json_Unmarshal_entry := unmarshal_entry |}.

Lemma marshal_inv e s : marshal_entry e = inr s -> exists i, i < 26 /\ table !! i = Some e /\ s = text i.
Proof.
  unfold marshal_entry. destruct (list_find _ _) as [[i x]|] eqn:H; [|done]. intros [= <-].
  apply list_find_Some in H as (Hi & -> & _). exists i.
  pose proof (lookup_lt_Some _ _ _ Hi) as Hlt. rewrite length_take in Hlt.
  rewrite lookup_take_lt in Hi by lia. split_and!; [lia|done|done].
Qed.

Lemma letter_cases (P : nat -> Prop) : (forall i, i < 26 -> P i) <-> Forall P (seq 0 26).
Proof.
  rewrite Forall_forall. split; intros H i Hi; apply H; [apply elem_of_seq in Hi; lia|apply elem_of_seq; lia].
Qed.

#[global] Instance json_laws : EntryJsonLaws json.
Proof.
  split; intros e s (i & Hi & He & ->)%marshal_inv.
  - clear He. revert i Hi. apply letter_cases. repeat constructor.
  - by exists (String (Ascii.ascii_of_nat (65 + i)) "").
Qed.
End table.
End TableJson.

Definition some_event (id : string) : IngestRequest := mk_event id "" "" 0 "".
Definition dead_letter_of (id : string) : DLQEntry :=
  mk_dlq_entry "09:00" "HTTPSink" "down" (Some (some_event id)).

(** The entries the examples encode. *)
Definition table : list DLQEntry := [dead_letter_of "a"; dead_letter_of "b"].
#[local] Existing Instance TableJson.json.
#[local] Existing Instance TableJson.json_laws.
#[local] Instance table_json : EntryJson := TableJson.json table.
#[local] Instance table_json_laws : EntryJsonLaws table_json := TableJson.json_laws table.

(** A new queue in an empty file system. *)
Definition new_world : world :=
  mk_w (mk "dlq" (mk_handle ("dlq", file_name "2026-01-02") HOpen)) 
    (mk_os {[ ("dlq", file_name "2026-01-02") := empty_file ]} []) "2026-01-02" "09:00".

Example new_world_run :
  newFileDLQ "2026-01-02" "dlq" (mk_os ∅ []) = (Ret (d new_world), fs new_world).
Proof. vm_compute. reflexivity. Qed.

Lemma new_world_store : store new_world [(file_name "2026-01-02", [])].
Proof.
  split; cbn [fs d dir file].
  - done.
  - exists (file_name "2026-01-02"). by split; [|left].
  - constructor; [|constructor]. exists empty_file, []. split_and!; [|done|constructor].
    unfold new_world. cbn [fs files d dir]. apply lookup_singleton_eq.
  - constructor; [apply matches_file_name|constructor].
  - intros q [f Hf] _ _. unfold new_world in Hf. cbn [fs files] in Hf.
    apply lookup_singleton_Some in Hf as [<- _]. by left.
  - apply NoDup_singleton.
  - repeat constructor.
Qed.


(** ** Replays that lose events *)

(** Replays the queue over HTTP into a service without a log whose buffer has room for
    [room] events, and replays it again; the two answers, and what is buffered. *)
Definition replay_twice (room : nat) (w : world) :
    list (Response.body Server.answer_data) * list IngestRequest :=
  let s := Service.NewService (ChannelBuffer.mk (mk_chan room [] false) false)
             (None : option MockRecorder.MockRecorder) NoOpWAL.NewNoOpWAL
             : Service.Service _ _ _ spec_float in
  let srv := Server.SetDLQ (Some replayable) (Server.NewHttpServer 8080 true) in
  let e := Response.mk_env "ingestor" "dev" "id" "now" in
  let r := mk_request "POST" ∅ [] in
  let '(_, c) := Server.handleDLQReplay 0 e r (Server.mk_conn srv (Some s) w Response.fresh_writer) in
  let '(_, c) := Server.handleDLQReplay 0 e r
    (Server.mk_conn srv (Server.ingestor c) (Server.ext c)
       (Response.mk_writer ∅ None (Response.written (Server.writer c)))) in
  (Response.written (Server.writer c),
   match Server.ingestor c with Some s => ch_items (ChannelBuffer.ch (Service.buf s)) | None => [] end).

(** A replay archives the files before it pushes their events. With two dead letters and room
    for one, the answer reports one replayed and one failed, the failed event is neither in the
    buffer nor in the queue, and the next replay finds the queue empty. *)
Theorem dlq_replay_loses_refused_events :
  let '(_, w) := push_dead [(some_event "a", "HTTPSink", ErrNew "down");
                            (some_event "b", "HTTPSink", ErrNew "down")]%string new_world in
  let '(answers, buffered) := replay_twice 1 w in
  ((fun b => match b with Response.Envelope data _ => Some data | _ => None end) <$> answers) =
    [Some (Server.dlqReplayData 1 1 2); Some (Server.dlqReplayData 0 0 0)] /\
  buffered = [some_event "a"].
Proof. vm_compute. split; reflexivity. Qed.
