(* ===== verification/DlqLimits.v ===== *)
(** The dead letter queue and entries that are too long to be read back. *)
From Stdlib Require Import ZArith Lia Ascii String.
From stdpp Require Import base list strings gmap sorting.
From S2P Require Import Prelude Errors Go Bytes GoStrings Config Os Proto Sinks Worker Dlq DlqTheorems.

Import FileDLQ.

Section long.
Context `{J : EntryJson} `{JL : !EntryJsonLaws J}.

(** ** A long line *)

Definition too_long (s : string) : Prop := maxLine <= String.length s.

(** A line that does not fit ends the reading, whatever the other lines are. *)
Lemma read_lines_long lines : forall acc, Exists too_long lines -> read_lines lines acc = inl bufio_ErrTooLong.
Proof.
  induction lines as [|s lines IH]; intros acc H; [by apply Exists_nil in H|]. cbn [read_lines].
  case_decide as Hs; [done|]. apply Exists_cons in H as [H|H]; [done|].
  destruct (is_empty _); [by apply IH|]. destruct (json_Unmarshal_entry _); by apply IH.
Qed.

Lemma read_lines_total lines : forall acc,
  (exists es, read_lines lines acc = inr es) \/ read_lines lines acc = inl bufio_ErrTooLong.
Proof.
  induction lines as [|s lines IH]; intros acc; cbn [read_lines]; [left; by eexists|].
  case_decide; [by right|]. destruct (is_empty _); [apply IH|]. destruct (json_Unmarshal_entry _); apply IH.
Qed.

(** The lines of whole entries in front of one more. *)
Lemma scan_file_snoc es lines text : Forall2 encodes es lines -> Split text newline = [text] -> text <> ""%string ->
  scan_lines (file_bytes (lines ++ [text])) = lines ++ [text].
Proof.
  intros H Hone Hne. unfold scan_lines.
  assert (Split (of_bytes (file_bytes (lines ++ [text]))) newline = (lines ++ [text]) ++ [""%string]) as ->.
  { assert (forall s rest, Split s newline = [s] ->
      Split (of_bytes ((to_bytes s ++ [Byte.x0a]) ++ rest)) newline = s :: Split (of_bytes rest) newline) as Hline.
    { intros s rest Hs. rewrite <- (assoc_L (++)), of_bytes_app, of_to_bytes.
      change (of_bytes ([Byte.x0a] ++ rest)) with (String newline (of_bytes rest)). by apply Split_line. }
    induction H as [|e s es lines (Hs & _) _ IH]; unfold file_bytes; cbn [app fmap list_fmap concat].
    - by rewrite Hline.
    - rewrite Hline by (by eapply entry_one_line). by f_equal. }
  rewrite last_last, bool_decide_true by done. apply removelast_last.
Qed.

(** ** A queue that holds one *)

(** Some file of dead letters has a line that is too long. *)
Record blocked (w : world) : Prop := {
  blocked_calm : calm (fs w);
  blocked_open : exists p, open_at (file (d w)) p;
  blocked_by : exists name f, matches name = true /\
    files (fs w) !! filepath_Join (dir (d w)) name = Some f /\ Exists too_long (scan_lines (data f))
}.

Lemma readDLQFile_long w p f : calm w -> files w !! p = Some f -> Exists too_long (scan_lines (data f)) ->
  readDLQFile p w = (Fail bufio_ErrTooLong, w).
Proof.
  intros Hc Hf Hl. unfold readDLQFile. rewrite (bind_run_Ret _ _ _ _ _ (os_Open_calm p f w Hc Hf)).
  cbn [rd_data rd_bad]. by rewrite (read_lines_long _ [] Hl).
Qed.

Lemma readDLQFile_total w p f : calm w -> files w !! p = Some f ->
  (exists es, readDLQFile p w = (Ret es, w)) \/ readDLQFile p w = (Fail bufio_ErrTooLong, w).
Proof.
  intros Hc Hf. unfold readDLQFile. rewrite (bind_run_Ret _ _ _ _ _ (os_Open_calm p f w Hc Hf)).
  cbn [rd_data rd_bad]. destruct (read_lines_total (scan_lines (data f)) []) as [[es ->]| ->]; [left; by eexists|by right].
Qed.

(** The error names the file that cannot be read. *)
Definition drain_error (err : error) : Prop :=
  exists p : path, err = ErrWrap ("dlq drain: read " +:+ p.1 +:+ "/" +:+ p.2 +:+ ": ") bufio_ErrTooLong.

Lemma read_all_long fl : forall acc w, calm (fs w) ->
  Forall (fun p => is_Some (files (fs w) !! p)) fl ->
  Exists (fun p => exists f, files (fs w) !! p = Some f /\ Exists too_long (scan_lines (data f))) fl ->
  exists err, read_all fl acc w = (Fail err, w) /\ drain_error err.
Proof.
  induction fl as [|p fl IH]; intros acc w Hc Hex Hl; [by apply Exists_nil in Hl|].
  apply Forall_cons in Hex as [[f Hf] Hex]. cbn [read_all].
  assert (forall es, readDLQFile p (fs w) = (Ret es, fs w) ->
    Exists (fun p => exists f, files (fs w) !! p = Some f /\ Exists too_long (scan_lines (data f))) fl) as Hrest.
  { intros es Hr. apply Exists_cons in Hl as [(g & Hg & Hlong)|Hl]; [|done].
    rewrite (readDLQFile_long (fs w) p g Hc Hg Hlong) in Hr. done. }
  destruct (readDLQFile_total (fs w) p f Hc Hf) as [[es Hr]|Hr].
  - rewrite (bind_run_Ret _ _ _ _ _ (wrapping_run_Ret _ _ _ _ _ (on_fs_pure _ w _ Hr))).
    apply IH; [done|done|]. by eapply Hrest.
  - eexists. split; [|by exists p].
    apply bind_run_Fail. unfold wrapping. by rewrite (on_fs_pure _ w _ Hr).
Qed.

Lemma Glob_finds dir w : exists names, Glob dir w = (Ret (filepath_Join dir <$> names), w) /\
  forall n, n ∈ names <-> matches n = true /\ is_Some (files w !! filepath_Join dir n).
Proof.
  unfold Glob. eexists. split; [reflexivity|]. intros n. rewrite merge_sort_Permutation.
  change (omap _ (map_to_list (files w))) with (omap (glob_name dir) (map_to_list (files w))).
  rewrite list_elem_of_omap. split.
  - intros ([p f] & Hin & [Hp Hm]%glob_name_Some). apply elem_of_map_to_list in Hin. cbn in Hp. subst p.
    split; [done|]. by exists f.
  - intros [Hm [f Hf]]. exists (filepath_Join dir n, f). split; [by apply elem_of_map_to_list|].
    by apply glob_name_Some.
Qed.

(** A drain of such a queue fails and archives nothing. *)
Lemma DrainEntries_blocked w : blocked w ->
  exists err w', DrainEntries w = (Fail err, w') /\ drain_error err /\ blocked w' /\ d w' = d w /\
    forall p, data <$> files (fs w') !! p = data <$> files (fs w) !! p.
Proof.
  intros [Hc [p Ho] (name & f & Hm & Hf & Hl)]. unfold DrainEntries.
  rewrite (bind_run_Ret (gets id) _ w w w eq_refl).
  pose proof (os_Sync_calm _ _ (fs w) Hc Ho) as Hsync.
  set (o1 := set_files (alter sync_bytes p) (fs w)) in Hsync.
  rewrite (bind_run_Ret _ _ _ _ _ (wrapping_run_Ret _ _ _ _ _ (on_fs_run _ w _ _ Hsync))).
  set (w1 := mk_w (d w) o1 (today w) (stamp w)).
  assert (forall q, data <$> files o1 !! q = data <$> files (fs w) !! q) as Hdata.
  { intros q. unfold o1, set_files. cbn [files]. destruct (decide (q = p)) as [->|].
    - rewrite lookup_alter_eq. destruct (files (fs w) !! p); reflexivity.
    - by rewrite lookup_alter_ne. }
  assert (exists g, files o1 !! filepath_Join (dir (d w)) name = Some g /\ data g = data f) as (g & Hg & Hdg).
  { pose proof (Hdata (filepath_Join (dir (d w)) name)) as Hd. rewrite Hf in Hd.
    destruct (files o1 !! _) as [g|]; [|done]. exists g. split; [done|]. by injection Hd. }
  destruct (Glob_finds (dir (d w)) o1) as (names & Hglob & Hnames).
  rewrite (bind_run_Ret _ _ _ _ _ (wrapping_run_Ret _ _ _ _ _ (on_fs_pure _ w1 _ Hglob))).
  destruct (read_all_long (filepath_Join (dir (d w)) <$> names) [] w1 Hc) as (err & Hrun & Herr).
  { apply Forall_fmap, Forall_forall. intros n Hn. by apply Hnames in Hn as [_ ?]. }
  { apply Exists_exists. exists (filepath_Join (dir (d w)) name). split.
    - apply list_elem_of_fmap. exists name. split; [done|]. apply Hnames. eauto.
    - exists g. split; [done|]. by rewrite Hdg. }
  exists err, w1. split; [by apply bind_run_Fail|]. split; [done|]. split; [|done].
  split; [done|by exists p|]. exists name, g. split_and!; [done|done|]. by rewrite Hdg.
Qed.

(** [n] drains, one after the other; what they return does not matter. *)
Definition after_drains (n : nat) (w : world) : world := Nat.iter n (fun w => snd (DrainEntries w)) w.

Lemma after_drains_blocked n w : blocked w ->
  blocked (after_drains n w) /\ forall p, data <$> files (fs (after_drains n w)) !! p = data <$> files (fs w) !! p.
Proof.
  intros Hb. induction n as [|n [IH1 IH2]]; [done|].
  change (after_drains (S n) w) with (snd (DrainEntries (after_drains n w))).
  destruct (DrainEntries_blocked _ IH1) as (err & w' & -> & _ & Hb' & _ & Hd). cbn [snd].
  split; [done|]. intros p. by rewrite Hd, IH2.
Qed.
End long.

(** C40. An entry of 2 MiB or more closes the queue for good. Push writes an entry of any length
    and returns nil; DrainEntries reads lines of less than 2 MiB. After such a push, every drain,
    however often it is tried, fails with the scanner's error, returns nothing of what is
    pending, the short entries included, and archives nothing. Within the 1 MiB that an HTTP
    request may have, a payload reaches this length when it consists of characters that
    encoding/json writes as six. *)
Theorem long_entry_blocks_every_drain `{J : EntryJson} `{JL : !EntryJsonLaws J}
    (w : world) (l : list (string * list DLQEntry)) (name : string) (p : IngestRequest * string * error)
    (text : string) (n : nat) :
  store w l -> open_at (file (d w)) (filepath_Join (dir (d w)) name) ->
  json_Marshal_entry (entry_of w p) = inr text -> maxLine <= String.length text ->
  exists w1, Push None p.1.1 p.1.2 p.2 w = (Ret tt, w1) /\
    let w2 := after_drains n w1 in
    (exists err, fst (DrainEntries w2) = Fail err /\ drain_error err) /\
    forall q, data <$> files (fs w2) !! q = data <$> files (fs w1) !! q.
Proof.
  intros Hst Ho Hj Hlong.
  unfold Push. rewrite (bind_run_Ret (gets id) _ w w w eq_refl). unfold id.
  change (mk_dlq_entry (stamp w) p.1.2 (error_string p.2) (Some p.1.1)) with (entry_of w p). rewrite Hj.
  pose proof (os_Write_calm _ _ (to_bytes text ++ [Byte.x0a]) (fs w) (store_calm _ _ Hst) Ho) as Hw.
  eexists. split; [apply wrapping_run_Ret, (on_fs_run _ w _ _ Hw)|]. set (w1 := mk_w _ _ _ _).
  assert (blocked w1) as Hb.
  { pose proof (store_open _ _ Hst) as (name' & Ho' & Hname).
    assert (name' = name) as ->.
    { destruct Ho as [H1 _], Ho' as [H2 _]. rewrite H1 in H2. by injection H2. }
    apply list_elem_of_fmap in Hname as ([name' es] & -> & Hin). cbn [fst] in *.
    pose proof (store_names _ _ Hst) as Hm. pose proof (store_files _ _ Hst) as Hf. rewrite Forall_forall in Hm, Hf.
    destruct (Hf _ Hin) as (f & lines & Hlk & Hd & He). cbn [fst snd] in *.
    split; [apply Hst|by eexists|]. exists name', (append_bytes (to_bytes text ++ [Byte.x0a]) f).
    split; [exact (Hm _ Hin)|]. split.
    - cbn [fs w1 d]. unfold set_files. cbn [files]. by rewrite lookup_alter_eq, Hlk.
    - unfold append_bytes. cbn [data]. rewrite Hd.
      replace (file_bytes lines ++ to_bytes text ++ [Byte.x0a]) with (file_bytes (lines ++ [text])).
      2: { unfold file_bytes. rewrite fmap_app, concat_app. cbn. by rewrite app_nil_r. }
      destruct (entry_text _ _ Hj) as (_ & _ & Hne%bool_decide_eq_false).
      rewrite (scan_file_snoc es lines text He); [|by eapply entry_one_line|done].
      apply Exists_app. right. by apply Exists_cons_hd. }
  destruct (after_drains_blocked n w1 Hb) as [Hb2 Hd2]. cbv zeta. split; [|exact Hd2].
  destruct (DrainEntries_blocked _ Hb2) as (err & w' & Hrun & Herr & _). exists err. by rewrite Hrun.
Qed.

(** ** A concrete queue *)

#[local] Opaque maxLine.

(** Characters that are no line break, as many as the limit. *)
Fixpoint repeated (n : nat) (rest : string) : string :=
  match n with O => rest | S n => String "x" (repeated n rest) end.

Lemma length_repeated n rest : String.length (repeated n rest) = n + String.length rest.
Proof. induction n as [|n IH]; [done|]. cbn [repeated String.length]. lia. Qed.

Lemma Split_repeated n rest : Split rest newline = [rest] -> Split (repeated n rest) newline = [repeated n rest].
Proof. intros H. induction n as [|n IH]; [done|]. cbn [repeated Split]. by rewrite IH. Qed.

Lemma repeated_app n a b : repeated n a +:+ b = repeated n (a +:+ b).
Proof. induction n as [|n IH]; [done|]. exact (f_equal (String "x") IH). Qed.

(** An object with a name of [n] characters in it. *)
Definition object (n : nat) : string := "{" +:+ repeated n "}".

Lemma object_one_line n : Split (object n) newline = [object n].
Proof. change (object n) with (String "{" (repeated n "}")). cbn [Split]. by rewrite Split_repeated. Qed.

Lemma object_braces n : object n = "{" +:+ repeated n "" +:+ "}".
Proof. unfold object. by rewrite repeated_app. Qed.

Lemma length_object n : n <= String.length (object n).
Proof. change (object n) with (String "{" (repeated n "}")). cbn [String.length]. rewrite length_repeated. lia. Qed.

#[local] Instance long_json : EntryJson :=
  {| json_Marshal_entry _ := inr (object maxLine); json_Unmarshal_entry _ := inl (ErrNew "no entry") |}.

#[local] Instance long_json_laws : EntryJsonLaws long_json.
Proof.
  split; intros e s Hs; (change ((inr (object maxLine) : error + string) = inr s) in Hs);
    assert (s = object maxLine) as -> by congruence.
  - apply object_one_line.
  - exists (repeated maxLine ""). apply object_braces.
Qed.

(** The queue is as empty as it was made. *)
Lemma new_world_store_any : store (J := long_json) new_world [(file_name "2026-01-02", [])].
Proof.
  destruct new_world_store as [H1 H2 H3 H4 H5 H6 H7]. split; try done.
  constructor; [|constructor]. exists empty_file, []. split_and!; [|done|constructor]. reflexivity.
Qed.

Lemma long_entry_blocks_every_drain_witness :
  exists w1, Push None (some_event "a") "HTTPSink" (ErrNew "down") new_world = (Ret tt, w1) /\
    exists err, fst (DrainEntries (after_drains 3 w1)) = Fail err.
Proof.
  destruct (long_entry_blocks_every_drain (JL := long_json_laws) new_world [(file_name "2026-01-02", [])]
    (file_name "2026-01-02") (some_event "a", "HTTPSink"%string, ErrNew "down") (object maxLine) 3
    new_world_store_any ltac:(split; reflexivity) eq_refl (length_object maxLine))
    as (w1 & H1 & (err & H2 & _) & _).
  exists w1. split; [exact H1|]. exists err. exact H2.
Defined.
