(* ===== verification/App.v ===== *)
(** cmd/ingestor/app.go: start-up replay and the choice of the log.

    [replayWAL] runs on the service, whose log is the log it recovers. Application.v has the
    rest of the package. *)
From stdpp Require Import base list strings gmap.
From Stdlib Require Import ZArith Lia.
From S2P Require Import Prelude Errors Go Bytes Os Proto Float Config Wal Buffer Tenant Metrics Service.

(** ** app.go *)
Section app.
Context {B W R F : Type} `{BufB : Buffer B} `{WALW : WAL W} `{RecorderR : Recorder R}
  `{FloatF : Float64 F}.

(** [os.Exit(1)] ends the process. A push that fails is logged; [now] is the clock at
    each push. *)
Definition replayWAL (now : Z) : M (Service.Service B W R F) unit :=
  r <- try (Service.on_wal wal_Recover) ;;
  match r with
  | inl _ => fun s => (Crash, s)
  | inr entries => for_each (fun entry => ignore (Service.Push now (Event entry))) entries
  end.
End app.

(** [initWAL]: the file log when it is enabled. *)
Inductive WALKind :=
  | UseNoOpWAL (l : NoOpWAL.NoOpWAL)
  | UseFileWAL (l : FileWAL.FileWAL).

Definition initWAL `{C : Codec} (cfg : Config) : M os WALKind :=
  if wal_Enabled (cfg_WAL cfg)
  then l <- FileWAL.NewFileWAL (wal_Dir (cfg_WAL cfg)) ;; ret (UseFileWAL l)
  else ret (UseNoOpWAL NoOpWAL.NewNoOpWAL).
