(* ===== verification/Application.v ===== *)
(** cmd/ingestor: the application, put together, started and shut down.

    [setup] builds the parts in the order of the code on a [host]: the file system, the Redis
    server, the network and the process's metrics registry. What it builds is a [system]:
    the application with the running state of its parts. The Redis client, the log and the
    overflow queue keep the part of the host they work on; no two of them touch the same
    file. *)
From Stdlib Require Import ZArith Lia Ascii String.
From stdpp Require Import base list strings gmap.
From S2P Require Import Prelude Errors Go Bytes Duration Float Os Proto Config Wal DiskQueue Buffer Redis AnyBuffer.
From S2P Require Import Tenant Metrics Prometheus Service Sinks Worker Dlq I18n Response Server App.

(** ** The log behind the interface *)
Section any_wal.
Context `{C : Codec}.

Definition wal_dispatch {A} (noop : M NoOpWAL.NoOpWAL A) (file : M (FileWAL.FileWAL * os) A) :
    M (WALKind * os) A := fun st =>
  let '(k, w) := st in
  match k with
  | UseNoOpWAL l => let '(r, l) := noop l in (r, (UseNoOpWAL l, w))
  | UseFileWAL l => let '(r, (l, w)) := file (l, w) in (r, (UseFileWAL l, w))
  end.

#[export] Instance any_wal : WAL (WALKind * os) := {|
  wal_Append e := wal_dispatch (wal_Append e) (wal_Append e);
  wal_Acknowledge n := wal_dispatch (wal_Acknowledge n) (wal_Acknowledge n);
  wal_Recover := wal_dispatch wal_Recover wal_Recover;
  wal_Close := wal_dispatch wal_Close wal_Close
|}.
End any_wal.

(** The clock readings that set-up and the requests use. *)
Record clock := mk_clock { now : Z; today : string; stamp : string }.

Module Application.
Section Application.
Context {X Y N C F : Type} `{HC : HttpClient X} `{KW : KafkaWriter X} `{CB : GoBreaker X} `{J : Json}
  `{EJ : EntryJson} `{RC : RedisClient Y} `{EvJ : EventJson} `{NS : NetServers N}
  `{PC : PromClient C} `{FloatF : Float64 F} `{Cd : Codec} `{V : Viper}.

Record host := mk_host { fs : os; redis : Y; net : N; process : Prometheus.process C }.

Definition on_fs {A} (m : M os A) : M host A := fun h =>
  let '(r, w) := m (fs h) in (r, mk_host w (redis h) (net h) (process h)).
Definition on_fs_redis {A} (m : M (os * Y) A) : M host A := fun h =>
  let '(r, (w, y)) := m (fs h, redis h) in (r, mk_host w y (net h) (process h)).
Definition on_net {A} (m : M N A) : M host A := fun h =>
  let '(r, n) := m (net h) in (r, mk_host (fs h) (redis h) n (process h)).
Definition on_process {A} (m : M (Prometheus.process C) A) : M host A := fun h =>
  let '(r, p) := m (process h) in (r, mk_host (fs h) (redis h) (net h) p).

(** A pure call's result and error. *)
Definition of_sum {S A} (r : error + A) : M S A :=
  match r with inl err => fail err | inr a => ret a end.

Notation Rec := (Prometheus.prometheusRecorder * C)%type.
Notation Core := (Service.Service (AnyBuffer Y) (WALKind * os) Rec F).
Notation Outside := (AnyDLQ.world X).

(** [application]; the log is the service's. *)
Record application := mk_app {
  cfg : Config;
  core : Core;
  http : Server.HttpServer Outside;
  grpc : Server.GrpcServer;
  sinks : list (Sink X);
  dlq : DLQKind;
  batchTimeout : Z
}.

Definition initIngestorService (cfg : Config) (recorder : option Rec) (w : WALKind) : M host Core :=
  buf <- wrapping "create buffer: "
           (on_fs_redis (AnyBuffer.New (cfg_Buffer cfg) (ingestor_BufferSize (cfg_Ingestor cfg)))) ;;
  gets (fun h => Service.NewService buf recorder (w, fs h)).

Definition setup (t : clock) : M host application :=
  cfg <- wrapping "load config: " (of_sum (Load "configs")) ;;
  recorder <- on_process Prometheus.New ;;
  batchTimeout <- wrapping "parse worker.batch_timeout: "
                    (of_sum (ParseDuration (worker_BatchTimeout (cfg_Worker cfg)))) ;;
  w <- wrapping "init WAL: " (on_fs (initWAL cfg)) ;;
  h <- gets id ;;
  core <- wrapping "init ingestor service: "
            (initIngestorService cfg
               ((fun r => (r, Prometheus.default_registry (process h))) <$> recorder) w) ;;
  let tenants := NewRegistry (now t) (cfg_Tenancy cfg) in
  let core := Service.SetTenants (Some tenants) core in
  sinks <- wrapping "build sinks: "
             (of_sum (BuildMultiSinks (X := X) (sinks_Active (cfg_Sinks cfg)) (cfg_Sinks cfg)
                        (Some (KafkaTopic (Some tenants))))) ;;
  dlq <- wrapping "init DLQ: " (on_fs (NewDLQ (today t) (cfg_DLQ cfg))) ;;
  let http := Server.NewHttpServer (server_HttpPort (cfg_Server cfg)) (server_IngestEnabled (cfg_Server cfg)) in
  let http := Server.SetDLQ (AnyDLQ.as_replayable (X := X) dlq) http in
  let http := Server.SetTenancyRequired (tenancy_Enabled (cfg_Tenancy cfg)) http in
  let http := Server.SetAdminToken (server_AdminToken (cfg_Server cfg)) http in
  grpc <- wrapping "init gRPC server: "
            (on_net (Server.NewGrpcServer (server_GrpcPort (cfg_Server cfg)) (server_IngestEnabled (cfg_Server cfg)))) ;;
  let grpc := Server.grpc_SetTenancyRequired (tenancy_Enabled (cfg_Tenancy cfg)) grpc in
  ret (mk_app cfg core http grpc sinks dlq batchTimeout).

(** ** Running *)

(** The recorder, log and tracker of the workers are the service's. *)
Notation worker_world := (Worker.world Outside (WALKind * os) Rec).

Record system := mk_system {
  app : application;
  nets : N;
  outside : Outside;
  workerWg : list ((nat -> list Worker.signal) -> M worker_world nat)
}.

Definition on_nets {A} (m : M N A) : M system A := fun s =>
  let '(r, n) := m (nets s) in (r, mk_system (app s) n (outside s) (workerWg s)).
Definition on_outside {A} (m : M Outside A) : M system A := fun s =>
  let '(r, o) := m (outside s) in (r, mk_system (app s) (nets s) o (workerWg s)).
Definition on_core {A} (m : M Core A) : M system A := fun s =>
  let a := app s in
  let '(r, c) := m (core a) in
  (r, mk_system (mk_app (cfg a) c (http a) (grpc a) (sinks a) (dlq a) (batchTimeout a))
        (nets s) (outside s) (workerWg s)).
Definition set_http (f : Server.HttpServer Outside -> Server.HttpServer Outside) : M system unit :=
  modify (fun s => let a := app s in
    mk_system (mk_app (cfg a) (core a) (f (http a)) (grpc a) (sinks a) (dlq a) (batchTimeout a))
      (nets s) (outside s) (workerWg s)).
Definition set_grpc (f : Server.GrpcServer -> Server.GrpcServer) : M system unit :=
  modify (fun s => let a := app s in
    mk_system (mk_app (cfg a) (core a) (http a) (f (grpc a)) (sinks a) (dlq a) (batchTimeout a))
      (nets s) (outside s) (workerWg s)).
Definition set_workers l : M system unit :=
  modify (fun s => mk_system (app s) (nets s) (outside s) l).

Definition worker_config (a : application) : Worker.Config :=
  Worker.mk_cfg (worker_NumWorkers (cfg_Worker (cfg a))) (worker_BatchSize (cfg_Worker (cfg a)))
    (batchTimeout a).

Definition worker_deps (a : application) : Worker.Deps Outside :=
  Worker.mk_deps (lift_sink <$> sinks a) (AnyDLQ.dlq (dlq a)).

(** Errors of the servers are logged. *)
Definition startHttpServer : M system unit :=
  s <- gets id ;; ignore (on_nets (Server.Start (http (app s)))).
Definition startGrpcServer : M system unit :=
  s <- gets id ;; ignore (on_nets (Server.grpc_Start (grpc (app s)))).

(** [early]: the requests that the servers, started first, answer before the workers are. *)
Definition run (t : clock) (early : M system unit) : M system unit :=
  startHttpServer ;;
  startGrpcServer ;;
  early ;;
  on_core (replayWAL (now t)) ;;
  s <- gets id ;;
  let a := app s in
  let '(_, _, workers) :=
    Worker.Start (UseNoOpWAL NoOpWAL.NewNoOpWAL, snd (Service.wal (core a))) (worker_config a) (worker_deps a)
      (Some (Service.wal (core a))) (Some (Service.SeqTracker (core a))) in
  set_workers workers ;;
  set_http (Server.SetReady true).

(** ** shutdown.go *)

(** [ctx]: what the context's error is when http.Stop returns. [drain timed_out]: what the
    workers still do until the last of them has returned; with [timed_out], ctx is done before
    that and forceStop cancels them. *)
Definition shutdown (ctx : Ctx) (timed_out : bool) (drain : bool -> M system unit) : M system unit :=
  set_http (Server.SetReady false) ;;
  set_http (Server.SetIngestEnabled false) ;;
  set_grpc (Server.grpc_SetIngestEnabled false) ;;
  s <- gets id ;;
  on_nets (Server.grpc_Stop (grpc (app s))) ;;
  ignore (on_nets (Server.Stop (http (app s)) ctx)) ;;
  ignore (on_core Service.Close) ;;
  drain timed_out ;;
  s <- gets id ;;
  for_each (fun sk => ignore (on_outside (sink_Close (lift_sink sk)))) (sinks (app s)) ;;
  ignore (on_outside (dlq_Close (AnyDLQ.dlq (dlq (app s))))) ;;
  ignore (on_core (Service.on_wal wal_Close)).

(** ** main.go *)

(** What set-up leaves running: the application and the rest of the host. *)
Definition system_of (t : clock) (a : application) (x : X) (h : host) : system :=
  mk_system a (net h) (AnyDLQ.mk_w (dlq a) (fs h) (today t) (stamp t) x) [].

(** The exit status. [serve]: everything between the end of run and the signal. A failed
    replay exits inside run; the outcome is then [Crash]. *)
Definition main (t : clock) (x : X) (early serve : M system unit) (ctx : Ctx) (timed_out : bool)
    (drain : bool -> M system unit) (h : host) : out Z * option system :=
  match setup t h with
  | (Ret a, h) =>
      match (run t early ;; serve ;; shutdown ctx timed_out drain) (system_of t a x h) with
      | (Ret _, s) => (Ret 0%Z, Some s)
      | (Fail err, s) => (Fail err, Some s)
      | (Panic p, s) => (Panic p, Some s)
      | (Crash, s) => (Crash, Some s)
      | (NoFuel, s) => (NoFuel, Some s)
      end
  | (Fail err, _) => (Ret 1%Z, None)
  | (Panic p, _) => (Panic p, None)
  | (Crash, _) => (Crash, None)
  | (NoFuel, _) => (NoFuel, None)
  end.

End Application.
Arguments host : clear implicits.
Arguments application : clear implicits.
Arguments system : clear implicits.
End Application.
