(* ===== verification/ApplicationTheorems.v ===== *)
(** What set-up, start and shutdown guarantee, whatever the parts do. *)
From Stdlib Require Import ZArith Lia Ascii String SpecFloat.
From stdpp Require Import base list strings gmap.
From S2P Require Import Prelude Errors Go Bytes Duration Float Os OsFaults Proto Config ConfigTheorems Wal WalTheorems.
From S2P Require Import DiskQueue DiskQueueRestart Buffer Redis AnyBuffer Tenant Metrics Prometheus Service Sinks Worker.
From S2P Require Import Delivery Dlq SinkDelivery I18n Response Server App Application.
Import Application.

(** ** The builders, on a configuration that validation lets through *)

Section build.
Context {X : Type} `{HC : HttpClient X} `{KW : KafkaWriter X} `{CB : GoBreaker X} `{J : Json}.

Lemma BuildSink_ok c name : sink_ok c name -> exists b, BuildSink name (cfg_Sinks c) = inr b.
Proof.
  unfold BuildSink, KafkaSink.newKafkaSink, HTTPSink.newHTTPSink.
  intros [->|[(-> & Hb & Ht)|(-> & Hu & Ht)]]; repeat case_decide; try done; [by eexists|..].
  - rewrite (proj2 (is_empty_false _) Ht). by eexists.
  - rewrite (proj2 (is_empty_false _) Hu). destruct (is_empty (http_Timeout _)) eqn:He; [by eexists|].
    rewrite is_empty_false in He. destruct Ht as [?|[d ->]]; [done|by eexists].
Qed.

(** The sinks of a configuration: those of the active names, in order, the Kafka ones with the
    router. *)
Definition configured (c : Config) (router : option (string -> string -> string)) (bs : list Sinks.built) : Prop :=
  Forall2 (fun name b => exists b0, BuildSink name (cfg_Sinks c) = inr b0 /\ b = set_router router b0)
    (sinks_Active (cfg_Sinks c)) bs.

Lemma build_all_ok c router names : forall result, Forall (sink_ok c) names ->
  exists bs, build_all (X := X) names (cfg_Sinks c) router result = inr (result ++ (guarded <$> bs)) /\
    Forall2 (fun name b => exists b0, BuildSink name (cfg_Sinks c) = inr b0 /\ b = set_router router b0) names bs.
Proof.
  induction names as [|name names IH]; intros result Hn; cbn [build_all].
  { exists []. by rewrite app_nil_r. }
  apply Forall_cons in Hn as [Hname Hn]. destruct (BuildSink_ok c name Hname) as [b Hb]. rewrite Hb.
  destruct (IH (result ++ [CircuitBreakerSink.newCircuitBreakerSink (sink_of (set_router router b))]) Hn)
    as (bs & -> & Hbs).
  exists (set_router router b :: bs). split; [by rewrite <- (assoc_L (++))|].
  constructor; [by exists b|done].
Qed.

(** One sink for each active name. *)
Lemma BuildMultiSinks_ok c router :
  sinks_Active (cfg_Sinks c) <> [] -> Forall (sink_ok c) (sinks_Active (cfg_Sinks c)) ->
  exists bs, BuildMultiSinks (X := X) (sinks_Active (cfg_Sinks c)) (cfg_Sinks c) router = inr (guarded <$> bs) /\
    configured c router bs.
Proof.
  intros Hne Hok. unfold BuildMultiSinks.
  destruct (build_all_ok c router (sinks_Active (cfg_Sinks c)) [] Hok) as (bs & -> & Hbs).
  exists bs. split; [|done]. destruct bs; [|done]. apply Forall2_length in Hbs. by destruct (sinks_Active _).
Qed.
End build.

Lemma ends_newFileDLQ today dir : ends (FileDLQ.newFileDLQ today dir).
Proof. unfold FileDLQ.newFileDLQ. auto with go_ends. Qed.

(** Only opening the file of a file queue can fail. *)
Lemma NewDLQ_result today c w : (dlq_Enabled c = true -> dlq_ok c) ->
  result (NewDLQ today c) w (fun _ _ => True) (fun _ => dlq_Enabled c = true /\ dlq_Type c = DLQTypeFile).
Proof.
  intros Hok. unfold NewDLQ. destruct (dlq_Enabled c); cbn [negb]; [|done].
  destruct (Hok eq_refl) as [[-> Hd]|(-> & Hb & Ht)]; repeat case_decide; try done.
  - eapply result_bind; [|done]. apply result_ends; [apply ends_newFileDLQ|done].
  - unfold KafkaDLQ.NewKafkaDLQ. rewrite decide_False by done. by rewrite (proj2 (is_empty_false _) Ht).
Qed.

Section buffer.
Context {Y : Type} `{RC : RedisClient Y} `{EJ : EventJson} `{Cd : Codec}.

Lemma NewChannelBuffer_result {S} size (s : S) E : (0 <= size)%Z ->
  result (ChannelBuffer.NewChannelBuffer size) s
    (fun b s' => s' = s /\ b = ChannelBuffer.mk (mk_chan (Z.to_nat size) [] false) false) E.
Proof.
  intros H. unfold ChannelBuffer.NewChannelBuffer, make_chan. by rewrite decide_False by lia.
Qed.

Lemma ends_make_chan {S} size : (0 <= size)%Z -> ends (make_chan (S := S) size).
Proof. intros H. unfold make_chan. rewrite decide_False by lia. apply ends_ret. Qed.

Lemma ends_NewHybridBuffer dir size : (0 <= size)%Z -> ends (HybridBuffer.NewHybridBuffer dir size).
Proof.
  intros H. unfold HybridBuffer.NewHybridBuffer.
  apply ends_bind; [apply ends_wrapping, ends_newDiskQueue|]. intros q.
  apply ends_bind; [by apply ends_make_chan|auto with go_ends].
Qed.

Lemma ends_NewRedisBuffer c size : ends redis_Ping -> (0 <= size)%Z ->
  ends (RedisBuffer.NewRedisBuffer (X := Y) c size).
Proof.
  intros Hp H. unfold RedisBuffer.NewRedisBuffer. apply ends_bind; [auto with go_ends|]. intros [].
  apply ends_bind; [by apply ends_make_chan|auto with go_ends].
Qed.

(** The buffer that [New] makes on the files [w], which become [o], and Redis [y]. *)
Definition made_buffer (c : BufferConfig) (size : Z) (w : os) (y : Y) (o : os) (b : AnyBuffer Y) : Prop :=
  match b with
  | ChannelB b => o = w /\ b = ChannelBuffer.mk (mk_chan (Z.to_nat size) [] false) false
  | HybridB h => exists h0, HybridBuffer.NewHybridBuffer (hybrid_Dir (buffer_Hybrid c)) size w = (Ret h0, o) /\
      h = HybridBuffer.with_os h0 o
  | RedisB b => o = w /\ exists y', RedisBuffer.NewRedisBuffer (buffer_Redis c) size y = (Ret b, y')
  end.

(** A channel buffer is always made; the others open something outside. *)
Lemma New_result c size (s : os * Y) : ends redis_Ping -> (0 <= size)%Z -> buffer_ok c ->
  result (AnyBuffer.New c size) s
    (fun b s' => kind_matches c b /\ made_buffer c size s.1 s.2 s'.1 b)
    (fun _ => buffer_Type c = RedisBufferType \/ buffer_Type c = HybridBufferType).
Proof.
  intros Hp Hs Hok. unfold AnyBuffer.New.
  destruct (decide (buffer_Type c = "" \/ buffer_Type c = ChannelBufferType)) as [Hc|Hc].
  { eapply result_bind; [by apply NewChannelBuffer_result|]. by intros b s' [-> ->]. }
  destruct (decide (buffer_Type c = RedisBufferType)) as [Hr|Hr].
  { destruct s as [w y]. pose proof (ends_NewRedisBuffer (buffer_Redis c) size Hp Hs y) as He.
    unfold result, bind, on_snd, ret.
    destruct (RedisBuffer.NewRedisBuffer _ size y) as [[b|err|p| |] y'] eqn:Hn; try done; [|by left].
    split; [done|]. split; [done|]. by exists y'. }
  destruct (decide (buffer_Type c = HybridBufferType)) as [Hh|Hh].
  { destruct s as [w y]. pose proof (ends_NewHybridBuffer (hybrid_Dir (buffer_Hybrid c)) size Hs w) as He.
    unfold result, bind, on_fst, gets, ret.
    destruct (HybridBuffer.NewHybridBuffer _ size w) as [[h0|err|p| |] o] eqn:Hn; try done; [|by right].
    split; [done|]. by exists h0. }
  exfalso. destruct Hok as [Ht|[Ht _]]; [|done].
  rewrite !elem_of_cons, elem_of_nil in Ht. tauto.
Qed.
End buffer.

(** ** Set-up *)

Section setup.
Context {X Y N C F : Type} `{HC : HttpClient X} `{KW : KafkaWriter X} `{CB : GoBreaker X} `{J : Json}
  `{EJ : EntryJson} `{RC : RedisClient Y} `{EvJ : EventJson} `{NS : NetServers N}
  `{PC : PromClient C} `{PL : !PromLaws C} `{FloatF : Float64 F} `{Cd : Codec} `{V : Viper}.

(** What set-up makes of a configuration. *)
Record built (t : clock) (h : host Y N C) (c : Config) (a : application X Y C F) : Prop := {
  built_cfg : cfg a = c;
  built_buffer : kind_matches (cfg_Buffer c) (Service.buf (core a));
  built_wal : match (Service.wal (core a)).1 with
              | UseFileWAL _ => wal_Enabled (cfg_WAL c) = true
              | UseNoOpWAL _ => wal_Enabled (cfg_WAL c) = false
              end;
  built_log : exists w, initWAL c (fs h) = (Ret (Service.wal (core a)).1, w) /\
    made_buffer (cfg_Buffer c) (ingestor_BufferSize (cfg_Ingestor c)) w (redis h) (Service.wal (core a)).2
      (Service.buf (core a));
  built_tracker : Service.tracker (core a) = SeqTracker.NewSeqTracker;
  built_recorder : exists r, Service.recorder (core a) = Some (Prometheus.instance, r);
  built_tenants : Enabled (Service.tenants (core a)) = tenancy_Enabled (cfg_Tenancy c);
  built_sinks : exists bs, sinks a = guarded <$> bs /\
    configured c (Some (KafkaTopic (Some (NewRegistry (F := F) (now t) (cfg_Tenancy c))))) bs;
  built_timeout : ParseDuration (worker_BatchTimeout (cfg_Worker c)) = inr (batchTimeout a);
  built_timeout_pos : (0 < batchTimeout a)%Z;
  built_ready : Server.ready (http a) = false;
  built_ingest : Server.ingestEnabled (http a) = server_IngestEnabled (cfg_Server c) /\
                 Server.grpc_ingestEnabled (grpc a) = server_IngestEnabled (cfg_Server c);
  built_tenancy : Server.requireTenant (http a) = tenancy_Enabled (cfg_Tenancy c) /\
                  Server.grpc_requireTenant (grpc a) = tenancy_Enabled (cfg_Tenancy c);
  built_replay : Server.dlq (http a) = AnyDLQ.as_replayable (dlq a);
  built_token : Server.adminToken (http a) = server_AdminToken (cfg_Server c)
}.

(** Where set-up of a valid configuration can fail. *)
Definition opening_error (c : Config) (e : error) : Prop := exists err,
  (e = ErrWrap "init WAL: " err /\ wal_Enabled (cfg_WAL c) = true) \/
  (e = ErrWrap "init ingestor service: " (ErrWrap "create buffer: " err) /\
     (buffer_Type (cfg_Buffer c) = RedisBufferType \/ buffer_Type (cfg_Buffer c) = HybridBufferType)) \/
  (e = ErrWrap "init DLQ: " err /\ dlq_Enabled (cfg_DLQ c) = true /\ dlq_Type (cfg_DLQ c) = DLQTypeFile) \/
  e = ErrWrap "init gRPC server: " err.

Lemma result_on_fs {A} (m : M os A) (h : host Y N C) Q E :
  result m (fs h) Q E ->
  result (on_fs m) h (fun a h' => Q a (fs h') /\ redis h' = redis h) E.
Proof. unfold result, on_fs. by destruct (m (fs h)) as [[] w]. Qed.

Lemma result_on_fs_redis {A} (m : M (os * Y) A) (h : host Y N C) Q E :
  result m (fs h, redis h) Q E ->
  result (on_fs_redis m) h (fun a h' => Q a (fs h', redis h') /\ process h' = process h) E.
Proof. unfold result, on_fs_redis. by destruct (m (fs h, redis h)) as [[] [w y]]. Qed.

Lemma result_on_net {A} (m : M N A) (h : host Y N C) Q E :
  result m (net h) (fun a _ => Q a) E -> result (on_net m) h (fun a _ => Q a) E.
Proof. unfold result, on_net. by destruct (m (net h)) as [[] w]. Qed.

Lemma initWAL_result c w :
  result (initWAL c) w
    (fun k w' => match k with
                 | UseFileWAL _ => wal_Enabled (cfg_WAL c) = true
                 | UseNoOpWAL _ => wal_Enabled (cfg_WAL c) = false
                 end /\ initWAL c w = (Ret k, w'))
    (fun _ => wal_Enabled (cfg_WAL c) = true).
Proof.
  unfold initWAL. destruct (wal_Enabled (cfg_WAL c)); [|done].
  pose proof (ends_NewFileWAL (wal_Dir (cfg_WAL c)) w) as H. unfold result, bind.
  by destruct (FileWAL.NewFileWAL _ w) as [[] w'].
Qed.

Lemma add_tenant_enabled now c (r : Registry F) t : enabled (add_tenant now c r t) = enabled r.
Proof. unfold add_tenant. by destruct (is_empty (tenant_ID t)). Qed.

Lemma NewRegistry_enabled now c : Enabled (Some (NewRegistry (F := F) now c)) = tenancy_Enabled c.
Proof.
  unfold NewRegistry, Enabled. generalize (tenancy_Tenants c). intros l.
  match goal with |- enabled (foldl _ ?r l) = _ => set (r0 := r) end.
  change (tenancy_Enabled c) with (enabled r0). generalize r0. clear r0.
  induction l as [|t l IH]; intros r; [done|]. cbn [foldl]. by rewrite IH, add_tenant_enabled.
Qed.

Lemma Load_well_formed path c : Load path = inr c -> well_formed c.
Proof.
  unfold Load. destruct (viper_ReadInConfig path); [done|]. destruct (viper_Unmarshal path); [done|].
  cbv zeta. destruct (Validate _) eqn:Hv; [done|]. intros [= <-]. by apply Validate_wf.
Qed.

(** The recorder of a fresh process. *)
Lemma New_process_result (h : host Y N C) E :
  Prometheus.promOnce (process h) = false -> prom_names (Prometheus.default_registry (process h)) = [] ->
  result (on_process Prometheus.New) h (fun r h' => r = Some Prometheus.instance /\ fs h' = fs h /\ redis h' = redis h) E.
Proof.
  intros Honce Hn. destruct (New_fresh (process h) Honce Hn) as (reg & Hnew & _ & _).
  unfold result, on_process. by rewrite Hnew.
Qed.

(** The service around a buffer of the configured kind. *)
Lemma initIngestorService_result c rec w (h : host Y N C) :
  ends redis_Ping -> well_formed c ->
  result (initIngestorService c rec w) h
    (fun k _ => exists b o, k = Service.NewService b rec (w, o) /\ kind_matches (cfg_Buffer c) b /\
       made_buffer (cfg_Buffer c) (ingestor_BufferSize (cfg_Ingestor c)) (fs h) (redis h) o b)
    (fun e => exists err, e = ErrWrap "create buffer: " err /\
       (buffer_Type (cfg_Buffer c) = RedisBufferType \/ buffer_Type (cfg_Buffer c) = HybridBufferType)).
Proof.
  intros Hp []. eapply result_bind.
  - apply result_wrapping, result_on_fs_redis.
    eapply result_error; [apply New_result; [done|lia|done]|intros e He; by exists e].
  - intros b h' [[Hk Hb] _]. by exists b, (fs h').
Qed.

Lemma NewGrpcServer_result port enabled (h : host Y N C) : (forall addr, ends (net_Listen addr)) ->
  result (on_net (Server.NewGrpcServer port enabled)) h
    (fun g _ => Server.grpc_ingestEnabled g = enabled) (fun _ => True).
Proof.
  intros Hl. apply result_on_net. unfold Server.NewGrpcServer.
  eapply result_bind; [apply result_ends; [apply ends_wrapping, Hl|done]|done].
Qed.

Lemma setup_result (t : clock) (h : host Y N C) :
  ends redis_Ping -> (forall addr, ends (net_Listen addr)) ->
  Prometheus.promOnce (process h) = false -> prom_names (Prometheus.default_registry (process h)) = [] ->
  result (setup t) h
    (fun a _ => exists c, Load "configs" = inr c /\ well_formed c /\ built t h c a)
    (fun e => match Load "configs" with
              | inl err => e = ErrWrap "load config: " err
              | inr c => opening_error c e
              end).
Proof.
  intros Hping Hlisten Honce Hnames. unfold setup.
  destruct (Load "configs") as [err|c] eqn:Hload; [done|].
  pose proof (Load_well_formed _ _ Hload) as Hwf. pose proof Hwf as [].
  destruct wf_timeout as (d & Hd & Hpos). destruct wf_sinks as [Hne Hsinks].
  eapply result_bind; [apply result_wrapping; instantiate (1 := fun a s' => a = c /\ s' = h); done|].
  intros _ _ [-> ->].
  eapply result_bind; [by apply New_process_result|]. intros ? h0 (-> & Hfs & Hy).
  rewrite Hd. eapply result_bind; [apply result_wrapping; instantiate (1 := fun a s' => a = d /\ s' = h0); done|].
  intros ? ? [-> ->].
  eapply result_bind; [apply result_wrapping, result_on_fs; eapply result_error; [apply initWAL_result|]|].
  { intros e He. exists e. by left. }
  intros w h2 [[Hw Hlog] Hy2]. eapply result_bind; [apply result_gets|]. intros ? ? [-> ->].
  eapply result_bind.
  { apply result_wrapping. eapply result_error; [by apply initIngestorService_result|].
    intros e (err & -> & Ht). exists err. right. by left. }
  intros k h3 (b & o & -> & Hb & Hbuf).
  destruct (BuildMultiSinks_ok c (Some (KafkaTopic (Some (NewRegistry (F := F) (now t) (cfg_Tenancy c))))) Hne Hsinks)
    as (bs & Hbs & Hconf). rewrite Hbs.
  eapply result_bind; [apply result_wrapping; instantiate (1 := fun a s' => a = guarded <$> bs); done|].
  intros ? h4 ->.
  eapply result_bind; [apply result_wrapping, result_on_fs; eapply result_error; [by apply NewDLQ_result|]|].
  { intros e [He1 He2]. exists e. right. right. by left. }
  intros dl h5 _.
  eapply result_bind; [apply result_wrapping; eapply result_error; [by apply NewGrpcServer_result|]|].
  { intros e _. exists e. by do 3 right. }
  intros g h6 Hg. exists c. split_and!; [done|done|].
  constructor; try done; [|by eexists|apply NewRegistry_enabled|by exists bs].
  rewrite <- Hfs, <- Hy, <- Hy2. by exists (fs h2).
Qed.

End setup.

(** ** Shutdown *)

(** What a call does to its state, whatever it returns. *)
Definition effect {S A} (m : M S A) (s : S) : S := snd (m s).

Lemma result_ignore {S A} (m : M S A) s E : orderly (fst (m s)) ->
  result (ignore m) s (fun _ s' => s' = effect m s) E.
Proof.
  unfold result, ignore, bind, try, effect. by destruct (m s) as [[] s'].
Qed.

Lemma result_returns {S A} (m : M S A) s Q : result m s Q (fun _ => False) -> fst (m s) <> Crash ->
  exists a s', m s = (Ret a, s') /\ Q a s'.
Proof. unfold result. destruct (m s) as [[a|e|p| |] s']; try done. by exists a, s'. Qed.

Lemma result_for_each_ignore {S A B} (f : A -> M S B) (l : list A) : forall s E,
  Forall (fun x => ends (f x)) l ->
  result (for_each (fun x => ignore (f x)) l) s
    (fun _ s' => s' = foldl (fun s x => effect (f x) s) s l) E.
Proof.
  induction l as [|x l IH]; intros s E Hl; [done|]. apply Forall_cons in Hl as [Hx Hl].
  cbn [for_each foldl]. eapply result_bind; [apply result_ignore, Hx|].
  intros [] s' ->. by apply IH.
Qed.

Section shutdown.
Context {X Y N C F : Type} `{HC : HttpClient X} `{KW : KafkaWriter X} `{CB : GoBreaker X} `{J : Json}
  `{EJ : EntryJson} `{RC : RedisClient Y} `{EvJ : EventJson} `{NS : NetServers N}
  `{PC : PromClient C} `{FloatF : Float64 F} `{Cd : Codec} `{V : Viper}.

Notation sys := (system X Y N C F).

(** Traffic has stopped: both servers are told so and stopped, the core is closed. *)
Definition quiesced (ctx : Ctx) (s : sys) : sys :=
  let a := app s in
  let h := Server.SetIngestEnabled false (Server.SetReady false (http a)) in
  let g := Server.grpc_SetIngestEnabled false (grpc a) in
  mk_system
    (mk_app (cfg a) (effect Service.Close (core a)) h g (sinks a) (dlq a) (batchTimeout a))
    (effect (Server.Stop h ctx) (effect (Server.grpc_Stop g) (nets s))) (outside s) (workerWg s).

(** Every part is closed: the sinks in order, the dead letter queue, the log. *)
Definition closed (s : sys) : sys :=
  let a := app s in
  mk_system
    (mk_app (cfg a) (effect (Service.on_wal wal_Close) (core a)) (http a) (grpc a) (sinks a) (dlq a)
       (batchTimeout a))
    (nets s)
    (effect (dlq_Close (AnyDLQ.dlq (dlq a)))
       (foldl (fun o sk => effect (sink_Close (lift_sink sk)) o) (outside s) (sinks a)))
    (workerWg s).

Lemma ends_dlq_on_ext {A} (m : M X A) : ends m -> ends (AnyDLQ.on_ext m).
Proof. intros Hm w. specialize (Hm (AnyDLQ.ext w)). unfold AnyDLQ.on_ext. by destruct (m _). Qed.

Lemma ends_dlq_on_fs {A} (m : M os A) : ends m -> ends (FileDLQ.on_fs m).
Proof. intros Hm w. specialize (Hm (FileDLQ.fs w)). unfold FileDLQ.on_fs. by destruct (m _). Qed.

Lemma ends_file_dlq_Close : ends FileDLQ.Close.
Proof.
  apply ends_bind; [auto with go_ends|]. intros w.
  apply ends_bind; [apply ends_try, ends_dlq_on_fs; auto with go_ends|]. intros r.
  apply ends_bind; [apply ends_modify|]. intros []. destruct r; auto with go_ends.
Qed.

Lemma ends_dlq_Close k : ends (kafka_Close (X := X)) -> ends (dlq_Close (AnyDLQ.dlq (X := X) k)).
Proof.
  intros Hk. apply ends_bind; [auto with go_ends|]. intros w. destruct (AnyDLQ.kind w) as [|q|q].
  - apply ends_ret.
  - intros w'. pose proof (ends_file_dlq_Close (FileDLQ.mk_w q (AnyDLQ.fs w') (AnyDLQ.today w') (AnyDLQ.stamp w'))).
    unfold AnyDLQ.on_file. by destruct (FileDLQ.Close _).
  - by apply ends_dlq_on_ext.
Qed.

Lemma ends_file_wal_Close : ends FileWAL.Close.
Proof.
  apply ends_bind; [apply ends_this|]. intros fw.
  do 4 (apply ends_bind; [apply ends_try, ends_on_snd; auto with go_ends|]; intros ?).
  apply ends_bind; [apply ends_update|]. intros []. cbv zeta. destruct (errors_Join _); auto with go_ends.
Qed.

Lemma ends_wal_Close : ends (wal_Close (W := WALKind * os)).
Proof.
  intros [[l|l] w]; simpl; [done|]. pose proof (ends_file_wal_Close (l, w)) as H.
  unfold wal_dispatch. simpl. by destruct (FileWAL.Close (l, w)) as [? [? ?]].
Qed.

Lemma ends_core_wal_Close :
  ends (Service.on_wal wal_Close : M (Service.Service (AnyBuffer Y) (WALKind * os)
          (Prometheus.prometheusRecorder * C) F) unit).
Proof.
  intros s. pose proof (ends_wal_Close (Service.wal s)) as H. unfold Service.on_wal.
  by destruct (wal_Close (Service.wal s)).
Qed.

(** A call on one part of the system. *)
Lemma on_nets_orderly {A} (m : M N A) (s : sys) :
  orderly (fst (m (nets s))) -> orderly (fst (on_nets m s)).
Proof. unfold on_nets. by destruct (m (nets s)). Qed.
Lemma on_core_orderly {A} m (s : sys) : orderly (fst (m (core (app s)))) -> orderly (fst (on_core (A := A) m s)).
Proof. unfold on_core. by destruct (m (core (app s))). Qed.
Lemma on_outside_ends {A} (m : M (AnyDLQ.world X) A) : ends m -> ends (on_outside m : M sys A).
Proof. intros Hm s. specialize (Hm (outside s)). unfold on_outside. by destruct (m (outside s)). Qed.

Lemma effect_on_nets {A} (m : M N A) (s : sys) :
  effect (on_nets m) s = mk_system (app s) (effect m (nets s)) (outside s) (workerWg s).
Proof. unfold effect, on_nets. by destruct (m (nets s)). Qed.
Lemma effect_on_core {A} m (s : sys) :
  effect (on_core (A := A) m) s =
    mk_system (mk_app (cfg (app s)) (effect m (core (app s))) (http (app s)) (grpc (app s)) (sinks (app s))
      (dlq (app s)) (batchTimeout (app s))) (nets s) (outside s) (workerWg s).
Proof. unfold effect, on_core. by destruct (m (core (app s))). Qed.
Lemma effect_on_outside {A} (m : M (AnyDLQ.world X) A) (s : sys) :
  effect (on_outside m) s = mk_system (app s) (nets s) (effect m (outside s)) (workerWg s).
Proof. unfold effect, on_outside. by destruct (m (outside s)). Qed.

Lemma close_sinks_effect sks : forall s : sys,
  foldl (fun s sk => effect (on_outside (sink_Close (lift_sink sk))) s) s sks =
    mk_system (app s) (nets s) (foldl (fun o sk => effect (sink_Close (lift_sink sk)) o) (outside s) sks)
      (workerWg s).
Proof.
  induction sks as [|sk sks IH]; intros s; [by destruct s|]. cbn [foldl].
  rewrite IH, effect_on_outside. done.
Qed.

(** The last part of shutdown, after the workers. *)
Lemma closing_result (s : sys) E :
  ends (kafka_Close (X := X)) -> Forall (fun sk => ends (sink_Close sk)) (sinks (app s)) ->
  result (s <- gets id ;;
          for_each (fun sk => ignore (on_outside (sink_Close (lift_sink sk)))) (sinks (app s)) ;;
          ignore (on_outside (dlq_Close (AnyDLQ.dlq (dlq (app s))))) ;;
          ignore (on_core (Service.on_wal wal_Close))) s
    (fun _ s' => s' = closed s) E.
Proof.
  intros Hk Hs. eapply result_step; [reflexivity|].
  eapply result_bind; [apply result_for_each_ignore|].
  { eapply Forall_impl; [exact Hs|]. intros sk Hsk. by apply on_outside_ends, ends_dlq_on_ext. }
  intros [] ? ->. cbv beta. rewrite close_sinks_effect.
  eapply result_bind; [apply result_ignore; by apply on_outside_ends, ends_dlq_Close|].
  intros [] ? ->. rewrite effect_on_outside.
  eapply result_conseq; [apply result_ignore; apply on_core_orderly, ends_core_wal_Close| |done].
  intros [] ? ->. by rewrite effect_on_core.
Qed.

End shutdown.

(** ** A small process *)
Module Demo.

(** A network that remembers what was asked of it, and an outside that answers 200. *)
#[global] Instance network : NetServers (list string) := {|
  net_Listen addr l := (Ret tt, l ++ ["listen " +:+ addr]);
  http_ListenAndServe addr l := l ++ ["serve http " +:+ addr];
  http_Shutdown addr _ l := (Fail context_DeadlineExceeded, l ++ ["shutdown " +:+ addr]);
  grpc_Serve addr l := l ++ ["serve grpc " +:+ addr];
  grpc_GracefulStop addr l := l ++ ["stop " +:+ addr]
|}.

#[global] Instance http_client : HttpClient unit :=
  {| http_NewRequest _ := None; http_Do _ _ _ _ := ret 200%Z |}.
#[global] Instance kafka_writer : KafkaWriter unit :=
  {| kafka_WriteMessages _ _ _ := ret tt; kafka_Close := fail (ErrNew "kafka is gone") |}.
#[global] Instance breaker : GoBreaker unit :=
  {| cb_before _ _ := ret None; cb_after _ _ _ := ret tt |}.
#[global] Instance json : Json := {| json_batch _ := inr []; json_event _ := inr [] |}.
#[global] Instance entry_json : EntryJson :=
  {| json_Marshal_entry _ := inr ""; json_Unmarshal_entry _ := inl (ErrNew "no entry") |}.
#[global] Instance redis_client : RedisClient unit := {|
  redis_Ping := ret tt; redis_LPush _ _ := ret tt; redis_BRPop _ := ret None; redis_LLen _ := ret 0%Z;
  redis_Close := ret tt |}.
#[global] Instance event_json : EventJson :=
  {| json_Marshal_event _ := inr ""; json_Unmarshal_event _ := inl (ErrNew "no event") |}.

(** A channel buffer, a file log, a file dead letter queue, a log sink and a Kafka sink. *)
Definition config : Config := {|
  cfg_Server := mk_server 9090 8080 true "secret";
  cfg_Ingestor := mk_ingestor 10;
  cfg_Buffer := mk_buffer "channel" (mk_redis "" "" 0 "") (mk_hybrid "");
  cfg_Worker := mk_worker 2 5 "1s";
  cfg_Sinks := mk_sinks ["log"; "kafka"] (mk_kafka ["k:9092"] "events") (mk_http "" "");
  cfg_DLQ := mk_dlq true "file" (mk_file_dlq "dlq") (mk_kafka_dlq [] "");
  cfg_WAL := mk_wal true "wal" "60s";
  cfg_Logging := mk_logging "info" "json";
  cfg_Shutdown := mk_shutdown "10s";
  cfg_Tenancy := mk_tenancy true 0 [mk_tenant "acme" 5 "acme-events"]
|}.

#[global] Instance viper : Viper :=
  {| viper_ReadInConfig _ := None; viper_Unmarshal _ := inr config |}.

Definition host0 : host unit (list string) LogClient.log :=
  mk_host (mk_os ∅ []) tt [] (Prometheus.mk_process None false (LogClient.mk [] [] [])).

Definition clock0 : clock := mk_clock 0 "2026-01-02" "2026-01-02T00:00:00Z".

#[global] Existing Instance FrameCodec.codec.

Definition started := setup (X := unit) (F := spec_float) clock0 host0.

(** A running application, the sinks of which do not all close. *)
Definition running : system unit unit (list string) LogClient.log spec_float :=
  mk_system
    (mk_app config
       (Service.NewService (ChannelB (ChannelBuffer.mk (mk_chan 10 [] false) false)) None
          (UseNoOpWAL NoOpWAL.NewNoOpWAL, mk_os ∅ []))
       (Server.SetReady true (Server.NewHttpServer 8080 true))
       (Server.mk_grpc ":9090" true false)
       [KafkaSink.sink (KafkaSink.mk ["k:9092"] "events" None); LogSink.sink] UseNoOp Second)
    [] (AnyDLQ.mk_w UseNoOp (mk_os ∅ []) "2026-01-02" "" tt) [].

End Demo.

Lemma demo_started : match Demo.started with (Ret _, h) => net h = ["listen :9090"] | _ => False end.
Proof. vm_compute. reflexivity. Qed.

Lemma demo_loads : Load (H := Demo.viper) "configs" = inr Demo.config.
Proof. vm_compute. reflexivity. Qed.



(** ** A request that outlives the HTTP server's deadline *)

(** When stopping the HTTP server times out, shutdown goes on, and a handler may still be on its
    way to Push. Once the core is closed its Push panics on the closed channel. The event is in
    the log by then, with its number in the tracker: it was not refused, and it is not lost. *)
Theorem push_after_close_panics {W R F : Type} `{WALW : WAL W} `{RecorderR : Recorder R}
    `{FloatF : Float64 F} (now : Z) (req : IngestRequest)
    (s s1 : Service.Service ChannelBuffer.ChannelBuffer W R F) (n : Z) (w : W) :
  ChannelBuffer.closed_once (Service.buf s) = false -> ch_closed (ChannelBuffer.ch (Service.buf s)) = false ->
  Service.Close s = (Ret tt, s1) ->
  fst (Allow now (TenantId req) (Service.tenants s1)) = true ->
  wal_Append req (Service.wal s1) = (Ret n, w) ->
  exists s2, Service.Push now req s1 = (Panic "send on closed channel", s2) /\
    Service.wal s2 = w /\ SeqTracker.data (Service.tracker s2) !! EventId req = Some n.
Proof.
  destruct s as [[c once] rc lg t tn]. cbn. intros -> Hc Hclose Hok Happ.
  unfold Service.Close, Service.on_buf in Hclose. cbn in Hclose.
  unfold ChannelBuffer.Close, bind, gets, modify, ChannelBuffer.on_ch, chan_close in Hclose. cbn in Hclose.
  rewrite Hc in Hclose. cbn in Hclose. injection Hclose as <-. cbn in *.
  unfold Service.Push. unfold bind, gets, modify, Service.record, Service.allowed, Service.track, try,
    Service.on_wal, Service.on_buf. cbn.
  destruct (Allow now (TenantId req) tn) as [ok tn']. cbn in Hok. subst ok. cbn.
  rewrite Happ. cbn. eexists. split; [reflexivity|]. split; [reflexivity|]. cbn. apply lookup_insert_eq.
Qed.
