(* ===== verification/DeliveryTheorems.v ===== *)
(** At-least-once delivery, what Push leaves behind, and start-up replay. *)
From stdpp Require Import base list strings gmap sets.
From Stdlib Require Import ZArith Lia SpecFloat.
From S2P Require Import Prelude Errors Go Bytes Os OsFaults Proto Float Config.
From S2P Require Import Wal WalFormat WalProofs WalCrash WalSpec WalTheorems.
From S2P Require Import DiskQueue Buffer Hybrid Tenant Metrics Service Sinks Worker Dlq Delivery Interleaving App.


(** ** A concrete pipeline: the file log, a channel, and one recording sink *)
#[local] Existing Instance FrameCodec.codec.
#[local] Existing Instance FrameCodec.codec_laws.

Definition demo_deps : Worker.Deps MockSink.MockSink := Worker.mk_deps [MockSink.sink] NoOpDLQ.dlq.

Lemma mock_Write_run c b m :
  MockSink.Write c b m =
    match MockSink.writeErr m with
    | Some err => (Fail err, MockSink.mk (MockSink.batches m) (Some err) (MockSink.closed m)
                               (MockSink.callCount m + 1))
    | None => (Ret tt, MockSink.mk (MockSink.batches m ++ [b]) None (MockSink.closed m)
                         (MockSink.callCount m + 1))
    end.
Proof. destruct m as [bs [err|] cl n]; done. Qed.

#[export] Instance demo_sink_laws : SinkLaws demo_deps.
Proof.
  refine {| wrote i m e := i = 0 /\ exists b, b ∈ MockSink.batches m /\ e ∈ b |}.
  - intros i sk c b x x' e Hi Hw He. destruct i as [|i]; [|done]. injection Hi as <-.
    simpl in Hw. rewrite mock_Write_run in Hw. destruct (MockSink.writeErr x); [done|].
    injection Hw as <-. split; [done|]. exists b. split; [|done]. simpl. apply elem_of_app. right. by left.
  - intros sk c b x r x' i e Hsk Hw (-> & b' & Hb' & He). apply list_elem_of_singleton in Hsk as ->.
    simpl in Hw. rewrite mock_Write_run in Hw. split; [done|]. exists b'. split; [|done].
    destruct (MockSink.writeErr x); injection Hw as <- <-; simpl; [done|].
    apply elem_of_app. by left.
  - intros c ev n err x r x' i e Hp. simpl in Hp. by injection Hp as <- <-.
Defined.

Definition demo_system := system (X := MockSink.MockSink) (B := ChannelBuffer.ChannelBuffer)
  (W := FileWAL.FileWAL * os) (R := MockRecorder.MockRecorder) (F := spec_float).

(** The service on a log, with room for [n] buffered events. *)
Definition demo_service (l : FileWAL.FileWAL * os) (n : nat) :
    Service.Service ChannelBuffer.ChannelBuffer (FileWAL.FileWAL * os) MockRecorder.MockRecorder
      spec_float :=
  Service.NewService (ChannelBuffer.mk (mk_chan n [] false) false) (Some MockRecorder.NewMock) l.

Definition demo_start : demo_system :=
  mk_system (demo_service (fresh_log "d", fresh_os "d") 8) MockSink.NewMockSink
    [Collecting []; Collecting []] [] ∅ [].

Lemma demo_holds :
  wal_holds (Service.wal (svc demo_start)) [] /\ buf_holds (Service.buf (svc demo_start)) [].
Proof.
  split; [|split; reflexivity].
  exists [], []. split; [|reflexivity]. split; [reflexivity|]. split; [apply fresh_log_rep|reflexivity].
Qed.

Lemma demo_logged : wal_logged (Service.wal (svc demo_start)) [].
Proof.
  exists [], []. split; [|reflexivity]. split; [reflexivity|]. split; [apply fresh_log_rep|reflexivity].
Qed.

Lemma demo_starts : starts demo_deps demo_start.
Proof.
  exists [], [], []. destruct demo_holds as [H1 H2]. split_and!; [exact H1|exact demo_logged|exact H2|..]; try done.
  - intros e He. by apply not_elem_of_nil in He.
  - repeat constructor.
  - intros en Hen. by apply not_elem_of_nil in Hen.
Qed.

(** The state after one event has been accepted. *)
Definition demo_pushed : demo_system :=
  let '(r, s) := Service.Push 0 (ev "a") (svc demo_start) in
  mk_system s (outside demo_start) (hands demo_start) [Finished (ev "a") r] {[ "a"%string := ev "a" ]} [ev "a"].

(** Then the machine goes down and loses every unsynced byte; the next process has one worker. *)
Definition demo_restarted : demo_system :=
  match restart (fun _ => 0) (Service.wal (svc demo_pushed)) with
  | Ret lg => mk_system (demo_service lg 8) (outside demo_pushed) [Collecting []] [] (sent demo_pushed) (accepted demo_pushed)
  | _ => demo_pushed
  end.

Lemma demo_crash : sys_step demo_deps demo_pushed demo_restarted.
Proof.
  eapply (step_crash demo_deps demo_pushed (fun _ => 0) _ _ []);
    [|vm_compute; reflexivity|split; reflexivity| |done|repeat constructor].
  - intros f Hf. vm_compute in Hf. injection Hf as <-. by exists 0.
  - intros e He. by apply not_elem_of_nil in He.
Qed.

Lemma demo_room : wal_room (Service.wal (svc demo_start)) (ev "a").
Proof.
  split; [vm_compute; reflexivity|]. intros d Hd. vm_compute in Hd. injection Hd as <-. vm_compute. reflexivity.
Qed.

Lemma demo_push_ok : fst (Service.Push 0 (ev "a") (svc demo_start)) = Ret tt.
Proof. vm_compute. reflexivity. Qed.

Lemma demo_accepts : rtc (sys_step demo_deps) demo_start demo_pushed.
Proof.
  destruct (starts_ok demo_deps demo_start demo_starts) as (p & l & Hok).
  destruct (Push_steps demo_deps 0 (ev "a") demo_start p l Hok ltac:(by left) demo_room I)
    as (r & svc' & p' & l' & Hpush & Hsteps & _).
  unfold demo_pushed. rewrite Hpush. pose proof demo_push_ok as Hr. rewrite Hpush in Hr. cbn [fst] in Hr. subst r.
  exact Hsteps.
Qed.


(** ** Accepting an event *)

(** C14. The four ways a Push ends, and what each leaves behind: refused by the quota or by
    the log, nothing has changed; accepted, the event is pending in the log under a
    fresh number before it is the last of the buffer, and the tracker knows the number;
    refused by a full buffer, the caller gets the error but the event stays
    pending in the log, where the next start will find it. *)
Theorem Push_outcomes {B W R F : Type} `{BufB : Buffer B} `{BL : !BufferLaws B}
    `{WALW : WAL W} `{RSW : Restart W} `{DL : !DurableLog W} `{RecorderR : Recorder R}
    `{FloatF : Float64 F} (now : Z) (req : IngestRequest) (s : Service.Service B W R F) p l :
  wal_holds (Service.wal s) p -> wal_room (Service.wal s) req ->
  buf_holds (Service.buf s) l -> buf_room (Service.buf s) req ->
  exists r s', Service.Push now req s = (r, s') /\ push_case req s s' p l r.
Proof. apply Push_cases. Qed.

Lemma Push_outcomes_witness :
  exists r s', Service.Push 0 (ev "a") (svc demo_start) = (r, s') /\
    push_case (ev "a") (svc demo_start) s' [] [] r.
Proof.
  destruct demo_holds as [Hw Hb].
  apply (Push_outcomes 0 (ev "a") (svc demo_start) [] []); [exact Hw|exact demo_room|exact Hb|exact I].
Defined.

(** The counters agree with the answers: every Push counts one received event under the
    tenant's label, and one dropped event exactly when it returns an error. *)
Theorem Push_counters {B W F : Type} `{BufB : Buffer B} `{WALW : WAL W} `{FloatF : Float64 F}
    (now : Z) (req : IngestRequest)
    (s : Service.Service B W MockRecorder.MockRecorder F) (m : MockRecorder.MockRecorder) :
  Service.recorder s = Some m ->
  let label := MetricLabel (Service.tenants s) (TenantId req) in
  let '(r, s') := Service.Push now req s in
  exists m', Service.recorder s' = Some m' /\
    MockRecorder.eventsReceived m' = MockRecorder.int64_succ (MockRecorder.eventsReceived m) /\
    MockRecorder.GetEventsReceivedByTenant label m' =
      MockRecorder.int64_succ (MockRecorder.GetEventsReceivedByTenant label m) /\
    match r with
    | Fail _ =>
        MockRecorder.eventsDropped m' = MockRecorder.int64_succ (MockRecorder.eventsDropped m) /\
        MockRecorder.GetEventsDroppedByTenant label m' =
          MockRecorder.int64_succ (MockRecorder.GetEventsDroppedByTenant label m)
    | _ =>
        MockRecorder.eventsDropped m' = MockRecorder.eventsDropped m /\
        MockRecorder.GetEventsDroppedByTenant label m' = MockRecorder.GetEventsDroppedByTenant label m
    end.
Proof.
  destruct s as [b rc lg t tn]. intros Hrc. cbn in Hrc. subst rc.
  cbn [Service.tenants]. set (label := MetricLabel tn (TenantId req)).
  unfold Service.Push, bind at 1, gets at 1, bind at 1, Service.record at 1, modify at 1.
  cbv beta iota. unfold bind at 1, Service.allowed. cbn [Service.tenants]. fold label.
  destruct (Allow now (TenantId req) tn) as [[] tn']; cbv beta iota; cbn [negb].
  1: unfold bind at 1, try, Service.on_wal; cbn [Service.wal];
     destruct (wal_Append req lg) as [[n|err|msg| |] lg']; cbv beta iota.
  1: unfold bind at 1, Service.track at 1, modify at 1; cbv beta iota;
     unfold bind at 1, try, Service.on_buf; cbn [Service.buf];
     destruct (buf_Push req b) as [[[]|err|msg| |] b']; cbv beta iota.
  all: unfold bind, gets, Service.track, Service.record, modify, fail; cbv beta iota; cbn;
    eexists; (split; [reflexivity|]); cbn;
    unfold MockRecorder.GetEventsReceivedByTenant, MockRecorder.GetEventsDroppedByTenant;
    cbn; rewrite ?MockRecorder.default_bump; done.
Qed.

(** ** Replay *)

Section replay.
Context {B W R F : Type} `{BufB : Buffer B} `{BL : !BufferLaws B}
  `{WALW : WAL W} `{RSW : Restart W} `{DL : !DurableLog W} `{RecorderR : Recorder R}
  `{FloatF : Float64 F}.

(** The log and the buffer have room for each event when its turn comes. *)
Fixpoint replay_room (now : Z) (es : list Entry) (s : Service.Service B W R F) : Prop :=
  match es with
  | [] => True
  | en :: es =>
      wal_room (Service.wal s) (Event en) /\ buf_room (Service.buf s) (Event en) /\
      replay_room now es (snd (Service.Push now (Event en) s))
  end.

Lemma replay_pushes now es : forall (s : Service.Service B W R F) p l,
  wal_holds (Service.wal s) p -> buf_holds (Service.buf s) l -> replay_room now es s ->
  exists s' again kept,
    for_each (fun en => ignore (Service.Push now (Event en))) es s = (Ret tt, s') /\
    wal_holds (Service.wal s') (p ++ again) /\ buf_holds (Service.buf s') (l ++ kept) /\
    kept `sublist_of` (Event <$> again) /\ (Event <$> again) `sublist_of` (Event <$> es) /\
    Forall (fun en => ~ wal_issued (Service.wal s) (SeqNum en)) again.
Proof.
  induction es as [|en es IH]; intros s p l Hp Hl Hroom.
  { exists s, [], []. rewrite !app_nil_r. by split_and!. }
  destruct Hroom as (Hwr & Hbr & Hroom). cbn [for_each].
  destruct (Push_cases now (Event en) s p l Hp Hwr Hl Hbr) as (r & s1 & Hpush & Hcase).
  rewrite Hpush in Hroom. cbn [snd] in Hroom.
  rewrite (bind_run_Ret _ _ s tt s1); [|unfold ignore, bind, try; rewrite Hpush; by destruct Hcase].
  assert (forall new kept0, wal_holds (Service.wal s1) (p ++ new) ->
    buf_holds (Service.buf s1) (l ++ kept0) ->
    kept0 `sublist_of` (Event <$> new) -> (Event <$> new) `sublist_of` [Event en] ->
    Forall (fun en => ~ wal_issued (Service.wal s) (SeqNum en)) new ->
    (forall n, wal_issued (Service.wal s) n -> wal_issued (Service.wal s1) n) ->
    exists s' again kept,
      for_each (fun en => ignore (Service.Push now (Event en))) es s1 = (Ret tt, s') /\
      wal_holds (Service.wal s') (p ++ again) /\ buf_holds (Service.buf s') (l ++ kept) /\
      kept `sublist_of` (Event <$> again) /\ (Event <$> again) `sublist_of` (Event <$> en :: es) /\
      Forall (fun en => ~ wal_issued (Service.wal s) (SeqNum en)) again) as Hgo.
  { intros new kept0 Hp1 Hl1 Hs1 Hs2 Hf Hmono.
    destruct (IH s1 _ _ Hp1 Hl1 Hroom) as (s' & again & kept & H1 & H2 & H3 & H4 & H5 & H6).
    exists s', (new ++ again), (kept0 ++ kept). rewrite !(assoc_L (++)), fmap_app. split_and!; [done..| | |].
    - by apply sublist_app.
    - change (Event <$> en :: es) with ([Event en] ++ (Event <$> es)). by apply sublist_app.
    - apply Forall_app. split; [done|]. eapply Forall_impl; [exact H6|]. naive_solver. }
  destruct Hcase as [Hw Hb Ht|err Hw Hb Ht|err n Hw Hni Hi Hmono _ Hb Ht|n Hw Hni Hi Hmono _ Hb Ht].
  1, 2: apply (Hgo [] []); rewrite ?app_nil_r, ?Hw, ?Hb;
    try done; [apply sublist_nil_l..].
  - apply (Hgo [mk_entry n (Event en)] []); rewrite ?app_nil_r, ?Hb;
      try done; [apply sublist_nil_l|by repeat constructor].
  - apply (Hgo [mk_entry n (Event en)] [Event en]); try done. by repeat constructor.
Qed.
End replay.

(** C12. Start-up replay loses nothing and invents nothing. Whatever the quota, the log and a
    full buffer refuse, it returns; every entry that was pending still is; what it
    adds to the log are pending events, in order, under numbers never issued before; and
    what it adds to the buffer are events it has logged again, in order. *)
Theorem replayWAL_keeps_pending {B W R F : Type} `{BufB : Buffer B} `{BL : !BufferLaws B}
    `{WALW : WAL W} `{RSW : Restart W} `{DL : !DurableLog W} `{RecorderR : Recorder R}
    `{FloatF : Float64 F} (now : Z) (s : Service.Service B W R F) p l :
  wal_holds (Service.wal s) p -> buf_holds (Service.buf s) l -> replay_room now p s ->
  exists s' again kept, replayWAL now s = (Ret tt, s') /\
    wal_holds (Service.wal s') (p ++ again) /\ buf_holds (Service.buf s') (l ++ kept) /\
    kept `sublist_of` (Event <$> again) /\ (Event <$> again) `sublist_of` (Event <$> p) /\
    Forall (fun en => ~ wal_issued (Service.wal s) (SeqNum en)) again.
Proof.
  intros Hp Hl Hroom. unfold replayWAL.
  assert (Service.on_wal wal_Recover s = (Ret p, s)) as Hrec.
  { unfold Service.on_wal. rewrite (recover_law _ _ Hp). by destruct s. }
  rewrite (bind_run_Ret _ _ _ _ _ (try_run_Ret _ _ _ _ Hrec)). by apply replay_pushes.
Qed.

(** One event is pending from an earlier life; the buffer is empty. *)
Definition demo_pending : Service.Service ChannelBuffer.ChannelBuffer (FileWAL.FileWAL * os)
    MockRecorder.MockRecorder spec_float :=
  demo_service (snd (wal_Append (ev "a") (fresh_log "d", fresh_os "d"))) 8.

Lemma replayWAL_keeps_pending_witness :
  exists s' again kept, replayWAL 0 demo_pending = (Ret tt, s') /\
    wal_holds (Service.wal s') ([mk_entry 1 (ev "a")] ++ again) /\
    buf_holds (Service.buf s') ([] ++ kept) /\ kept = [ev "a"].
Proof.
  assert (wal_room (fresh_log "d", fresh_os "d") (ev "a")) as Hroom.
  { split; [vm_compute; reflexivity|]. intros d Hd. vm_compute in Hd. injection Hd as <-.
    vm_compute. reflexivity. }
  assert (wal_holds (Service.wal demo_pending) [mk_entry 1 (ev "a")]) as Hp.
  { destruct (append_law (fresh_log "d", fresh_os "d") [] (ev "a") (proj1 demo_holds) Hroom) as [[err H]|(n & w & H & Hh & _)].
    - vm_compute in H. discriminate H.
    - assert (n = 1%Z) as -> by (vm_compute in H; by injection H as <- _).
      unfold demo_pending. rewrite H. exact Hh. }
  destruct (replayWAL_keeps_pending 0 demo_pending [mk_entry 1 (ev "a")] [] Hp)
    as (s' & again & kept & H1 & H2 & H3 & _).
  { split; reflexivity. }
  { split; [|done]. split; [vm_compute; reflexivity|]. intros d Hd. vm_compute in Hd.
    injection Hd as <-. vm_compute. reflexivity. }
  exists s', again, kept. split; [exact H1|]. split; [exact H2|]. split; [exact H3|].
  destruct H3 as [_ H3]. vm_compute in H1. injection H1 as <-. vm_compute in H3. by rewrite <- H3.
Defined.
