(* ===== verification/Gateway.v ===== *)
(** The front doors and the pipeline together.

    A request is handled in three parts: the handler checks it, hands its event to Push, and
    answers what Push returned ([handleIngest_parts], [Ingest_parts]). Here the first and the
    last part are steps of their own, and the calls of Push between them interleave with
    everything else, a crash included: what a client has been told is kept. *)
From Stdlib Require Import ZArith Lia Ascii String SpecFloat.
From stdpp Require Import base list strings gmap sets.
From S2P Require Import Prelude Errors Go Bytes GoStrings Float Os OsFaults Proto Config.
From S2P Require Import Wal WalFormat WalProofs WalCrash WalSpec WalTheorems DiskQueue Buffer Hybrid Tenant Metrics.
From S2P Require Import Service I18n Response Sinks Worker Delivery Interleaving Dlq Server ServerTheorems DeliveryTheorems.

Import Server.

(** ** The parts of a handler *)

(** What Push returned to the handler; a panic of Push is one of the handler. *)
Definition returned (r : out unit) : option (error + unit) :=
  match r with
  | Ret tt => Some (inr tt)
  | Fail err => Some (inl err)
  | _ => None
  end.

Section parts.
Context {X B W R F : Type} `{BufB : Buffer B} `{WALW : WAL W} `{RecorderR : Recorder R}
  `{FloatF : Float64 F} `{IJ : IngestJson}.

(** The event that handleIngest hands to the service, if it gets there; a server without a service
    answers 500 instead. *)
Definition http_event (h : HttpServer X) (r : http_Request) : option IngestRequest :=
  if decide (req_Method r <> "POST"%string) then None
  else if negb (ingestEnabled h) then None
  else match decode_body r with
  | inl _ => None
  | inr body =>
      if decide (body_EventID body = ""%string) then None
      else if requireTenant h && bool_decide (body_TenantID body = ""%string) then None
      else Some (event_of body)
  end.

(** Its answer to what Push returned. *)
Definition http_answer (e : Response.env) (r : http_Request) (ev : IngestRequest) (p : error + unit) :
    Z * Response.body answer_data :=
  match p with
  | inl err =>
      let '(status, code) :=
        if errors_Is err "ingestor.ErrTenantQuotaExceeded" then (StatusTooManyRequests, I18n.MsgTenantQuota)
        else (StatusServiceUnavailable, I18n.MsgDropped) in
      (status, Response.ErrorEnvelope (Response.mk_error code []) (Response.meta_for e r code))
  | inr _ =>
      (StatusAccepted, Response.Envelope (httpIngestResponse (EventId ev)) (Response.meta_for e r I18n.MsgAccepted))
  end.

Definition grpc_event (g : GrpcServer) (req : IngestRequest) : option IngestRequest :=
  if negb (grpc_ingestEnabled g) then None
  else if decide (EventId req = ""%string) then None
  else if grpc_requireTenant g && bool_decide (TenantId req = ""%string) then None
  else Some req.

Definition grpc_answer (ctx : grpc_Context) (p : error + unit) : IngestResponse :=
  let lang := langFromContext ctx in
  match p with
  | inl err =>
      if errors_Is err "ingestor.ErrTenantQuotaExceeded"
      then reply lang "DROPPED" "tenant quota exceeded" I18n.MsgTenantQuota
      else reply lang "DROPPED" "buffer full" I18n.MsgDropped
  | inr _ => reply lang "OK" "" I18n.MsgAccepted
  end.

(** handleIngest is its three parts. *)
Lemma handleIngest_parts now e r (c : conn X B W R F) s :
  Response.sent (writer c) = None -> ingestor c = Some s ->
  match http_event (http c) r with
  | None => exists c' status b, handleIngest now e r c = (Ret tt, c') /\ ingestor c' = Some s /\
      answered_once e r status b c c' /\ status <> StatusAccepted
  | Some ev =>
      let '(res, s') := Service.Push now ev s in
      exists c', fst (handleIngest now e r c) = match res with Fail _ => Ret tt | _ => res end /\
        snd (handleIngest now e r c) = c' /\ ingestor c' = Some s' /\
        (forall p, returned res = Some p ->
           let '(status, b) := http_answer e r ev p in answered_once e r status b c c')
  end.
Proof.
  intros Hs Hi. unfold http_event, handleIngest. rewrite (bind_run_Ret (gets id) _ c c c eq_refl).
  assert (forall (m : M (conn X B W R F) unit) status b,
    (exists c', m c = (Ret tt, c') /\ ingestor c' = ingestor c /\ ext c' = ext c /\ answered_once e r status b c c') ->
    status <> StatusAccepted ->
    exists c' status b, m c = (Ret tt, c') /\ ingestor c' = Some s /\ answered_once e r status b c c' /\
      status <> StatusAccepted) as Hreject.
  { intros m status b (c' & H1 & H2 & _ & H4) Hst. exists c', status, b. split_and!; [done|congruence|done|done]. }
  case_decide as Hm; [by eapply Hreject; [apply method_not_allowed_once|]|].
  destruct (ingestEnabled (http c)); cbn [negb]; [|by eapply Hreject; [apply Error_once|]].
  rewrite Hi. destruct (decode_body r) as [err|body]; [by eapply Hreject; [apply Error_once|]|].
  case_decide as Hid; [by eapply Hreject; [apply Error_once|]|].
  destruct (requireTenant (http c) && _); [by eapply Hreject; [apply Error_once|]|].
  destruct (Service.Push now (event_of body) s) as [res s'] eqn:Hp.
  set (c1 := mk_conn (http c) (Some s') (ext c) (writer c)).
  assert (on_service (Service.Push now (event_of body)) c = (res, c1)) as Hon.
  { unfold on_service. by rewrite Hi, Hp. }
  unfold bind, try. rewrite Hon. destruct res as [[]|err|msg| |]; cbv beta iota.
  - destruct (JSON_once e r StatusAccepted (httpIngestResponse (body_EventID body)) I18n.MsgAccepted c1 Hs)
      as (c' & -> & H2 & _ & H4). exists c'. split_and!; [done|done|done|]. by intros p [= <-].
  - destruct (errors_Is err "ingestor.ErrTenantQuotaExceeded") eqn:Hq;
      [destruct (Error_once e r StatusTooManyRequests I18n.MsgTenantQuota [] c1 Hs) as (c' & -> & H2 & _ & H4)
      |destruct (Error_once e r StatusServiceUnavailable I18n.MsgDropped [] c1 Hs) as (c' & -> & H2 & _ & H4)];
      exists c'; (split_and!; [done|done|done|]); intros p [= <-]; cbn [http_answer]; by rewrite Hq.
  - exists c1. by split_and!.
  - exists c1. by split_and!.
  - exists c1. by split_and!.
Qed.

(** So is the gRPC method. *)
Lemma Ingest_parts now g ctx req (s : Service.Service B W R F) :
  match grpc_event g req with
  | None => exists rep, Ingest now g ctx req s = (Ret rep, s) /\ reply_Status rep <> "OK"%string
  | Some ev =>
      let '(res, s') := Service.Push now ev s in
      snd (Ingest now g ctx req s) = s' /\
      forall p, returned res = Some p -> fst (Ingest now g ctx req s) = Ret (grpc_answer ctx p)
  end.
Proof.
  unfold grpc_event, Ingest.
  destruct (grpc_ingestEnabled g); cbn [negb]; [|by eexists].
  case_decide; [by eexists|]. destruct (grpc_requireTenant g && _); [by eexists|].
  unfold bind, try. destruct (Service.Push now req s) as [[[]|err|msg| |] s']; cbv beta iota.
  - split; [done|]. by intros p [= <-].
  - destruct (errors_Is err _) eqn:Hq; (split; [done|]); intros p [= <-]; cbn [grpc_answer]; by rewrite Hq.
  - done.
  - done.
  - done.
Qed.
End parts.

(** ** Requests in flight *)

Inductive request :=
  | HttpRequest (r : http_Request)
  | GrpcRequest (ctx : grpc_Context) (req : IngestRequest).

Inductive answer :=
  | HttpAnswer (status : Z) (b : Response.body answer_data)
  | GrpcAnswer (rep : IngestResponse).

(** The event a request hands to Push under the flags of the servers. *)
Definition asks {X} `{IJ : IngestJson} (h : HttpServer X) (g : GrpcServer) (q : request) : option IngestRequest :=
  match q with
  | HttpRequest r => http_event h r
  | GrpcRequest _ req => grpc_event g req
  end.

Definition answer_of (e : Response.env) (q : request) (ev : IngestRequest) (p : error + unit) : answer :=
  match q with
  | HttpRequest r => let '(status, b) := http_answer e r ev p in HttpAnswer status b
  | GrpcRequest ctx _ => GrpcAnswer (grpc_answer ctx p)
  end.

(** The client is told that its event has been accepted. *)
Definition says_accepted (a : answer) : Prop :=
  match a with
  | HttpAnswer status _ => status = StatusAccepted
  | GrpcAnswer rep => reply_Status rep = "OK"%string
  end.

Lemma says_accepted_returned e q ev p : says_accepted (answer_of e q ev p) -> p = inr tt.
Proof.
  destruct q, p as [err|[]]; cbn; [|done| |done]; by destruct (errors_Is err _).
Qed.

Section gateway.
Context {X B W R F : Type} `{BufB : Buffer B} `{BL : !BufferLaws B}
  `{WALW : WAL W} `{RSW : Restart W} `{DL : !DurableLog W} `{RecorderR : Recorder R}
  `{FloatF : Float64 F} `{IJ : IngestJson}.
Context (deps : Worker.Deps X) `{SL : !SinkLaws deps}.

Notation system := (system (X := X) (B := B) (W := W) (R := R) (F := F)).

(** [waiting]: the requests whose handlers are in Push, each with the place of its calls in the
    system's list. [answered]: the requests with an answer, for the clients to keep. *)
Record gateway := mk_gateway {
  pipe : system;
  waiting : list (request * nat);
  answered : list (request * IngestRequest * answer)
}.

(** A handler reaches Push; Push has returned and the handler answers; or the pipeline takes a
    step of its own. The flags may be different for each request. When the process goes down,
    the requests in flight get no answer. *)
Inductive gate_step : gateway -> gateway -> Prop :=
  | gate_request G (h : HttpServer X) g q ev :
      asks h g q = Some ev -> id_agrees (sent (pipe G)) ev ->
      let s := pipe G in
      gate_step G (mk_gateway
        (mk_system (svc s) (Interleaving.outside s) (hands s) (calls s ++ [Begin ev])
           (<[EventId ev := ev]> (sent s)) (accepted s))
        (waiting G ++ [(q, length (calls s))]) (answered G))
  | gate_answer G e q i ev r p :
      (q, i) ∈ waiting G -> calls (pipe G) !! i = Some (Finished ev r) -> returned r = Some p ->
      gate_step G (mk_gateway (pipe G) (filter (fun w => w.2 <> i) (waiting G))
        (answered G ++ [(q, ev, answer_of e q ev p)]))
  | gate_pipe G s' :
      sys_step deps (pipe G) s' ->
      gate_step G (mk_gateway s' (filter (fun w => w.2 < length (calls s')) (waiting G)) (answered G)).

(** ** What a step of the pipeline leaves of a request *)

Lemma call_step_event now c c' (s s' : Service.Service B W R F) :
  call_step now c s = (Ret c', s') ->
  event_of_call c' = event_of_call c /\
  (forall ev, c' = Finished ev (Ret tt) -> c = Accepted ev \/ c = c').
Proof.
  destruct s as [b rc lg t tn]. intros Hs.
  destruct c as [req|label req|label req n|label req|label req err|req|req r];
    unfold call_step, Service.allowed, Service.on_wal, Service.on_buf, Service.record, Service.track, modify, gets,
      try, bind, ret in Hs;
    cbn [Service.tenants Service.wal Service.buf] in Hs.
  - destruct (Allow now (TenantId req) tn) as [[] tn']; cbn [negb] in Hs; injection Hs as <- <-; naive_solver.
  - destruct (wal_Append req lg) as [[n|err|p| |] lg']; try done; injection Hs as <- <-; naive_solver.
  - injection Hs as <- <-. naive_solver.
  - destruct (buf_Push req b) as [[[]|err|p| |] b']; try done; injection Hs as <- <-; naive_solver.
  - injection Hs as <- <-. naive_solver.
  - injection Hs as <- <-. naive_solver.
  - injection Hs as <- <-. naive_solver.
Qed.

(** A request keeps its place and its event, unless the process goes down. *)
Lemma sys_step_calls (s s' : system) : sys_step deps s s' ->
  accepted s ⊆ accepted s' /\
  (calls s' = [] \/ forall i c, calls s !! i = Some c ->
     exists c', calls s' !! i = Some c' /\ event_of_call c' = event_of_call c).
Proof.
  assert (forall l : list call, forall i c, l !! i = Some c ->
    exists c', l !! i = Some c' /\ event_of_call c' = event_of_call c) as Hsame by eauto.
  intros Hstep. destruct Hstep as [s req Hnew|s i now c c' svc' Hi Hroom Hrun|s i batch e b Hi Hrecv|s b Hb|
    s i batch ck Hi Hne|s i h ck c ws r w Hi Hrun|s keep lg b l rc tn x hs Hwhole Hre Hb Hbs Hx Hhs];
    cbn [accepted calls after_work]; (split; [try done|]); try (right; by apply Hsame).
  - right. intros i c Hi. exists c. split; [|done]. by apply lookup_app_l_Some.
  - destruct c; try done. intros e He. apply elem_of_app. by left.
  - right. intros j cj Hj. destruct (decide (j = i)) as [->|Hne].
    + exists c'. split; [by apply list_lookup_insert_eq, (lookup_lt_Some _ _ _ Hi)|].
      rewrite Hi in Hj. injection Hj as <-. by eapply call_step_event.
    + exists cj. by rewrite list_lookup_insert_ne.
  - by left.
Qed.

(** A Push that has returned nil has accepted its event. *)
Definition finished_ok (s : system) : Prop :=
  forall ev, Finished ev (Ret tt) ∈ calls s -> ev ∈ accepted s.

Lemma finished_keeps (s s' : system) : sys_step deps s s' -> finished_ok s -> finished_ok s'.
Proof.
  intros Hstep Hok ev. pose proof (proj1 (sys_step_calls s s' Hstep)) as Hacc.
  destruct Hstep as [s req Hnew|s i now c c' svc' Hi Hroom Hrun|s i batch e b Hi Hrecv|s b Hb|
    s i batch ck Hi Hne|s i h ck c ws r w Hi Hrun|s keep lg b l rc tn x hs Hwhole Hre Hb Hbs Hx Hhs];
    cbn [accepted calls after_work] in *; try apply Hok.
  - intros [H|H]%elem_of_app; [by apply Hok|]. by apply list_elem_of_singleton in H.
  - intros [Heq|H]%elem_of_insert; [|by apply Hacc, Hok].
    destruct (call_step_event _ _ _ _ _ Hrun) as [_ Hfin].
    destruct (Hfin ev (eq_sym Heq)) as [->| ->]; [apply elem_of_app; right; by left|].
    rewrite <- Heq in *. apply Hok. by eapply list_elem_of_lookup_2.
  - intros H. by apply elem_of_nil in H.
Qed.

(** ** What holds of every gateway *)

Record gate_ok (G : gateway) : Prop := {
  gate_finished : finished_ok (pipe G);
  gate_waiting : forall q i, (q, i) ∈ waiting G ->
    exists c (h : HttpServer X) g, calls (pipe G) !! i = Some c /\ asks h g q = Some (event_of_call c);
  gate_answered : forall q ev a, (q, ev, a) ∈ answered G ->
    (exists (h : HttpServer X) g, asks h g q = Some ev) /\ (says_accepted a -> ev ∈ accepted (pipe G))
}.

Lemma gate_step_keeps G G' : gate_step G G' -> gate_ok G -> gate_ok G'.
Proof.
  intros Hstep [Hf Hw Ha]. destruct Hstep as [G h g q ev Hq Hid s|G e q i ev r p Hin Hi Hr|G s' Hstep];
    split; cbn [pipe waiting answered] in *.
  - by eapply finished_keeps; [apply step_arrive|].
  - intros q' i [H|H]%elem_of_app.
    + destruct (Hw q' i H) as (c & h' & g' & Hc & Hq'). exists c, h', g'. split; [|done]. by apply lookup_app_l_Some.
    + apply list_elem_of_singleton in H as [= -> ->]. exists (Begin ev), h, g. split; [|done].
      cbn [calls]. by rewrite lookup_app_r, Nat.sub_diag by lia.
  - apply Ha.
  - done.
  - intros q' i' [_ H]%list_elem_of_filter. by apply Hw.
  - intros q' ev' a [H|H]%elem_of_app; [by apply Ha|]. apply list_elem_of_singleton in H as [= -> -> ->].
    destruct (Hw q i Hin) as (c & h & g & Hc & Hq). rewrite Hi in Hc. injection Hc as <-. split; [by exists h, g|].
    intros Hs. apply says_accepted_returned in Hs as ->. destruct r as [[]|?|?| |]; try done.
    apply Hf. by eapply list_elem_of_lookup_2.
  - by eapply finished_keeps.
  - intros q i [Hlt H]%list_elem_of_filter. cbn in Hlt. destruct (Hw q i H) as (c & h & g & Hc & Hq).
    destruct (sys_step_calls _ _ Hstep) as [_ [Hnil|Hcalls]]; [rewrite Hnil in Hlt; simpl in Hlt; lia|].
    destruct (Hcalls i c Hc) as (c' & Hc' & He). exists c', h, g. by rewrite He.
  - intros q ev a H. destruct (Ha q ev a H) as [H1 H2]. split; [done|]. intros Hs.
    by apply (proj1 (sys_step_calls _ _ Hstep)), H2.
Qed.

(** The pipeline does not know who sends the requests. *)
Lemma gate_steps_pipe G G' : rtc gate_step G G' -> rtc (sys_step deps) (pipe G) (pipe G').
Proof.
  induction 1 as [G|G G1 G2 Hstep _ IH]; [done|]. destruct Hstep as [G h g q ev Hq Hid s|G e q i ev r p Hin Hi Hr|G s' Hstep];
    cbn [pipe] in IH; [|done|]; (eapply rtc_l; [|exact IH]); [by apply step_arrive|done].
Qed.

Lemma reachable_gate_ok s0 G : starts deps s0 -> rtc gate_step (mk_gateway s0 [] []) G -> gate_ok G.
Proof.
  intros Hs Hsteps. assert (gate_ok (mk_gateway s0 [] [])) as Hok.
  { destruct Hs as (p & lg & l & _ & _ & _ & _ & _ & _ & Hc & _).
    split; cbn [pipe waiting answered]; [intros ev; rewrite Hc|intros q i|intros q ev a]; intros H;
      by apply elem_of_nil in H. }
  clear Hs. remember (mk_gateway s0 [] []) as G0 eqn:HG. clear HG.
  induction Hsteps as [G|G G1 G2 Hstep _ IH]; [done|]. by eapply IH, gate_step_keeps.
Qed.

(** Without requests in flight, its steps are those of the pipeline. *)
Lemma steps_gate (s s' : system) an : rtc (sys_step deps) s s' -> rtc gate_step (mk_gateway s [] an) (mk_gateway s' [] an).
Proof.
  induction 1 as [s|s s1 s2 Hstep _ IH]; [done|]. eapply rtc_l; [|exact IH].
  by apply (gate_pipe (mk_gateway s [] an) s1).
Qed.

(** ** A request that is left alone *)

Lemma filter_keeps {A} (P : A -> Prop) `{!forall x, Decision (P x)} (l : list A) : Forall P l -> filter P l = l.
Proof. induction 1 as [|x l Hx _ IH]; [done|]. by rewrite filter_cons_True, IH. Qed.

Lemma own_steps_lift ws an (s s' : system) :
  Forall (fun w : request * nat => w.2 < length (calls s)) ws -> rtc (own_step deps) s s' ->
  rtc gate_step (mk_gateway s ws an) (mk_gateway s' ws an).
Proof.
  intros Hws Hsteps. induction Hsteps as [s|s s1 s2 [Hstep Hlen] _ IH]; [done|].
  eapply rtc_l; [by apply (gate_pipe (mk_gateway s ws an) s1)|]. cbn [waiting answered].
  rewrite filter_keeps; [|by rewrite Hlen]. apply IH. by rewrite Hlen.
Qed.

(** It gets the answer to what Push returns. *)
Lemma request_answered e now (h : HttpServer X) g q ev (G : gateway) p l :
  gate_ok G -> sys_ok deps (pipe G) p l -> asks h g q = Some ev -> id_agrees (sent (pipe G)) ev ->
  wal_room (Service.wal (svc (pipe G))) ev -> buf_room (Service.buf (svc (pipe G))) ev ->
  exists r svc' p' l', Service.Push now ev (svc (pipe G)) = (r, svc') /\
    let s := pipe G in
    let s' := mk_system svc' (Interleaving.outside s) (hands s) (calls s ++ [Finished ev r])
                (<[EventId ev := ev]> (sent s)) (accepted s ++ gained (Begin ev) r) in
    sys_ok deps s' p' l' /\
    forall pr, returned r = Some pr ->
      rtc gate_step G (mk_gateway s' (waiting G) (answered G ++ [(q, ev, answer_of e q ev pr)])).
Proof.
  intros HG Hok Hq Hid Hw Hb. set (s := pipe G).
  destruct (complete_steps deps now (Begin ev) 5 _ p l (length (calls s)) (arrive_keeps deps s ev p l Hok Hid))
    as (r & svc' & p' & l' & Hc & _ & Hsteps & Hok'); [|done|done|].
  { cbn [calls]. by rewrite lookup_app_r, Nat.sub_diag by lia. }
  cbn [svc Interleaving.outside hands calls sent accepted event_of_call] in *.
  rewrite insert_app_r_alt, Nat.sub_diag in * by lia.
  exists r, svc', p', l'. rewrite Push_complete. split; [done|]. split; [done|]. intros pr Hr.
  assert (Forall (fun w : request * nat => w.2 < length (calls s)) (waiting G)) as Hws.
  { apply Forall_forall. intros [q' i] Hin. destruct (gate_waiting _ HG q' i Hin) as (c & _ & _ & Hi & _).
    by eapply lookup_lt_Some. }
  eapply rtc_l; [by apply (gate_request G h g q ev)|].
  eapply rtc_r; [apply own_steps_lift; [|exact Hsteps]|].
  { cbn [calls]. rewrite length_app. apply Forall_app. split; [|repeat constructor; simpl; lia].
    eapply Forall_impl; [exact Hws|]. simpl. fold s. lia. }
  match goal with |- gate_step ?G1 _ =>
    pose proof (gate_answer G1 e q (length (calls s)) ev r pr) as Hans end.
  cbn [waiting pipe answered calls] in Hans. rewrite filter_app, (filter_cons_False _ (q, length (calls s))) in Hans
    by (intros Hn; by apply Hn).
  rewrite filter_keeps, app_nil_r in Hans; [|eapply Forall_impl; [exact Hws|]; simpl; lia].
  apply Hans; [apply elem_of_app; right; by left|by rewrite lookup_app_r, Nat.sub_diag by lia|done].
Qed.
End gateway.
Arguments gateway : clear implicits.



(** ** A client that is told so, just before the machine goes down *)
#[local] Existing Instance FrameCodec.codec.
#[local] Existing Instance FrameCodec.codec_laws.

Definition demo_grpc : GrpcServer := mk_grpc ":9090" true false.

Lemma demo_served :
  fst (Service.Push 0 (mk_event "a" "web" "" 0 "") small_service) = Ret tt /\
  fst (Service.Push 0 (ev "a") small_service) = Ret tt.
Proof. split; vm_compute; reflexivity. Qed.

Lemma demo_asked :
  http_event (IJ := id_body) (plain_server (X := unit)) (post [Byte.x61]) = Some (mk_event "a" "web" "" 0 "").
Proof. reflexivity. Qed.


(** ** A client that is answered just before the machine goes down *)

Definition demo_client : request * IngestRequest * answer :=
  (GrpcRequest None (ev "a"), ev "a", GrpcAnswer (grpc_answer None (inr tt))).

Definition demo_gateway (s : demo_system) :
  gateway MockSink.MockSink ChannelBuffer.ChannelBuffer (FileWAL.FileWAL * os) MockRecorder.MockRecorder spec_float :=
  mk_gateway s [] [demo_client].

Lemma demo_answered :
  rtc (gate_step (IJ := id_body) demo_deps) (mk_gateway demo_start [] []) (demo_gateway demo_restarted).
Proof.
  destruct (starts_ok demo_deps demo_start demo_starts) as (p & l & Hok).
  destruct (request_answered (IJ := id_body) demo_deps demo_env 0 plain_server demo_grpc (GrpcRequest None (ev "a")) (ev "a")
    (mk_gateway demo_start [] []) p l) as (r & svc' & p' & l' & Hpush & _ & Hsteps);
    [by eapply reachable_gate_ok; [apply demo_starts|]|done|done|by left|apply demo_room|done|].
  cbn [pipe] in Hpush, Hsteps. pose proof demo_push_ok as Hr. rewrite Hpush in Hr. cbn [fst] in Hr. subst r.
  eapply rtc_r; [exact (Hsteps (inr tt) eq_refl)|].
  pose proof demo_crash as Hcrash. unfold demo_pushed in Hcrash at 1. rewrite Hpush in Hcrash.
  exact (gate_pipe (IJ := id_body) demo_deps (mk_gateway _ [] [demo_client]) _ Hcrash).
Qed.

