(* ===== verification/DeliveryLimits.v ===== *)
(** Where at-least-once delivery ends: ids that are used twice, events that are pending beyond the
    buffer's capacity, and entries that no life acknowledges. *)
From stdpp Require Import base list strings gmap sets.
From Stdlib Require Import ZArith Lia SpecFloat.
From S2P Require Import Prelude Errors Go Bytes Os OsFaults Proto Float Config.
From S2P Require Import Wal WalFormat WalProofs WalCrash WalSpec WalTheorems.
From S2P Require Import DiskQueue Buffer Hybrid Tenant Metrics Service Sinks Worker Dlq Delivery App DeliveryTheorems.

#[local] Existing Instance FrameCodec.codec.
#[local] Existing Instance FrameCodec.codec_laws.

(** One worker's flush of a batch on the service's log and tracker. *)
Definition flush_service (batch : list IngestRequest)
    (s : Service.Service ChannelBuffer.ChannelBuffer (FileWAL.FileWAL * os)
           MockRecorder.MockRecorder spec_float) (x : MockSink.MockSink) :=
  let '(_, w) := Worker.flush demo_deps batch
    (Worker.mk_world x (Service.wal s) (Service.tracker s) (Service.recorder s) 0 None []) in
  (Service.mk (Service.buf s) (Worker.recorder w) (Worker.wal w) (Worker.tracker w) (Service.tenants s),
   Worker.ext w).

Definition ev2 (i payload : string) : IngestRequest := mk_event i "web" payload 1717100001 "".

(** C38. Two events with the same id, both accepted. The tracker keeps the number of the second
    only, so when every sink takes the first, it is the second that is acknowledged: the log
    then holds the first, which is delivered, and not the second, which is not, and a crash
    before its delivery loses it. *)
Theorem duplicate_id_loses_event {X B W R F : Type} `{BufB : Buffer B} `{BL : !BufferLaws B}
    `{WALW : WAL W} `{RSW : Restart W} `{DL : !DurableLog W} `{RecorderR : Recorder R}
    `{FloatF : Float64 F} (deps : Worker.Deps X) `{SL : !SinkLaws deps} (now1 now2 : Z)
    (first second : IngestRequest) (s s1 s2 : Service.Service B W R F) p l x ck c ws w :
  wal_holds (Service.wal s) p -> buf_holds (Service.buf s) l ->
  wal_room (Service.wal s) first -> buf_room (Service.buf s) first ->
  wal_room (Service.wal s1) second -> buf_room (Service.buf s1) second ->
  first <> second -> EventId first = EventId second -> second ∉ Event <$> p ->
  Service.Push now1 first s = (Ret tt, s1) -> Service.Push now2 second s1 = (Ret tt, s2) ->
  let w2 := Worker.mk_world x (Service.wal s2) (Service.tracker s2) (Service.recorder s2) ck c ws in
  Worker.write_sinks deps (Worker.deps_Sinks deps) [first] true w2 = (Ret true, w) ->
  exists w' p', Worker.flush deps [first] w2 = (Ret tt, w') /\ wal_holds (Worker.wal w') p' /\
    first ∈ Event <$> p' /\ second ∉ Event <$> p'.
Proof.
  intros Hp Hl Hr1 Hb1 Hr2 Hb2 Hne Hid Hfresh Hpush1 Hpush2 w2 Hsinks.
  destruct (Push_cases now1 first s p l Hp Hr1 Hl Hb1) as (r1 & s1' & E1 & C1).
  rewrite Hpush1 in E1. injection E1 as <- <-. inversion C1 as [| | |n1 Hp1 _ _ _ _ Hl1 Ht1]. subst.
  destruct (Push_cases now2 second s1 _ _ Hp1 Hr2 Hl1 Hb2) as (r2 & s2' & E2 & C2).
  rewrite Hpush2 in E2. injection E2 as <- <-. inversion C2 as [| | |n2 Hp2 Hn2 Hi2 _ _ _ Ht2]. subst.
  pose proof (write_sinks_writes deps [first] _ 0 true w2 (drop_0 _)) as Hw. rewrite Hsinks in Hw.
  destruct Hw as [(Hwal & Htr & _) _]. cbn [w2 Worker.wal Worker.tracker] in Hwal, Htr.
  destruct (ack_law _ _ n2 Hp2 Hi2) as (lg & Hack & Hp' & _).
  destruct w as [x1 l1 t1 rc1 ck1 c1 ws1]. cbn [Worker.wal Worker.tracker] in Hwal, Htr. subst l1 t1.
  assert (exists w', Worker.flush deps [first] w2 = (Ret tt, w') /\ Worker.wal w' = lg) as (w' & Hrun & <-).
  { unfold Worker.flush. unfold bind at 1, gets at 1, bind at 1. rewrite Hsinks. cbv beta iota.
    unfold Worker.ack_batch. cbn [for_each]. unfold bind, Worker.load_and_delete, SeqTracker.LoadAndDelete.
    cbn [Worker.tracker]. rewrite Ht2, Hid, lookup_insert_eq. unfold ignore, bind, try, Worker.on_wal. cbn [Worker.wal].
    rewrite Hack. eexists. split; reflexivity. }
  eexists w', _. split; [exact Hrun|split; [exact Hp'|split]].
  - apply list_elem_of_fmap. exists (mk_entry n1 first). split; [done|].
    apply list_elem_of_filter. split; [|rewrite !elem_of_app; left; right; by left].
    cbn. intros ->. apply Hn2. apply (holds_issued _ _ (mk_entry n2 first) Hp1).
    apply elem_of_app. right. by left.
  - intros (en & Hen & Hin)%list_elem_of_fmap. apply list_elem_of_filter in Hin as [Hn Hin].
    apply elem_of_app in Hin as [[Hin|Hin]%elem_of_app|Hin].
    + apply Hfresh, list_elem_of_fmap. by exists en.
    + apply list_elem_of_singleton in Hin as ->. by cbn in Hen.
    + apply list_elem_of_singleton in Hin as ->. done.
Qed.

Lemma duplicate_id_loses_event_witness :
  let first := ev2 "dup" "first" in
  let second := ev2 "dup" "second" in
  let s := demo_service (fresh_log "d", fresh_os "d") 8 in
  exists s1 s2 w' p', Service.Push 0 first s = (Ret tt, s1) /\ Service.Push 0 second s1 = (Ret tt, s2) /\
    Worker.flush demo_deps [first]
      (Worker.mk_world MockSink.NewMockSink (Service.wal s2) (Service.tracker s2) (Service.recorder s2) 0 None []) =
      (Ret tt, w') /\
    wal_holds (Worker.wal w') p' /\ first ∈ Event <$> p' /\ second ∉ Event <$> p' /\
    MockSink.batches (Worker.ext w') = [[first]] /\
    recover_after (fun _ => 1000%nat) "d" (snd (Worker.wal w')) = Ret [mk_entry 1 first].
Proof.
  intros first second s.
  destruct (Service.Push 0 first s) as [r1 s1] eqn:E1. destruct (Service.Push 0 second s1) as [r2 s2] eqn:E2.
  assert (r1 = Ret tt) as -> by (vm_compute in E1; by injection E1).
  pose proof E1 as E1'. vm_compute in E1'. injection E1' as Hs1. 
  pose proof E2 as E2'. rewrite <- Hs1 in E2'. vm_compute in E2'. injection E2' as Hr2 Hs2. subst r2.
  set (w2 := Worker.mk_world MockSink.NewMockSink (Service.wal s2) (Service.tracker s2) (Service.recorder s2) 0 None []).
  destruct (Worker.write_sinks demo_deps (Worker.deps_Sinks demo_deps) [first] true w2) as [r w] eqn:Ew.
  assert (r = Ret true) as -> by (subst w2; rewrite <- Hs2 in Ew; vm_compute in Ew; by injection Ew).
  assert (wal_room (Service.wal s) first) as Hroom1.
  { split; [vm_compute; reflexivity|]. intros d Hd. vm_compute in Hd. injection Hd as <-.
    vm_compute. reflexivity. }
  assert (wal_room (Service.wal s1) second) as Hroom2.
  { rewrite <- Hs1. split; [vm_compute; reflexivity|]. intros d Hd. vm_compute in Hd. injection Hd as <-.
    vm_compute. reflexivity. }
  destruct (duplicate_id_loses_event demo_deps 0 0 first second s s1 s2 [] [] MockSink.NewMockSink 0 None [] w
    (proj1 demo_holds) (proj2 demo_holds) Hroom1 I (Hroom2) I ltac:(discriminate) eq_refl
    ltac:(apply not_elem_of_nil) E1 E2 Ew) as (w' & p' & Hrun & Hp & H1 & H2).
  exists s1, s2, w', p'. split; [reflexivity|]. split; [exact E2|]. split; [exact Hrun|]. split; [exact Hp|].
  split; [exact H1|]. split; [exact H2|].
  rewrite <- Hs2 in Hrun. vm_compute in Hrun. injection Hrun as <-. split; vm_compute; reflexivity.
Defined.

(** Takes everything out of the channel. *)
Definition take_all (b : ChannelBuffer.ChannelBuffer) : list IngestRequest :=
  ch_items (ChannelBuffer.ch b).

(** A life of the process with room for [cap] buffered events: it opens the log, replays
    it, and a worker delivers all that was replayed, with no failure anywhere. *)
Definition life (cap : nat) (st : os * MockSink.MockSink) : os * MockSink.MockSink :=
  let '(w, x) := st in
  match FileWAL.NewFileWAL "d" w with
  | (Ret fw, w) =>
      let '(_, s) := replayWAL 0 (demo_service (fw, w) cap) in
      let batch := take_all (Service.buf s) in
      let '(s, x) := flush_service batch s x in
      (snd (Service.wal s), x)
  | (_, w) => (w, x)
  end.

(** Replay appends the recovered events under new numbers and never acknowledges the
    old ones. An event that was pending at one crash is delivered again at every
    start from then on, although each life delivers and acknowledges everything it
    replayed. *)
Theorem replayed_event_is_redelivered_at_every_start :
  let '(_, s) := Service.Push 0 (ev "a") (demo_service (fresh_log "d", fresh_os "d") 8) in
  let start := (snd (Service.wal s), MockSink.NewMockSink) in
  let '(w, x) := life 8 (life 8 (life 8 start)) in
  MockSink.batches x = [[ev "a"]; [ev "a"]; [ev "a"]] /\
  recover_after (fun _ => 1000%nat) "d" w = Ret [mk_entry 1 (ev "a")].
Proof. vm_compute. repeat split. Qed.

(** A file log with room takes an event that marshals. *)
Lemma file_append_ok `{C : Codec} `{!CodecLaws C} (st : FileWAL.FileWAL * os) p e d :
  file_holds st p -> (FileWAL.seq (fst st) + 1 < 2 ^ 64)%Z ->
  proto_Marshal e = inr d -> (Z.of_nat (length d) < 2 ^ 32)%Z ->
  exists n st', wal_Append e st = (Ret n, st') /\ file_holds st' (p ++ [mk_entry n e]) /\
    FileWAL.seq (fst st') = (FileWAL.seq (fst st) + 1)%Z.
Proof.
  intros Hp Hs Hm Hd. assert (file_room st e) as Hr by (split; [exact Hs|intros d' Hd'; congruence]).
  destruct (file_append_law st p e Hp Hr) as [[err Herr]|(n & st' & Happ & Hp' & _)].
  - destruct st as [fw w]. destruct Hp as (recs & acks & (Hc & H & _) & _).
    destruct (Append_rep e d fw w recs acks Hc H Hm Hs Hd) as (w' & E & _). cbn in Herr. congruence.
  - exists n, st'. split_and!; [done|done|].
    destruct st as [fw w]. destruct Hp as (recs & acks & (Hc & H & _) & _).
    destruct (Append_rep e d fw w recs acks Hc H Hm Hs Hd) as (w' & E & _). cbn in Happ.
    rewrite E in Happ. by injection Happ as <- <-.
Qed.

Section starvation.
Context {R F : Type} `{C : Codec} `{!CodecLaws C} `{RecorderR : Recorder R} `{FloatF : Float64 F}.

Notation Svc := (Service.Service ChannelBuffer.ChannelBuffer (FileWAL.FileWAL * os) R F).

(** Without tenants every event is appended; then the channel takes it, if it has room. *)
Lemma Push_channel now e n st' (s : Svc) :
  Enabled (Service.tenants s) = false -> ch_closed (ChannelBuffer.ch (Service.buf s)) = false ->
  wal_Append e (Service.wal s) = (Ret n, st') ->
  exists r s', Service.Push now e s = (r, s') /\ (r = Ret tt \/ r = Fail ErrBufferFull) /\
    Service.wal s' = st' /\ Service.tenants s' = Service.tenants s /\
    ch_closed (ChannelBuffer.ch (Service.buf s')) = false /\
    ch_cap (ChannelBuffer.ch (Service.buf s')) = ch_cap (ChannelBuffer.ch (Service.buf s)) /\
    let items := ch_items (ChannelBuffer.ch (Service.buf s)) in
    ch_items (ChannelBuffer.ch (Service.buf s')) =
      if chan_full (ChannelBuffer.ch (Service.buf s)) then items else items ++ [e].
Proof.
  destruct s as [[[cap items cl] once] rc lg t tn]. cbn. intros Htn -> Happ.
  unfold Service.Push, bind at 1, gets at 1, bind at 1, Service.record at 1, modify at 1. cbv beta iota.
  unfold bind at 1, Service.allowed. cbn [Service.tenants].
  assert (Allow now (TenantId e) tn = (true, tn)) as -> by (destruct tn; [|done]; cbn in *; by rewrite Htn).
  cbv beta iota. cbn [negb]. unfold bind at 1, try, Service.on_wal. cbn [Service.wal]. rewrite Happ. cbv beta iota.
  unfold bind at 1, Service.track at 1, modify at 1. cbv beta iota.
  unfold bind at 1, try, Service.on_buf. cbn [Service.buf buf_Push ChannelBuffer.buffer].
  unfold ChannelBuffer.Push, ChannelBuffer.on_ch, bind at 1, chan_try_send. cbn [ChannelBuffer.ch ch_closed].
  destruct (chan_full _); cbn; eexists _, _; (split; [reflexivity|]); cbn; split_and!; auto.
Qed.

Lemma replay_fills now es : forall (s : Svc) p,
  Enabled (Service.tenants s) = false -> ch_closed (ChannelBuffer.ch (Service.buf s)) = false ->
  wal_holds (Service.wal s) p -> (FileWAL.seq (fst (Service.wal s)) + Z.of_nat (length es) < 2 ^ 64)%Z ->
  Forall (fun en => exists d, proto_Marshal (Event en) = inr d /\ (Z.of_nat (length d) < 2 ^ 32)%Z) es ->
  let c := ChannelBuffer.ch (Service.buf s) in
  length (ch_items c) <= ch_cap c ->
  exists s' again,
    for_each (fun en => ignore (Service.Push now (Event en))) es s = (Ret tt, s') /\
    wal_holds (Service.wal s') (p ++ again) /\ Event <$> again = Event <$> es /\
    ch_items (ChannelBuffer.ch (Service.buf s')) = take (ch_cap c) (ch_items c ++ (Event <$> es)).
Proof.
  induction es as [|en es IH]; intros s p Htn Hop Hp Hseq Hes c Hlen.
  { exists s, []. rewrite !app_nil_r. split_and!; [done|done|done|]. by rewrite take_ge. }
  apply Forall_cons in Hes as [(d & Hm & Hd) Hes]. cbn [length] in Hseq.
  destruct (file_append_ok (Service.wal s) p (Event en) d Hp ltac:(lia) Hm Hd) as (n & st' & Happ & Hp' & Hs').
  destruct (Push_channel now (Event en) n st' s Htn Hop Happ) as (r & s1 & Hpush & Hr & Hw & Ht & Hop' & Hcap & Hit).
  cbn [for_each].
  rewrite (bind_run_Ret _ _ s tt s1); [|unfold ignore, bind, try; rewrite Hpush; by destruct Hr as [-> | ->]].
  destruct (IH s1 (p ++ [mk_entry n (Event en)])) as (s' & again & Hrun & Hh & Hev & Hitems).
  - by rewrite Ht.
  - done.
  - by rewrite Hw.
  - rewrite Hw, Hs'. lia.
  - done.
  - rewrite Hcap, Hit. fold c. unfold chan_full. case_bool_decide; [done|]. rewrite length_app. cbn [length]. lia.
  - exists s', (mk_entry n (Event en) :: again). split_and!; [done| | |].
    + by rewrite <- (assoc_L (++)) in Hh.
    + cbn [fmap list_fmap Event]. f_equal. exact Hev.
    + rewrite Hitems, Hcap, Hit. fold c. unfold chan_full. cbn [fmap list_fmap]. case_bool_decide as Hf.
      * rewrite !take_app_ge by lia. replace (ch_cap c - length (ch_items c)) with 0 by lia. done.
      * by rewrite <- (assoc_L (++)).
Qed.
End starvation.

(** C37. Start-up replay on a channel that is smaller than what is pending. Replay runs before any
    worker takes from the buffer, and appends each event before it offers it to the buffer. So
    the buffer ends with the first pending events, as many as it has room for, and the others
    are refused, at this start and, being always behind the same ones, at each of the next;
    while the log ends with every pending event twice. *)
Theorem replay_starves_events_beyond_capacity {R F : Type} `{C : Codec} `{!CodecLaws C}
    `{RecorderR : Recorder R} `{FloatF : Float64 F} (now : Z)
    (s : Service.Service ChannelBuffer.ChannelBuffer (FileWAL.FileWAL * os) R F) p :
  Enabled (Service.tenants s) = false ->
  ch_closed (ChannelBuffer.ch (Service.buf s)) = false -> ch_items (ChannelBuffer.ch (Service.buf s)) = [] ->
  wal_holds (Service.wal s) p -> (FileWAL.seq (fst (Service.wal s)) + Z.of_nat (length p) < 2 ^ 64)%Z ->
  Forall (fun en => exists d, proto_Marshal (Event en) = inr d /\ (Z.of_nat (length d) < 2 ^ 32)%Z) p ->
  exists s' again, replayWAL now s = (Ret tt, s') /\
    ch_items (ChannelBuffer.ch (Service.buf s')) =
      take (ch_cap (ChannelBuffer.ch (Service.buf s))) (Event <$> p) /\
    wal_holds (Service.wal s') (p ++ again) /\ Event <$> again = Event <$> p.
Proof.
  intros Htn Hop Hempty Hp Hseq Hes. unfold replayWAL.
  assert (Service.on_wal wal_Recover s = (Ret p, s)) as Hrec.
  { unfold Service.on_wal. rewrite (recover_law _ _ Hp). by destruct s. }
  rewrite (bind_run_Ret _ _ _ _ _ (try_run_Ret _ _ _ _ Hrec)).
  destruct (replay_fills now p s p Htn Hop Hp Hseq Hes) as (s' & again & Hrun & Hh & Hev & Hit).
  { rewrite Hempty. simpl. lia. }
  rewrite Hempty in Hit. by exists s', again.
Qed.

(** Two events pending, room for one. *)
Definition demo_two : Service.Service ChannelBuffer.ChannelBuffer (FileWAL.FileWAL * os)
    MockRecorder.MockRecorder spec_float :=
  demo_service (snd ((wal_Append (ev "a") ;; wal_Append (ev "b")) (fresh_log "d", fresh_os "d"))) 1.

Lemma demo_two_holds : wal_holds (Service.wal demo_two) [mk_entry 1 (ev "a"); mk_entry 2 (ev "b")].
Proof.
  destruct (file_append_ok (fresh_log "d", fresh_os "d") [] (ev "a") _ (proj1 demo_holds) ltac:(vm_compute; reflexivity)
    ltac:(vm_compute; reflexivity) ltac:(vm_compute; reflexivity)) as (n & st & H1 & Hp1 & Hs1).
  destruct (file_append_ok st _ (ev "b") _ Hp1 ltac:(rewrite Hs1; vm_compute; reflexivity)
    ltac:(vm_compute; reflexivity) ltac:(vm_compute; reflexivity)) as (n2 & st2 & H2 & Hp2 & Hs2).
  assert (n = 1%Z) as -> by (vm_compute in H1; by injection H1).
  unfold demo_two. cbn [demo_service Service.NewService Service.wal].
  rewrite (bind_run_Ret _ _ _ _ _ H1), H2. cbn [snd].
  assert (n2 = 2%Z) as -> by (vm_compute in H1; injection H1 as <-; vm_compute in H2; by injection H2).
  exact Hp2.
Qed.

(** The same over three lives of the process: in each one all that was replayed is delivered. *)
Lemma replay_starves_events_beyond_capacity_witness :
  (exists s' again, replayWAL 0 demo_two = (Ret tt, s') /\
     ch_items (ChannelBuffer.ch (Service.buf s')) = [ev "a"] /\
     wal_holds (Service.wal s') ([mk_entry 1 (ev "a"); mk_entry 2 (ev "b")] ++ again) /\
     Event <$> again = [ev "a"; ev "b"]) /\
  let '(w, x) := life 1 (life 1 (life 1 (snd (Service.wal demo_two), MockSink.NewMockSink))) in
  MockSink.batches x = [[ev "a"]; [ev "a"]; [ev "a"]] /\
  recover_after (fun _ => 1000%nat) "d" w =
    Ret [mk_entry 1 (ev "a"); mk_entry 2 (ev "b"); mk_entry 4 (ev "b"); mk_entry 6 (ev "b");
         mk_entry 7 (ev "b"); mk_entry 9 (ev "b"); mk_entry 10 (ev "b"); mk_entry 11 (ev "b");
         mk_entry 12 (ev "b")].
Proof.
  split; [|vm_compute; repeat split].
  destruct (replay_starves_events_beyond_capacity 0 demo_two _ eq_refl eq_refl eq_refl demo_two_holds
    ltac:(vm_compute; reflexivity)
    ltac:(repeat constructor; (eexists; split; [vm_compute; reflexivity|vm_compute; reflexivity])))
    as (s' & again & H1 & H2 & H3 & H4).
  exists s', again. split; [exact H1|]. split; [exact H2|]. split; [exact H3|exact H4].
Defined.
