(* ===== verification/Contracts.v ===== *)
(** The contracts of the pipeline behind the program's interfaces: every kind of buffer keeps
    [BufferLaws], and a log of either kind [DurableLog], where only the file log holds anything.

    A Redis buffer keeps its contract as long as Close has not cancelled its poller, on a
    Redis list that no one else uses. *)
From Stdlib Require Import ZArith Lia.
From stdpp Require Import base list strings gmap sets.
From S2P Require Import Prelude Errors Go Bytes Os OsFaults Proto Config.
From S2P Require Import Wal WalFormat WalProofs WalCrash WalSpec WalTheorems.
From S2P Require Import DiskQueue Buffer Hybrid Redis RedisTheorems AnyBuffer.
From S2P Require Import Tenant Metrics Service Sinks Worker Dlq I18n Response Server Delivery App Application.

(** ** Buffers *)

Section redis.
Context {Y : Type} `{RC : RedisClient Y} `{RL : !RedisLaws Y} `{EJ : EventJson}.

(** Open, and holding [l]: first the channel, then the list. *)
Definition redis_buffered (b : RedisBuffer.RedisBuffer Y) (l : list IngestRequest) : Prop :=
  RedisBuffer.cancelled b = false /\ ch_closed (RedisBuffer.ch b) = false /\
  exists listed, holds_events b listed /\ l = ch_items (RedisBuffer.ch b) ++ listed.

(** A round of the poller: it pops nothing, or it pops an event and sends it. While the channel is
    full, the event that is about to be sent counts as the first of the list. *)
Definition poll_round (b b' : RedisBuffer.RedisBuffer Y) : Prop :=
  RedisBuffer.poll_pop b = (Ret None, b') \/
  exists e b1, RedisBuffer.poll_pop b = (Ret (Some e), b1) /\
    RedisBuffer.on_ch (chan_try_send e) b1 = (Ret true, b').

Lemma poll_round_buffered b l b' : redis_buffered b l -> poll_round b b' -> redis_buffered b' l.
Proof.
  intros (Hc & Hcl & listed & Hl & ->) Hround.
  destruct (poll_pop_run b listed Hl Hc) as (r & b1 & Hpop & Hl1 & Hch & Hca & Hr).
  destruct Hround as [Hp|(e & b2 & Hp & Hsend)]; rewrite Hpop in Hp; injection Hp as -> ->.
  - split_and!; [congruence|congruence|]. exists listed. by rewrite Hch.
  - destruct (Hr e eq_refl) as [l' ->]. destruct b2 as [x k [cap items cl] ca].
    unfold RedisBuffer.on_ch, chan_try_send in Hsend. cbn [RedisBuffer.ch RedisBuffer.cancelled] in *.
    rewrite <- Hch in Hcl |- *. cbn [ch_closed ch_items] in *. subst cl. cbv beta iota in Hsend.
    destruct (chan_full _); [done|]. injection Hsend as <-. split_and!; [by rewrite Hca|done|].
    exists l'. split; [exact Hl1|]. cbn. by rewrite <- (assoc_L (++)).
Qed.

#[export] Instance redis_buffer_laws : BufferLaws (RedisBuffer.RedisBuffer Y).
Proof.
  refine {| buf_holds := redis_buffered; buf_room _ e := RedisSteps.json_ok e; buf_moves := poll_round |}.
  - intros b l e (Hc & Hcl & listed & Hl & ->) He.
    destruct (Push_run b listed e Hl He) as [[err H]|(b' & H & Hl' & Hch & Hca)]; [left; by exists err|right].
    exists b'. split; [exact H|]. split_and!; [congruence|congruence|]. exists (listed ++ [e]).
    by rewrite Hch, (assoc_L (++)).
  - intros [x k [cap items cl] ca] l (Hc & Hcl & listed & Hl & ->).
    cbn [RedisBuffer.ch RedisBuffer.cancelled ch_closed ch_items] in *. subst cl ca.
    cbn [buf_Recv RedisBuffer.buffer]. unfold RedisBuffer.Recv, chan_recv. cbn [RedisBuffer.ch ch_items ch_closed].
    destruct items as [|e items]; [done|]. exists (items ++ listed). split; [done|].
    split_and!; [done|done|]. by exists listed.
  - apply poll_round_buffered.
Defined.
End redis.

#[export] Instance any_laws {Y} `{RC : RedisClient Y} `{RL : !RedisLaws Y} `{EJ : EventJson}
  `{C : Codec} `{!CodecLaws C} : BufferLaws (AnyBuffer Y).
Proof.
  refine {|
    buf_holds b l := match b with ChannelB b => buf_holds b l | HybridB b => buf_holds b l | RedisB b => buf_holds b l end;
    buf_room b e := match b with ChannelB b => buf_room b e | HybridB b => buf_room b e | RedisB b => buf_room b e end;
    buf_moves b b' :=
      match b, b' with
      | ChannelB b, ChannelB b' => buf_moves b b'
      | HybridB b, HybridB b' => buf_moves b b'
      | RedisB b, RedisB b' => buf_moves b b'
      | _, _ => False
      end |}.
  - intros [b|b|b] l e Hb Hr; cbn [buf_Push any_buffer dispatch];
      destruct (buf_push_law _ _ _ Hb Hr) as [[err ->]|(b' & -> & Hb')]; eauto.
  - intros [b|b|b] l Hb; pose proof (buf_recv_law _ _ Hb) as H; cbn [buf_Recv any_buffer];
      destruct (buf_Recv b) as [[e| |] b']; [done|done|by subst|done|done|by subst|done|done|by subst].
  - intros [b|b|b] l [b'|b'|b'] Hb Hm; try done; exact (buf_moves_law b l b' Hb Hm).
Defined.

(** ** Logs *)

Section file_log.
Context `{C : Codec} `{!CodecLaws C}.

Definition on_file_log {A} (st : WALKind * os) (d : A) (f : FileWAL.FileWAL * os -> A) : A :=
  match st.1 with UseFileWAL l => f (l, st.2) | UseNoOpWAL _ => d end.

#[export] Instance kind_restart : Restart (WALKind * os) := fun keep st =>
  on_file_log st (Ret st) (fun st =>
    match restart keep st with
    | Ret (l, w) => Ret (UseFileWAL l, w)
    | Fail e => Fail e
    | Panic p => Panic p
    | Crash => Crash
    | NoFuel => NoFuel
    end).

(** Without a file log nothing is durable. *)
#[export] Program Instance kind_durable : DurableLog (WALKind * os) := {|
  wal_holds st p := on_file_log st False (fun st => wal_holds st p);
  wal_logged st l := on_file_log st False (fun st => wal_logged st l);
  wal_issued st n := on_file_log st False (fun st => wal_issued st n);
  wal_room st e := on_file_log st False (fun st => wal_room st e);
  wal_whole keep st := on_file_log st False (fun st => wal_whole keep st)
|}.
Next Obligation. intros [[l|l] w] p en; [done|]. apply holds_issued. Qed.
Next Obligation.
  intros [[l|l] w] p e Hp Hr; [done|]. cbn [wal_Append any_wal wal_dispatch].
  destruct (append_law (l, w) p e Hp Hr) as [[err ->]|(s & [l' w'] & -> & H)]; [left; by eexists|right].
  by exists s, (UseFileWAL l', w').
Qed.
Next Obligation.
  intros [[l|l] w] p s Hp Hi; [done|]. cbn [wal_Acknowledge any_wal wal_dispatch].
  destruct (ack_law (l, w) p s Hp Hi) as ([l' w'] & -> & H). by exists (UseFileWAL l', w').
Qed.
Next Obligation.
  intros [[l|l] w] p Hp; [done|]. cbn [wal_Recover any_wal wal_dispatch].
  by rewrite (recover_law (l, w) p Hp).
Qed.
Next Obligation.
  intros [[l|l] w] p keep Hp; [done|]. destruct (crash_law (l, w) p keep Hp) as (out & Hout & Hs).
  exists out. split; [|done]. revert Hout. unfold restart_recover, restart at 2, kind_restart, on_file_log. cbn [fst snd].
  destruct (restart keep (l, w)) as [[l' w']| | | |]; try done. cbn [wal_Recover any_wal wal_dispatch].
  by destruct (wal_Recover (l', w')) as [r [? ?]].
Qed.
Next Obligation.
  intros [[l|l] w] p lg keep Hp Hl Hw; [done|].
  destruct (restart_law (l, w) p lg keep Hp Hl Hw) as ([l' w'] & p' & Hr & H).
  exists (UseFileWAL l', w'), p'. split; [|done]. unfold restart, kind_restart, on_file_log. cbn [fst snd].
  by rewrite Hr.
Qed.
End file_log.
