(* ===== verification/Leftovers.v ===== *)
(** What set-up finds of earlier lives: the files of the log and of the overflow queue, and the
    list in Redis. *)
From Stdlib Require Import ZArith Lia.
From stdpp Require Import base list strings gmap sets.
From S2P Require Import Prelude Errors Go Bytes Os OsFaults Proto Config.
From S2P Require Import Wal WalFormat WalProofs WalCrash WalSpec WalTheorems.
From S2P Require Import DiskQueue DiskQueueProofs DiskQueueRestart DiskQueueTheorems Buffer Hybrid Redis RedisTheorems.
From S2P Require Import Delivery Contracts.

Section leftovers.
Context `{C : Codec} `{!CodecLaws C}.

(** ** The log *)

(** The directory [d] has a whole log: records [recs], on stable storage, and the
    acknowledgements [acks] of some of them. A directory without the two files is such a log. *)
Record log_left (d : string) (w : os) (recs : list record) (acks : list Z) : Prop := {
  left_calm : calm w;
  left_wal : files (opened d w) !! filepath_Join d walFileName =
               Some (mk_file (encode_log recs) (length (encode_log recs)));
  left_acks : (data <$> files (opened d w) !! filepath_Join d ackFileName) = Some (encode_acks acks);
  left_wf : Forall wf_record recs;
  left_nodup : NoDup (r_seq <$> recs);
  left_acked : Forall (fun a => 0 <= a <= max_seq recs)%Z acks
}.

Lemma max_seq_bound recs : Forall wf_record recs -> (0 <= max_seq recs < 2 ^ 64)%Z.
Proof.
  intros H. unfold max_seq. split; [apply max_fold_ge|].
  apply (Z.le_lt_trans _ (2 ^ 64 - 1)); [|lia]. apply max_fold_le; [lia|].
  eapply Forall_impl; [exact H|]. intros rec [Hr _]. lia.
Qed.

Lemma NewFileWAL_left d w recs acks : log_left d w recs acks ->
  exists fw, FileWAL.NewFileWAL d w = (Ret fw, opened d w) /\ file_rep (fw, opened d w) recs acks /\
    FileWAL.acked fw = list_to_set acks.
Proof.
  intros []. pose proof (max_seq_bound recs left_wf0) as Hb.
  assert (Forall wf_seq acks) as Hacks.
  { eapply Forall_impl; [exact left_acked0|]. unfold wf_seq. simpl. lia. }
  rewrite (NewFileWAL_opened d w recs [] acks []); try done; [|split|by left|simpl; lia].
  - eexists. split; [done|]. split; [|done]. split_and!; [done| |done].
    split; try done; cbn [seq].
    + by apply max_fold_bound.
    + eapply Forall_impl; [exact left_acked0|]. simpl. lia.
  - by rewrite left_wal0, app_nil_r.
  - by rewrite left_acks0, app_nil_r.
Qed.

(** The log does not see what happens to other files. *)
Lemma file_rep_created fw w recs acks p :
  p <> FileWAL.walPath fw -> p <> FileWAL.ackPath fw -> file_rep (fw, w) recs acks -> file_rep (fw, created p w) recs acks.
Proof.
  intros H1 H2 (Hc & [] & Hs). split_and!; [done| |done].
  split; try done; cbn [files created set_files snd fst] in *; by rewrite lookup_partial_alter_ne.
Qed.

(** ** The overflow queue *)

(** The directory [d] has an overflow file that ends with a whole entry, and an offset at the first
    of the entries [evs]; without the files, [evs] is empty. *)
Definition overflow_left (d : string) (w : os) (size : Z) (evs : list IngestRequest) : Prop :=
  exists g pre ps, files (created (DiskQueue.dataPath d) w) !! DiskQueue.dataPath d = Some g /\
    data g = pre ++ encode_frames ps /\ saved_offset w d = zlen pre /\ Forall fits ps /\
    Forall2 decodes ps evs /\ zlen (data g) = size.

Lemma overflow_left_other d w size evs p : p <> DiskQueue.dataPath d -> p <> DiskQueue.offsetPath d ->
  overflow_left d w size evs -> overflow_left d (created p w) size evs.
Proof.
  intros H1 H2 (g & pre & ps & Hg & H). exists g, pre, ps. unfold saved_offset in *.
  cbn [files created set_files] in *.
  rewrite lookup_partial_alter_eq in Hg |- *. by rewrite !lookup_partial_alter_ne.
Qed.

Lemma newDiskQueue_left d w size evs : calm w -> overflow_left d w size evs -> (size < 2 ^ 63)%Z ->
  exists q, DiskQueue.newDiskQueue d w = (Ret q, created (DiskQueue.dataPath d) w) /\
    DiskQueueTheorems.holds_events q (created (DiskQueue.dataPath d) w) evs /\ DiskQueue.writeOffset q = size.
Proof.
  intros Hc (g & pre & ps & Hg & Hd & Hs & Hfit & Hdec & Hsize) Hlt. rewrite newDiskQueue_created by done.
  assert (saved_offset (created (DiskQueue.dataPath d) w) d = zlen pre) as Hs'.
  { rewrite <- Hs. unfold saved_offset. cbn [files created set_files].
    by rewrite lookup_partial_alter_ne by apply dataPath_offsetPath. }
  destruct (newDiskQueue_run d (created (DiskQueue.dataPath d) w) pre ps [] g) as (q & Hrun & Hl & Hdir & Hn);
    [done|done|by rewrite app_nil_r|done|done|apply torn_frame_nil|lia|].
  exists q. split; [done|]. split.
  - exists pre, ps. split_and!; [done|done| |].
    + rewrite Hn, (Forall2_length _ _ _ Hdec). change (tail_count []) with 0%Z. lia.
    + by rewrite Hdir, (lay_read _ _ _ _ _ _ Hl).
  - rewrite (lay_write _ _ _ _ _ _ Hl), <- Hsize, Hd, zlen_app. change (zlen []) with 0%Z. lia.
Qed.

Lemma Enqueue_offset e q w : (0 <= DiskQueue.writeOffset q)%Z ->
  (forall d, proto_Marshal e = inr d -> fits d) ->
  (0 <= DiskQueue.writeOffset (fst (snd (DiskQueue.Enqueue e (q, w)))) <= DiskQueue.writeOffset q + (2 ^ 32 + 4))%Z.
Proof.
  intros H Hfit. unfold DiskQueue.Enqueue. destruct (proto_Marshal e) as [err|d]; [cbn; lia|]. run_dq.
  specialize (Hfit d eq_refl). unfold fits in Hfit.
  destruct (os_WriteAt _ _ _ w) as [[n|?|?| |] w1]; cbn; try lia.
  destruct (os_Sync _ w1) as [[?|?|?| |] w2]; cbn; try lia.
  change (Z.of_nat (length (DiskQueue.frame d))) with (zlen (DiskQueue.frame d)).
  rewrite zlen_frame. unfold zlen. lia.
Qed.

(** ** The list in Redis *)

(** The list at the configured key holds the texts of the events [evs], oldest first. *)
Definition redis_left {Y} `{RC : RedisClient Y} `{RL : !RedisLaws Y} `{EJ : EventJson}
    (cfg : RedisBufferConfig) (y : Y) (evs : list IngestRequest) : Prop :=
  exists texts, redis_list y (if decide (redis_Key cfg = "") then "ingestor:buffer" else redis_Key cfg)%string texts /\
    Forall2 (fun e text => json_Unmarshal_event text = inr e) evs texts.

Lemma NewRedisBuffer_left {Y} `{RC : RedisClient Y} `{RL : !RedisLaws Y} `{EJ : EventJson}
    cfg size (y y' : Y) evs b :
  redis_left cfg y evs -> RedisBuffer.NewRedisBuffer cfg size y = (Ret b, y') -> buf_holds b evs.
Proof.
  intros (texts & Hl & Hf) Hrun. unfold RedisBuffer.NewRedisBuffer, wrapping, bind in Hrun.
  pose proof (ping_law _ _ _ Hl) as Hl'. destruct (redis_Ping y) as [[[]|?|?| |] y1]; try done. cbn [snd] in Hl'.
  unfold make_chan in Hrun. destruct (decide (size < 0)%Z); [done|]. injection Hrun as <- <-.
  split_and!; [done|done|]. exists evs. split; [|done]. by exists texts.
Qed.
End leftovers.
