(* ===== verification/EndToEnd.v ===== *)
(** The delivery guarantee of the application that set-up builds.

    The parts behind the interface values keep the contracts of Delivery.v: whichever buffer
    (Contracts.v), a log that is a file log, and the configured sinks. So the guarantee of the abstract pipeline holds of the application, from the host that set-up
    found to every state of every life that follows. *)
From Stdlib Require Import ZArith Lia Ascii String SpecFloat.
From stdpp Require Import base list strings gmap sets.
From S2P Require Import Prelude Errors Go Bytes Duration Float Os OsFaults Proto Config ConfigTheorems.
From S2P Require Import Wal WalFormat WalProofs WalCrash WalSpec WalTheorems.
From S2P Require Import DiskQueue DiskQueueProofs DiskQueueRestart DiskQueueTheorems Buffer Hybrid Redis RedisTheorems AnyBuffer.
From S2P Require Import Tenant Metrics Prometheus Service Sinks Worker Delivery Interleaving Dlq SinkDelivery I18n Response Server.
From S2P Require Import App Application ApplicationTheorems DeliveryTheorems ServerTheorems Gateway Contracts Leftovers.
Import Application.

(** ** Start-up replay is made of steps of the system *)

Section replay_steps.
Context {X B W R F : Type} `{BufB : Buffer B} `{BL : !BufferLaws B}
  `{WALW : WAL W} `{RSW : Restart W} `{DL : !DurableLog W} `{RecorderR : Recorder R}
  `{FloatF : Float64 F} (deps : Worker.Deps X) `{SL : !SinkLaws deps}.

Lemma pushes_are_steps now es : forall (s : Interleaving.system (X := X) (B := B) (W := W) (R := R) (F := F)) p l,
  sys_ok deps s p l ->
  (forall en, en ∈ es -> sent s !! EventId (Event en) = Some (Event en)) ->
  replay_room now es (svc s) ->
  exists svc' cs acc,
    for_each (fun en => ignore (Service.Push now (Event en))) es (svc s) = (Ret tt, svc') /\
    rtc (sys_step deps) s
      (Interleaving.mk_system svc' (Interleaving.outside s) (hands s) (calls s ++ cs) (sent s) (accepted s ++ acc)) /\
    Forall (fun c => exists e r, c = Finished e r) cs.
Proof.
  induction es as [|en es IH]; intros s p l Hok Hes Hroom.
  { exists (svc s), [], []. rewrite !app_nil_r. split_and!; [done|by destruct s|done]. }
  destruct Hroom as (Hwr & Hbr & Hroom). cbn [for_each].
  pose proof (Hes en ltac:(by left)) as Hen.
  destruct (Push_steps deps now (Event en) s p l Hok ltac:(by right) Hwr Hbr)
    as (r & svc1 & p' & l' & Hpush & Hsteps & Hok').
  destruct (Push_cases now (Event en) (svc s) p l (ok_wal _ _ _ _ Hok) Hwr (ok_buf _ _ _ _ Hok) Hbr)
    as (r' & svc2 & Hpush' & Hcase).
  rewrite Hpush in Hroom, Hpush'. cbn [snd] in Hroom. injection Hpush' as <- <-.
  rewrite (bind_run_Ret _ _ (svc s) tt svc1); [|unfold ignore, bind, try; rewrite Hpush; by destruct Hcase].
  rewrite (insert_id _ _ _ Hen) in Hsteps, Hok'.
  destruct (IH _ p' l' Hok') as (svc' & cs & acc & Hrun & Hsteps' & Hcs); [intros en' Hin; apply Hes; by right|done|].
  cbn [svc Interleaving.outside hands calls sent accepted] in *. rewrite <- !(assoc_L (++)) in Hsteps'.
  exists svc', (Finished (Event en) r :: cs), (gained (Begin (Event en)) r ++ acc). split_and!; [done|by etrans|].
  constructor; [by exists (Event en), r|done].
Qed.
End replay_steps.

(** ** The application *)

Section application.
Context {X Y N C F : Type} `{HC : HttpClient X} `{KW : KafkaWriter X} `{CB : GoBreaker X} `{J : Json}
  `{K : !Keeps X} `{EJ : EntryJson} `{RC : RedisClient Y} `{RL : !RedisLaws Y} `{EvJ : EventJson} `{NS : NetServers N}
  `{PC : PromClient C} `{PL : !PromLaws C} `{FloatF : Float64 F} `{Cd : Codec} `{CL : !CodecLaws Cd} `{V : Viper}.

Notation pipe := (Interleaving.system (X := AnyDLQ.world X) (B := AnyBuffer Y) (W := WALKind * os)
  (R := Prometheus.prometheusRecorder * C) (F := F)).

Notation Core := (Service.Service (AnyBuffer Y) (WALKind * os) (Prometheus.prometheusRecorder * C) F).

(** The event's encoding fits the length fields of a record and of an overflow entry. *)
Definition encodes_short (e : IngestRequest) : Prop :=
  forall d, proto_Marshal e = inr d -> (Z.of_nat (length d) < 2 ^ 32)%Z.

(** An overflow file of [size] bytes can take [n] entries more. *)
Definition file_room (size : Z) (n : nat) : Prop := (0 <= size /\ size + Z.of_nat n * (2 ^ 32 + 4) < 2 ^ 63)%Z.

(** The log's counter has room for [n] more numbers, and the buffer for [n] more events. *)
Definition room_for (n : nat) (s : Core) : Prop :=
  match Service.wal s with
  | (UseFileWAL fw, _) => (0 <= FileWAL.seq fw /\ FileWAL.seq fw + Z.of_nat n < 2 ^ 64)%Z
  | _ => False
  end /\
  match Service.buf s with
  | ChannelB _ => True
  | HybridB h => file_room (DiskQueue.writeOffset (fst (HybridBuffer.dq h))) n
  | RedisB _ => True
  end.

Definition is_redis (s : Core) : Prop := match Service.buf s with RedisB _ => True | _ => False end.

Lemma Append_seq e fw w : (0 <= FileWAL.seq fw)%Z ->
  (0 <= FileWAL.seq (fst (snd (FileWAL.Append e (fw, w)))) <= FileWAL.seq fw + 1)%Z.
Proof.
  intros H. unfold FileWAL.Append. destruct (proto_Marshal e) as [err|d]; [cbn; lia|]. run_go.
  assert (0 <= uint64 (FileWAL.seq fw + 1) <= FileWAL.seq fw + 1)%Z.
  { unfold uint64. split; [apply Z.mod_pos_bound; lia|apply Z.mod_le; lia]. }
  destruct (writeRecord _ _ w) as [[[]| | | |] w1]; cbn; try lia.
  destruct (os_Sync _ w1) as [[[]| | | |] w2]; cbn; lia.
Qed.

Lemma hybrid_offset e (h : HybridBuffer.HybridBuffer (DiskQueue.diskQueue * os)) n :
  encodes_short e -> file_room (DiskQueue.writeOffset (fst (HybridBuffer.dq h))) (S n) ->
  file_room (DiskQueue.writeOffset (fst (HybridBuffer.dq (snd (buf_Push e h))))) n.
Proof.
  intros He Hr. destruct h as [c [q w] qt]. cbn [HybridBuffer.dq fst] in Hr. unfold file_room in Hr.
  assert (file_room (DiskQueue.writeOffset q) n) as Hsame by (unfold file_room; lia).
  pose proof (Enqueue_offset e q w ltac:(lia) He) as Hq.
  assert (file_room (DiskQueue.writeOffset (fst (snd (DiskQueue.Enqueue e (q, w))))) n) as Hmore.
  { unfold file_room. lia. }
  cbn [buf_Push HybridBuffer.buffer]. unfold HybridBuffer.Push, HybridBuffer.on_ch, HybridBuffer.on_dq, chan_try_send,
    wrapping, bind, gets, ret. cbn [HybridBuffer.dq HybridBuffer.ch oq_IsEmpty oq_Enqueue diskQueue_overflow].
  cbn. destruct (DiskQueue.IsEmpty _); cbn; [destruct (ch_closed c); cbn; [|destruct (chan_full c); cbn]|];
    try done; by destruct (DiskQueue.Enqueue e (q, w)) as [[[]|?|?| |] [q' w']].
Qed.

Lemma Push_room now e n (s : Core) : encodes_short e ->
  room_for (S n) s -> room_for n (snd (Service.Push now e s)).
Proof.
  intros He [Hw Hb]. destruct (Service.Push now e s) as [r s'] eqn:Hp.
  destruct (Push_parts _ _ _ _ _ Hp) as [Hw' Hb']. cbn [snd]. clear Hp. split.
  - destruct Hw' as [->| ->]; destruct (Service.wal s) as [[l|l] w]; try done; [lia|].
    cbn [wal_Append any_wal wal_dispatch]. pose proof (Append_seq e l w ltac:(lia)) as H.
    change (wal_Append e (l, w)) with (FileWAL.Append e (l, w)).
    destruct (FileWAL.Append e (l, w)) as [? [l' w']]. cbn in *. lia.
  - destruct Hb' as [->| ->]; destruct (Service.buf s) as [b|h|b]; try done.
    + unfold file_room in *. lia.
    + cbn [buf_Push any_buffer dispatch]. by destruct (buf_Push e b).
    + cbn [buf_Push any_buffer dispatch]. pose proof (hybrid_offset e h n He Hb) as H.
      destruct (buf_Push e h) as [? h']. exact H.
    + cbn [buf_Push any_buffer dispatch]. by destruct (buf_Push e b).
Qed.

Lemma Push_is_redis now e (s : Core) : is_redis (snd (Service.Push now e s)) -> is_redis s.
Proof.
  destruct (Service.Push now e s) as [r s'] eqn:Hp. destruct (Push_parts _ _ _ _ _ Hp) as [_ Hb'].
  unfold is_redis. cbn [snd]. clear Hp. destruct Hb' as [->| ->]; destruct (Service.buf s) as [b|h|b]; try done;
    cbn [buf_Push any_buffer dispatch]; by destruct (buf_Push e _).
Qed.

(** What a pending event needs to be pushed again. *)
Definition encodes (redis : Prop) (e : IngestRequest) : Prop :=
  encodes_short e /\ (redis -> RedisSteps.json_ok e).

Lemma room_for_replay now es : forall s : Core,
  room_for (length es) s -> Forall (fun en => encodes (is_redis s) (Event en)) es -> replay_room now es s.
Proof.
  induction es as [|en es IH]; intros s Hs Hes; [done|]. apply Forall_cons in Hes as [[Hen Hjs] Hes].
  cbn [replay_room]. split_and!; [| |apply IH; [by apply Push_room|]].
  3: { eapply Forall_impl; [exact Hes|]. intros en' [H1 H2]. split; [exact H1|]. intros H. apply H2.
       by eapply Push_is_redis. }
  all: destruct Hs as [Hw Hb].
  - destruct (Service.wal s) as [[l|l] w]; [done|]. split; [|exact Hen]. cbn in *. lia.
  - unfold is_redis in Hjs. destruct (Service.buf s) as [b|h|b]; [done| |by apply Hjs]. intros d Hd. split; [by apply Hen|].
    specialize (Hen d Hd). rewrite zlen_frame. unfold zlen, file_room in *. cbn [length] in Hb. lia.
Qed.

(** The application as it starts to work: one empty hand for each worker. *)
Definition pipeline (t : clock) (a : application X Y C F) (h : host Y N C) (x : X)
    (m : gmap string IngestRequest) (acc : list IngestRequest) : pipe :=
  Interleaving.mk_system (core a) (AnyDLQ.mk_w (dlq a) (fs h) (today t) (stamp t) x)
    (replicate (Z.to_nat (worker_NumWorkers (cfg_Worker (cfg a)))) (Collecting [])) [] m acc.

(** What earlier lives leave: [m] are the events that were sent, those of the log and of the
    overflow file among them, and [acc] those that were accepted, each of them written to every
    sink or pending. *)
Definition earlier (bs : list Sinks.built) (recs : list record) (acks : list Z) (over : list IngestRequest) (x : X)
    (m : gmap string IngestRequest) (acc : list IngestRequest) : Prop :=
  (forall en, en ∈ live_entries ∅ recs -> m !! EventId (Event en) = Some (Event en)) /\
  (forall e, e ∈ over -> m !! EventId e = Some e) /\
  Forall (fun e => Forall (fun b => written b x e) bs \/
                   exists n, mk_entry n e ∈ live_entries (list_to_set acks) recs) acc.

Lemma deps_built (a : application X Y C F) bs : sinks a = guarded <$> bs -> worker_deps a = deps_of bs (dlq a).
Proof. intros H. unfold worker_deps, deps_of. by rewrite H. Qed.

(** The configured buffer starts with the events [over], and has room for [n] more: a channel is
    empty, a hybrid buffer finds what its overflow file holds, a Redis buffer its list. *)
Definition buffer_left (c : BufferConfig) (w : os) (y : Y) (n : nat) (over : list IngestRequest) : Prop :=
  ((buffer_Type c = ""%string \/ buffer_Type c = ChannelBufferType) /\ over = []) \/
  (buffer_Type c = HybridBufferType /\
   exists size, overflow_left (hybrid_Dir (buffer_Hybrid c)) w size over /\ file_room size n) \/
  (buffer_Type c = RedisBufferType /\ redis_left (buffer_Redis c) y over).

(** A configuration with a log and a buffer, on a host that has the log [recs], [acks] and the
    overflow [over]. *)
Context (t : clock) (h0 : host Y N C) (c : Config) (recs : list record) (acks : list Z) (over : list IngestRequest).

Notation pending := (live_entries (list_to_set acks) recs).

Context (Hwal : wal_Enabled (cfg_WAL c) = true)
  (Hleft : log_left (wal_Dir (cfg_WAL c)) (fs h0) recs acks)
  (Hover : buffer_left (cfg_Buffer c) (fs h0) (redis h0) (length pending) over).

(** A buffer that is made where the log has been opened. *)
Lemma made_buffer_holds size o b : kind_matches (cfg_Buffer c) b ->
  made_buffer (cfg_Buffer c) size (opened (wal_Dir (cfg_WAL c)) (fs h0)) (redis h0) o b ->
  buf_holds b over /\
  (o = opened (wal_Dir (cfg_WAL c)) (fs h0) \/
   exists p, p.2 = DiskQueue.dqDataFile /\ o = created p (opened (wal_Dir (cfg_WAL c)) (fs h0))) /\
  match b with
  | HybridB h => file_room (DiskQueue.writeOffset (fst (HybridBuffer.dq h))) (length pending)
  | _ => True
  end.
Proof.
  set (w := opened _ _). assert (calm w) as Hc by apply (left_calm _ _ _ _ Hleft).
  destruct b as [b|h|b]; cbn [kind_matches made_buffer]; intros Hk Hm.
  - destruct Hm as [-> ->], Hover as [[_ ->]|[[Ht _]|[Ht _]]]; [|rewrite Ht in Hk; by destruct Hk..].
    split_and!; [done|by left|done].
  - destruct Hover as [[[Ht|Ht] _]|[[_ (sz & Ho & Hr)]|[Ht _]]]; [by rewrite Ht in Hk..| |by rewrite Ht in Hk].
    destruct Hm as (h1 & Hnew & ->).
    destruct (newDiskQueue_left (hybrid_Dir (buffer_Hybrid (cfg_Buffer c))) w sz over Hc) as (q & Hq & Hh & Hsz);
      [by apply overflow_left_other; [done..|apply overflow_left_other]|unfold file_room in Hr; lia|].
    unfold HybridBuffer.NewHybridBuffer in Hnew.
    rewrite (bind_run_Ret _ _ _ _ _ (wrapping_run_Ret _ _ _ _ _ Hq)) in Hnew.
    unfold bind, make_chan in Hnew. case_decide; [done|]. injection Hnew as <- <-.
    split_and!; [|right; exists (DiskQueue.dataPath (hybrid_Dir (buffer_Hybrid (cfg_Buffer c)))); done|by rewrite <- Hsz in Hr].
    split_and!; [done|done|cbn; lia|]. by exists over.
  - destruct Hover as [[[Ht|Ht] _]|[[Ht _]|[_ Hl]]]; [by rewrite Ht in Hk..|].
    destruct Hm as [-> (y' & Hrun)]. split_and!; [by eapply NewRedisBuffer_left|by left|done].
Qed.

(** The service that set-up builds holds the log's pending entries and the overflow. *)
Lemma core_holds (a : application X Y C F) : built t h0 c a ->
  wal_holds (Service.wal (core a)) pending /\ wal_logged (Service.wal (core a)) (live_entries ∅ recs) /\
  buf_holds (Service.buf (core a)) over /\
  ((max_seq recs + Z.of_nat (length pending) < 2 ^ 64)%Z -> room_for (length pending) (core a)).
Proof.
  intros Hb. pose proof (built_log _ _ _ _ Hb) as (w & Hinit & Hbuf). pose proof (built_buffer _ _ _ _ Hb) as Hkind.
  destruct (NewFileWAL_left _ _ _ _ Hleft) as (fw & Hnew & Hrep & Hacked).
  unfold initWAL in Hinit. rewrite Hwal, (bind_run_Ret _ _ _ _ _ Hnew) in Hinit.
  destruct (core a) as [b rc [k o] tr tn]. cbn [Service.wal Service.buf fst snd] in *. injection Hinit as <- <-.
  destruct (made_buffer_holds _ _ _ Hkind Hbuf) as (Hh & Ho & Hroom).
  assert (file_rep (fw, o) recs acks) as Hrep'.
  { destruct Ho as [->|([? ?] & Hp & ->)]; [done|]. cbn in Hp. subst.
    apply file_rep_created; [|by intros [=]..|done]. by intros [=]. }
  split_and!; [|by exists recs, acks|done|].
  - exists recs, acks. split; [done|]. cbn [fst]. by rewrite Hacked.
  - intros Hseq. split; [|by destruct b]. destruct Hrep as (_ & _ & Hs). cbn [fst Service.wal] in *. rewrite Hs.
    pose proof (max_seq_bound recs (left_wf _ _ _ _ Hleft)). lia.
Qed.

Lemma pipeline_starts (a : application X Y C F) (h : host Y N C) bs x m acc :
  built t h0 c a -> earlier bs recs acks over x m acc -> starts (deps_of bs (dlq a)) (pipeline t a h x m acc).
Proof.
  intros Hb (Hm & Hov & Hacc). destruct (core_holds a Hb) as (Hp & Hlg & Hbuf & _).
  exists pending, (live_entries ∅ recs), over. cbn [pipeline svc Interleaving.outside hands calls sent accepted].
  rewrite (built_tracker _ _ _ _ Hb). split_and!; [done|done|done|done|done| |done| |done|].
  - apply Forall_forall. intros l Hin. by apply elem_of_replicate in Hin as [-> _].
  - intros en Hen. eapply elem_of_submseteq; [exact Hen|]. apply sublist_submseteq, live_entries_all.
  - eapply Forall_impl; [exact Hacc|]. intros e [H|H]; [left|by right]. by apply delivered_written.
Qed.

(** What start-up replay does to the application's service is a run of the system. *)
Lemma replay_steps (a : application X Y C F) (h : host Y N C) bs x m acc :
  built t h0 c a -> earlier bs recs acks over x m acc ->
  (max_seq recs + Z.of_nat (length pending) < 2 ^ 64)%Z ->
  Forall (fun en => encodes (buffer_Type (cfg_Buffer c) = RedisBufferType) (Event en)) pending ->
  exists core' cs acc', replayWAL (now t) (core a) = (Ret tt, core') /\
    let s0 := pipeline t a h x m acc in
    rtc (sys_step (deps_of bs (dlq a))) s0
      (Interleaving.mk_system core' (Interleaving.outside s0) (hands s0) cs m (acc ++ acc')) /\
    Forall (fun c => exists e r, c = Finished e r) cs.
Proof.
  intros Hb He Hroom Hshort. destruct (core_holds a Hb) as (Hp & _ & _ & Hr).
  destruct (starts_ok _ _ (pipeline_starts a h bs x m acc Hb He)) as (p & l & Hok).
  destruct (pushes_are_steps (deps_of bs (dlq a)) (now t) pending (pipeline t a h x m acc) p l Hok)
    as (core' & cs & acc' & Hrun & Hsteps & Hcs).
  - intros en Hen. apply (proj1 He). eapply elem_of_submseteq; [exact Hen|]. apply sublist_submseteq, live_entries_all.
  - apply room_for_replay; [by apply Hr|]. eapply Forall_impl; [exact Hshort|]. intros en [H1 H2]. split; [exact H1|].
    pose proof (built_buffer _ _ _ _ Hb) as Hk. cbn [svc pipeline]. unfold is_redis.
    destruct (Service.buf (core a)); [done|done|]. intros _. by apply H2.
  - exists core', cs, acc'. split; [|split; [exact Hsteps|exact Hcs]]. unfold replayWAL.
    assert (Service.on_wal wal_Recover (core a) = (Ret pending, core a)) as Hrec.
    { unfold Service.on_wal. rewrite (recover_law _ _ Hp). by destruct (core a). }
    by rewrite (bind_run_Ret _ _ _ _ _ (try_run_Ret _ _ _ _ Hrec)).
Qed.
End application.


(** ** The small process again, with services that remember *)
#[local] Existing Instance FrameCodec.codec.
#[local] Existing Instance FrameCodec.codec_laws.

Module DemoEnd.

Record receiver := mk { kafka : list (list string * kafka_Message); posts : list (string * list byte) }.

#[global] Instance http_client : HttpClient receiver := {|
  http_NewRequest _ := None;
  http_Do _ _ url body r := (Ret 200%Z, mk (kafka r) (posts r ++ [(url, body)])) |}.
#[global] Instance kafka_writer : KafkaWriter receiver := {|
  kafka_WriteMessages brokers _ ms r := (Ret tt, mk (kafka r ++ ((fun m => (brokers, m)) <$> ms)) (posts r));
  kafka_Close := ret tt |}.
#[global] Instance breaker : GoBreaker receiver :=
  {| cb_before _ _ := ret None; cb_after _ _ _ := ret tt |}.

#[global] Program Instance receiver_keeps : Keeps receiver := {|
  has_message r b m := (b, m) ∈ kafka r;
  has_post r u p := (u, p) ∈ posts r
|}.
Next Obligation.
  intros b c ms x x' m [= <-] Hm. cbn. apply elem_of_app. right. apply list_elem_of_fmap. by exists m.
Qed.
Next Obligation.
  intros c t u p x x' status [= _ <-] _. cbn. apply elem_of_app. right. by left.
Qed.
Next Obligation. intros b c ms x. split; [|done]. intros b' m Hm. cbn. apply elem_of_app. by left. Qed.
Next Obligation. intros c t u p x. split; [done|]. intros u' p' Hp. cbn. apply elem_of_app. by left. Qed.
Next Obligation. intros st n x. by split. Qed.
Next Obligation. intros st n ok x. by split. Qed.

(** An earlier life accepted one event and went down before it was delivered. *)
Definition rec : record :=
  mk_record 1 (match proto_Marshal (ev "a") with inr d => d | inl _ => [] end).

Definition host1 : host (list string) (list string) LogClient.log :=
  mk_host (mk_os {[ filepath_Join "wal" walFileName := mk_file (encode_log [rec]) (length (encode_log [rec])) ]} [])
    [] [] (Prometheus.mk_process None false (LogClient.mk [] [] [])).

Definition started := setup (X := receiver) (F := spec_float) Demo.clock0 host1.

End DemoEnd.

Lemma demo_left : log_left "wal" (fs DemoEnd.host1) [DemoEnd.rec] [].
Proof.
  split; [reflexivity|vm_compute; reflexivity|vm_compute; reflexivity| | |constructor].
  - constructor; [|constructor]. split; vm_compute; done.
  - apply NoDup_singleton.
Qed.

(** An overflow file that an earlier life left with one event. *)
Lemma demo_overflow :
  let w := mk_os {[ DiskQueue.dataPath "over" :=
    mk_file (encode_frames [payload_of (ev "a")]) (length (encode_frames [payload_of (ev "a")])) ]} [] in
  exists size, overflow_left "over" w size [ev "a"] /\ file_room size 1000000.
Proof.
  intros w. set (d := encode_frames _) in w. exists (zlen d). split; [|split; vm_compute; [discriminate|reflexivity]].
  exists (mk_file d (length d)), [], [payload_of (ev "a")]. split_and!; [reflexivity|reflexivity|reflexivity| | |reflexivity].
  - constructor; [vm_compute; reflexivity|constructor].
  - constructor; [vm_compute; reflexivity|constructor].
Qed.

Lemma demo_restarted_ok : match DemoEnd.started with (Ret _, h) => net h = ["listen :9090"] | _ => False end.
Proof. vm_compute. reflexivity. Qed.

